(* ===== verification/_CoqProject ===== *)
-Q . S2P
Prelude.v
Text.v
Utf8.v
Paths.v
Config.v
Layout.v
Attach.v
Effects.v
Steps.v
Machine.v
Build.v
Oracle.v
Staging.v
Stages.v
Termination.v
Controller.v
Decorator.v
Verdict.v
Cleanup.v
Flow.v
World.v
Signature.v
Output.v
System.v
Reads.v
Image.v
Moments.v
Isolation.v
Content.v
