(* ===== verification/Prelude.v ===== *)
(** * appdmg-rs: a verification development for the DMG build pipeline

    The program (src/src/lib.rs) is one async function, [build], which turns a
    declarative [DmgConfig] into a compressed disk image.  It stages the
    declared content in a temporary directory, has [hdiutil] create and attach
    a writable image, writes Finder layout metadata (a .DS_Store holding icon
    positions, window bounds and icon-view parameters with a background
    alias), decorates the volume, detaches, converts to the final image and
    removes its temporaries.  Everything the function does to the outside
    world is a file-system call or an external process; everything it
    computes is string and path manipulation.

    ** Files, in dependency order

    - [Prelude] (this file): the [Result] type of fallible operations, 32-bit
      unsigned integers, the generic list functions the components share
      ([find_map], [take_while], [drop_while]) with their lemmas, the
      notation scope [dmg_scope], the hint database [dmg] and the tactics.
    - [Text]: Rust strings as lists of Unicode scalar values ([char] is [N]),
      and the [str] methods lib.rs calls: [lines], [split], [trim],
      [starts_with], with [format!]'s decimal rendering of a [u32].
    - [Utf8]: [String::from_utf8_lossy] (line 93) on bytes, with the bit
      operations of the decoder, and the encoder it inverts.
    - [Paths]: [std::path::Path] on Unix as text: [join], [file_name],
      [parent], each defined as the standard library documents it.
    - [Config]: the declaration model ([DmgContent], [DmgWindowSize],
      [DmgWindow], [DmgConfig], lib.rs lines 19-50) and the display name of a
      content item (lines 66 and 116).
    - [Layout]: the .DS_Store entries built from a declaration (lines
      113-123) against the interface of the ds_store module.
    - [Attach]: the parser that finds the mount point in the output of
      [hdiutil attach] (line 94), on text and on the bytes of the tool.
    - [Effects]: the outside world as a signature of commands ([Cmd]), one
      per file-system call or process invocation of lib.rs; programs over it
      ([Prog], a free monad with a [Panic] leaf for [unwrap]); their trace
      semantics ([Run]), a weakest-precondition calculus ([wp]) equivalent to
      it, an executable interpreter ([exec]) over a handler, the facts
      on traces that compose ([Monoidal], [always], [Stable]), and the
      answers a program does not look at ([unseen]).
    - [Steps]: the same programs one call at a time: configurations and
      the relation [step] between them, partial runs ([Partial]), the
      predicate transformer of "at every moment" ([wpp]) with its rules,
      and the agreement of the small-step reading with [Run].
    - [Machine]: labelled automata and the runs that follow one
      ([follows]), with the rules for [try] and [bind]; the controller and
      the decorator are instances.
    - [Build]: [build] itself, stage by stage as the source numbers them, in
      the [Prog] monad, with every early return ([?] and [return Err]).
    - [Oracle]: scripted operating systems as handlers, and the example
      declaration's build; they give the concrete runs on which the
      theorems are instantiated.
    - [Staging]: the staging area manager: the names of the temporaries,
      the destination of an item, and every run of the content loop.
    - [Stages]: what the stages hand to each other (the image of stage 3,
      the mount point of stage 4, the background path of stage 5) and the
      rules [build_always], which lifts a composable fact from the runs of
      the stages to the runs of [build], and [build_last], for the facts on
      the result that the last stage decides.
    - [Termination]: every run of [build] ends with a result, and the number
      of calls it can make.
    - [Controller]: the disk-image controller of the specification as a
      labelled step relation ([dic_step]) and its transition function
      ([dic_next]), and the theorem that every run of [build] follows it;
      the exit statuses that no line looks at.
    - [Decorator]: the order of the steps on the mounted volume, as lib.rs
      has it and as the specification has it.
    - [Verdict]: the result of a build against the answers its run got:
      which call an error blames, what [Ok] guarantees, and that nothing
      fails when every call is answered well.
    - [Cleanup]: the runs that end with the removal of the temporaries.
    - [Flow]: the values that reach the metadata writer: mount point, alias
      and layout entries.
    - [World]: a run replayed on a model of the file system (the set of the
      paths that exist), what each step makes and takes, and which paths of
      a build exist at its end.
    - [Signature]: the shape of every step of a build ([step_ok]), the paths
      a build owns ([owned]) and the frame theorem: the rest of the file
      system is left alone.
    - [Output]: the step that makes the image, and the equivalence between
      a file appearing at the output path and the build returning [Ok].
    - [System]: the handler whose state is the file system and that answers
      every existence test from it; the theorems on the runs it produces,
      from the staging area to the whole build.
    - [Image]: the file system with its disk images ([Disk]), the stages
      as triples on it, and the content of the image a build delivers.
    - [Reads]: file systems that agree on a set of paths ([agree], an
      equivalence that [effect] and [after] respect) and the paths a build
      tests: a build cannot tell apart file systems that agree on them.
    - [Moments]: the disk at every moment of a build: what holds
      [throughout] each stage, composed as the triples of [Image] are,
      what a build that is stopped between two calls has touched, and
      where an absolute name override puts the copy of an item.
    - [Isolation]: two builds whose calls are interleaved on one file
      system by an arbitrary schedule ([interleave]), and when each
      behaves as it would alone.
    - [Content]: the triples of [Image] on the runs whose tests are
      answered by the file system ([fair], [ctriple]), and the background
      and the icon in the image a build delivers.

    ** How the model corresponds to the code

    Strings are lists of scalar values, so that [char::is_whitespace] and
    [trim] are the Unicode ones; paths are the text Rust's [Path] wraps, and
    the path functions follow the Unix behaviour of std (the program only
    runs on macOS).  Integers [u32] are [N] with the bound [is_u32]; the
    program does no arithmetic on them.  [f64] is [SpecFloat.spec_float].
    Bytes are [N] below 256 ([is_u8]); the decoder of [Utf8] works on them
    with [N.land], [N.lor] and [N.shiftl], as the standard library does, and
    the standard output of a process is a list of bytes ([Effects.Output]).
    The standard-library functions are not in src/; they are modelled from
    their documentation and mapped to the lines that call them.  The modules
    ds_store and macos_alias are declared by lib.rs but are not under src/:
    the layout entry type and the alias record are modelled from the
    specification and marked so in the manifest.

    Effects are explicit.  [build env cfg out] is a tree whose nodes are the
    commands the function issues, in program order, each with a continuation
    from the command's answer; [std::env::temp_dir()] and
    [std::process::id()] are read from the record [Env].  A run of the tree
    chooses an answer for every command, so a theorem over all runs covers
    every behaviour of the file system and of the external tools, failures
    included.  [await] is sequential: the function awaits each future before
    it continues, so no interleaving is modelled.

    ** What the theorems show

    - Text and paths: split and join are inverse; [lines] never yields a
      line holding a newline; [trim] is idempotent and its result has no
      white space at either end; [file_name] of a joined plain name is that
      name; [parent] of the staging directory always exists.
    - Decoding: whatever the bytes, the result of [from_utf8_lossy] is a
      string (scalar values only) no longer than its input; ASCII is kept;
      the bytes of a string decode to that string.
    - Declaration: the display name of an item without override has no
      separator, so its destination is a direct child of the staging
      directory; staging directory names are injective in the process id.
    - Layout: the counting properties of the specification (one icon
      placement per item not named [license], one window-bounds entry, one
      icon-view entry, absence of alias blob when the background is missing),
      the order of the entries, and the refinement of [layout_spec].
    - Mount point: the rule of the parser in the terms of the standard
      library (the first line whose last tab-separated field, trimmed,
      starts with [/Volumes/]), the shape of what it returns, and a round
      trip from the bytes [hdiutil attach] prints for a table of
      rows to the mount point of the first mounted row.
    - Staging: a content loop that ends without error has issued one [cp]
      per file item and one link per link item, in order; it fails exactly
      when a [cp] fails; failed links are tolerated.
    - Pipeline, by composition of one lemma per stage along the structure
      of [build].  Facts on the steps of a run that hold of the empty trace
      and of a concatenation ([Monoidal]) are lifted by [Stages.build_always];
      orders of calls are lifted by the rules of [Machine]; the others by a
      rule for [?] and one for plain sequencing.  Every run ends with a
      result after a bounded number of calls and never panics; every run
      issues the [hdiutil] verbs as a path of the controller's machine and
      the steps on the volume in the order of lib.rs; every step has the
      shape of its line of lib.rs; [Ok] means every fatal step succeeded; an
      error names the call the run stopped at; a run with no failure returns
      [Ok]; the metadata writer gets the entries of the layout builder at
      the parsed mount point.
    - File system: a step changes the set of existing paths according to
      its answer ([World.effect]; the effects of [cp] and [hdiutil] are
      taken from the specification).  After [Ok] the output file exists;
      after [Ok] or the conversion error the temporaries are gone if the
      removals succeeded; after any other error the staging directory is
      still there; a path the build does not own is never touched; a
      mounted volume stays mounted unless a detach succeeded; a file appears
      at the output path exactly when the build returns [Ok].
    - System: when the existence tests are answered by the file system
      itself, the staging directory holds exactly the staged items when the
      content loop has ended, a failed conversion leaves no file at the
      output path, and on a system where every call succeeds [build]
      returns [Ok] from any initial file system, with the output in place
      and the temporaries gone.  The file system influences a build through
      the five paths it tests only ([Reads.build_reads_only]).
    - Content: with the effects of [hdiutil] on images taken from the
      specification (an image holds its source folder; what is written to a
      volume is in its image once the volume is detached; a converted image
      has the content of its source), the image at the output path of a
      build that returns [Ok] holds every file item under its display name,
      and the layout metadata unless the volume is still mounted.  A build
      whose [hdiutil detach] fails returns [Ok] with an image that lacks
      the metadata ([Image.build_detach_failure_loses_metadata]).  When
      the tests of the run are answered by the file system, the image
      holds the background picture if its source existed, and the volume
      icon if its source existed and its copy succeeded
      ([Content.build_image_decorated]); a failed copy of the icon is
      tolerated, and the image is then delivered without it
      ([Content.build_icon_copy_tolerated]).
    - Every moment: a configuration is what is left of [build] together
      with a disk; a step takes any answer of the system.  In every
      configuration a build can reach, at most one volume is mounted and
      it is backed by the writable image; the image at the output path is
      the one from before the build, or none (lib.rs removes it before it
      converts), or one that holds every declared item
      ([Moments.build_disk_invariant]); and nothing outside the staging
      directory, the writable image, the output path and the volumes has
      been touched ([Moments.build_interrupted_frame]).  Both hold of a
      build that is stopped between two calls.
    - Concurrency: the pipeline itself is sequential.  Two builds in
      different processes that share the temporary directory of the
      system have staging directories and writable images that are
      neither equal nor inside one another; when their backgrounds, icons
      and outputs are apart as well, every interleaving of their calls
      gives each build the answers it would have got alone
      ([Isolation.builds_isolated]).  Two builds with one process id
      collide ([Isolation.builds_same_pid_collide]).
    - Where the code departs from the specification, the theorem states
      what the code does: the temporaries are removed only by the runs that
      reach the conversion ([Cleanup.build_cleanup]); the exit status of
      [hdiutil attach] has no influence on any run of [build]
      ([Controller.attach_status_ignored]) and that of [hdiutil detach]
      none on stage 6 ([Controller.detach_status_ignored]); a file at
      the output path is removed before the conversion starts; the support
      directories are hidden before the metadata is written; a file item
      whose name override is an absolute path is copied to that path,
      outside the staging directory, and the copy is still there after a
      build that returns [Ok] ([Moments.build_override_escapes]).

    ** Bounds and fuel

    No definition uses fuel: every recursion is structural on a list (a
    string, a list of bytes, a content list) or on a program tree, so every
    function is total and evaluates by [vm_compute].  The decoder looks at
    most three bytes ahead by nested matches and recurses on a tail of its
    input.  A program tree is finite: [build] has no loop but the one over
    the content items, which is structural; [Termination.build_terminates]
    gives the bound, one call per item and 26 more, and the example's run
    with every optional step taken attains it.  [Steps.step_sn] says the
    same of the small steps: no sequence of steps is infinite.  A
    schedule of [Isolation] is a list of turns of any length; turns given
    to a build that has ended do nothing.  The theorems hold for
    declarations of any size; the concrete runs use the specification's
    example with two items.

    ** Not modelled

    serde's (de)serialisation of the declaration (generated code; only the
    effect of [#[serde(skip)]] is kept); the modules ds_store,
    ds_store_template and macos_alias, which lib.rs declares but which are
    not under src/: only the interface lib.rs uses is modelled, from the
    specification, and the binary encodings of .DS_Store and of alias
    records are out of reach; the behaviour of the file system and of
    [hdiutil], [cp], [chflags], [SetFile] and [sync] themselves, which
    appear only as commands whose answers are unconstrained ([World],
    [Image] and [System] fix what a step that succeeded has done, from the
    specification, not when a step succeeds).  [World.effect] records
    one path for a step that makes something: the directory that
    [create_dir_all] is asked for and not the missing ancestors it makes
    on the way, the destination of [cp -R] and not the files below it;
    and it takes a volume for mounted as soon as the output of
    [hdiutil attach] names it, whatever the exit status.  The frame
    theorems are to be read with that: an ancestor of the staging
    directory that was missing is made by line 61 and the model does not
    show it.  Paths that are not UTF-8;
    cancellation of the future [build] returns, and a tool that never
    returns: every call of the model has an answer.  Everything else of lib.rs is
    modelled: the lines the map does not cover are imports, module
    declarations, comments and blank lines. *)

From stdpp Require Export prelude.

Declare Scope dmg_scope.
Delimit Scope dmg_scope with dmg.
Open Scope dmg_scope.

Create HintDb dmg discriminated.
Create Rewrite HintDb dmg.

(** ** Results of fallible operations *)

(** Rust's [Result<A, E>]. *)
Inductive Result (A E : Type) : Type :=
| Ok (a : A)
| Err (e : E).
Arguments Ok {A E} a.
Arguments Err {A E} e.

(** [Result::is_ok]. *)
Definition is_ok {A E} (r : Result A E) : bool :=
  match r with Ok _ => true | Err _ => false end.

(** [Result::ok]: the success value, dropping the error. *)
Definition result_ok {A E} (r : Result A E) : option A :=
  match r with Ok a => Some a | Err _ => None end.

(** [Option::ok_or]. *)
Definition ok_or {A E} (o : option A) (e : E) : Result A E :=
  match o with Some a => Ok a | None => Err e end.

#[export] Instance Result_eq_dec {A E} `{!EqDecision A, !EqDecision E} : EqDecision (Result A E).
Proof. solve_decision. Defined.

Lemma result_ok_Some {A E} (r : Result A E) a : result_ok r = Some a ↔ r = Ok a.
Proof. destruct r; naive_solver. Qed.

Lemma result_ok_None {A E} (r : Result A E) : result_ok r = None ↔ is_ok r = false.
Proof. by destruct r. Qed.

Lemma ok_or_Ok {A E} (o : option A) (e : E) a : ok_or o e = Ok a ↔ o = Some a.
Proof. destruct o; naive_solver. Qed.

Lemma ok_or_Err {A E} (o : option A) (e e' : E) : ok_or o e = Err e' ↔ o = None ∧ e' = e.
Proof. destruct o; naive_solver. Qed.

(** ** Machine integers *)

(** A [u32] is a natural number below 2^32.  The program stores and passes
    them on; it never adds or multiplies them. *)
Abbreviation u32 := N (only parsing).

Definition u32_max : N := 4294967295.

Definition is_u32 (n : N) : Prop := (n ≤ u32_max)%N.

#[export] Instance is_u32_dec n : Decision (is_u32 n).
Proof. unfold is_u32. apply _. Defined.

(** ** List functions shared by the components *)

Section list_functions.
Context {A B : Type}.
Implicit Types (l : list A) (p : A → bool) (f : A → option B).

(** [Iterator::find_map]: the first element on which [f] answers. *)
Fixpoint find_map f l : option B :=
  match l with
  | [] => None
  | x :: l' => match f x with Some y => Some y | None => find_map f l' end
  end.

(** The longest prefix whose elements satisfy [p]. *)
Fixpoint take_while p l : list A :=
  match l with
  | [] => []
  | x :: l' => if p x then x :: take_while p l' else []
  end.

(** What is left once that prefix is removed. *)
Fixpoint drop_while p l : list A :=
  match l with
  | [] => []
  | x :: l' => if p x then drop_while p l' else l
  end.

(** The same from the right end, as [str::trim_end] needs it. *)
Definition drop_while_end p l : list A := reverse (drop_while p (reverse l)).

Lemma find_map_app f l1 l2 :
  find_map f (l1 ++ l2) = match find_map f l1 with Some y => Some y | None => find_map f l2 end.
Proof. induction l1 as [|x l1 IH]; simpl; [done|]. by destruct (f x). Qed.

Lemma find_map_None f l : find_map f l = None ↔ Forall (λ x, f x = None) l.
Proof.
  induction l as [|x l IH]; simpl; [by split; [constructor|]|].
  rewrite Forall_cons_iff. destruct (f x); naive_solver.
Qed.

Lemma find_map_Some f l y :
  find_map f l = Some y ↔
  ∃ l1 x l2, l = l1 ++ x :: l2 ∧ Forall (λ z, f z = None) l1 ∧ f x = Some y.
Proof.
  induction l as [|x l IH]; simpl.
  - split; [done|]. by intros ([|??] & ? & ? & ? & _).
  - destruct (f x) as [y'|] eqn:Hx.
    + split.
      * intros [= ->]. by exists [], x, l.
      * intros ([|x' l1] & z & l2 & Hl & Hn & Hz); simplify_eq/=; [done|].
        apply Forall_cons_iff in Hn as [? _]. congruence.
    + rewrite IH. split.
      * intros (l1 & z & l2 & -> & ? & ?). exists (x :: l1), z, l2. by repeat constructor.
      * intros ([|x' l1] & z & l2 & Hl & Hn & Hz); simplify_eq/=.
        apply Forall_cons_iff in Hn as [_ ?]. by exists l1, z, l2.
Qed.

Lemma take_drop_while p l : take_while p l ++ drop_while p l = l.
Proof. induction l as [|x l IH]; simpl; [done|]. destruct (p x); simpl; congruence. Qed.

Lemma take_while_Forall p l : Forall (λ x, p x = true) (take_while p l).
Proof. induction l as [|x l IH]; simpl; [done|]. destruct (p x) eqn:?; by constructor. Qed.

Lemma drop_while_head p l x : head (drop_while p l) = Some x → p x = false.
Proof. induction l as [|y l IH]; simpl; [done|]. destruct (p y) eqn:?; naive_solver. Qed.

Lemma drop_while_suffix p l : drop_while p l `suffix_of` l.
Proof. exists (take_while p l). by rewrite take_drop_while. Qed.

Lemma drop_while_stable p l : head l ≫= (λ x, Some (p x)) ≠ Some true → drop_while p l = l.
Proof. destruct l as [|x l]; simpl; [done|]. by destruct (p x). Qed.

Lemma drop_while_idemp p l : drop_while p (drop_while p l) = drop_while p l.
Proof.
  apply drop_while_stable. destruct (head (drop_while p l)) as [x|] eqn:Hx; [|done].
  simpl. by rewrite (drop_while_head _ _ _ Hx).
Qed.

Lemma drop_while_all p l : Forall (λ x, p x = true) l → drop_while p l = [].
Proof. induction 1 as [|x l Hx _ IH]; simpl; [done|]. by rewrite Hx. Qed.

Lemma take_while_all p l : Forall (λ x, p x = true) l → take_while p l = l.
Proof. induction 1 as [|x l Hx _ IH]; simpl; [done|]. by rewrite Hx, IH. Qed.

Lemma take_while_app_stop p l1 l2 x :
  Forall (λ y, p y = true) l1 → p x = false → take_while p (l1 ++ x :: l2) = l1.
Proof.
  intros Hl Hx. induction Hl as [|y l1 Hy _ IH]; simpl; [by rewrite Hx|].
  by rewrite Hy, IH.
Qed.

Lemma drop_while_app_stop p l1 l2 x :
  Forall (λ y, p y = true) l1 → p x = false → drop_while p (l1 ++ x :: l2) = x :: l2.
Proof.
  intros Hl Hx. induction Hl as [|y l1 Hy _ IH]; simpl; [by rewrite Hx|].
  by rewrite Hy.
Qed.

Lemma drop_while_app_all p l1 l2 :
  Forall (λ y, p y = true) l1 → drop_while p (l1 ++ l2) = drop_while p l2.
Proof. induction 1 as [|y l1 Hy _ IH]; simpl; [done|]. by rewrite Hy. Qed.

Lemma drop_while_end_prefix p l : drop_while_end p l `prefix_of` l.
Proof.
  unfold drop_while_end. destruct (drop_while_suffix p (reverse l)) as [k Hk].
  exists (reverse k). apply (inj reverse). by rewrite reverse_app, !reverse_involutive.
Qed.

Lemma drop_while_end_last p l x : last (drop_while_end p l) = Some x → p x = false.
Proof.
  unfold drop_while_end. rewrite last_reverse. apply drop_while_head.
Qed.

Lemma drop_while_end_idemp p l : drop_while_end p (drop_while_end p l) = drop_while_end p l.
Proof. unfold drop_while_end. by rewrite reverse_involutive, drop_while_idemp. Qed.

Lemma drop_while_end_stable p l :
  (∀ x, last l = Some x → p x = false) → drop_while_end p l = l.
Proof.
  intros Hl. unfold drop_while_end. rewrite drop_while_stable, reverse_involutive; [done|].
  rewrite head_reverse. destruct (last l) as [x|]; simpl; [|done]. by rewrite (Hl x).
Qed.

Lemma drop_while_end_decompose p l :
  ∃ k, l = drop_while_end p l ++ k ∧ Forall (λ x, p x = true) k.
Proof.
  exists (reverse (take_while p (reverse l))). split.
  - unfold drop_while_end. rewrite <-reverse_app, take_drop_while. by rewrite reverse_involutive.
  - apply Forall_reverse, take_while_Forall.
Qed.

Lemma drop_while_end_app_all p l k :
  Forall (λ y, p y = true) k → drop_while_end p (l ++ k) = drop_while_end p l.
Proof.
  intros Hk. unfold drop_while_end. rewrite reverse_app, drop_while_app_all; [done|].
  by apply Forall_reverse.
Qed.

Lemma prefix_head l l' x :
  l' `prefix_of` l → head l' = Some x → head l = Some x.
Proof. intros [k ->] Hx. rewrite head_app. by rewrite Hx. Qed.

End list_functions.

#[export] Hint Rewrite @take_drop_while @drop_while_idemp @drop_while_end_idemp : dmg.
#[export] Hint Resolve take_while_Forall drop_while_suffix drop_while_end_prefix : dmg.

(** ** Tactics *)

(** Case analysis on the first [if] or [match] scrutinee that blocks the
    goal, keeping the equation. *)
Ltac case_scrutinee :=
  match goal with
  | |- context [if ?b then _ else _] => destruct b eqn:?
  | |- context [match ?x with _ => _ end] => destruct x eqn:?
  end.

