(* ===== verification/Text.v ===== *)
(** * Text: Rust strings and the [str] methods lib.rs calls

    A string is the list of its Unicode scalar values; a [char] is the number
    of the scalar value.  The functions below are the methods of [str] the
    program uses, each defined as the Rust standard library documents it:
    [split] and [Iterator::last] (line 94), [lines] (line 94), [trim] and
    [starts_with] (line 94), and the decimal [Display] of a [u32] that
    [format!] inserts (lines 59 and 78).  [join_with] and [unlines] are the
    inverse printers the round-trip theorems are stated with. *)

From Stdlib Require Import Ascii String DecimalN DecimalPos.
From S2P Require Import Prelude.

Local Open Scope N_scope.

Abbreviation char := N (only parsing).
Abbreviation text := (list N) (only parsing).

(** A string literal as text: the scalar values of its (ASCII) characters. *)
Definition str (s : string) : text := N_of_ascii <$> list_ascii_of_string s.

Definition nl : char := 10.
Definition cr : char := 13.
Definition tab : char := 9.

(** [char::is_whitespace]: the code points with the Unicode property
    White_Space. *)
Definition is_whitespace (c : char) : bool :=
  ((9 <=? c) && (c <=? 13)) || (c =? 32) || (c =? 133) || (c =? 160)
  || (c =? 5760) || ((8192 <=? c) && (c <=? 8202)) || (c =? 8232)
  || (c =? 8233) || (c =? 8239) || (c =? 8287) || (c =? 12288).

Section splitting.
Context {A : Type} `{!EqDecision A}.
Implicit Types (sep c : A) (s : list A) (ls : list (list A)).

(** [str::split(sep)]: the pieces between occurrences of [sep]; there is
    always at least one piece, and a piece may be empty. *)
Fixpoint split_on sep s : list (list A) :=
  match s with
  | [] => [[]]
  | c :: s' =>
      if decide (c = sep) then [] :: split_on sep s'
      else match split_on sep s' with
           | h :: t => (c :: h) :: t
           | [] => [[c]]
           end
  end.

(** [str::split_inclusive(sep)]: the pieces, each with the separator that
    ends it; no empty last piece. *)
Fixpoint split_inclusive sep s : list (list A) :=
  match s with
  | [] => []
  | c :: s' =>
      if decide (c = sep) then [c] :: split_inclusive sep s'
      else match split_inclusive sep s' with
           | h :: t => (c :: h) :: t
           | [] => [[c]]
           end
  end.

(** [str::strip_suffix(c)] for a one-character suffix. *)
Definition strip_suffix c s : option (list A) :=
  match reverse s with
  | c' :: r => if decide (c' = c) then Some (reverse r) else None
  | [] => None
  end.

(** [[T]::join(sep)], the inverse of [split_on]. *)
Fixpoint join_with sep ls : list A :=
  match ls with
  | [] => []
  | l :: ls' => match ls' with [] => l | _ => l ++ sep :: join_with sep ls' end
  end.

Lemma split_on_nonempty sep s : split_on sep s ≠ [].
Proof. destruct s as [|c s]; simpl; [done|]. repeat case_scrutinee; done. Qed.

Lemma split_on_cons_ne sep c s :
  c ≠ sep → split_on sep (c :: s) = (c :: hd [] (split_on sep s)) :: tl (split_on sep s).
Proof.
  intros Hc. simpl. rewrite decide_False by done.
  destruct (split_on sep s) eqn:E; [by apply split_on_nonempty in E|done].
Qed.

Lemma join_with_cons sep l ls : ls ≠ [] → join_with sep (l :: ls) = l ++ sep :: join_with sep ls.
Proof. by destruct ls. Qed.

Lemma join_with_cons_hd sep c ls :
  ls ≠ [] → join_with sep ((c :: hd [] ls) :: tl ls) = c :: join_with sep ls.
Proof. destruct ls as [|l [|l' ls]]; done. Qed.

Lemma split_on_join sep s : join_with sep (split_on sep s) = s.
Proof.
  induction s as [|c s IH]; [done|].
  destruct (decide (c = sep)) as [->|Hc].
  - simpl. rewrite decide_True by done.
    rewrite join_with_cons by apply split_on_nonempty. by rewrite IH.
  - rewrite split_on_cons_ne, join_with_cons_hd by auto using split_on_nonempty.
    by rewrite IH.
Qed.

Lemma split_on_no_sep sep s : Forall (λ p, sep ∉ p) (split_on sep s).
Proof.
  induction s as [|c s IH]; [repeat constructor; set_solver|].
  destruct (decide (c = sep)) as [->|Hc].
  - simpl. rewrite decide_True by done. constructor; [set_solver|done].
  - rewrite split_on_cons_ne by done.
    destruct (split_on sep s) as [|h t]; simpl in *; [repeat constructor; set_solver|].
    apply Forall_cons_iff in IH as [??]. constructor; [set_solver|done].
Qed.

Lemma split_on_notin sep s : sep ∉ s → split_on sep s = [s].
Proof.
  induction s as [|c s IH]; [done|]. intros [??]%not_elem_of_cons.
  rewrite split_on_cons_ne, IH by done. done.
Qed.

Lemma split_on_app sep s1 s2 :
  split_on sep (s1 ++ sep :: s2) = split_on sep s1 ++ split_on sep s2.
Proof.
  induction s1 as [|c s1 IH]; simpl; [by rewrite decide_True|].
  rewrite IH. case_decide; [done|].
  destruct (split_on sep s1) eqn:E; [by apply split_on_nonempty in E|done].
Qed.

Lemma split_on_app_sep sep s1 s2 :
  sep ∉ s1 → split_on sep (s1 ++ sep :: s2) = s1 :: split_on sep s2.
Proof. intros. by rewrite split_on_app, split_on_notin. Qed.

Lemma join_split sep ls :
  ls ≠ [] → Forall (λ p, sep ∉ p) ls → split_on sep (join_with sep ls) = ls.
Proof.
  induction ls as [|l ls IH]; [done|]. intros _ [Hl Hls]%Forall_cons_iff.
  destruct ls as [|l' ls]; [by apply split_on_notin|].
  rewrite join_with_cons, split_on_app_sep by done. f_equal. by apply IH.
Qed.

Lemma concat_split_inclusive sep s : concat (split_inclusive sep s) = s.
Proof.
  induction s as [|c s IH]; [done|]. simpl.
  destruct (decide (c = sep)); simpl; [by rewrite IH|].
  destruct (split_inclusive sep s); simplify_eq/=; done.
Qed.

Lemma split_inclusive_notin sep s : s ≠ [] → sep ∉ s → split_inclusive sep s = [s].
Proof.
  induction s as [|c s IH]; [done|]. intros _ [??]%not_elem_of_cons. simpl.
  rewrite decide_False by done. destruct s as [|c' s]; [done|]. by rewrite IH.
Qed.

Lemma split_inclusive_app_sep sep s1 s2 :
  sep ∉ s1 → split_inclusive sep (s1 ++ sep :: s2) = (s1 ++ [sep]) :: split_inclusive sep s2.
Proof.
  induction s1 as [|c s1 IH]; simpl.
  - by rewrite decide_True.
  - intros [??]%not_elem_of_cons. rewrite decide_False, IH by done. done.
Qed.

Lemma strip_suffix_snoc c s : strip_suffix c (s ++ [c]) = Some s.
Proof.
  unfold strip_suffix. rewrite reverse_snoc, decide_True by done.
  by rewrite reverse_involutive.
Qed.

Lemma strip_suffix_Some c s s' : strip_suffix c s = Some s' ↔ s = s' ++ [c].
Proof.
  split; [|intros ->; apply strip_suffix_snoc].
  unfold strip_suffix. destruct (reverse s) as [|c' r] eqn:E; [done|].
  case_decide; [|done]. intros [= <-]. subst.
  apply (inj reverse). by rewrite reverse_snoc, reverse_involutive.
Qed.

Lemma strip_suffix_None c s : strip_suffix c s = None ↔ last s ≠ Some c.
Proof.
  unfold strip_suffix. rewrite <-head_reverse.
  destruct (reverse s) as [|c' r]; simpl; [done|]. case_decide; naive_solver.
Qed.

End splitting.

(** ** Lines *)

(** What [str::lines] removes from a piece of [split_inclusive]: the
    newline that ends it and, only then, a carriage return before it. *)
Definition strip_line_ending (l : text) : text :=
  match strip_suffix nl l with
  | None => l
  | Some l1 => match strip_suffix cr l1 with None => l1 | Some l2 => l2 end
  end.

(** [str::lines]. *)
Definition lines (s : text) : list text := strip_line_ending <$> split_inclusive nl s.

(** The printer [lines] inverts: every line followed by a newline. *)
Definition unlines (ls : list text) : text := concat ((λ l, l ++ [nl]) <$> ls).

(** ** Trimming and prefixes *)

(** [str::trim_start], [str::trim_end] and [str::trim]. *)
Definition trim_start (s : text) : text := drop_while is_whitespace s.
Definition trim_end (s : text) : text := drop_while_end is_whitespace s.
Definition trim (s : text) : text := trim_end (trim_start s).

(** [str::starts_with] for a string pattern. *)
Definition starts_with (p s : text) : bool := bool_decide (p `prefix_of` s).

(** ** Decimal rendering *)

Fixpoint uint_text (d : Decimal.uint) : text :=
  match d with
  | Decimal.Nil => []
  | Decimal.D0 d => 48 :: uint_text d
  | Decimal.D1 d => 49 :: uint_text d
  | Decimal.D2 d => 50 :: uint_text d
  | Decimal.D3 d => 51 :: uint_text d
  | Decimal.D4 d => 52 :: uint_text d
  | Decimal.D5 d => 53 :: uint_text d
  | Decimal.D6 d => 54 :: uint_text d
  | Decimal.D7 d => 55 :: uint_text d
  | Decimal.D8 d => 56 :: uint_text d
  | Decimal.D9 d => 57 :: uint_text d
  end.

(** [Display] of a [u32], as [format!("{}", n)] renders it. *)
Definition fmt_u32 (n : u32) : text := uint_text (N.to_uint n).

Definition is_digit (c : char) : bool := (48 <=? c) && (c <=? 57).

(** ** Lemmas on lines *)

Lemma strip_line_ending_nl l : nl ∉ l → strip_line_ending (l ++ [nl]) = default l (strip_suffix cr l).
Proof. intros. unfold strip_line_ending. rewrite strip_suffix_snoc. by destruct (strip_suffix cr l). Qed.

Lemma strip_line_ending_no_nl l : nl ∉ l → strip_line_ending l = l.
Proof.
  intros Hl. unfold strip_line_ending.
  destruct (strip_suffix nl l) as [l1|] eqn:E; [|done].
  apply strip_suffix_Some in E as ->. set_solver.
Qed.

Lemma strip_cr_notin l c : c ∉ l → c ∉ default l (strip_suffix cr l).
Proof.
  destruct (strip_suffix cr l) as [l1|] eqn:E; simpl; [|done].
  apply strip_suffix_Some in E as ->. set_solver.
Qed.

Lemma lines_app_nl l s :
  nl ∉ l → lines (l ++ nl :: s) = default l (strip_suffix cr l) :: lines s.
Proof.
  intros. unfold lines. rewrite split_inclusive_app_sep by done.
  rewrite fmap_cons. by rewrite strip_line_ending_nl.
Qed.

Lemma lines_no_nl_text l : l ≠ [] → nl ∉ l → lines l = [l].
Proof.
  intros. unfold lines. rewrite split_inclusive_notin by done.
  simpl. by rewrite strip_line_ending_no_nl.
Qed.

(** Every text is either free of newlines or a first line, a newline and
    the rest. *)
Lemma text_nl_cases (s : text) : nl ∉ s ∨ ∃ l s', s = l ++ nl :: s' ∧ nl ∉ l.
Proof.
  induction s as [|c s IH]; [left; set_solver|].
  destruct (decide (c = nl)) as [->|Hc]; [right; exists [], s; set_solver|].
  destruct IH as [?|(l & s' & -> & ?)]; [left; set_solver|].
  right. exists (c :: l), s'. set_solver.
Qed.

(** Induction over a text line by line. *)
Lemma text_lines_ind (P : text → Prop) :
  (∀ l, nl ∉ l → P l) →
  (∀ l s, nl ∉ l → P s → P (l ++ nl :: s)) →
  ∀ s, P s.
Proof.
  intros Hlast Hline s. remember (length s) as n eqn:Hn. revert s Hn.
  induction n as [n IH] using lt_wf_ind. intros s ->.
  destruct (text_nl_cases s) as [?|(l & s' & -> & ?)]; [by apply Hlast|].
  apply Hline; [done|]. apply (IH (length s')); [|done].
  rewrite length_app. simpl. lia.
Qed.

Lemma lines_no_nl s : Forall (λ l, nl ∉ l) (lines s).
Proof.
  induction s as [l Hl|l s Hl IH] using text_lines_ind.
  - destruct l as [|c l]; [constructor|].
    rewrite lines_no_nl_text by done. by repeat constructor.
  - rewrite lines_app_nl by done. constructor; [by apply strip_cr_notin|done].
Qed.

Lemma lines_unlines ls :
  Forall (λ l, (nl ∉ l) ∧ last l ≠ Some cr) ls → lines (unlines ls) = ls.
Proof.
  induction 1 as [|l ls [Hnl Hcr] _ IH]; [done|].
  unfold unlines. rewrite fmap_cons. simpl. rewrite <-app_assoc. simpl.
  rewrite lines_app_nl by done. fold (unlines ls). rewrite IH.
  apply strip_suffix_None in Hcr. by rewrite Hcr.
Qed.

(** ** Lemmas on trimming *)

Lemma trim_start_head s c : head (trim_start s) = Some c → is_whitespace c = false.
Proof. apply drop_while_head. Qed.

Lemma trim_end_last s c : last (trim_end s) = Some c → is_whitespace c = false.
Proof. apply drop_while_end_last. Qed.

Lemma trim_last s c : last (trim s) = Some c → is_whitespace c = false.
Proof. apply trim_end_last. Qed.

Lemma trim_head s c : head (trim s) = Some c → is_whitespace c = false.
Proof.
  intros Hc. apply (trim_start_head s).
  eapply prefix_head; [apply drop_while_end_prefix|done].
Qed.

Lemma trim_fixed s :
  (∀ c, head s = Some c → is_whitespace c = false) →
  (∀ c, last s = Some c → is_whitespace c = false) →
  trim s = s.
Proof.
  intros Hh Hl. unfold trim, trim_start. rewrite drop_while_stable.
  - by apply drop_while_end_stable.
  - destruct (head s) as [c|] eqn:E; simpl; [|done]. by rewrite (Hh c).
Qed.

Lemma trim_idemp s : trim (trim s) = trim s.
Proof. apply trim_fixed; [apply trim_head|apply trim_last]. Qed.

Lemma trim_decompose s :
  ∃ a b, s = a ++ trim s ++ b
         ∧ Forall (λ c, is_whitespace c = true) a
         ∧ Forall (λ c, is_whitespace c = true) b.
Proof.
  destruct (drop_while_end_decompose is_whitespace (trim_start s)) as (b & Hb & ?).
  exists (take_while is_whitespace s), b. split_and!; [|apply take_while_Forall|done].
  fold (trim_end (trim_start s)) in Hb. fold (trim s) in Hb.
  rewrite <-Hb. unfold trim_start. by rewrite take_drop_while.
Qed.

Lemma trim_wrap a s b :
  Forall (λ c, is_whitespace c = true) a →
  Forall (λ c, is_whitespace c = true) b →
  (∀ c, head s = Some c → is_whitespace c = false) →
  (∀ c, last s = Some c → is_whitespace c = false) →
  trim (a ++ s ++ b) = s.
Proof.
  intros Ha Hb Hh Hl. unfold trim, trim_start, trim_end.
  rewrite drop_while_app_all by done.
  destruct s as [|c s]; simpl.
  { rewrite drop_while_all by done. done. }
  rewrite (Hh c) by done. rewrite app_comm_cons, drop_while_end_app_all by done.
  by apply drop_while_end_stable.
Qed.

Lemma starts_with_true p s : starts_with p s = true ↔ p `prefix_of` s.
Proof. apply bool_decide_eq_true. Qed.

(** ** Lemmas on decimal rendering *)

Lemma uint_text_inj d d' : uint_text d = uint_text d' → d = d'.
Proof. revert d'. induction d; intros []; intros; simplify_eq/=; f_equal; auto. Qed.

Lemma fmt_u32_inj n m : fmt_u32 n = fmt_u32 m → n = m.
Proof. intros ?%uint_text_inj. by apply DecimalN.Unsigned.to_uint_inj. Qed.

Lemma is_digit_spec c : is_digit c = true ↔ 48 ≤ c ≤ 57.
Proof. unfold is_digit. rewrite andb_true_iff, !N.leb_le. done. Qed.

Lemma uint_text_digits d : Forall (λ c, is_digit c = true) (uint_text d).
Proof. induction d; simpl; by constructor. Qed.

Lemma fmt_u32_digits n : Forall (λ c, is_digit c = true) (fmt_u32 n).
Proof. apply uint_text_digits. Qed.

Lemma fmt_u32_nonempty n : fmt_u32 n ≠ [].
Proof.
  unfold fmt_u32. intros E. apply (f_equal (λ t, uint_text (N.to_uint 0) ++ t)) in E.
  destruct n as [|p]; [done|]. simpl in E.
  pose proof (DecimalPos.Unsigned.to_uint_nonnil p) as Hp.
  destruct (Pos.to_uint p); simplify_eq/=.
Qed.

(** [split_on] is [str::split] on one
    character: its result is the only non-empty list of pieces without the
    separator that gives the text back when joined with the separator. *)
Theorem split_on_characterised (sep : char) (s : text) (ls : list text) :
  split_on sep s = ls ↔ ls ≠ [] ∧ Forall (λ p, sep ∉ p) ls ∧ join_with sep ls = s.
Proof.
  split.
  - intros <-. auto using split_on_nonempty, split_on_no_sep, split_on_join.
  - intros (Hne & Hsep & <-). by apply join_split.
Qed.

(** [trim] is [str::trim]: its result is the
    only text that neither starts nor ends with white space and that the
    argument is made of with white space before and after. *)
Theorem trim_characterised (s t : text) :
  trim s = t ↔
  ∃ a b, s = a ++ t ++ b
         ∧ Forall (λ c, is_whitespace c = true) a
         ∧ Forall (λ c, is_whitespace c = true) b
         ∧ (∀ c, head t = Some c → is_whitespace c = false)
         ∧ (∀ c, last t = Some c → is_whitespace c = false).
Proof.
  split.
  - intros <-. destruct (trim_decompose s) as (a & b & ? & ? & ?).
    exists a, b. split_and!; eauto using trim_head, trim_last.
  - intros (a & b & -> & ? & ? & ? & ?). by apply trim_wrap.
Qed.

(** [lines] is [str::lines]: it gives back
    the lines a text was made of, each of them ended by a line feed, when
    no line holds a line feed or ends with a carriage return.  An empty
    line in the middle or at the end is kept, and the final line feed does
    not start a line of its own. *)
Theorem lines_unlines_roundtrip (ls : list text) :
  Forall (λ l, (nl ∉ l) ∧ last l ≠ Some cr) ls → lines (unlines ls) = ls.
Proof. apply lines_unlines. Qed.

Lemma lines_unlines_roundtrip_witness :
  let ls := [[97; tab; 98]; []; [99]; []] in lines (unlines ls) = ls.
Proof. intros ls. apply (lines_unlines_roundtrip ls), (bool_decide_unpack _). by vm_compute. Defined.
