(* ===== verification/Utf8.v ===== *)
(** * Utf8: the bytes a process prints, as text

    lib.rs reads the standard output of [hdiutil attach] as bytes and turns
    them into a string with [String::from_utf8_lossy] (line 93): valid UTF-8
    is kept, and every maximal invalid part is replaced by U+FFFD.  The
    function is defined here as the standard library computes it, byte by
    byte, on bytes as [N] below 256 and with the bit operations of the
    decoder.  [encode_utf8] is the encoder of [char], used to state that
    decoding inverts encoding.

    The theorems: the result is a string (every value is a Unicode scalar
    value), it is not longer than the input, ASCII is kept as it is, and
    the bytes of a string decode to that string. *)

From Stdlib Require Import NArith ZArith Lia ZifyBool String.
From S2P Require Import Prelude Text.

Local Open Scope N_scope.

#[local] Ltac Zify.zify_post_hook ::= Z.to_euclidean_division_equations.

Abbreviation byte := N (only parsing).

(** A [u8]. *)
Definition is_u8 (b : byte) : Prop := b < 256.

(** A [char]: a Unicode scalar value. *)
Definition is_scalar (c : char) : Prop := c < 0xD800 ∨ 0xE000 ≤ c < 0x110000.

#[export] Instance is_u8_dec b : Decision (is_u8 b).
Proof. unfold is_u8. apply _. Defined.
#[export] Instance is_scalar_dec c : Decision (is_scalar c).
Proof. unfold is_scalar. apply _. Defined.

(** U+FFFD REPLACEMENT CHARACTER. *)
Definition replacement : char := 0xFFFD.

(** ** The decoder *)

(** [b & 0xC0 == 0x80]: a continuation byte. *)
Definition is_cont (b : byte) : bool := N.land b 0xC0 =? 0x80.

(** [utf8_char_width]: the length of the sequence a byte starts, 0 for a
    byte that starts none. *)
Definition utf8_char_width (b : byte) : nat :=
  if b <? 0x80 then 1
  else if b <? 0xC2 then 0
  else if b <? 0xE0 then 2
  else if b <? 0xF0 then 3
  else if b <? 0xF5 then 4
  else 0.

(** The second byte a three-byte sequence may have after [b0]: no
    overlong form and no surrogate. *)
Definition second_of_three (b0 b1 : byte) : bool :=
  ((b0 =? 0xE0) && (0xA0 <=? b1) && (b1 <=? 0xBF))
  || ((0xE1 <=? b0) && (b0 <=? 0xEC) && (0x80 <=? b1) && (b1 <=? 0xBF))
  || ((b0 =? 0xED) && (0x80 <=? b1) && (b1 <=? 0x9F))
  || ((0xEE <=? b0) && (b0 <=? 0xEF) && (0x80 <=? b1) && (b1 <=? 0xBF)).

(** The second byte a four-byte sequence may have after [b0]: no
    overlong form and nothing above U+10FFFF. *)
Definition second_of_four (b0 b1 : byte) : bool :=
  ((b0 =? 0xF0) && (0x90 <=? b1) && (b1 <=? 0xBF))
  || ((0xF1 <=? b0) && (b0 <=? 0xF3) && (0x80 <=? b1) && (b1 <=? 0xBF))
  || ((b0 =? 0xF4) && (0x80 <=? b1) && (b1 <=? 0x8F)).

(** [utf8_acc_cont_byte]: [(ch << 6) | (b & 0x3F)]. *)
Definition acc_cont (ch : N) (b : byte) : N := N.lor (N.shiftl ch 6) (N.land b 0x3F).

(** The scalar value of a sequence of two, three and four bytes. *)
Definition char2 (b0 b1 : byte) : char := acc_cont (N.land b0 0x1F) b1.
Definition char3 (b0 b1 b2 : byte) : char :=
  N.lor (N.shiftl (N.land b0 0x1F) 12) (acc_cont (N.land b1 0x3F) b2).
Definition char4 (b0 b1 b2 b3 : byte) : char :=
  N.lor (N.shiftl (N.land (N.land b0 0x1F) 7) 18) (acc_cont (acc_cont (N.land b1 0x3F) b2) b3).

(** [String::from_utf8_lossy].  A sequence that breaks off is replaced by
    one U+FFFD, and decoding goes on at the byte that broke it. *)
Fixpoint from_utf8_lossy (v : list byte) : text :=
  match v with
  | [] => []
  | b0 :: r1 =>
      match utf8_char_width b0 with
      | 1%nat => b0 :: from_utf8_lossy r1
      | 2%nat =>
          match r1 with
          | b1 :: r2 =>
              if is_cont b1 then char2 b0 b1 :: from_utf8_lossy r2
              else replacement :: from_utf8_lossy r1
          | [] => [replacement]
          end
      | 3%nat =>
          match r1 with
          | b1 :: r2 =>
              if second_of_three b0 b1 then
                match r2 with
                | b2 :: r3 =>
                    if is_cont b2 then char3 b0 b1 b2 :: from_utf8_lossy r3
                    else replacement :: from_utf8_lossy r2
                | [] => [replacement]
                end
              else replacement :: from_utf8_lossy r1
          | [] => [replacement]
          end
      | 4%nat =>
          match r1 with
          | b1 :: r2 =>
              if second_of_four b0 b1 then
                match r2 with
                | b2 :: r3 =>
                    if is_cont b2 then
                      match r3 with
                      | b3 :: r4 =>
                          if is_cont b3 then char4 b0 b1 b2 b3 :: from_utf8_lossy r4
                          else replacement :: from_utf8_lossy r3
                      | [] => [replacement]
                      end
                    else replacement :: from_utf8_lossy r2
                | [] => [replacement]
                end
              else replacement :: from_utf8_lossy r1
          | [] => [replacement]
          end
      | _ => replacement :: from_utf8_lossy r1
      end
  end.

(** ** The encoder *)

(** [char::encode_utf8]. *)
Definition encode_utf8 (c : char) : list byte :=
  if c <? 0x80 then [c]
  else if c <? 0x800 then
    [N.lor (N.land (N.shiftr c 6) 0x1F) 0xC0; N.lor (N.land c 0x3F) 0x80]
  else if c <? 0x10000 then
    [N.lor (N.land (N.shiftr c 12) 0x0F) 0xE0; N.lor (N.land (N.shiftr c 6) 0x3F) 0x80;
     N.lor (N.land c 0x3F) 0x80]
  else
    [N.lor (N.land (N.shiftr c 18) 0x07) 0xF0; N.lor (N.land (N.shiftr c 12) 0x3F) 0x80;
     N.lor (N.land (N.shiftr c 6) 0x3F) 0x80; N.lor (N.land c 0x3F) 0x80].

(** [String::as_bytes]. *)
Definition as_bytes (t : text) : list byte := t ≫= encode_utf8.

(** ** Bit operations as arithmetic *)

Lemma lor_shiftl a b n : b < 2 ^ n → N.lor (N.shiftl a n) b = a * 2 ^ n + b.
Proof.
  intros Hb. rewrite <-N.lxor_lor, <-N.add_nocarry_lxor, N.shiftl_mul_pow2; try done.
  all: apply N.bits_inj_0; intros i; rewrite N.land_spec;
    destruct (N.lt_ge_cases i n);
    [by rewrite N.shiftl_spec_low|rewrite <-(N.mod_small b (2 ^ n)) by done;
     by rewrite N.mod_pow2_bits_high, andb_false_r].
Qed.

(** A tag above the [n] low bits is added to a value below [2^n]. *)
Lemma lor_tag x t n : x < 2 ^ n → N.lor x (t * 2 ^ n) = t * 2 ^ n + x.
Proof.
  intros Hx. rewrite N.lor_comm, <-N.shiftl_mul_pow2, lor_shiftl by done.
  by rewrite N.shiftl_mul_pow2.
Qed.

Lemma land_low b n : N.land b (N.ones n) = b mod 2 ^ n.
Proof. apply N.land_ones. Qed.

(** A property of bytes holds when it holds of the 256 of them. *)
Lemma byte_cases (P : N → Prop) `{!∀ b, Decision (P b)} :
  bool_decide (Forall P (N.of_nat <$> seq 0 256)) = true → ∀ b, is_u8 b → P b.
Proof.
  intros Hall%bool_decide_eq_true b Hb. rewrite Forall_fmap, Forall_forall in Hall.
  rewrite <-(N2Nat.id b). apply (Hall (N.to_nat b)), elem_of_seq. unfold is_u8 in Hb. lia.
Qed.

Lemma is_cont_spec b : is_u8 b → is_cont b = bool_decide (0x80 ≤ b < 0xC0).
Proof.
  revert b. apply (byte_cases (λ b, is_cont b = bool_decide (0x80 ≤ b < 0xC0))).
  by vm_compute.
Qed.

Lemma width_spec b :
  utf8_char_width b
  = if decide (b < 0x80) then 1%nat
    else if decide (0xC2 ≤ b < 0xE0) then 2%nat
    else if decide (0xE0 ≤ b < 0xF0) then 3%nat
    else if decide (0xF0 ≤ b < 0xF5) then 4%nat else 0%nat.
Proof.
  unfold utf8_char_width. repeat case_decide; repeat (case_match; try done);
    repeat match goal with
    | H : (_ <? _) = true |- _ => apply N.ltb_lt in H
    | H : (_ <? _) = false |- _ => apply N.ltb_ge in H
    end; lia.
Qed.

(** Turn the bit operations of the decoder and of the encoder into
    arithmetic. *)
Ltac bits :=
  unfold char2, char3, char4, acc_cont;
  change 0x1F with (N.ones 5); change 0x3F with (N.ones 6);
  change 0x0F with (N.ones 4); change 0x07 with (N.ones 3); change 7 with (N.ones 3);
  rewrite ?land_low, ?N.shiftr_div_pow2;
  change (2 ^ 3) with 8; change (2 ^ 4) with 16; change (2 ^ 5) with 32;
  change (2 ^ 6) with 64; change (2 ^ 12) with 4096; change (2 ^ 18) with 262144.

Lemma char2_arith b0 b1 : char2 b0 b1 = (b0 mod 32) * 64 + b1 mod 64.
Proof. bits. rewrite (lor_shiftl _ _ 6) by lia. done. Qed.

Lemma char3_arith b0 b1 b2 :
  char3 b0 b1 b2 = (b0 mod 32) * 4096 + ((b1 mod 64) * 64 + b2 mod 64).
Proof.
  bits. rewrite (lor_shiftl _ (b2 mod 64) 6) by lia.
  rewrite (lor_shiftl _ _ 12) by (change (2 ^ 6) with 64; change (2 ^ 12) with 4096; lia).
  done.
Qed.

Lemma char4_arith b0 b1 b2 b3 :
  char4 b0 b1 b2 b3
  = ((b0 mod 32) mod 8) * 262144 + (((b1 mod 64) * 64 + b2 mod 64) * 64 + b3 mod 64).
Proof.
  bits. rewrite (lor_shiftl _ (b2 mod 64) 6), (lor_shiftl _ (b3 mod 64) 6) by lia.
  rewrite (lor_shiftl _ _ 18) by (change (2 ^ 6) with 64; change (2 ^ 18) with 262144; lia).
  done.
Qed.

Lemma lor_C0 x : x < 64 → N.lor x 0xC0 = 192 + x.
Proof. apply (lor_tag x 3 6). Qed.
Lemma lor_80 x : x < 64 → N.lor x 0x80 = 128 + x.
Proof. apply (lor_tag x 2 6). Qed.
Lemma lor_E0 x : x < 16 → N.lor x 0xE0 = 224 + x.
Proof. apply (lor_tag x 14 4). Qed.
Lemma lor_F0 x : x < 8 → N.lor x 0xF0 = 240 + x.
Proof. apply (lor_tag x 30 3). Qed.

(** ** The encoder, by ranges *)

Lemma encode1 c : c < 0x80 → encode_utf8 c = [c].
Proof. intros Hc. unfold encode_utf8. by rewrite (proj2 (N.ltb_lt _ _) Hc). Qed.

Lemma encode2 c : 0x80 ≤ c < 0x800 → encode_utf8 c = [192 + c / 64; 128 + c mod 64].
Proof.
  intros Hc. unfold encode_utf8. bits.
  rewrite (proj2 (N.ltb_ge _ _)), (proj2 (N.ltb_lt _ 0x800)) by lia.
  rewrite lor_C0, lor_80 by lia. repeat f_equal; lia.
Qed.

Lemma encode3 c :
  0x800 ≤ c < 0x10000 →
  encode_utf8 c = [224 + c / 4096; 128 + (c / 64) mod 64; 128 + c mod 64].
Proof.
  intros Hc. unfold encode_utf8. bits.
  rewrite (proj2 (N.ltb_ge _ 0x80)), (proj2 (N.ltb_ge _ 0x800)),
    (proj2 (N.ltb_lt _ 0x10000)) by lia.
  rewrite lor_E0, !lor_80 by lia. repeat f_equal; lia.
Qed.

Lemma encode4 c :
  0x10000 ≤ c < 0x110000 →
  encode_utf8 c
  = [240 + c / 262144; 128 + (c / 4096) mod 64; 128 + (c / 64) mod 64; 128 + c mod 64].
Proof.
  intros Hc. unfold encode_utf8. bits.
  rewrite (proj2 (N.ltb_ge _ 0x80)), (proj2 (N.ltb_ge _ 0x800)),
    (proj2 (N.ltb_ge _ 0x10000)) by lia.
  rewrite lor_F0, !lor_80 by lia. repeat f_equal; lia.
Qed.

(** ** The decoder, by sequences *)

Lemma is_cont_true b : 0x80 ≤ b < 0xC0 → is_cont b = true.
Proof. intros Hb. rewrite is_cont_spec by (unfold is_u8; lia). by apply bool_decide_eq_true. Qed.

Lemma decode1 b r : b < 0x80 → from_utf8_lossy (b :: r) = b :: from_utf8_lossy r.
Proof. intros Hb. cbn [from_utf8_lossy]. by rewrite width_spec, decide_True. Qed.

Lemma decode2 b0 b1 r :
  0xC2 ≤ b0 < 0xE0 → 0x80 ≤ b1 < 0xC0 →
  from_utf8_lossy (b0 :: b1 :: r) = char2 b0 b1 :: from_utf8_lossy r.
Proof.
  intros H0 H1. cbn [from_utf8_lossy].
  rewrite width_spec, decide_False, decide_True by lia. by rewrite is_cont_true.
Qed.

Lemma decode3 b0 b1 b2 r :
  0xE0 ≤ b0 < 0xF0 → second_of_three b0 b1 = true → 0x80 ≤ b2 < 0xC0 →
  from_utf8_lossy (b0 :: b1 :: b2 :: r) = char3 b0 b1 b2 :: from_utf8_lossy r.
Proof.
  intros H0 H1 H2. cbn [from_utf8_lossy].
  rewrite width_spec, !decide_False, decide_True by lia. by rewrite H1, is_cont_true.
Qed.

Lemma decode4 b0 b1 b2 b3 r :
  0xF0 ≤ b0 < 0xF5 → second_of_four b0 b1 = true → 0x80 ≤ b2 < 0xC0 → 0x80 ≤ b3 < 0xC0 →
  from_utf8_lossy (b0 :: b1 :: b2 :: b3 :: r) = char4 b0 b1 b2 b3 :: from_utf8_lossy r.
Proof.
  intros H0 H1 H2 H3. cbn [from_utf8_lossy].
  rewrite width_spec, !decide_False, decide_True by lia. by rewrite H1, !is_cont_true.
Qed.

(** The bytes of one [char], followed by anything, decode to it. *)
Lemma decode_encode c r :
  is_scalar c → from_utf8_lossy (encode_utf8 c ++ r) = c :: from_utf8_lossy r.
Proof.
  unfold is_scalar. intros Hc.
  destruct (decide (c < 0x80)); [by rewrite encode1, <-decode1|].
  destruct (decide (c < 0x800)).
  { rewrite encode2 by lia. cbn [app]. rewrite decode2, char2_arith by lia. f_equal. lia. }
  destruct (decide (c < 0x10000)).
  { rewrite encode3 by lia. cbn [app].
    rewrite decode3, char3_arith by (unfold second_of_three; lia). f_equal. lia. }
  rewrite encode4 by lia. cbn [app].
  rewrite decode4, char4_arith by (unfold second_of_four; lia). f_equal. lia.
Qed.

(** ** One step of the decoder *)

(** Close the claim that the value of a step is a scalar value. *)
Ltac scalar_step :=
  intros Hu;
  repeat match goal with
  | H : Forall is_u8 (_ :: _) |- _ => apply Forall_cons in H as [? H]
  end;
  repeat match goal with
  | H : is_cont ?b = true |- _ => rewrite is_cont_spec in H by done; apply bool_decide_eq_true in H
  end;
  unfold is_u8, is_scalar, replacement, second_of_three, second_of_four in *;
  rewrite ?char2_arith, ?char3_arith, ?char4_arith; lia.

Ltac step_with c k :=
  exists c, k; split; [lia|split; [simpl; lia|split; [done|scalar_step]]].

(** The decoder takes between one and four bytes, gives one value for
    them, and goes on with the rest. *)
Lemma from_utf8_lossy_step v :
  v ≠ [] →
  ∃ c k, (0 < k ≤ 4)%nat ∧ (k ≤ length v)%nat
         ∧ from_utf8_lossy v = c :: from_utf8_lossy (drop k v)
         ∧ (Forall is_u8 v → is_scalar c).
Proof.
  destruct v as [|b0 r1]; [done|intros _]. cbn [from_utf8_lossy]. rewrite width_spec.
  repeat case_decide.
  - step_with b0 1%nat.
  - destruct r1 as [|b1 r2]; [step_with replacement 1%nat|].
    destruct (is_cont b1) eqn:?; [step_with (char2 b0 b1) 2%nat|step_with replacement 1%nat].
  - destruct r1 as [|b1 r2]; [step_with replacement 1%nat|].
    destruct (second_of_three b0 b1) eqn:?; [|step_with replacement 1%nat].
    destruct r2 as [|b2 r3]; [step_with replacement 2%nat|].
    destruct (is_cont b2) eqn:?; [step_with (char3 b0 b1 b2) 3%nat|step_with replacement 2%nat].
  - destruct r1 as [|b1 r2]; [step_with replacement 1%nat|].
    destruct (second_of_four b0 b1) eqn:?; [|step_with replacement 1%nat].
    destruct r2 as [|b2 r3]; [step_with replacement 2%nat|].
    destruct (is_cont b2) eqn:?; [|step_with replacement 2%nat].
    destruct r3 as [|b3 r4]; [step_with replacement 3%nat|].
    destruct (is_cont b3) eqn:?;
      [step_with (char4 b0 b1 b2 b3) 4%nat|step_with replacement 3%nat].
  - step_with replacement 1%nat.
Qed.

(** Induction along the steps of the decoder. *)
Lemma from_utf8_lossy_ind (P : list byte → text → Prop) :
  P [] [] →
  (∀ v c k, (0 < k ≤ length v)%nat → (Forall is_u8 v → is_scalar c) →
            P (drop k v) (from_utf8_lossy (drop k v)) → P v (c :: from_utf8_lossy (drop k v))) →
  ∀ v, P v (from_utf8_lossy v).
Proof.
  intros Hnil Hstep v. remember (length v) as n eqn:Hn. revert v Hn.
  induction n as [n IH] using lt_wf_ind. intros v ->.
  destruct v as [|b v']; [done|].
  destruct (from_utf8_lossy_step (b :: v')) as (c & k & Hk & Hlen & -> & Hc); [done|].
  apply Hstep; [lia|done|]. eapply IH; [|done]. rewrite length_drop. simpl in *. lia.
Qed.

(** ** What the decoder returns *)

(** C30. Whatever the bytes, the decoder returns
    a string: every value of the result is a Unicode scalar value, below
    U+110000 and no surrogate.  The bit operations of the decoder never
    leave that range. *)
Theorem from_utf8_lossy_scalar v : Forall is_u8 v → Forall is_scalar (from_utf8_lossy v).
Proof.
  apply (from_utf8_lossy_ind (λ v t, Forall is_u8 v → Forall is_scalar t)); [constructor|].
  intros u c k Hk Hc IH Hu. constructor; [auto|]. by apply IH, Forall_drop.
Qed.

(** The result has at most one value per byte. *)
Lemma from_utf8_lossy_length v : (length (from_utf8_lossy v) ≤ length v)%nat.
Proof.
  apply (from_utf8_lossy_ind (λ v t, (length t ≤ length v)%nat)); [done|].
  intros u c k Hk _. rewrite length_drop. simpl. lia.
Qed.

(** ASCII is kept as it is. *)
Lemma from_utf8_lossy_ascii v : Forall (λ b, b < 0x80) v → from_utf8_lossy v = v.
Proof. induction 1 as [|b v Hb _ IH]; [done|]. by rewrite decode1, IH. Qed.

(** The bytes of a string decode to that string, whatever bytes follow
    them. *)
Lemma decode_as_bytes t v :
  Forall is_scalar t → from_utf8_lossy (as_bytes t ++ v) = t ++ from_utf8_lossy v.
Proof.
  induction 1 as [|c t Hc _ IH]; [done|]. unfold as_bytes. rewrite bind_cons.
  fold (as_bytes t). by rewrite <- app_assoc, decode_encode, IH.
Qed.

(** C31. Decoding inverts encoding: the bytes
    of a string decode to that string, without any replacement. *)
Theorem from_utf8_lossy_as_bytes t : Forall is_scalar t → from_utf8_lossy (as_bytes t) = t.
Proof. intros Ht. rewrite <- (app_nil_r (as_bytes t)), decode_as_bytes; [apply app_nil_r|done]. Qed.

(** The text of a literal is a string. *)
Lemma ascii_scalar t : Forall (λ c, c < 0x80) t → Forall is_scalar t.
Proof. intros Ht. eapply Forall_impl; [done|]. unfold is_scalar. intros c. simpl. lia. Qed.

(** ** Examples *)

(** The example of the documentation of [String::from_utf8_lossy]: the
    bytes of "Hello ", a four-byte sequence cut after its third byte, and
    the bytes of "World" give "Hello ", one U+FFFD and "World". *)
Example from_utf8_lossy_documented :
  from_utf8_lossy (str "Hello "%string ++ [0xF0; 0x90; 0x80] ++ str "World"%string)
  = str "Hello "%string ++ [replacement] ++ str "World"%string.
Proof. by vm_compute. Qed.

(** An overlong form, a surrogate and a lone continuation byte are
    replaced byte by byte; a valid sequence in between is kept. *)
Example from_utf8_lossy_invalid :
  from_utf8_lossy [0xC0; 0xAF; 0xC3; 0x9C; 0xED; 0xA0; 0x80; 0x80]
  = [replacement; replacement; 0xDC; replacement; replacement; replacement; replacement].
Proof. by vm_compute. Qed.

Lemma from_utf8_lossy_scalar_witness :
  Forall is_scalar (from_utf8_lossy [0x2F; 0xC3; 0x28; 0xE2; 0x82; 0xF4; 0x90]).
Proof. apply from_utf8_lossy_scalar. apply (bool_decide_unpack _). by vm_compute. Defined.

(** "Über App" and a character outside the basic plane. *)
Lemma from_utf8_lossy_as_bytes_witness :
  from_utf8_lossy (as_bytes [0xDC; 0x62; 0x65; 0x72; 0x20; 0x41; 0x70; 0x70; 0x1F4BF])
  = [0xDC; 0x62; 0x65; 0x72; 0x20; 0x41; 0x70; 0x70; 0x1F4BF].
Proof. apply from_utf8_lossy_as_bytes. apply (bool_decide_unpack _). by vm_compute. Defined.
