(* ===== verification/Paths.v ===== *)
(** * Paths: [std::path::Path] on Unix, as text

    A [Path] wraps the text it was made from; [Path::new] is the identity.
    The three operations lib.rs uses are defined on that text as the Rust
    standard library specifies them for Unix: [Path::join] (lines 59, 67,
    78, 99, 102, 107, 125, 129), [Path::file_name] (lines 66, 116) and
    [Path::parent] (line 78).  Trailing separators and [.] components are
    not part of a path's last component; [strip_trailing] removes them from
    the reversed text. *)

From S2P Require Import Prelude Text.

Local Open Scope N_scope.

Abbreviation path := (list N) (only parsing).

Definition slash : char := 47.
Definition dot : char := 46.

(** [Path::is_absolute] on Unix: the path has a root. *)
Definition is_absolute (p : path) : bool :=
  match p with c :: _ => bool_decide (c = slash) | [] => false end.

(** [Path::join], that is [PathBuf::push] on a copy: an absolute [p]
    replaces [base]; otherwise [p] is appended, after a separator unless
    [base] is empty or already ends in one. *)
Definition join (base p : path) : path :=
  if is_absolute p then p
  else match last base with
       | None => p
       | Some c => if decide (c = slash) then base ++ p else base ++ slash :: p
       end.

(** Trailing separators and trailing [.] components of a reversed path,
    removed; the root and a leading [.] stay. *)
Fixpoint strip_trailing (r : path) : path :=
  match r with
  | [] => []
  | c :: r' =>
      if decide (c = slash) then
        match r' with [] => r | _ => strip_trailing r' end
      else if decide (c = dot) then
        match r' with
        | c2 :: _ => if decide (c2 = slash) then strip_trailing r' else r
        | [] => r
        end
      else r
  end.

Definition not_slash (c : char) : bool := bool_decide (c ≠ slash).

(** The path without its trailing separators and [.] components: the text
    of [Components::as_path] once the front is untouched. *)
Definition normalize (p : path) : path := reverse (strip_trailing (reverse p)).

(** The text of the last component, empty for the empty path and the root. *)
Definition last_component (p : path) : path :=
  reverse (take_while not_slash (strip_trailing (reverse p))).

(** [Path::file_name]: the last component when it is a normal one. *)
Definition file_name (p : path) : option path :=
  let comp := last_component p in
  if decide (comp = [] ∨ comp = [dot] ∨ comp = [dot; dot]) then None else Some comp.

(** [Path::parent]: the path without its last component; [None] for the
    empty path and for the root. *)
Definition parent (p : path) : option path :=
  let r := strip_trailing (reverse p) in
  if decide (take_while not_slash r = []) then None
  else Some (reverse (strip_trailing (drop_while not_slash r))).

(** A name that is one normal component: not empty, no separator, and
    neither [.] nor [..]. *)
Definition plain_name (n : path) : Prop :=
  n ≠ [] ∧ (slash ∉ n) ∧ n ≠ [dot] ∧ n ≠ [dot; dot].

#[export] Instance plain_name_dec n : Decision (plain_name n).
Proof. unfold plain_name. apply _. Defined.

(** ** join *)

Lemma join_absolute base p : is_absolute p = true → join base p = p.
Proof. unfold join. by intros ->. Qed.

Lemma plain_name_relative n : plain_name n → is_absolute n = false.
Proof.
  intros (_ & Hs & _). destruct n as [|c n]; [done|]. simpl.
  apply bool_decide_eq_false. set_solver.
Qed.

(** A relative path is appended to the base. *)
Lemma join_prefix base p : is_absolute p = false → base `prefix_of` join base p.
Proof.
  unfold join. intros ->. destruct (last base) as [c|] eqn:E.
  - case_decide; by apply prefix_app_r.
  - apply last_None in E as ->. apply prefix_nil.
Qed.

(** After a separator, when the base does not end in one. *)
Lemma join_below base c p :
  last base = Some c → c ≠ slash → is_absolute p = false → join base p = base ++ slash :: p.
Proof. unfold join. intros -> ? ->. by rewrite decide_False. Qed.

(** A joined plain name is appended to a prefix that is empty or ends in a
    separator. *)
Lemma join_plain base n :
  plain_name n → ∃ b, join base n = b ++ n ∧ (b = [] ∨ last b = Some slash)
                      ∧ normalize b = normalize base.
Proof.
  intros Hn. unfold join. rewrite plain_name_relative by done.
  destruct (last base) as [c|] eqn:Hl.
  - case_decide as Hc; subst.
    + exists base. eauto.
    + exists (base ++ [slash]). rewrite <-app_assoc. split_and!; [done|right; apply last_snoc|].
      unfold normalize. rewrite reverse_snoc. simpl.
      destruct (reverse base) eqn:E; [|done].
      apply (f_equal reverse) in E. rewrite reverse_involutive in E. by subst.
  - apply last_None in Hl as ->. exists []. eauto.
Qed.

(** ** Trailing components *)

Lemma strip_trailing_plain n r :
  plain_name n → strip_trailing (reverse n ++ r) = reverse n ++ r.
Proof.
  intros (Hne & Hs & Hd & Hdd).
  destruct (reverse n) as [|c m] eqn:E.
  { apply (f_equal reverse) in E. by rewrite reverse_involutive in E. }
  assert (n = reverse (c :: m)) as Hn by (by rewrite <-E, reverse_involutive).
  assert (c ≠ slash) as Hc.
  { intros ->. apply Hs. rewrite Hn, reverse_cons. set_solver. }
  simpl. rewrite decide_False by done. case_decide as Hcd; [subst c|done].
  destruct m as [|c2 m]; simpl.
  - by rewrite Hn in Hd.
  - rewrite decide_False; [done|]. intros ->. apply Hs.
    rewrite Hn, !reverse_cons. set_solver.
Qed.

Lemma take_while_not_slash_plain n b :
  slash ∉ n → (b = [] ∨ last b = Some slash) →
  take_while not_slash (reverse n ++ reverse b) = reverse n
  ∧ drop_while not_slash (reverse n ++ reverse b) = reverse b.
Proof.
  intros Hs Hb.
  assert (Forall (λ c, not_slash c = true) (reverse n)) as Hn.
  { apply Forall_reverse, Forall_forall. intros c Hc.
    apply bool_decide_eq_true. set_solver. }
  destruct Hb as [->|Hb].
  - rewrite reverse_nil, app_nil_r. by rewrite take_while_all, drop_while_all.
  - rewrite <-head_reverse in Hb. destruct (reverse b) as [|c r]; simplify_eq/=.
    by rewrite take_while_app_stop, drop_while_app_stop.
Qed.

Lemma last_component_join base n : plain_name n → last_component (join base n) = n.
Proof.
  intros Hn. destruct (join_plain base n Hn) as (b & -> & Hb & _).
  unfold last_component. rewrite reverse_app, strip_trailing_plain by done.
  destruct Hn as (_ & Hs & _).
  rewrite (proj1 (take_while_not_slash_plain n b Hs Hb)). apply reverse_involutive.
Qed.

(** ** file_name *)

Lemma file_name_Some p n : file_name p = Some n → plain_name n ∧ n = last_component p.
Proof.
  unfold file_name. case_decide as Hc; [done|]. intros [= <-]. split; [|done].
  unfold plain_name. split_and!; try naive_solver.
  unfold last_component. rewrite elem_of_reverse.
  intros Hin. pose proof (take_while_Forall not_slash (strip_trailing (reverse p))) as Hall.
  rewrite Forall_forall in Hall. apply Hall in Hin. by apply bool_decide_eq_true in Hin.
Qed.

Lemma file_name_join base n : plain_name n → file_name (join base n) = Some n.
Proof.
  intros Hn. unfold file_name. rewrite last_component_join by done.
  destruct Hn as (? & ? & ? & ?). rewrite decide_False; naive_solver.
Qed.

Lemma join_empty n : plain_name n → join [] n = n.
Proof. intros Hn. unfold join. by rewrite plain_name_relative. Qed.

Lemma file_name_plain n : plain_name n → file_name n = Some n.
Proof. intros Hn. rewrite <-(join_empty n) at 1 by done. by apply file_name_join. Qed.

(** ** parent *)

Lemma parent_join base n : plain_name n → parent (join base n) = Some (normalize base).
Proof.
  intros Hn. destruct (join_plain base n Hn) as (b & -> & Hb & <-).
  unfold parent. rewrite reverse_app, strip_trailing_plain by done.
  destruct (Hn) as (Hne & Hs & _).
  destruct (take_while_not_slash_plain n b Hs Hb) as [-> ->].
  rewrite decide_False; [done|]. intros E. apply Hne.
  apply (f_equal reverse) in E. by rewrite reverse_involutive in E.
Qed.

Lemma strip_trailing_idemp r : strip_trailing (strip_trailing r) = strip_trailing r.
Proof.
  induction r as [|c r IH]; [done|]. simpl.
  destruct (decide (c = slash)) as [->|Hc]; [by destruct r|].
  destruct (decide (c = dot)) as [->|Hd]; [|simpl; repeat case_decide; done].
  destruct r as [|c2 r]; [done|].
  destruct (decide (c2 = slash)) as [->|Hc2]; [done|].
  simpl. repeat case_decide; done.
Qed.

Lemma normalize_idemp p : normalize (normalize p) = normalize p.
Proof. unfold normalize. by rewrite reverse_involutive, strip_trailing_idemp. Qed.

Lemma strip_trailing_suffix r : strip_trailing r `suffix_of` r.
Proof.
  induction r as [|c r IH]; [done|]. simpl.
  destruct (decide (c = slash)); [destruct r; [done|by apply suffix_cons_r]|].
  destruct (decide (c = dot)); [|done]. destruct r as [|c2 r]; [done|].
  destruct (decide (c2 = slash)); [by apply suffix_cons_r|done].
Qed.

(** The parent of a path is shorter than the path. *)
Lemma parent_shorter p q : parent p = Some q → (length q < length p)%nat.
Proof.
  unfold parent. case_decide as Hne; [done|]. intros [= <-].
  pose proof (suffix_length _ _ (strip_trailing_suffix (reverse p))) as H1.
  pose proof (suffix_length _ _
    (strip_trailing_suffix (drop_while not_slash (strip_trailing (reverse p))))) as H2.
  pose proof (f_equal length (take_drop_while not_slash (strip_trailing (reverse p)))) as H3.
  rewrite length_app in H3. rewrite length_reverse in *.
  destruct (take_while not_slash (strip_trailing (reverse p))); [done|]. simpl in *. lia.
Qed.

Lemma normalize_prefix p : normalize p `prefix_of` p.
Proof.
  unfold normalize. destruct (strip_trailing_suffix (reverse p)) as [k Hk].
  exists (reverse k). apply (inj reverse).
  by rewrite reverse_app, !reverse_involutive.
Qed.

Lemma normalize_fixed p c :
  last p = Some c → c ≠ slash → c ≠ dot → normalize p = p.
Proof.
  intros Hl ??. unfold normalize. rewrite <-head_reverse in Hl.
  destruct (reverse p) as [|c' r] eqn:E; simplify_eq/=.
  rewrite !decide_False by done. by rewrite <-E, reverse_involutive.
Qed.

Lemma strip_trailing_cons c r :
  strip_trailing (c :: r)
  = if decide (c = slash) then match r with [] => c :: r | _ => strip_trailing r end
    else if decide (c = dot) then
      match r with
      | c2 :: _ => if decide (c2 = slash) then strip_trailing r else c :: r
      | [] => c :: r
      end
    else c :: r.
Proof. done. Qed.

(** Stripping stops at a normal component at the latest. *)
Lemma strip_trailing_keeps s n r :
  plain_name n → ∃ s', strip_trailing (s ++ reverse n ++ r) = s' ++ reverse n ++ r.
Proof.
  intros Hn. induction s as [|c s [s' IH]]; [exists []; by apply strip_trailing_plain|].
  cbn [app]. remember (s ++ reverse n ++ r) as r' eqn:Er.
  assert (r' ≠ []) as Hr'.
  { intros ->. symmetry in Er. apply app_eq_nil in Er as [_ [Er _]%app_eq_nil].
    apply (f_equal reverse) in Er. rewrite reverse_involutive in Er. by destruct Hn. }
  rewrite strip_trailing_cons. destruct r' as [|c2 k]; [done|].
  repeat case_decide; first [by exists s'|exists (c :: s); simpl; by rewrite <- Er].
Qed.

(** A normal component of a path is in its normal form. *)
Lemma normalize_keeps_plain b n t : plain_name n → (b ++ n) `prefix_of` normalize (b ++ n ++ t).
Proof.
  intros Hn. unfold normalize. rewrite !reverse_app.
  destruct (strip_trailing_keeps (reverse t) n (reverse b) Hn) as [s' Hs].
  rewrite <- app_assoc, Hs, !reverse_app, !reverse_involutive. by eexists.
Qed.

(** A separator in front of a name without separator is in the base. *)
Lemma prefix_slash_base pre b n :
  slash ∉ n → (pre ++ [slash]) `prefix_of` (b ++ n) → (pre ++ [slash]) `prefix_of` b.
Proof.
  intros Hn [k [(k' & -> & _)|(k' & Hb & ->)]%app_eq_inv]; [by eexists|].
  destruct k' as [|c k' _] using rev_ind; [exists []; by rewrite Hb, !app_nil_r|].
  rewrite app_assoc in Hb. apply app_inj_tail in Hb as [_ <-]. set_solver.
Qed.

(** ** Injectivity *)

Lemma join_inj base n m : plain_name n → plain_name m → join base n = join base m → n = m.
Proof.
  intros Hn Hm E. apply (f_equal file_name) in E.
  rewrite !file_name_join in E by done. congruence.
Qed.

(** Joining a base with one normal component and
    taking the result apart gives the component back as the file name and
    the base, without trailing separators, as the parent: what
    [temp_dir.join(item_name)] at line 67 and [temp_dir.parent()] at line
    78 rely on. *)
Theorem join_components base n :
  plain_name n →
  file_name (join base n) = Some n ∧ parent (join base n) = Some (normalize base).
Proof. intros Hn. by rewrite file_name_join, parent_join. Qed.

Lemma join_components_witness :
  let base := [slash; 116; 109; 112; slash] in
  let n := [97; 46; 100; 109; 103] in
  file_name (join base n) = Some n ∧ parent (join base n) = Some (normalize base).
Proof. intros base n. apply (join_components base n), (bool_decide_unpack _). by vm_compute. Defined.
