(* ===== verification/Config.v ===== *)
(** * Config: the declaration model

    The four structs of lib.rs lines 19-50, field for field, and the display
    name of a content item as lines 66 and 116 compute it.  The serde
    attributes are not modelled; [#[serde(skip)]] on [name] means that a
    declaration read from a file carries no name override
    ([from_file]). *)

From Stdlib Require Import SpecFloat String.
From S2P Require Import Prelude Text Paths.

Local Open Scope N_scope.

(** An [f64] as the IEEE 754 datum it is. *)
Abbreviation f64 := spec_float (only parsing).

#[export] Instance spec_float_eq_dec : EqDecision spec_float.
Proof. solve_decision. Defined.

(** [struct DmgContent]: a placement request. *)
Record DmgContent := mkDmgContent {
  c_x : u32;
  c_y : u32;
  c_type : text;
  c_path : text;
  c_name : option text;
}.

(** [struct DmgWindowSize]. *)
Record DmgWindowSize := mkDmgWindowSize {
  width : u32;
  height : u32;
}.

(** [struct DmgWindow]. *)
Record DmgWindow := mkDmgWindow {
  size : DmgWindowSize;
}.

(** [struct DmgConfig]: the declaration. *)
Record DmgConfig := mkDmgConfig {
  title : text;
  icon : text;
  background : text;
  icon_size : f64;
  window : DmgWindow;
  contents : list DmgContent;
}.

#[export] Instance DmgContent_eq_dec : EqDecision DmgContent.
Proof. solve_decision. Defined.
#[export] Instance DmgWindowSize_eq_dec : EqDecision DmgWindowSize.
Proof. solve_decision. Defined.
#[export] Instance DmgWindow_eq_dec : EqDecision DmgWindow.
Proof. solve_decision. Defined.
#[export] Instance DmgConfig_eq_dec : EqDecision DmgConfig.
Proof. solve_decision. Defined.

(** The integers of a declaration fit their 32 bits. *)
Definition content_wf (c : DmgContent) : Prop := is_u32 (c_x c) ∧ is_u32 (c_y c).

Definition config_wf (cfg : DmgConfig) : Prop :=
  is_u32 (width (size (window cfg))) ∧ is_u32 (height (size (window cfg)))
  ∧ Forall content_wf (contents cfg).

#[export] Instance content_wf_dec c : Decision (content_wf c).
Proof. unfold content_wf. apply _. Defined.
#[export] Instance config_wf_dec cfg : Decision (config_wf cfg).
Proof. unfold config_wf. apply _. Defined.

(** What deserialisation produces: [name] is skipped, so it is [None]. *)
Definition from_file (cfg : DmgConfig) : Prop :=
  Forall (λ c, c_name c = None) (contents cfg).

#[export] Instance from_file_dec cfg : Decision (from_file cfg).
Proof. unfold from_file. apply _. Defined.

(** The two kind tags the staging loop recognises. *)
Definition type_file : text := Eval vm_compute in str "file"%string.
Definition type_link : text := Eval vm_compute in str "link"%string.

(** The name used when a path has no final component. *)
Definition default_name : text := Eval vm_compute in str "file"%string.

(** [item.name.as_deref().or_else(|| path.file_name().and_then(|n|
    n.to_str())).unwrap_or("file")]: the override if there is one, else the
    final component of the source path, else ["file"].  The path was made
    from a [String], so [to_str] succeeds. *)
Definition item_name (item : DmgContent) : text :=
  default default_name
    (match c_name item with
     | Some n => Some n
     | None => file_name (c_path item)
     end).

(** ** Display names *)

Lemma default_name_plain : plain_name default_name.
Proof. apply (bool_decide_unpack _). by vm_compute. Qed.

Lemma item_name_override item n : c_name item = Some n → item_name item = n.
Proof. unfold item_name. by intros ->. Qed.

Lemma item_name_derived item n :
  c_name item = None → file_name (c_path item) = Some n → item_name item = n.
Proof. unfold item_name. by intros -> ->. Qed.

Lemma item_name_fallback item :
  c_name item = None → file_name (c_path item) = None → item_name item = default_name.
Proof. unfold item_name. by intros -> ->. Qed.

(** Without an override the display name is one normal path component. *)
Lemma item_name_plain item : c_name item = None → plain_name (item_name item).
Proof.
  intros Hn. destruct (file_name (c_path item)) as [n|] eqn:E.
  - rewrite (item_name_derived _ n) by done. by apply file_name_Some in E as [? _].
  - rewrite item_name_fallback by done. apply default_name_plain.
Qed.

(** C38. The name override is skipped when a
    declaration is read, so a declaration from a file has none; the display
    name of each of its items is then the final component of the source
    path, or "file" when the path has none, and in both cases one normal
    path component: not empty, without separator, neither "." nor "..". *)
Theorem item_name_from_file cfg item :
  from_file cfg → item ∈ contents cfg →
  item_name item = default default_name (file_name (c_path item))
  ∧ plain_name (item_name item).
Proof.
  unfold from_file. rewrite Forall_forall. intros Hf Hin%Hf.
  split; [|by apply item_name_plain]. unfold item_name. by rewrite Hin.
Qed.

Lemma item_name_from_file_witness :
  let item := {| c_x := 0; c_y := 0; c_type := type_file;
                 c_path := str "dist/My App.app/"%string; c_name := None |} in
  item_name item = default default_name (file_name (c_path item))
  ∧ plain_name (item_name item).
Proof.
  intros item.
  apply (item_name_from_file (mkDmgConfig [] [] [] (S754_zero false) (mkDmgWindow (mkDmgWindowSize 0 0)) [item]) item).
  - by repeat constructor.
  - by apply list_elem_of_singleton.
Defined.
