(* ===== verification/Layout.v ===== *)
(** * Layout: the .DS_Store entries of a declaration

    Lines 113-123 of lib.rs build the vector of entries handed to
    [write_ds_store]: one icon location per content item, except the item
    displayed as [license]; then the window bounds and the icon-view
    parameters, each pushed only if its constructor succeeds.

    The module ds_store is not under src/.  Its [Entry] is modelled from the
    specification as the three variants it lists, and its constructors are
    the interface [EntryApi]: [new_iloc] cannot fail, [new_bwsp] and
    [new_icvp] return a [Result].  [EntryApiOk] states what a constructor
    returns when it succeeds; the theorems are proved against that
    interface, and [total_api] and [failing_api] are instances of it.
    [layout_spec] is the abstract specification the builder refines. *)

From Stdlib Require Import SpecFloat String.
From S2P Require Import Prelude Text Paths Config.

Local Open Scope N_scope.

Abbreviation bytes := (list N) (only parsing).

(** A layout entry, as the specification describes it. *)
Inductive Entry :=
| Iloc (name : text) (x y : u32)
| Bwsp (w h : u32)
| Icvp (scale : f64) (bg_alias : option bytes).

#[export] Instance Entry_eq_dec : EqDecision Entry.
Proof. solve_decision. Defined.

Inductive EntryKind := KIloc | KBwsp | KIcvp.

#[export] Instance EntryKind_eq_dec : EqDecision EntryKind.
Proof. solve_decision. Defined.

Definition entry_kind (e : Entry) : EntryKind :=
  match e with Iloc _ _ _ => KIloc | Bwsp _ _ => KBwsp | Icvp _ _ => KIcvp end.

(** How many entries of a kind a list holds. *)
Definition count_kind (k : EntryKind) (es : list Entry) : nat :=
  length (filter (λ e, entry_kind e = k) es).

(** The error of a ds_store constructor; the program never inspects it. *)
Inductive DsError := EncodeError (code : N).

(** The constructors of ds_store::Entry that lib.rs calls. *)
Class EntryApi := {
  new_iloc : text → u32 → u32 → Entry;
  new_bwsp : u32 → u32 → Result Entry DsError;
  new_icvp : f64 → option bytes → Result Entry DsError;
}.

(** What the constructors promise: the entry built is the one asked for. *)
Class EntryApiOk (api : EntryApi) : Prop := {
  new_iloc_ok n x y : new_iloc n x y = Iloc n x y;
  new_bwsp_ok w h e : new_bwsp w h = Ok e → e = Bwsp w h;
  new_icvp_ok s a e : new_icvp s a = Ok e → e = Icvp s a;
}.

(** Constructors that always succeed. *)
Definition total_api : EntryApi := {|
  new_iloc := Iloc;
  new_bwsp w h := Ok (Bwsp w h);
  new_icvp s a := Ok (Icvp s a);
|}.

(** Constructors of which the bounds and view-parameter ones fail as told. *)
Definition failing_api (bwsp_fails icvp_fails : bool) : EntryApi := {|
  new_iloc := Iloc;
  new_bwsp w h := if bwsp_fails then Err (EncodeError 1) else Ok (Bwsp w h);
  new_icvp s a := if icvp_fails then Err (EncodeError 2) else Ok (Icvp s a);
|}.

#[export] Instance total_api_ok : EntryApiOk total_api.
Proof. split; simpl; congruence. Qed.

#[export] Instance failing_api_ok b1 b2 : EntryApiOk (failing_api b1 b2).
Proof. split; simpl; intros; repeat case_match; congruence. Qed.

(** The display name whose icon Finder is left to place. *)
Definition license : text := Eval vm_compute in str "license"%string.

(** [if let Ok(e) = r { entries.push(e); }]. *)
Definition push_ok (entries : list Entry) (r : Result Entry DsError) : list Entry :=
  match r with Ok e => entries ++ [e] | Err _ => entries end.

Section builder.
Context {api : EntryApi}.

(** The loop of lines 115-120 over the content items, [entries] being the
    vector it pushes to. *)
Fixpoint push_ilocs (entries : list Entry) (items : list DmgContent) : list Entry :=
  match items with
  | [] => entries
  | item :: rest =>
      let item_name := item_name item in
      if decide (item_name = license) then push_ilocs entries rest
      else push_ilocs (entries ++ [new_iloc item_name (c_x item) (c_y item)]) rest
  end.

(** Lines 114-123: the entries passed to [write_ds_store]. *)
Definition layout_entries (cfg : DmgConfig) (bg_alias_data : option bytes) : list Entry :=
  let entries := push_ilocs [] (contents cfg) in
  let entries := push_ok entries (new_bwsp (width (size (window cfg))) (height (size (window cfg)))) in
  push_ok entries (new_icvp (icon_size cfg) bg_alias_data).

End builder.

(** ** The abstract specification *)

(** The items that get an icon location. *)
Definition placed (cfg : DmgConfig) : list DmgContent :=
  filter (λ item, item_name item ≠ license) (contents cfg).

Definition iloc_of (item : DmgContent) : Entry :=
  Iloc (item_name item) (c_x item) (c_y item).

(** The entry a successful constructor contributes. *)
Definition pushed (r : Result Entry DsError) (e : Entry) : list Entry :=
  if is_ok r then [e] else [].

(** Icon locations in content order, then bounds, then view parameters. *)
Definition layout_spec {api : EntryApi} (cfg : DmgConfig) (bg : option bytes) : list Entry :=
  (iloc_of <$> placed cfg)
  ++ pushed (new_bwsp (width (size (window cfg))) (height (size (window cfg))))
            (Bwsp (width (size (window cfg))) (height (size (window cfg))))
  ++ pushed (new_icvp (icon_size cfg) bg) (Icvp (icon_size cfg) bg).

Section builder_facts.
Context {api : EntryApi} {api_ok : EntryApiOk api}.

Lemma push_ilocs_spec entries items :
  push_ilocs entries items
  = entries ++ (iloc_of <$> filter (λ item, item_name item ≠ license) items).
Proof.
  revert entries. induction items as [|item items IH]; intros entries; simpl.
  { by rewrite app_nil_r. }
  rewrite filter_cons. case_decide as Hl.
  - rewrite decide_False by naive_solver. apply IH.
  - rewrite decide_True by done. rewrite IH, new_iloc_ok, <-app_assoc. done.
Qed.

Lemma push_ok_spec entries r e :
  (∀ e', r = Ok e' → e' = e) → push_ok entries r = entries ++ pushed r e.
Proof.
  intros Hr. unfold push_ok, pushed. destruct r as [e'|]; simpl.
  - by rewrite (Hr e').
  - by rewrite app_nil_r.
Qed.

(** The builder implements the specification. *)
Lemma layout_entries_unfold cfg bg : layout_entries cfg bg = layout_spec cfg bg.
Proof.
  unfold layout_entries, layout_spec.
  rewrite (push_ok_spec _ _ (Icvp (icon_size cfg) bg)) by apply new_icvp_ok.
  rewrite (push_ok_spec _ _ (Bwsp (width (size (window cfg))) (height (size (window cfg)))))
    by apply new_bwsp_ok.
  rewrite push_ilocs_spec. simpl. by rewrite <-app_assoc.
Qed.

End builder_facts.

(** ** Counting *)

Lemma count_kind_app k es1 es2 : count_kind k (es1 ++ es2) = (count_kind k es1 + count_kind k es2)%nat.
Proof. unfold count_kind. by rewrite filter_app, length_app. Qed.

Lemma count_kind_ilocs k items :
  count_kind k (iloc_of <$> items) = if decide (k = KIloc) then length items else 0%nat.
Proof.
  unfold count_kind. induction items as [|i items IH]; [by case_decide|].
  rewrite fmap_cons, filter_cons. change (entry_kind (iloc_of i)) with KIloc.
  destruct (decide (k = KIloc)) as [->|Hk].
  - rewrite decide_True by done. simpl. by rewrite IH.
  - rewrite decide_False by done. done.
Qed.

Lemma count_kind_pushed k r e :
  count_kind k (pushed r e) = if decide (is_ok r = true ∧ entry_kind e = k) then 1%nat else 0%nat.
Proof.
  unfold count_kind, pushed. destruct (is_ok r).
  - rewrite filter_cons, filter_nil.
    destruct (decide (entry_kind e = k)); [rewrite decide_True|rewrite decide_False]; naive_solver.
  - rewrite decide_False; naive_solver.
Qed.

Lemma placed_all cfg :
  Forall (λ item, item_name item ≠ license) (contents cfg) → placed cfg = contents cfg.
Proof.
  unfold placed. induction 1 as [|i l Hi _ IH]; [done|].
  rewrite filter_cons, decide_True by done. by rewrite IH.
Qed.

Lemma placed_length cfg : (length (placed cfg) ≤ length (contents cfg))%nat.
Proof. apply length_filter. Qed.

(** The display names of the icon locations of a list of entries. *)
Definition iloc_names (es : list Entry) : list text :=
  omap (λ e, match e with Iloc n _ _ => Some n | _ => None end) es.

Lemma iloc_names_app es1 es2 : iloc_names (es1 ++ es2) = iloc_names es1 ++ iloc_names es2.
Proof. apply omap_app. Qed.

Lemma iloc_names_ilocs items : iloc_names (iloc_of <$> items) = item_name <$> items.
Proof. induction items as [|i items IH]; simpl; [done|]. by f_equal. Qed.

Lemma iloc_names_pushed r e : entry_kind e ≠ KIloc → iloc_names (pushed r e) = [].
Proof. unfold pushed. destruct (is_ok r), e; naive_solver. Qed.

Section layout_theorems.
Context {api : EntryApi} {api_ok : EntryApiOk api}.
Implicit Types (cfg : DmgConfig) (bg : option bytes).

(** C23. The builder of lines 114-123, which
    pushes to a vector in a loop and then twice more, implements the
    specification of the layout entry builder: the icon placements of the
    items not displayed as "license", in content order, then the window
    bounds if they could be built, then the view parameters if they could
    be built. *)
Theorem layout_entries_refines cfg bg : layout_entries cfg bg = layout_spec cfg bg.
Proof. apply layout_entries_unfold. Qed.

(** For every declaration, the builder emits one
    icon-placement entry per content item that is not displayed as
    [license], one window-bounds entry if its constructor succeeds and none
    otherwise, and likewise one icon-view entry: a failed constructor skips
    its entry and nothing else. *)
Theorem layout_kind_counts cfg bg :
  count_kind KIloc (layout_entries cfg bg) = length (placed cfg)
  ∧ count_kind KBwsp (layout_entries cfg bg)
    = (if is_ok (new_bwsp (width (size (window cfg))) (height (size (window cfg)))) then 1 else 0)%nat
  ∧ count_kind KIcvp (layout_entries cfg bg)
    = (if is_ok (new_icvp (icon_size cfg) bg) then 1 else 0)%nat.
Proof.
  rewrite layout_entries_unfold. unfold layout_spec.
  rewrite !count_kind_app, !count_kind_ilocs, !count_kind_pushed. simpl.
  split_and!; repeat case_decide; repeat case_match; naive_solver lia.
Qed.

(** C15. With N content items none of which is displayed as
    [license], and constructors that succeed, the builder produces exactly
    N icon-placement entries, one window-bounds entry and one icon-view
    entry. *)
Theorem layout_counts cfg bg :
  Forall (λ item, item_name item ≠ license) (contents cfg) →
  is_ok (new_bwsp (width (size (window cfg))) (height (size (window cfg)))) = true →
  is_ok (new_icvp (icon_size cfg) bg) = true →
  count_kind KIloc (layout_entries cfg bg) = length (contents cfg)
  ∧ count_kind KBwsp (layout_entries cfg bg) = 1%nat
  ∧ count_kind KIcvp (layout_entries cfg bg) = 1%nat
  ∧ length (layout_entries cfg bg) = (length (contents cfg) + 2)%nat.
Proof.
  intros Hall Hb Hv. destruct (layout_kind_counts cfg bg) as (-> & -> & ->).
  rewrite Hb, Hv, placed_all by done. split_and!; try done.
  rewrite layout_entries_unfold. unfold layout_spec, pushed.
  rewrite Hb, Hv, placed_all by done. rewrite length_app, length_fmap. done.
Qed.

(** C35. The icon placements carry, in content
    order, the display names of the items not displayed as [license];
    nothing is deduplicated, so two items with the same display name give
    two placements of that name. *)
Theorem layout_names_in_order cfg bg :
  iloc_names (layout_entries cfg bg) = item_name <$> placed cfg.
Proof.
  rewrite layout_entries_unfold. unfold layout_spec.
  rewrite !iloc_names_app, iloc_names_ilocs, !iloc_names_pushed by done.
  by rewrite !app_nil_r.
Qed.

(** C28. No icon placement is emitted for the
    display name [license], whatever the coordinates, while every other
    item still gets its placement at its own coordinates. *)
Theorem layout_license_omitted cfg bg :
  (∀ x y, Iloc license x y ∉ layout_entries cfg bg)
  ∧ (∀ item, item ∈ contents cfg → item_name item ≠ license →
             Iloc (item_name item) (c_x item) (c_y item) ∈ layout_entries cfg bg).
Proof.
  split.
  - intros x y Hin.
    assert (license ∈ iloc_names (layout_entries cfg bg)) as Hn.
    { apply list_elem_of_omap. by exists (Iloc license x y). }
    rewrite layout_names_in_order in Hn. apply list_elem_of_fmap in Hn as (i & Hi & Hp).
    apply list_elem_of_filter in Hp as [? _]. congruence.
  - intros item Hin Hne. rewrite layout_entries_unfold. unfold layout_spec.
    apply elem_of_app. left. apply list_elem_of_fmap. exists item. split; [done|].
    by apply list_elem_of_filter.
Qed.

(** When the background could not be resolved
    the builder still emits the icon-view entry, with no alias blob, and
    emits no icon-view entry that carries one. *)
Theorem layout_no_background cfg :
  is_ok (new_icvp (icon_size cfg) None) = true →
  Icvp (icon_size cfg) None ∈ layout_entries cfg None
  ∧ ∀ s a, Icvp s a ∈ layout_entries cfg None → s = icon_size cfg ∧ a = None.
Proof.
  intros Hv. rewrite layout_entries_unfold. unfold layout_spec, pushed. rewrite Hv.
  split; [set_solver|]. intros s a. rewrite !elem_of_app, list_elem_of_fmap.
  intros [(i & ? & _)|[Hb|Hi]]; [done| |set_solver].
  case_match; set_solver.
Qed.

(** When the background was resolved, the
    icon-view entry carries exactly the blob the alias encoder produced. *)
Theorem layout_alias_carried cfg blob :
  is_ok (new_icvp (icon_size cfg) (Some blob)) = true →
  last (layout_entries cfg (Some blob)) = Some (Icvp (icon_size cfg) (Some blob)).
Proof.
  intros Hv. rewrite layout_entries_unfold. unfold layout_spec, pushed. rewrite Hv.
  by rewrite !app_assoc, last_snoc.
Qed.

End layout_theorems.

(** ** The declaration of the specification's example *)

(** 96.0 as a binary64: 1.5 * 2^6. *)
Definition f64_96 : f64 := S754_finite false 6755399441055744 (-46).

Definition example_config : DmgConfig := {|
  title := str "Example"%string;
  icon := str "missing.icns"%string;
  background := str "missing.png"%string;
  icon_size := f64_96;
  window := {| size := {| width := 400; height := 300 |} |};
  contents := [
    {| c_x := 100; c_y := 100; c_type := type_file;
       c_path := str "build/Example.app"%string; c_name := None |};
    {| c_x := 300; c_y := 100; c_type := type_file;
       c_path := str "/Applications"%string; c_name := None |} ];
|}.

(** For the declaration with window size (400,300),
    icon size 96, two file items at (100,100) and (300,100) and no
    background alias, the entries are exactly two icon placements, the
    bounds (400,300) and the view parameters with scale 96 and no alias. *)
Theorem layout_example :
  @layout_entries total_api example_config None
  = [ Iloc (str "Example.app"%string) 100 100;
      Iloc (str "Applications"%string) 300 100;
      Bwsp 400 300;
      Icvp f64_96 None ].
Proof. by vm_compute. Qed.

Lemma layout_counts_witness :
  count_kind KIloc (@layout_entries total_api example_config None) = 2%nat
  ∧ count_kind KBwsp (@layout_entries total_api example_config None) = 1%nat
  ∧ count_kind KIcvp (@layout_entries total_api example_config None) = 1%nat
  ∧ length (@layout_entries total_api example_config None) = 4%nat.
Proof.
  apply (@layout_counts total_api total_api_ok example_config None); [|done|done].
  by apply (bool_decide_unpack _).
Defined.

Lemma layout_no_background_witness :
  Icvp f64_96 None ∈ @layout_entries total_api example_config None
  ∧ ∀ s a, Icvp s a ∈ @layout_entries total_api example_config None →
           s = icon_size example_config ∧ a = None.
Proof. apply (@layout_no_background total_api total_api_ok example_config). done. Defined.

(** A declaration with a license item and two items of the same name. *)
Definition license_config : DmgConfig := {|
  title := str "Licensed"%string;
  icon := [];
  background := [];
  icon_size := f64_96;
  window := {| size := {| width := 640; height := 480 |} |};
  contents := [
    {| c_x := 10; c_y := 10; c_type := type_file;
       c_path := str "a/README"%string; c_name := None |};
    {| c_x := 20; c_y := 20; c_type := type_file;
       c_path := str "docs/license"%string; c_name := None |};
    {| c_x := 30; c_y := 30; c_type := type_link;
       c_path := str "b/README"%string; c_name := None |} ];
|}.

Lemma layout_kind_counts_witness :
  count_kind KIloc (@layout_entries (failing_api true false) license_config None) = 2%nat
  ∧ count_kind KBwsp (@layout_entries (failing_api true false) license_config None) = 0%nat
  ∧ count_kind KIcvp (@layout_entries (failing_api true false) license_config None) = 1%nat.
Proof.
  exact (@layout_kind_counts (failing_api true false) (failing_api_ok true false)
           license_config None).
Defined.

Lemma layout_names_in_order_witness :
  iloc_names (@layout_entries total_api license_config None)
  = [str "README"%string; str "README"%string].
Proof. exact (@layout_names_in_order total_api total_api_ok license_config None). Defined.

Lemma layout_license_omitted_witness :
  (∀ x y, Iloc license x y ∉ @layout_entries total_api license_config None)
  ∧ (∀ item, item ∈ contents license_config → item_name item ≠ license →
             Iloc (item_name item) (c_x item) (c_y item)
             ∈ @layout_entries total_api license_config None).
Proof. exact (@layout_license_omitted total_api total_api_ok license_config None). Defined.

Lemma layout_alias_carried_witness :
  last (@layout_entries total_api example_config (Some [0; 1; 2]))
  = Some (Icvp f64_96 (Some [0; 1; 2])).
Proof.
  exact (@layout_alias_carried total_api total_api_ok example_config [0; 1; 2] eq_refl).
Defined.

Lemma layout_entries_refines_witness :
  layout_entries (api := failing_api true false) license_config None
  = layout_spec (api := failing_api true false) license_config None.
Proof. apply (layout_entries_refines (api := failing_api true false)). Defined.
