(* ===== verification/Attach.v ===== *)
(** * Attach: finding the mount point in the output of [hdiutil attach]

    Line 94 of lib.rs scans the standard output of [hdiutil attach] line by
    line; on each line it takes the last tab-separated field, trims it, and
    keeps it if it starts with [/Volumes/]; the first line that yields a
    field gives the mount point, and no such line is the error
    ["No mount point"].

    [AttachRow] and [render_attach] model, from the specification's
    description of the tool's interface, the table [hdiutil] prints: one row
    per device node, with the mount point in the last column of a mounted
    one.  [mount_field_spec] is the rule as the specification words it,
    without the trim.  The round trip is stated from the bytes of the
    table: they are decoded as line 93 does and scanned as line 94 does. *)

From Stdlib Require Import String.
From S2P Require Import Prelude Text Utf8.

Local Open Scope N_scope.

(** The directory under which macOS mounts removable volumes. *)
Definition volumes_prefix : text := Eval vm_compute in str "/Volumes/"%string.

(** [l.split('\t').last().map(|s| s.trim()).filter(|s|
    s.starts_with("/Volumes/"))]. *)
Definition mount_field (l : text) : option text :=
  match last (split_on tab l) with
  | Some s => let s := trim s in if starts_with volumes_prefix s then Some s else None
  | None => None
  end.

(** [out_str.lines().find_map(...)]: the mount point, if a line has one. *)
Definition find_mount_point (out_str : text) : option text :=
  find_map mount_field (lines out_str).

(** The rule of the specification: the last field itself begins with the
    prefix. *)
Definition mount_field_spec (l : text) : option text :=
  match last (split_on tab l) with
  | Some s => if starts_with volumes_prefix s then Some s else None
  | None => None
  end.

(** ** The table the tool prints *)

Record AttachRow := mkAttachRow {
  dev : text;
  kind : text;
  mount : option text;
}.

(** A mount point as the tool prints it: under [/Volumes/], on one line, in
    one field, not ending in white space. *)
Definition no_trailing_ws (m : text) : Prop :=
  match last m with Some c => is_whitespace c = false | None => True end.

Definition valid_mount (m : text) : Prop :=
  volumes_prefix `prefix_of` m ∧ (tab ∉ m) ∧ (nl ∉ m) ∧ no_trailing_ws m.

Definition row_wf (r : AttachRow) : Prop :=
  (tab ∉ dev r) ∧ (nl ∉ dev r) ∧ (tab ∉ kind r) ∧ (nl ∉ kind r)
  ∧ match mount r with Some m => valid_mount m | None => True end.

#[export] Instance no_trailing_ws_dec m : Decision (no_trailing_ws m).
Proof. unfold no_trailing_ws. destruct (last m); apply _. Defined.
#[export] Instance valid_mount_dec m : Decision (valid_mount m).
Proof. unfold valid_mount. apply _. Defined.
#[export] Instance row_wf_dec r : Decision (row_wf r).
Proof. unfold row_wf. destruct (mount r); apply _. Defined.

Definition render_row (r : AttachRow) : text :=
  join_with tab [dev r; kind r; default [] (mount r)].

Definition render_attach (rows : list AttachRow) : text :=
  unlines (render_row <$> rows).

(** ** One line *)

Lemma mount_field_Some l m :
  mount_field l = Some m ↔
  ∃ s, last (split_on tab l) = Some s ∧ m = trim s ∧ volumes_prefix `prefix_of` m.
Proof.
  unfold mount_field. destruct (last (split_on tab l)) as [s|]; [|naive_solver].
  simpl. destruct (starts_with volumes_prefix (trim s)) eqn:E.
  - apply starts_with_true in E. naive_solver.
  - split; [done|]. intros (? & [= <-] & -> & ?%starts_with_true). congruence.
Qed.

Lemma mount_field_None l :
  mount_field l = None ↔
  ∀ s, last (split_on tab l) = Some s → ¬ volumes_prefix `prefix_of` trim s.
Proof.
  destruct (mount_field l) as [m|] eqn:E.
  - apply mount_field_Some in E as (s & Hs & -> & Hp). naive_solver.
  - split; [|done]. intros _ s Hs Hp.
    assert (mount_field l = Some (trim s)) as Hm by (apply mount_field_Some; eauto).
    congruence.
Qed.

Lemma split_on_piece_subseteq {A} `{!EqDecision A} (sep : A) s p :
  p ∈ split_on sep s → p ⊆ s.
Proof.
  intros Hp c Hc. rewrite <-(split_on_join sep s).
  induction (split_on sep s) as [|q [|q' qs] IH]; [set_solver|set_solver|].
  rewrite join_with_cons by done. set_solver.
Qed.

Lemma trim_subseteq s : trim s ⊆ s.
Proof. destruct (trim_decompose s) as (a & b & Hs & _). rewrite Hs at 2. set_solver. Qed.

Lemma no_trailing_ws_last m : no_trailing_ws m → ∀ c, last m = Some c → is_whitespace c = false.
Proof. unfold no_trailing_ws. intros H c Hc. by rewrite Hc in H. Qed.

Lemma volumes_prefix_nonempty m : volumes_prefix `prefix_of` m → head m = Some 47.
Proof. by intros [k ->]. Qed.

(** What a field returned by [mount_field] looks like. *)
Lemma mount_field_shape l m :
  mount_field l = Some m →
  volumes_prefix `prefix_of` m ∧ (tab ∉ m) ∧ m ⊆ l ∧ trim m = m.
Proof.
  intros (s & Hs & -> & Hp)%mount_field_Some. apply last_Some_elem_of in Hs.
  split_and!; [done| | |apply trim_idemp].
  - pose proof (split_on_no_sep tab l) as Hall. rewrite Forall_forall in Hall.
    intros Hin%trim_subseteq. by apply (Hall s).
  - etrans; [apply trim_subseteq|]. by eapply split_on_piece_subseteq.
Qed.

Lemma valid_mount_trim m : valid_mount m → trim m = m.
Proof.
  intros (Hp & _ & _ & Hl). apply trim_fixed; [|by apply no_trailing_ws_last].
  intros c Hc. rewrite (volumes_prefix_nonempty m Hp) in Hc. by simplify_eq.
Qed.

Lemma mount_field_render r : row_wf r → mount_field (render_row r) = mount r.
Proof.
  intros (Hd1 & _ & Hk1 & _ & Hm). unfold mount_field, render_row.
  rewrite join_split; [|done|].
  2:{ repeat constructor; try done. destruct (mount r); simpl; [apply Hm|set_solver]. }
  simpl. destruct (mount r) as [m|]; simpl; [|done].
  rewrite valid_mount_trim by done.
  by rewrite (proj2 (starts_with_true _ _) (proj1 Hm)).
Qed.

Lemma render_row_line r : row_wf r → (nl ∉ render_row r) ∧ last (render_row r) ≠ Some cr.
Proof.
  intros (_ & Hd2 & _ & Hk2 & Hm). unfold render_row. simpl.
  destruct (mount r) as [m|] eqn:E; simpl.
  - destruct Hm as (Hp & _ & Hn & Hl). split; [set_solver|].
    rewrite !last_app, last_cons, last_app, last_cons.
    destruct (last m) as [c|] eqn:Hc; [|by apply last_None in Hc; subst; destruct Hp as [? [=]]].
    intros [= ->]. by apply (no_trailing_ws_last m Hl cr) in Hc.
  - split; [set_solver|]. by rewrite !last_app, last_cons, last_app.
Qed.

(** ** The whole output *)

Lemma lines_subseteq s l : l ∈ lines s → l ⊆ s.
Proof.
  induction s as [l' Hl'|l' s Hl' IH] using text_lines_ind.
  - destruct l' as [|c l']; [by intros ?%elem_of_nil|].
    rewrite lines_no_nl_text by done. by intros ->%list_elem_of_singleton.
  - rewrite lines_app_nl by done. intros [->|Hin]%elem_of_cons; [|set_solver].
    destruct (strip_suffix cr l') as [l2|] eqn:E; simpl; [|set_solver].
    apply strip_suffix_Some in E as ->. set_solver.
Qed.

Lemma find_map_render rows :
  Forall row_wf rows → find_map mount_field (render_row <$> rows) = find_map mount rows.
Proof.
  induction 1 as [|r rows Hr _ IH]; [done|].
  rewrite fmap_cons. cbn [find_map]. by rewrite mount_field_render, IH.
Qed.

(** A mount point the parser returns starts
    with [/Volumes/], holds neither a tab nor a newline, has no white space
    at either end and is made of characters of the tool's output. *)
Theorem find_mount_point_sound out m :
  find_mount_point out = Some m →
  volumes_prefix `prefix_of` m ∧ (tab ∉ m) ∧ (nl ∉ m) ∧ trim m = m ∧ m ⊆ out.
Proof.
  intros (ls1 & l & ls2 & Hl & _ & Hm)%find_map_Some.
  assert (l ∈ lines out) as Hin by (rewrite Hl; set_solver).
  destruct (mount_field_shape l m Hm) as (? & ? & Hsub & ?).
  pose proof (lines_no_nl out) as Hall. rewrite Forall_forall in Hall.
  split_and!; try done.
  - intros ?%Hsub. by apply (Hall l).
  - etrans; [done|]. by apply lines_subseteq.
Qed.

(** C21. The rule of line 94, in the terms of the standard library.
    The parser returns [m] exactly when the output has a line whose last
    tab-separated field, with the white space at both ends removed, is
    [m], [m] starts with [/Volumes/], and no line before it has a last
    tab-separated field that starts with [/Volumes/] once it is trimmed.
    The first such line wins; a field other than the last, a field that is
    not trimmed and a prefix other than [/Volumes/] are not accepted. *)
Theorem find_mount_point_first out m :
  find_mount_point out = Some m ↔
  ∃ ls1 l ls2 s,
    lines out = ls1 ++ l :: ls2
    ∧ last (split_on tab l) = Some s ∧ m = trim s ∧ volumes_prefix `prefix_of` m
    ∧ Forall (λ l', ∀ s', last (split_on tab l') = Some s' →
                          ¬ volumes_prefix `prefix_of` trim s') ls1.
Proof.
  unfold find_mount_point. rewrite find_map_Some. setoid_rewrite mount_field_Some.
  setoid_rewrite mount_field_None. naive_solver.
Qed.

(** The parser finds no mount point exactly
    when no line of the output has a last field that, trimmed, starts with
    [/Volumes/]; this is the case in which [build] fails with
    ["No mount point"]. *)
Theorem find_mount_point_none out :
  find_mount_point out = None ↔ Forall (λ l, mount_field l = None) (lines out).
Proof. apply find_map_None. Qed.

(** On the table [hdiutil attach] prints for a list of well-formed rows,
    the parser returns the mount point of the first row that has one, and
    nothing if none has. *)
Lemma find_mount_point_render rows :
  Forall row_wf rows → find_mount_point (render_attach rows) = find_map mount rows.
Proof.
  intros Hrows. unfold find_mount_point, render_attach. rewrite lines_unlines.
  - by apply find_map_render.
  - apply Forall_fmap. eapply Forall_impl; [done|]. intros r. apply render_row_line.
Qed.

(** C29. Round trip, from the bytes of the
    tool to the mount point: when [hdiutil attach] prints, in UTF-8, the
    table of a list of well-formed rows, decoding its standard output as
    line 93 does and scanning it as line 94 does gives the mount point of
    the first row that has one, and nothing if none has. *)
Theorem find_mount_point_printed rows :
  Forall row_wf rows → Forall is_scalar (render_attach rows) →
  find_mount_point (from_utf8_lossy (as_bytes (render_attach rows))) = find_map mount rows.
Proof.
  intros Hrows Htext.
  rewrite <- (app_nil_r (as_bytes _)), decode_as_bytes, app_nil_r by done.
  by apply find_mount_point_render.
Qed.

(** On a line whose last field has no white
    space at either end, the code's rule and the specification's rule
    agree. *)
Theorem mount_field_agrees_spec l :
  (∀ s, last (split_on tab l) = Some s → trim s = s) →
  mount_field l = mount_field_spec l.
Proof.
  intros Hs. unfold mount_field, mount_field_spec.
  destruct (last (split_on tab l)) as [s|]; [|done]. simpl. by rewrite Hs.
Qed.

(** C36. A volume whose mount point ends in white
    space is reported without it: the path the pipeline then uses is not
    the path the volume is mounted at. *)
Theorem mount_field_trims_name d k m b :
  tab ∉ d → tab ∉ k → valid_mount m → tab ∉ b →
  Forall (λ c, is_whitespace c = true) b →
  mount_field (render_row {| dev := d; kind := k; mount := Some (m ++ b) |}) = Some m.
Proof.
  intros Hd Hk Hm Hb Hws. unfold mount_field, render_row.
  rewrite join_split; [|done|repeat constructor; try done; destruct Hm; set_solver].
  cbn [last default from_option id mount].
  rewrite <-(app_nil_l (m ++ b)), trim_wrap;
    [|done|done| |by apply no_trailing_ws_last, Hm].
  - by rewrite (proj2 (starts_with_true _ _) (proj1 Hm)).
  - intros c Hc. rewrite (volumes_prefix_nonempty m (proj1 Hm)) in Hc. by simplify_eq.
Qed.

(** ** Concrete outputs *)

Definition example_rows : list AttachRow := [
  {| dev := str "/dev/disk4          "%string;
     kind := str "GUID_partition_scheme          "%string; mount := None |};
  {| dev := str "/dev/disk4s1        "%string;
     kind := str "Apple_HFS                      "%string;
     mount := Some (str "/Volumes/My App"%string) |} ].

Lemma example_rows_wf : Forall row_wf example_rows.
Proof. apply (bool_decide_unpack _). by vm_compute. Qed.

Lemma find_mount_point_sound_witness :
  volumes_prefix `prefix_of` str "/Volumes/My App"%string
  ∧ (tab ∉ str "/Volumes/My App"%string) ∧ (nl ∉ str "/Volumes/My App"%string)
  ∧ trim (str "/Volumes/My App"%string) = str "/Volumes/My App"%string
  ∧ str "/Volumes/My App"%string ⊆ render_attach example_rows.
Proof. apply (find_mount_point_sound (render_attach example_rows)). by vm_compute. Defined.

Lemma find_mount_point_first_witness :
  ∃ ls1 l ls2 s,
    lines (render_attach example_rows) = ls1 ++ l :: ls2
    ∧ last (split_on tab l) = Some s ∧ str "/Volumes/My App"%string = trim s
    ∧ volumes_prefix `prefix_of` str "/Volumes/My App"%string
    ∧ Forall (λ l', ∀ s', last (split_on tab l') = Some s' →
                          ¬ volumes_prefix `prefix_of` trim s') ls1.
Proof.
  apply (proj1 (find_mount_point_first (render_attach example_rows) (str "/Volumes/My App"%string))).
  by vm_compute.
Defined.

Lemma example_rows_text : Forall is_scalar (render_attach example_rows).
Proof. apply (bool_decide_unpack _). by vm_compute. Qed.

Lemma find_mount_point_printed_witness :
  find_mount_point (from_utf8_lossy (as_bytes (render_attach example_rows)))
  = Some (str "/Volumes/My App"%string).
Proof. exact (find_mount_point_printed example_rows example_rows_wf example_rows_text). Defined.

Lemma mount_field_agrees_spec_witness :
  mount_field (str "/dev/disk4s1"%string ++ tab :: str "/Volumes/App"%string)
  = mount_field_spec (str "/dev/disk4s1"%string ++ tab :: str "/Volumes/App"%string).
Proof.
  apply (mount_field_agrees_spec
           (str "/dev/disk4s1"%string ++ tab :: str "/Volumes/App"%string)).
  intros s. vm_compute. by intros [= <-].
Defined.

Lemma mount_field_trims_name_witness :
  mount_field (render_row {| dev := str "/dev/disk4s1"%string; kind := str "Apple_HFS"%string;
                             mount := Some (str "/Volumes/App"%string ++ [32]) |})
  = Some (str "/Volumes/App"%string).
Proof.
  apply (mount_field_trims_name (str "/dev/disk4s1"%string) (str "Apple_HFS"%string)
           (str "/Volumes/App"%string) [32]);
    by apply (bool_decide_unpack _); vm_compute.
Defined.
