(* ===== verification/Effects.v ===== *)
(** * Effects: the outside world as commands, and programs over them

    [build] reaches the outside world through asynchronous file-system calls
    ([tokio::fs]), synchronous ones ([Path::exists]), child processes
    ([std::process::Command]) and the two modules that are not under src/
    ([macos_alias], [ds_store]).  [Cmd X] has one constructor per call that
    lib.rs makes, indexed by the type [X] of what the call returns.

    A program is a tree ([Prog]): it returns, or issues a command and
    continues with its answer, or panics.  Three readings of a tree are
    given and related: [Run], the relation between a program, the list of
    commands and answers it went through and its outcome; [wp], the
    predicate transformer that computes what must hold of every run; and
    [exec], which runs a program against a handler and a state. *)

From Stdlib Require Import String.
From S2P Require Import Prelude Text Paths Config Layout.

Local Open Scope N_scope.

(** ** Values exchanged with the world *)

(** [std::io::Error]; the program only propagates it. *)
Inductive IoError := OsError (code : N).

(** The error of [macos_alias]; the program drops it with [.ok()]. *)
Inductive AliasError := AliasFailure (code : N).

(** [anyhow::Error]: one constructor per place where lib.rs makes one, by
    [?] on a library error or by [anyhow!]. *)
Inductive Error :=
| Io (e : IoError)
| DsStore (e : DsError)
| CopyFailed (src : path)
| CreateFailed
| NoMountPoint
| ConvertFailed.

#[export] Instance IoError_eq_dec : EqDecision IoError.
Proof. solve_decision. Defined.
#[export] Instance DsError_eq_dec : EqDecision DsError.
Proof. solve_decision. Defined.
#[export] Instance Error_eq_dec : EqDecision Error.
Proof. solve_decision. Defined.

Abbreviation io A := (Result A IoError) (only parsing).

(** [std::process::ExitStatus] on Unix. *)
Inductive ExitStatus :=
| Exited (code : Z)
| Signaled (signal : Z).

(** [ExitStatus::success]. *)
Definition success (s : ExitStatus) : bool :=
  match s with Exited 0 => true | _ => false end.

(** [std::process::Command]: the program and its arguments, in order. *)
Record Command := mkCommand {
  program : text;
  args : list text;
}.

#[export] Instance Command_eq_dec : EqDecision Command.
Proof. solve_decision. Defined.

(** [std::process::Output]: the exit status and the bytes the process
    wrote. *)
Record Output := mkOutput {
  status : ExitStatus;
  stdout : bytes;
  stderr : bytes;
}.

(** [macos_alias::AliasInfo]: a record that points at a path. *)
Record AliasInfo := mkAliasInfo {
  alias_target : path;
}.

(** ** Commands *)

Inductive Cmd : Type → Type :=
| PathExists (p : path) : Cmd bool
| RemoveDirAll (p : path) : Cmd (io unit)
| CreateDirAll (p : path) : Cmd (io unit)
| RemoveFile (p : path) : Cmd (io unit)
| Symlink (src dst : path) : Cmd (io unit)
| FsCopy (src dst : path) : Cmd (io N)
| Status (c : Command) : Cmd (io ExitStatus)
| RunOutput (c : Command) : Cmd (io Output)
| AliasNew (p : path) : Cmd (Result AliasInfo AliasError)
| AliasEncode (i : AliasInfo) : Cmd (Result bytes AliasError)
| WriteDsStore (p : path) (entries : list Entry) : Cmd (Result unit DsError).

(** ** Programs *)

Inductive Prog (A : Type) : Type :=
| Ret (a : A)
| Vis {X : Type} (c : Cmd X) (k : X → Prog A)
| Panic.
Arguments Ret {A} a.
Arguments Vis {A X} c k.
Arguments Panic {A}.

Fixpoint bind {A B} (m : Prog A) (k : A → Prog B) : Prog B :=
  match m with
  | Ret a => k a
  | Vis c h => Vis c (λ x, bind (h x) k)
  | Panic => Panic
  end.

#[export] Instance Prog_ret : MRet Prog := @Ret.
#[export] Instance Prog_bind : MBind Prog := λ A B k m, bind m k.

(** Issue one command and return its answer. *)
Definition call {X} (c : Cmd X) : Prog X := Vis c Ret.

(** The conversions [?] applies to an error. *)
Definition lift_io {A} (r : io A) : Result A Error :=
  match r with Ok a => Ok a | Err e => Err (Io e) end.
Definition lift_ds {A} (r : Result A DsError) : Result A Error :=
  match r with Ok a => Ok a | Err e => Err (DsStore e) end.

(** [m?] followed by [k]: an error of [m] is the result of the whole. *)
Definition try {A B} (m : Prog (Result A Error)) (k : A → Prog (Result B Error))
  : Prog (Result B Error) :=
  r ← m; match r with Ok a => k a | Err e => Ret (Err e) end.

(** A call whose [io::Result] is subjected to [?]. *)
Definition io_call {A} (c : Cmd (io A)) : Prog (Result A Error) :=
  r ← call c; Ret (lift_io r).

(** [if cond { m?; }]. *)
Definition when_try (cond : bool) (m : Prog (Result unit Error)) : Prog (Result unit Error) :=
  if cond then m else Ret (Ok ()).

Notation "x ←? y ; z" := (try y (λ x : _, z))
  (at level 20, y at level 100, z at level 200, only parsing) : dmg_scope.
Notation "y ;;? z" := (try y (λ _, z))
  (at level 100, z at level 200, only parsing, right associativity) : dmg_scope.

(** ** Runs *)

(** One observed step: a command and the answer it got. *)
Inductive Obs : Type :=
| MkObs {X : Type} (c : Cmd X) (x : X).

Inductive Outcome (A : Type) : Type :=
| Done (a : A)
| Panicked.
Arguments Done {A} a.
Arguments Panicked {A}.

Abbreviation trace := (list Obs) (only parsing).

(** [Run m tr r]: the program [m] can issue the commands of [tr], receive
    the answers of [tr], and end with [r]. *)
Inductive Run {A} : Prog A → trace → Outcome A → Prop :=
| Run_Ret a : Run (Ret a) [] (Done a)
| Run_Vis {X} (c : Cmd X) k x tr r : Run (k x) tr r → Run (Vis c k) (MkObs c x :: tr) r
| Run_Panic : Run Panic [] Panicked.

(** What must hold of every run: [wp m Q] unfolds to [Q] at each leaf of
    [m], under a quantifier for the answer of each command on the way. *)
Fixpoint wp {A} (m : Prog A) (Q : trace → Outcome A → Prop) : Prop :=
  match m with
  | Ret a => Q [] (Done a)
  | Vis c k => ∀ x, wp (k x) (λ tr r, Q (MkObs c x :: tr) r)
  | Panic => Q [] Panicked
  end.

(** A handler answers every command from a state of the world. *)
Record Handler (W : Type) := mkHandler {
  handle : ∀ X, Cmd X → W → X * W;
}.
Arguments handle {W} h {X} c w.

(** Run a program against a handler. *)
Fixpoint exec {W A} (h : Handler W) (m : Prog A) (w : W) : trace * Outcome A * W :=
  match m with
  | Ret a => ([], Done a, w)
  | Vis c k =>
      let '(x, w1) := handle h c w in
      let '(tr, r, w2) := exec h (k x) w1 in
      (MkObs c x :: tr, r, w2)
  | Panic => ([], Panicked, w)
  end.

Definition exec_trace {W A} (h : Handler W) (m : Prog A) (w : W) : trace := (exec h m w).1.1.
Definition exec_outcome {W A} (h : Handler W) (m : Prog A) (w : W) : Outcome A := (exec h m w).1.2.

(** ** The three readings agree *)

Lemma wp_mono {A} (m : Prog A) (Q Q' : trace → Outcome A → Prop) :
  (∀ tr r, Q tr r → Q' tr r) → wp m Q → wp m Q'.
Proof.
  revert Q Q'. induction m as [a|X c k IH|]; simpl; intros Q Q' HQ; [auto| |auto].
  intros Hm x. eapply IH; [|apply Hm]. simpl. auto.
Qed.

Lemma Run_wp {A} (m : Prog A) tr r : Run m tr r → ∀ Q, wp m Q → Q tr r.
Proof. induction 1 as [a|X c k x tr r _ IH|]; simpl; intros Q HQ; [done| |done]. by apply IH. Qed.

Lemma wp_Run {A} (m : Prog A) Q : wp m Q ↔ ∀ tr r, Run m tr r → Q tr r.
Proof.
  split; [intros HQ tr r Hrun; by apply (Run_wp m tr r Hrun)|].
  revert Q. induction m as [a|X c k IH|]; simpl; intros Q HQ.
  - apply HQ. constructor.
  - intros x. apply IH. intros tr r Hk. apply HQ. by constructor.
  - apply HQ. constructor.
Qed.

Lemma wp_bind {A B} (m : Prog A) (k : A → Prog B) Q :
  wp (m ≫= k) Q ↔
  wp m (λ tr r, match r with
                | Done a => wp (k a) (λ tr' r', Q (tr ++ tr') r')
                | Panicked => Q tr Panicked
                end).
Proof.
  revert Q. induction m as [a|X c h IH|]; intros Q; [done| |done].
  change (Vis c h ≫= k) with (Vis c (λ x, h x ≫= k)). simpl.
  split; intros Hm x; specialize (Hm x); apply IH in Hm || apply IH;
    (eapply wp_mono; [|apply Hm]); intros tr [a|]; simpl; auto.
Qed.

Lemma exec_Run {W A} (h : Handler W) (m : Prog A) w :
  Run m (exec_trace h m w) (exec_outcome h m w).
Proof.
  unfold exec_trace, exec_outcome. revert w.
  induction m as [a|X c k IH|]; intros w; simpl; [constructor| |constructor].
  destruct (handle h c w) as [x w1]. specialize (IH x w1).
  destruct (exec h (k x) w1) as [[tr r] w2]. simpl in *. by constructor.
Qed.

(** Every run against a handler satisfies what [wp] establishes. *)
Lemma wp_exec {W A} (h : Handler W) (m : Prog A) w Q :
  wp m Q → Q (exec_trace h m w) (exec_outcome h m w).
Proof. intros Hm. eapply wp_Run; [done|apply exec_Run]. Qed.

(** What holds of every answer of a handler holds of every step of its
    runs. *)
Lemma exec_Forall {W A} (h : Handler W) (P : Obs → Prop) (m : Prog A) w :
  (∀ X (c : Cmd X) w, P (MkObs c (handle h c w).1)) → Forall P (exec_trace h m w).
Proof.
  intros HP. unfold exec_trace. revert w.
  induction m as [a|X c k IH|]; intros w; simpl; [constructor| |constructor].
  specialize (HP X c w). destruct (handle h c w) as [x w1]. specialize (IH x w1).
  destruct (exec h (k x) w1) as [[tr r] w2]. by constructor.
Qed.

(** ** Rules for the derived forms *)

Lemma wp_try {A B} (m : Prog (Result A Error)) (k : A → Prog (Result B Error)) Q :
  wp (try m k) Q ↔
  wp m (λ tr r, match r with
                | Done (Ok a) => wp (k a) (λ tr' r', Q (tr ++ tr') r')
                | Done (Err e) => Q tr (Done (Err e))
                | Panicked => Q tr Panicked
                end).
Proof.
  unfold try. rewrite wp_bind. split; apply wp_mono; intros tr [[a|e]|]; simpl; auto;
    by rewrite ?app_nil_r.
Qed.

(** Sequencing with a fact [P] established for every run of the first
    part. *)
Lemma wp_try_with {A B} (P : trace → Outcome (Result A Error) → Prop)
    (m : Prog (Result A Error)) (k : A → Prog (Result B Error)) Q :
  wp m P →
  (∀ tr a, P tr (Done (Ok a)) → wp (k a) (λ tr' r', Q (tr ++ tr') r')) →
  (∀ tr e, P tr (Done (Err e)) → Q tr (Done (Err e))) →
  (∀ tr, P tr Panicked → Q tr Panicked) →
  wp (try m k) Q.
Proof.
  intros Hm Hok Herr Hpanic. apply wp_try. eapply wp_mono; [|apply Hm].
  intros tr [[a|e]|]; auto.
Qed.

Lemma wp_bind_with {A B} (P : trace → Outcome A → Prop) (m : Prog A) (k : A → Prog B) Q :
  wp m P →
  (∀ tr a, P tr (Done a) → wp (k a) (λ tr' r', Q (tr ++ tr') r')) →
  (∀ tr, P tr Panicked → Q tr Panicked) →
  wp (m ≫= k) Q.
Proof.
  intros Hm Hok Hpanic. apply wp_bind. eapply wp_mono; [|apply Hm].
  intros tr [a|]; auto.
Qed.

Lemma wp_conj {A} (m : Prog A) (P Q : trace → Outcome A → Prop) :
  wp m P → wp m Q → wp m (λ tr r, P tr r ∧ Q tr r).
Proof. rewrite !wp_Run. naive_solver. Qed.

(** ** Facts on the steps of a run *)

(** A property of traces that the empty trace has and that concatenation
    keeps: what holds of the steps of each part of a program then holds of
    the steps of the whole. *)
Class Monoidal (I : trace → Prop) : Prop := {
  monoidal_nil : I [];
  monoidal_app tr1 tr2 : I tr1 → I tr2 → I (tr1 ++ tr2);
}.

#[export] Instance Forall_monoidal (P : Obs → Prop) : Monoidal (Forall P).
Proof. split; [constructor|intros; by apply Forall_app]. Qed.

#[export] Instance and_monoidal (I J : trace → Prop) :
  Monoidal I → Monoidal J → Monoidal (λ tr, I tr ∧ J tr).
Proof. intros [??] [??]. split; naive_solver. Qed.

(** The post-condition that looks at the trace only. *)
Definition always {A} (I : trace → Prop) (tr : trace) (r : Outcome A) : Prop := I tr.

#[global] Arguments always : simpl never.

Section always.
Context (I : trace → Prop) `{!Monoidal I}.

Lemma always_bind {A B} (m : Prog A) (k : A → Prog B) :
  wp m (always I) → (∀ a, wp (k a) (always I)) → wp (m ≫= k) (always I).
Proof.
  intros Hm Hk. apply (wp_bind_with (always I)); [done| |done].
  intros tr a Htr. eapply wp_mono; [|apply Hk]. intros tr' r. by apply (monoidal_app (I := I)).
Qed.

End always.

(** A post-condition on the result of a pipeline that a part satisfying
    [I] may come before: it holds of a run made of steps of which [I]
    holds followed by a run of which it holds, and of a run that ends
    early, with an error or a panic, of whose steps [I] holds. *)
Class Stable {B} (I : trace → Prop) (Q : trace → Outcome (Result B Error) → Prop) : Prop := {
  stable_app tr1 tr2 r : I tr1 → Q tr2 r → Q (tr1 ++ tr2) r;
  stable_err tr e : I tr → Q tr (Done (Err e));
  stable_panic tr : I tr → Q tr Panicked;
}.

#[export] Instance always_stable {B} (I : trace → Prop) `{!Monoidal I} :
  Stable (B := B) I (always I).
Proof. split; [intros tr1 tr2 r; apply (monoidal_app (I := I))|done..]. Qed.

Section stable.
Context {B} (I : trace → Prop) (Q : trace → Outcome (Result B Error) → Prop) `{!Stable I Q}.

Lemma stable_bind {A} (m : Prog A) (k : A → Prog (Result B Error)) :
  wp m (always I) → (∀ a, wp (k a) Q) → wp (m ≫= k) Q.
Proof.
  intros Hm Hk. apply (wp_bind_with (always I)); [done|..].
  - intros tr a Htr. eapply wp_mono; [|apply Hk]. intros tr' r. by apply stable_app.
  - apply stable_panic.
Qed.

Lemma stable_try_with {A} (R : A → Prop) (m : Prog (Result A Error)) (k : A → Prog (Result B Error)) :
  wp m (always I) → wp m (λ _ r, ∀ a, r = Done (Ok a) → R a) →
  (∀ a, R a → wp (k a) Q) → wp (try m k) Q.
Proof.
  intros Hm HR Hk. eapply wp_try_with; [exact (wp_conj _ _ _ Hm HR)|..]; simpl.
  - intros tr a [Htr Ha]. eapply wp_mono; [|by apply Hk, Ha]. intros tr' r. by apply stable_app.
  - intros tr e [? _]. by apply stable_err.
  - intros tr [? _]. by apply stable_panic.
Qed.

Lemma stable_try {A} (m : Prog (Result A Error)) (k : A → Prog (Result B Error)) :
  wp m (always I) → (∀ a, wp (k a) Q) → wp (try m k) Q.
Proof.
  intros Hm Hk. apply (stable_try_with (λ _, True)); [done| |auto].
  eapply wp_mono; [|exact Hm]. done.
Qed.

End stable.

(** The rules for [always] are those of [Stable]. *)
Section always_try.
Context (I : trace → Prop) `{!Monoidal I}.

Lemma always_try {A B} (m : Prog (Result A Error)) (k : A → Prog (Result B Error)) :
  wp m (always I) → (∀ a, wp (k a) (always I)) → wp (try m k) (always I).
Proof. apply (stable_try I (always I)). Qed.

(** The same when the first part is known to return results in [R]. *)
Lemma always_try_with {A B} (R : A → Prop)
    (m : Prog (Result A Error)) (k : A → Prog (Result B Error)) :
  wp m (always I) → wp m (λ _ r, ∀ a, r = Done (Ok a) → R a) →
  (∀ a, R a → wp (k a) (always I)) → wp (try m k) (always I).
Proof. apply (stable_try_with I (always I)). Qed.

End always_try.

(** ** Answers a program does not look at *)

(** The runs of a sequence from the runs of its parts. *)
Lemma Run_bind_outcome {A B} (m : Prog A) (k : A → Prog B) tr1 r1 :
  Run m tr1 r1 →
  match r1 with
  | Done a => ∀ tr2 r, Run (k a) tr2 r → Run (m ≫= k) (tr1 ++ tr2) r
  | Panicked => Run (m ≫= k) tr1 Panicked
  end.
Proof.
  induction 1 as [a|X c h x tr r _ IH|]; [done| |constructor].
  change (Vis c h ≫= k) with (Vis c (λ x, h x ≫= k)).
  destruct r; [intros tr2 r Hk; simpl|]; constructor; auto.
Qed.

Lemma Run_bind {A B} (m : Prog A) (k : A → Prog B) tr1 a tr2 r :
  Run m tr1 (Done a) → Run (k a) tr2 r → Run (m ≫= k) (tr1 ++ tr2) r.
Proof. intros Hm. exact (Run_bind_outcome m k _ _ Hm tr2 r). Qed.

Lemma Run_bind_panic {A B} (m : Prog A) (k : A → Prog B) tr :
  Run m tr Panicked → Run (m ≫= k) tr Panicked.
Proof. apply (Run_bind_outcome m k). Qed.

(** [unseen f m]: the program [m] does not look at what [f] changes in
    an answer.  Every run of [m] stays a run of [m], with the same
    result, when each of its steps is rewritten by [f]. *)
Definition unseen {A} (f : Obs → Obs) (m : Prog A) : Prop :=
  wp m (λ tr r, Run m (f <$> tr) r).

Section unseen.
Context (f : Obs → Obs).

Lemma unseen_Run {A} (m : Prog A) tr r : unseen f m → Run m tr r → Run m (f <$> tr) r.
Proof. intros Hm Hrun. exact (Run_wp _ _ _ Hrun _ Hm). Qed.

Lemma unseen_bind {A B} (m : Prog A) (k : A → Prog B) :
  unseen f m → (∀ a, unseen f (k a)) → unseen f (m ≫= k).
Proof.
  intros Hm Hk. apply (wp_bind_with _ _ _ _ Hm).
  - intros tr a Ha. eapply wp_mono; [|apply Hk]. intros tr' r Hr.
    rewrite fmap_app. by apply (Run_bind m k _ a).
  - intros tr. apply Run_bind_panic.
Qed.

Lemma unseen_try {A B} (m : Prog (Result A Error)) (k : A → Prog (Result B Error)) :
  unseen f m → (∀ a, unseen f (k a)) → unseen f (try m k).
Proof.
  intros Hm Hk. unfold try. apply (unseen_bind m); [exact Hm|].
  intros [a|e]; [apply Hk|apply Run_Ret].
Qed.

(** A program whose steps [f] leaves as they are. *)
Lemma unseen_fixed {A} (m : Prog A) : wp m (always (Forall (λ o, f o = o))) → unseen f m.
Proof.
  intros Hm. apply wp_Run. intros tr r Hrun.
  pose proof (Run_wp _ _ _ Hrun _ Hm) as Htr. unfold always in Htr.
  assert (f <$> tr = tr) as ->; [|done]. clear Hrun.
  induction Htr as [|o tr Ho _ IH]; [done|]. rewrite fmap_cons. by f_equal.
Qed.

End unseen.

(** ** Symbolic execution *)

(** One step of a program whose head is known: introduce the answer of a
    command, splitting it when it is a boolean or a result, or split on the
    test the program branches on. *)
Ltac wp_step :=
  lazymatch goal with
  | |- ∀ x : bool, _ => intros []
  | |- ∀ x : Result _ _, _ => intros [?|?]
  | |- ∀ x, _ => intro
  | |- wp (match ?x with _ => _ end) _ => destruct x eqn:?
  | |- wp (Vis _ _) _ => idtac
  | |- wp (Ret _) _ => idtac
  | |- wp Panic _ => idtac
  end; simpl.

Ltac wp_run := simpl; repeat (progress wp_step).

(** ** Projections of a trace *)

(** A command without its answer. *)
Inductive Call : Type :=
| MkCall {X : Type} (c : Cmd X).

Definition obs_call (o : Obs) : Call :=
  match o with MkObs c _ => MkCall c end.

(** The commands of a trace, in order. *)
Definition calls (tr : trace) : list Call := obs_call <$> tr.

(** The child process a step started, for [status()] and [output()]. *)
Definition obs_command (o : Obs) : option Command :=
  match o with
  | MkObs c _ =>
      match c with
      | Status cmd => Some cmd
      | RunOutput cmd => Some cmd
      | _ => None
      end
  end.

(** The child process was started and ended with a zero exit status. *)
Definition obs_succeeded (o : Obs) : bool :=
  match o with
  | MkObs c x =>
      match c in Cmd X return X → bool with
      | Status _ => λ x, match x with Ok s => success s | Err _ => false end
      | RunOutput _ => λ x, match x with Ok out => success (status out) | Err _ => false end
      | _ => λ _, false
      end x
  end.

(** The child process could be started. *)
Definition obs_spawned (o : Obs) : bool :=
  match o with
  | MkObs c x =>
      match c in Cmd X return X → bool with
      | Status _ => λ x, is_ok x
      | RunOutput _ => λ x, is_ok x
      | _ => λ _, false
      end x
  end.

Lemma calls_app tr1 tr2 : calls (tr1 ++ tr2) = calls tr1 ++ calls tr2.
Proof. apply fmap_app. Qed.

