(* ===== verification/Steps.v ===== *)
(** * Steps: a program one call at a time

    [Effects.Run] relates a program to its complete runs.  A property of
    the kind "at no moment of a build ..." speaks of the runs that have
    not ended yet, and of the state a process that is interrupted leaves
    behind.  This file gives the programs of [Effects] a small-step
    reading: a configuration is what is left of the program together with
    a state; a [step] issues the call at the head of the program, takes
    any answer for it and lets the state [react].  [Partial] is the same
    thing told with the trace, [wpp] is the predicate transformer of "at
    every moment", as [Effects.wp] is the one of "at the end".

    The readings agree: a configuration can be reached exactly when a
    partial run leads to it ([steps_Partial]); the complete runs are the
    partial runs that end in a leaf ([Run_Partial]); every partial run is
    the beginning of a complete one ([Partial_complete]); no sequence of
    steps is infinite ([step_sn]).  [wpp_adequate] turns a fact proved
    with the rules of [wpp] into a fact on every configuration that can
    be reached.  [advance] is the executable form: the first [n] calls
    of a program against a handler. *)

From stdpp Require Import relations list.
From S2P Require Import Prelude Effects.

Implicit Types (tr : trace).

(** ** Partial runs *)

(** [Partial m tr m']: the program [m] can issue the commands of [tr],
    receive the answers of [tr], and have [m'] left to do. *)
Inductive Partial {A} : Prog A → trace → Prog A → Prop :=
| Partial_here m : Partial m [] m
| Partial_call {X} (c : Cmd X) k x tr m' :
    Partial (k x) tr m' → Partial (Vis c k) (MkObs c x :: tr) m'.

(** Nothing is left to do. *)
Definition final {A} (m : Prog A) : bool :=
  match m with Vis _ _ => false | _ => true end.

(** The program that has ended with [r]. *)
Definition leaf {A} (r : Outcome A) : Prog A :=
  match r with Done a => Ret a | Panicked => Panic end.

(** What must hold at every moment of every run: [wpp m I] asks [I] of
    the trace so far, before each call of [m] and at its end. *)
Fixpoint wpp {A} (m : Prog A) (I : trace → Prop) : Prop :=
  I [] ∧ match m with
         | Vis c k => ∀ x, wpp (k x) (λ tr, I (MkObs c x :: tr))
         | _ => True
         end.

(** The first [n] calls of [m] against a handler: the trace, and what is
    left of the program. *)
Fixpoint advance {V A} (h : Handler V) (n : nat) (m : Prog A) (v : V) : trace * Prog A :=
  match n, m with
  | S n', Vis c k =>
      let '(x, v') := handle h c v in
      let '(tr, m') := advance h n' (k x) v' in
      (MkObs c x :: tr, m')
  | _, _ => ([], m)
  end.

(** ** Steps *)

Section steps.
Context {W : Type} (react : W → Obs → W).

(** One call: any answer may come back, and the state reacts to it. *)
Inductive step {A} : relation (Prog A * W) :=
| step_call {X} (c : Cmd X) (k : X → Prog A) (x : X) w :
    step (Vis c k, w) (k x, react w (MkObs c x)).

(** The state after the steps of a trace. *)
Definition state_after (w : W) tr : W := foldl react w tr.

Lemma step_inv {A} (cfg cfg' : Prog A * W) :
  step cfg cfg' →
  match cfg.1 with
  | Vis c k => ∃ x, cfg' = (k x, react cfg.2 (MkObs c x))
  | _ => False
  end.
Proof. destruct 1. by eexists. Qed.

(** A configuration whose program has ended cannot step. *)
Lemma final_stuck {A} (m : Prog A) w cfg : final m = true → ¬ step (m, w) cfg.
Proof. intros Hm Hstep%step_inv. by destruct m. Qed.

(** A configuration whose program has not ended can step, with the answer
    a handler gives. *)
Lemma step_progress {A V} (h : Handler V) (v : V) (m : Prog A) w :
  final m = false → ∃ cfg, step (m, w) cfg.
Proof. destruct m as [|X c k|]; try done. intros _. eexists. apply (step_call c k (handle h c v).1). Qed.

(** No sequence of steps is infinite. *)
Lemma step_sn {A} (m : Prog A) w : sn step (m, w).
Proof.
  revert w. induction m as [a|X c k IH|]; intros w; apply Acc_intro; intros [m' w'] Hstep;
    apply step_inv in Hstep; cbn [fst snd] in Hstep; [done| |done].
  destruct Hstep as [x [= -> ->]]. apply IH.
Qed.

End steps.

(** ** Partial and complete runs *)

Lemma Partial_app {A} (m m1 m2 : Prog A) tr1 tr2 :
  Partial m tr1 m1 → Partial m1 tr2 m2 → Partial m (tr1 ++ tr2) m2.
Proof. induction 1; [done|]. intros ?. simpl. constructor. auto. Qed.

(** A run that is continued to its end is a complete run. *)
Lemma Partial_Run {A} (m m' : Prog A) tr tr' r :
  Partial m tr m' → Run m' tr' r → Run m (tr ++ tr') r.
Proof. induction 1; [done|]. intros ?. simpl. constructor. auto. Qed.

(** The complete runs are the partial runs after which nothing is left. *)
Lemma Run_Partial {A} (m : Prog A) tr r : Run m tr r ↔ Partial m tr (leaf r).
Proof.
  split.
  - induction 1; by constructor.
  - intros H. rewrite <- (app_nil_r tr). eapply Partial_Run; [done|]. destruct r; constructor.
Qed.

(** Every partial run is the beginning of a complete run. *)
Lemma Partial_complete {A V} (h : Handler V) (v : V) (m m' : Prog A) tr :
  Partial m tr m' → ∃ tr' r, Run m (tr ++ tr') r.
Proof. intros H. eexists _, _. eapply Partial_Run; [done|]. apply (exec_Run h m' v). Qed.

(** The calls a handler has answered are a partial run. *)
Lemma advance_Partial {A V} (h : Handler V) n (m : Prog A) v :
  Partial m (advance h n m v).1 (advance h n m v).2.
Proof.
  revert m v. induction n as [|n IH]; intros m v; [destruct m; constructor|].
  destruct m as [a|X c k|]; simpl; try constructor.
  destruct (handle h c v) as [x v']. specialize (IH (k x) v').
  destruct (advance h n (k x) v') as [tr m']. by constructor.
Qed.

(** The configurations that can be reached are the ends of the partial
    runs. *)
Lemma steps_Partial {A W} (react : W → Obs → W) (m m' : Prog A) w w' :
  rtc (step react) (m, w) (m', w') ↔ ∃ tr, Partial m tr m' ∧ w' = state_after react w tr.
Proof.
  split.
  - remember (m, w) as cfg eqn:E. remember (m', w') as cfg' eqn:E'. intros H.
    revert m w E. induction H as [cfg|cfg1 cfg2 cfg3 Hstep _ IH]; intros m w ->.
    + injection E' as -> ->. exists []. split; [constructor|done].
    + apply step_inv in Hstep. destruct m as [|X c k|]; try done.
      destruct Hstep as [x ->]. destruct (IH E' _ _ eq_refl) as (tr & Htr & ->).
      exists (MkObs c x :: tr). split; [by constructor|done].
  - intros (tr & Htr & ->). revert w. induction Htr as [m|X c k x tr m' _ IH]; intros w; [done|].
    eapply rtc_l; [apply step_call|apply IH].
Qed.

(** The calls a handler has answered lead to a configuration that can be
    reached. *)
Lemma advance_steps {A V W} (react : W → Obs → W) (h : Handler V) n (m : Prog A) v w :
  rtc (step react) (m, w) ((advance h n m v).2, state_after react w (advance h n m v).1).
Proof. apply steps_Partial. eexists. split; [apply advance_Partial|done]. Qed.

(** Big steps and small steps: a run that ends with [r] is a sequence of
    steps to the configuration of [r]. *)
Lemma steps_Run {A W} (react : W → Obs → W) (m : Prog A) w r w' :
  rtc (step react) (m, w) (leaf r, w') ↔ ∃ tr, Run m tr r ∧ w' = state_after react w tr.
Proof. rewrite steps_Partial. by setoid_rewrite Run_Partial. Qed.

(** A fact on the steps of every run holds of the first step of a program
    and of the steps of what follows it. *)
Lemma wp_Forall_step {A V X} (h : Handler V) (v : V) (P : Obs → Prop)
    (c : Cmd X) (k : X → Prog A) x :
  wp (Vis c k) (always (Forall P)) → P (MkObs c x) ∧ wp (k x) (always (Forall P)).
Proof.
  simpl. intros Hk. specialize (Hk x). split.
  - pose proof (Run_wp _ _ _ (exec_Run h (k x) v) _ Hk) as Hrun.
    unfold always in Hrun. by apply Forall_cons in Hrun as [? _].
  - eapply wp_mono; [|exact Hk]. unfold always. by intros tr r [_ ?]%Forall_cons.
Qed.

(** A program that has ended makes no call. *)
Lemma advance_final {A V} (h : Handler V) n (m : Prog A) v :
  final m = true → advance h n m v = ([], m).
Proof. by destruct n, m. Qed.

(** ** At every moment *)

Lemma wpp_now {A} (m : Prog A) (I : trace → Prop) : wpp m I → I [].
Proof. destruct m; by intros []. Qed.

Lemma wpp_mono {A} (m : Prog A) (I J : trace → Prop) :
  (∀ tr, I tr → J tr) → wpp m I → wpp m J.
Proof.
  revert I J. induction m as [a|X c k IH|]; intros I J HIJ [H0 Hk]; (split; [by apply HIJ|]);
    [done| |done].
  intros x. eapply IH; [|apply Hk]. simpl. auto.
Qed.

(** [wpp] speaks of the partial runs. *)
Lemma wpp_Partial {A} (m : Prog A) (I : trace → Prop) :
  wpp m I ↔ ∀ tr m', Partial m tr m' → I tr.
Proof.
  split.
  - intros Hm tr m' Htr. revert I Hm. induction Htr as [m|X c k x tr m' _ IH]; intros I Hm;
      [by apply (wpp_now m)|]. apply (IH (λ tr, I (MkObs c x :: tr))), Hm.
  - revert I. induction m as [a|X c k IH|]; intros I HI; (split; [eapply HI, Partial_here|]);
      [done| |done].
    intros x. apply IH. intros tr m' Htr. apply (HI _ m'). by constructor.
Qed.

(** What holds at every moment holds at the end. *)
Lemma wpp_wp {A} (m : Prog A) (I : trace → Prop) : wpp m I → wp m (always I).
Proof.
  rewrite wpp_Partial, wp_Run. intros HI tr r Hrun%Run_Partial. by apply (HI tr (leaf r)).
Qed.

(** What holds at the end of every run and of every beginning of a trace
    of which it holds, holds at every moment. *)
Lemma wp_wpp {A V} (h : Handler V) (v : V) (m : Prog A) (I : trace → Prop) :
  (∀ tr tr', I (tr ++ tr') → I tr) → wp m (always I) → wpp m I.
Proof.
  rewrite wpp_Partial, wp_Run. intros Hpre HI tr m' Htr.
  destruct (Partial_complete h v _ _ _ Htr) as (tr' & r & Hrun). eapply Hpre, HI, Hrun.
Qed.

Lemma wpp_leaf {A} (m : Prog A) (I : trace → Prop) : final m = true → I [] → wpp m I.
Proof. by destruct m. Qed.

Lemma wpp_vis {A X} (c : Cmd X) (k : X → Prog A) (I : trace → Prop) :
  I [] → (∀ x, wpp (k x) (λ tr, I (MkObs c x :: tr))) → wpp (Vis c k) I.
Proof. by split. Qed.

(** The moments of [m ≫= k] are those of [m], and those of [k] after a
    run of [m]. *)
Lemma wpp_bind {A B} (m : Prog A) (k : A → Prog B) (I : trace → Prop) :
  wpp m I →
  wp m (λ tr r, ∀ a, r = Done a → wpp (k a) (λ tr', I (tr ++ tr'))) →
  wpp (m ≫= k) I.
Proof.
  revert I. induction m as [a|X c h IH|]; intros I [H0 Hm] Hk.
  - by apply Hk.
  - apply wpp_vis; [done|]. intros x. apply (IH x (λ tr, I (MkObs c x :: tr))); [apply Hm|apply Hk].
  - by apply wpp_leaf.
Qed.

(** The moments of [m?; k]: an error of [m] ends the whole at a moment
    of [m]. *)
Lemma wpp_try {A B} (m : Prog (Result A Error)) (k : A → Prog (Result B Error))
    (I : trace → Prop) :
  wpp m I →
  wp m (λ tr r, ∀ a, r = Done (Ok a) → wpp (k a) (λ tr', I (tr ++ tr'))) →
  wpp (try m k) I.
Proof.
  intros Hm Hk. apply wpp_bind; [done|].
  eapply wp_mono; [|exact (wp_conj _ _ _ (wpp_wp _ _ Hm) Hk)].
  intros tr r [Htr Hr] [a|e] ->; [by apply Hr|]. apply wpp_leaf; [done|]. by rewrite app_nil_r.
Qed.

(** Adequacy: what [wpp] shows of the traces holds of every configuration
    that can be reached. *)
Lemma wpp_adequate {A W} (react : W → Obs → W) (Inv : W → Prop) (m m' : Prog A) w w' :
  wpp m (λ tr, Inv (state_after react w tr)) → rtc (step react) (m, w) (m', w') → Inv w'.
Proof.
  rewrite wpp_Partial. intros HI (tr & Htr & ->)%steps_Partial. by apply (HI tr m').
Qed.

(** ** Symbolic execution *)

(** Walk a program whose calls are known: a goal for the trace at each
    moment, the answers introduced as in [Effects.wp_run]. *)
Ltac wpp_intro :=
  lazymatch goal with
  | |- ∀ x : bool, _ => intros []
  | |- ∀ x : Result _ _, _ => intros [?|?]
  | |- ∀ x, _ => intro
  end.

Ltac wpp_run :=
  simpl;
  lazymatch goal with
  | |- _ ∧ True => split; [|exact I]
  | |- _ ∧ (∀ x, _) => split; [|wpp_intro; wpp_run]
  | |- wpp (match ?x with _ => _ end) _ => destruct x eqn:?; wpp_run
  | |- _ => idtac
  end.
