(* ===== verification/Machine.v ===== *)
(** * Machine: runs that follow a state machine

    The specification describes two parts of the pipeline by the order of
    their calls: the disk-image controller and the volume decorator.  This
    file holds what the two have in common.  A machine is a transition
    function [next] on states, labelled by what a step of a run is taken
    for ([label]); [follows] says that the labelled steps of a run lead
    the machine from one state to another.  The rules compose the facts
    on the parts of a program along [try] and [bind]. *)

From S2P Require Import Prelude Text Paths Config Layout Effects.

Section machine.
Context {S L : Type} (next : S → L → option S) (label : Obs → option L).

(** The machine as a function on a list of labels. *)
Fixpoint machine_run (s : S) (ls : list L) : option S :=
  match ls with
  | [] => Some s
  | l :: ls' => s1 ← next s l; machine_run s1 ls'
  end.

(** The labels of a trace, in order. *)
Definition labels (tr : trace) : list L := omap label tr.

(** [follows ok s s_ok] holds of a run when it did not panic and its
    labels lead the machine from [s] to a state that is [s_ok] if the
    run's result is one [ok] accepts. *)
Definition follows {A} (ok : A → bool) (s s_ok : S) (tr : trace) (r : Outcome A) : Prop :=
  match r with
  | Done a => ∃ s', machine_run s (labels tr) = Some s' ∧ (ok a = true → s' = s_ok)
  | Panicked => False
  end.

Lemma machine_run_app s ls1 ls2 :
  machine_run s (ls1 ++ ls2) = machine_run s ls1 ≫= λ s1, machine_run s1 ls2.
Proof.
  revert s. induction ls1 as [|l ls1 IH]; intros s; simpl; [done|].
  destruct (next s l) as [s1|]; simpl; [apply IH|done].
Qed.

Lemma labels_app tr1 tr2 : labels (tr1 ++ tr2) = labels tr1 ++ labels tr2.
Proof. apply omap_app. Qed.

Lemma labels_none tr : Forall (λ o, label o = None) tr → labels tr = [].
Proof. induction 1 as [|o tr Ho _ IH]; [done|]. unfold labels. simpl. by rewrite Ho. Qed.

Lemma follows_intro {A} (ok : A → bool) s s_ok s' tr a :
  machine_run s (labels tr) = Some s' → (ok a = true → s' = s_ok) →
  follows ok s s_ok tr (Done a).
Proof. intros ??. exists s'. eauto. Qed.

Lemma follows_app {B} (ok : B → bool) s s1 s2 tr1 tr2 (r : Outcome B) :
  machine_run s (labels tr1) = Some s1 → follows ok s1 s2 tr2 r → follows ok s s2 (tr1 ++ tr2) r.
Proof.
  intros H1. destruct r as [b|]; [|done]. intros (s' & H2 & ?). exists s'.
  by rewrite labels_app, machine_run_app, H1.
Qed.

Lemma follows_try {A B} (m : Prog (Result A Error)) (k : A → Prog (Result B Error)) s s1 s2 :
  wp m (follows is_ok s s1) →
  (∀ a, wp (k a) (follows is_ok s1 s2)) →
  wp (try m k) (follows is_ok s s2).
Proof.
  intros Hm Hk. apply (wp_try_with (follows is_ok s s1)); [done|..].
  - intros tr a (s' & Hs & Hok). rewrite Hok in Hs by done.
    eapply wp_mono; [|apply Hk]. intros tr' r. by apply follows_app.
  - intros tr e (s' & Hs & _). by exists s'.
  - done.
Qed.

Lemma follows_bind {A B} (okB : B → bool) (m : Prog A) (k : A → Prog B) s s1 s2 :
  wp m (follows (λ _, true) s s1) →
  (∀ a, wp (k a) (follows okB s1 s2)) →
  wp (m ≫= k) (follows okB s s2).
Proof.
  intros Hm Hk. apply (wp_bind_with (follows (λ _, true) s s1)); [done|..].
  - intros tr a (s' & Hs & Hok). rewrite Hok in Hs by done.
    eapply wp_mono; [|apply Hk]. intros tr' r. by apply follows_app.
  - done.
Qed.

End machine.

#[global] Arguments follows : simpl never.

(** Close a leaf of a symbolic execution: the labels of the concrete trace
    are run through the machine. *)
Ltac follows_leaf := eapply follows_intro; [reflexivity|done].
