(* ===== verification/Build.v ===== *)
(** * Build: the pipeline of lib.rs, stage by stage

    [build] (lines 57-149) as a program over the commands of [Effects].
    The stages are the blocks the source numbers in its comments; each is a
    definition, and [build] composes them in the order of the source.  [?]
    is [try]; [let _ = ...] is a call whose answer is dropped; a [return
    Err(...)] ends the stage with that error.  The temporary directory of
    the operating system and the process id are read from [Env]. *)

From Stdlib Require Import String.
From S2P Require Import Prelude Text Utf8 Paths Config Layout Attach Effects.

Local Open Scope N_scope.

(** What [std::env::temp_dir()] and [std::process::id()] return. *)
Record Env := mkEnv {
  env_temp_dir : path;
  env_pid : u32;
}.

(** ** Program names and fixed arguments *)

Definition cp : text := Eval vm_compute in str "cp"%string.
Definition hdiutil : text := Eval vm_compute in str "hdiutil"%string.
Definition chflags : text := Eval vm_compute in str "chflags"%string.
Definition SetFile : text := Eval vm_compute in str "SetFile"%string.
Definition sync : text := Eval vm_compute in str "sync"%string.

Definition verb_create : text := Eval vm_compute in str "create"%string.
Definition verb_attach : text := Eval vm_compute in str "attach"%string.
Definition verb_detach : text := Eval vm_compute in str "detach"%string.
Definition verb_convert : text := Eval vm_compute in str "convert"%string.

Definition temp_dir_stem : text := Eval vm_compute in str "appdmg_rs_"%string.
Definition temp_dmg_stem : text := Eval vm_compute in str "temp_rw_"%string.
Definition dmg_ext : text := Eval vm_compute in str ".dmg"%string.

Definition background_dir : text := Eval vm_compute in str ".background"%string.
Definition background_png : text := Eval vm_compute in str "background.png"%string.
Definition fseventsd : text := Eval vm_compute in str ".fseventsd"%string.
Definition ds_store_name : text := Eval vm_compute in str ".DS_Store"%string.
Definition volume_icon_name : text := Eval vm_compute in str ".VolumeIcon.icns"%string.

(** ** The command lines *)

(** [cp -R src dest] (line 70). *)
Definition cp_command (src dest : path) : Command :=
  {| program := cp; args := [str "-R"%string; src; dest] |}.

(** [hdiutil create -srcfolder dir -volname title -fs HFS+ -format UDRW -ov
    image -quiet] (lines 81-87). *)
Definition hdiutil_create (dir : path) (volname : text) (image : path) : Command :=
  {| program := hdiutil;
     args := [verb_create; str "-srcfolder"%string; dir; str "-volname"%string; volname;
              str "-fs"%string; str "HFS+"%string; str "-format"%string; str "UDRW"%string;
              str "-ov"%string; image; str "-quiet"%string] |}.

(** [hdiutil attach -readwrite -noverify -noautoopen image] (line 92). *)
Definition hdiutil_attach (image : path) : Command :=
  {| program := hdiutil;
     args := [verb_attach; str "-readwrite"%string; str "-noverify"%string;
              str "-noautoopen"%string; image] |}.

(** [hdiutil detach mount -force -quiet] (line 139). *)
Definition hdiutil_detach (mount_point : path) : Command :=
  {| program := hdiutil;
     args := [verb_detach; mount_point; str "-force"%string; str "-quiet"%string] |}.

(** [hdiutil convert image -format UDZO -o final -quiet] (line 142). *)
Definition hdiutil_convert (image final : path) : Command :=
  {| program := hdiutil;
     args := [verb_convert; image; str "-format"%string; str "UDZO"%string;
              str "-o"%string; final; str "-quiet"%string] |}.

(** [chflags hidden p] (lines 106, 107, 131). *)
Definition chflags_hidden (p : path) : Command :=
  {| program := chflags; args := [str "hidden"%string; p] |}.

(** [SetFile -a C volume] (line 132). *)
Definition setfile_custom_icon (volume : path) : Command :=
  {| program := SetFile; args := [str "-a"%string; str "C"%string; volume] |}.

(** [sync] (line 136). *)
Definition sync_command : Command := {| program := sync; args := [] |}.

Section build.
Context {api : EntryApi}.
Context (env : Env) (config : DmgConfig) (final_dmg_path : path).

(** Line 59: the staging directory. *)
Definition temp_dir : path :=
  join (env_temp_dir env) (temp_dir_stem ++ fmt_u32 (env_pid env)).

(** Line 78, given the parent of the staging directory: the writable
    image. *)
Definition temp_dmg_in (dir : path) : path :=
  join dir (temp_dmg_stem ++ fmt_u32 (env_pid env) ++ dmg_ext).

(** Stage 1 (lines 59-61): a fresh, empty staging directory. *)
Definition prepare_temp_dir : Prog (Result unit Error) :=
  present ← call (PathExists temp_dir);
  when_try present (io_call (RemoveDirAll temp_dir));;?
  io_call (CreateDirAll temp_dir).

(** Line 67: where an item goes in the staging directory. *)
Definition dest_path (item : DmgContent) : path := join temp_dir (item_name item).

(** The body of the loop of stage 2 (lines 65-74) for one item. *)
Definition stage_item (item : DmgContent) : Prog (Result unit Error) :=
  let src_path := c_path item in
  if decide (c_type item = type_file) then
    status ←? io_call (Status (cp_command src_path (dest_path item)));
    if negb (success status) then Ret (Err (CopyFailed src_path)) else Ret (Ok ())
  else if decide (c_type item = type_link) then
    call (Symlink src_path (dest_path item));; Ret (Ok ())
  else Ret (Ok ()).

(** Stage 2 (lines 64-75): copy or link every content item. *)
Fixpoint stage_contents (items : list DmgContent) : Prog (Result unit Error) :=
  match items with
  | [] => Ret (Ok ())
  | item :: rest => stage_item item;;? stage_contents rest
  end.

(** Stage 3 (lines 78-89): create the writable image; its path is the
    result.  [parent().unwrap()] panics on [None]. *)
Definition create_image : Prog (Result path Error) :=
  match parent temp_dir with
  | None => Panic
  | Some dir =>
      let temp_dmg_path := temp_dmg_in dir in
      present ← call (PathExists temp_dmg_path);
      when_try present (io_call (RemoveFile temp_dmg_path));;?
      status ←? io_call (Status (hdiutil_create temp_dir (title config) temp_dmg_path));
      if negb (success status) then Ret (Err CreateFailed) else Ret (Ok temp_dmg_path)
  end.

(** Stage 4 (lines 92-95): attach the image, decode what the process
    printed and find where the image is mounted.  The exit status of
    [hdiutil attach] is not looked at. *)
Definition attach_image (temp_dmg_path : path) : Prog (Result path Error) :=
  attach_out ←? io_call (RunOutput (hdiutil_attach temp_dmg_path));
  let out_str := from_utf8_lossy (stdout attach_out) in
  Ret (ok_or (find_mount_point out_str) NoMountPoint).

(** Stage 5, background (lines 99-107): the background directory, the
    image copied into it if the source exists, both support directories
    hidden.  The result is the on-volume path of the background. *)
Definition setup_background (mount_path : path) : Prog (Result path Error) :=
  let bg_dir := join mount_path background_dir in
  io_call (CreateDirAll bg_dir);;?
  let bg_src := background config in
  let vol_bg_path := join bg_dir background_png in
  present ← call (PathExists bg_src);
  when_try present (io_call (FsCopy bg_src vol_bg_path);;? Ret (Ok ()));;?
  call (Status (chflags_hidden bg_dir));;
  call (Status (chflags_hidden (join mount_path fseventsd)));;
  Ret (Ok vol_bg_path).

(** Stage 5, alias (lines 110-111): [AliasInfo::new(..).ok()] and then
    [.and_then(|i| i.encode().ok())]. *)
Definition resolve_alias (vol_bg_path : path) : Prog (option bytes) :=
  alias_info ← call (AliasNew vol_bg_path);
  match result_ok alias_info with
  | Some i => encoded ← call (AliasEncode i); Ret (result_ok encoded)
  | None => Ret None
  end.

(** Stage 5, entries (lines 114-125): build them and write the
    .DS_Store. *)
Definition write_layout (mount_path : path) (bg_alias_data : option bytes)
  : Prog (Result unit Error) :=
  let entries := layout_entries config bg_alias_data in
  r ← call (WriteDsStore (join mount_path ds_store_name) entries); Ret (lift_ds r).

(** The volume icon (lines 128-134): every step may fail without effect
    on the result. *)
Definition volume_icon (mount_path : path) : Prog unit :=
  present ← call (PathExists (icon config));
  if (present : bool) then
    let dest_icon := join mount_path volume_icon_name in
    copied ← call (FsCopy (icon config) dest_icon);
    if is_ok copied then
      call (Status (chflags_hidden dest_icon));;
      call (Status (setfile_custom_icon mount_path));;
      mret tt
    else mret tt
  else mret tt.

(** Stage 6 (lines 139-148): detach, convert, remove the temporaries,
    report.  The exit status of [hdiutil detach] is dropped; only a failure
    to start it is an error. *)
Definition detach_and_convert (mount_point temp_dmg_path : path) : Prog (Result unit Error) :=
  io_call (Status (hdiutil_detach mount_point));;?
  present ← call (PathExists final_dmg_path);
  when_try present (io_call (RemoveFile final_dmg_path));;?
  status ←? io_call (Status (hdiutil_convert temp_dmg_path final_dmg_path));
  call (RemoveDirAll temp_dir);;
  call (RemoveFile temp_dmg_path);;
  if negb (success status) then Ret (Err ConvertFailed) else Ret (Ok ()).

(** [build] (lines 57-149). *)
Definition build : Prog (Result unit Error) :=
  prepare_temp_dir;;?
  stage_contents (contents config);;?
  temp_dmg_path ←? create_image;
  mount_point ←? attach_image temp_dmg_path;
  vol_bg_path ←? setup_background mount_point;
  bg_alias_data ← resolve_alias vol_bg_path;
  write_layout mount_point bg_alias_data;;?
  volume_icon mount_point;;
  call (Status sync_command);;
  detach_and_convert mount_point temp_dmg_path.

End build.
