(* ===== verification/Oracle.v ===== *)
(** * Oracle: scripted operating systems, for concrete runs of [build]

    A [Script] fixes how the operating system answers: which paths exist,
    how each child process ends, what [hdiutil attach] prints, whether the
    file-system calls and the metadata write succeed.  [oracle] turns a
    script into a [Handler], so that [exec] runs [build] on it and yields a
    trace and a result by computation.  The runs are used to show that the
    hypotheses of the pipeline's theorems are met by real executions, and
    to exhibit executions in which the code departs from the
    specification. *)

From Stdlib Require Import String.
From S2P Require Import Prelude Text Utf8 Paths Config Layout Attach Effects Build.

Local Open Scope N_scope.

Record Script := mkScript {
  sc_exists : path → bool;
  sc_status : Command → io ExitStatus;
  sc_output : Command → io Output;
  sc_fs : path → io unit;
  sc_alias : path → Result AliasInfo AliasError;
  sc_write : Result unit DsError;
}.

(** The answer of the scripted system to one command.  [fs::copy] returns
    the number of bytes copied; the pipeline never reads it. *)
Definition answer (sc : Script) {X} (c : Cmd X) : X :=
  match c in Cmd X return X with
  | PathExists p => sc_exists sc p
  | RemoveDirAll p => sc_fs sc p
  | CreateDirAll p => sc_fs sc p
  | RemoveFile p => sc_fs sc p
  | Symlink _ dst => sc_fs sc dst
  | FsCopy _ dst => match sc_fs sc dst with Ok _ => Ok 0 | Err e => Err e end
  | Status cmd => sc_status sc cmd
  | RunOutput cmd => sc_output sc cmd
  | AliasNew p => sc_alias sc p
  | AliasEncode i => Ok (alias_target i)
  | WriteDsStore _ _ => sc_write sc
  end.

Definition oracle (sc : Script) : Handler unit :=
  {| handle X c w := (answer sc c, w) |}.

(** The trace and the result of [m] on the scripted system. *)
Definition run_trace {A} (sc : Script) (m : Prog A) : trace := exec_trace (oracle sc) m ().
Definition run_outcome {A} (sc : Script) (m : Prog A) : Outcome A := exec_outcome (oracle sc) m ().

Lemma run_Run {A} (sc : Script) (m : Prog A) : Run m (run_trace sc m) (run_outcome sc m).
Proof. apply exec_Run. Defined.

(** ** Scripts *)

Definition exit_ok : io ExitStatus := Ok (Exited 0).
Definition exit_failure : io ExitStatus := Ok (Exited 1).

(** What [hdiutil attach] prints for the example volume: the bytes of the
    table. *)
Definition attach_stdout : bytes := as_bytes (render_attach example_rows).

Definition attach_output : io Output :=
  Ok {| status := Exited 0; stdout := attach_stdout; stderr := [] |}.

(** Everything works; nothing is there beforehand, not even the background
    and the icon the declaration names. *)
Definition happy : Script := {|
  sc_exists _ := false;
  sc_status _ := exit_ok;
  sc_output _ := attach_output;
  sc_fs _ := Ok ();
  sc_alias p := Ok {| alias_target := p |};
  sc_write := Ok ();
|}.

(** As [happy], with the background, the icon and leftovers of an earlier
    run present. *)
Definition furnished : Script := {|
  sc_exists _ := true;
  sc_status _ := exit_ok;
  sc_output _ := attach_output;
  sc_fs _ := Ok ();
  sc_alias p := Ok {| alias_target := p |};
  sc_write := Ok ();
|}.

(** As [sc], but the processes of [prog] whose first argument is [verb]
    end with exit status 1. *)
Definition failing_on (sc : Script) (prog verb : text) : Script := {|
  sc_exists := sc_exists sc;
  sc_status cmd :=
    if decide (program cmd = prog ∧ head (args cmd) = Some verb) then exit_failure
    else sc_status sc cmd;
  sc_output := sc_output sc;
  sc_fs := sc_fs sc;
  sc_alias := sc_alias sc;
  sc_write := sc_write sc;
|}.

Definition failing (prog verb : text) : Script := failing_on happy prog verb.

(** As [happy], but [hdiutil attach] prints nothing. *)
Definition silent_attach : Script := {|
  sc_exists _ := false;
  sc_status _ := exit_ok;
  sc_output _ := Ok {| status := Exited 1; stdout := []; stderr := [] |};
  sc_fs _ := Ok ();
  sc_alias p := Ok {| alias_target := p |};
  sc_write := Ok ();
|}.

(** As [happy], but every call that changes the file system fails. *)
Definition broken_fs : Script := {|
  sc_exists _ := false;
  sc_status _ := exit_ok;
  sc_output _ := attach_output;
  sc_fs _ := Err (OsError 13);
  sc_alias p := Ok {| alias_target := p |};
  sc_write := Ok ();
|}.

(** As [happy], but no alias can be made of the background. *)
Definition no_background : Script := {|
  sc_exists _ := false;
  sc_status _ := exit_ok;
  sc_output _ := attach_output;
  sc_fs _ := Ok ();
  sc_alias _ := Err (AliasFailure 2);
  sc_write := Ok ();
|}.

(** ** The example run *)

Definition example_env : Env :=
  {| env_temp_dir := str "/tmp"%string; env_pid := 4242 |}.

Definition example_out : path := Eval vm_compute in str "dist/Example.dmg"%string.

(** [build] on the example, with the layout library that never fails. *)
Definition example_build : Prog (Result unit Error) :=
  build (api := total_api) example_env example_config example_out.

(** A shortcut to the applications folder, as a link item. *)
Definition link_items : list DmgContent := [
  {| c_x := 300; c_y := 100; c_type := type_link;
     c_path := str "/Applications"%string; c_name := None |} ].
