(* ===== verification/Staging.v ===== *)
(** * Staging: the temporary names and the content loop

    The staging area manager of the specification is stages 1 and 2 of
    [build] together with the cleanup of stage 6.  This file proves what
    the names of the temporaries are (lines 59 and 78), where a content
    item is materialised (line 67), and what every run of the content loop
    (lines 64-75) does. *)

From Stdlib Require Import String.
From S2P Require Import Prelude Text Paths Config Layout Attach Effects Build Oracle.

Local Open Scope N_scope.

(** ** Temporary names *)

Lemma digit_not_slash c : is_digit c = true → c ≠ slash.
Proof. intros ?%is_digit_spec. unfold slash. lia. Qed.

Lemma stem_digits_plain stem ds suffix :
  stem ≠ [] → slash ∉ stem → head stem ≠ Some dot → slash ∉ suffix →
  Forall (λ c, is_digit c = true) ds →
  plain_name (stem ++ ds ++ suffix).
Proof.
  intros Hne Hs Hd Hsuf Hds. destruct stem as [|c stem]; [done|].
  assert (c ≠ dot) by naive_solver.
  split_and!; [done| |naive_solver..].
  rewrite !elem_of_app. intros [?|[Hin|?]]; [done| |done].
  rewrite Forall_forall in Hds. by apply Hds, digit_not_slash in Hin.
Qed.

Lemma temp_dir_name_plain env : plain_name (temp_dir_stem ++ fmt_u32 (env_pid env)).
Proof.
  rewrite <-(app_nil_r (fmt_u32 _)).
  apply stem_digits_plain; try done; [by apply (bool_decide_unpack _)|set_solver|].
  apply fmt_u32_digits.
Qed.

Lemma temp_dmg_name_plain env :
  plain_name (temp_dmg_stem ++ fmt_u32 (env_pid env) ++ dmg_ext).
Proof.
  apply stem_digits_plain; try done; try (by apply (bool_decide_unpack _)).
  apply fmt_u32_digits.
Qed.

(** The staging directory is a direct child of the temporary directory. *)
Lemma temp_dir_parent env : parent (temp_dir env) = Some (normalize (env_temp_dir env)).
Proof. apply parent_join, temp_dir_name_plain. Qed.

Lemma temp_dir_file_name env :
  file_name (temp_dir env) = Some (temp_dir_stem ++ fmt_u32 (env_pid env)).
Proof. apply file_name_join, temp_dir_name_plain. Qed.

(** Its text ends in a digit. *)
Lemma temp_dir_last env : ∃ d, last (temp_dir env) = Some d ∧ is_digit d = true.
Proof.
  destruct (join_plain (env_temp_dir env) _ (temp_dir_name_plain env)) as (b & Hb & _).
  unfold temp_dir. rewrite Hb.
  pose proof (fmt_u32_digits (env_pid env)) as Hds.
  pose proof (fmt_u32_nonempty (env_pid env)) as Hne.
  destruct (fmt_u32 (env_pid env)) as [|d ds] using rev_ind; [done|].
  apply Forall_app in Hds as [_ [Hd _]%Forall_cons_iff].
  exists d. by rewrite !app_assoc, last_snoc.
Qed.

(** So it has no trailing separator. *)
Lemma temp_dir_normal env : normalize (temp_dir env) = temp_dir env.
Proof.
  destruct (temp_dir_last env) as (d & Hl & Hd).
  apply (normalize_fixed _ d); [done|by apply digit_not_slash|].
  apply is_digit_spec in Hd. unfold dot. lia.
Qed.

(** The writable image of a build: a sibling of the staging directory. *)
Definition temp_dmg_path (env : Env) : path :=
  temp_dmg_in env (normalize (env_temp_dir env)).

Lemma temp_dmg_file_name env :
  file_name (temp_dmg_path env) = Some (temp_dmg_stem ++ fmt_u32 (env_pid env) ++ dmg_ext).
Proof. apply file_name_join, temp_dmg_name_plain. Qed.

Lemma temp_dmg_ne_temp_dir env : temp_dmg_path env ≠ temp_dir env.
Proof.
  intros E. apply (f_equal file_name) in E.
  rewrite temp_dmg_file_name, temp_dir_file_name in E. by simplify_eq.
Qed.

(** Builds that share the temporary directory
    of the system but run in different processes use different staging
    directories and different writable images: the names determine the
    process id. *)
Theorem temp_names_injective env1 env2 :
  env_temp_dir env1 = env_temp_dir env2 →
  temp_dir env1 = temp_dir env2 ∨ temp_dmg_path env1 = temp_dmg_path env2 →
  env_pid env1 = env_pid env2.
Proof.
  intros Ht [E|E]; apply fmt_u32_inj.
  - unfold temp_dir in E. rewrite Ht in E.
    apply join_inj in E; [|apply temp_dir_name_plain..]. by simplify_list_eq.
  - unfold temp_dmg_path, temp_dmg_in in E. rewrite Ht in E.
    apply join_inj in E; [|apply temp_dmg_name_plain..]. by simplify_list_eq.
Qed.

(** ** Destinations *)

(** The destination of an item without name override: the staging
    directory, a separator, the display name. *)
Lemma dest_path_inside env item :
  c_name item = None → dest_path env item = temp_dir env ++ slash :: item_name item.
Proof.
  intros Hn%item_name_plain%plain_name_relative.
  destruct (temp_dir_last env) as (d & Hl & Hd%digit_not_slash).
  by apply (join_below _ d).
Qed.

(** An item without name override is materialised
    directly under the staging directory, under its display name. *)
Theorem dest_path_child env item :
  c_name item = None →
  parent (dest_path env item) = Some (temp_dir env)
  ∧ file_name (dest_path env item) = Some (item_name item).
Proof.
  intros Hn%item_name_plain. unfold dest_path.
  by rewrite parent_join, file_name_join, temp_dir_normal.
Qed.

(** The writable image is not the destination of an item: the
    destination is a child of the staging directory and the image a
    sibling of it. *)
Lemma dest_path_ne_temp_dmg env item :
  c_name item = None → dest_path env item ≠ temp_dmg_path env.
Proof.
  intros Hn E. destruct (dest_path_child env item Hn) as [Hp _]. rewrite E in Hp.
  unfold temp_dmg_path, temp_dmg_in in Hp.
  rewrite parent_join, normalize_idemp in Hp by apply temp_dmg_name_plain.
  pose proof (parent_shorter _ _ (temp_dir_parent env)) as Hlt.
  injection Hp as Hp. rewrite Hp in Hlt. lia.
Qed.

(** A name override that is an absolute path is the destination as it
    is. *)
Lemma dest_path_absolute_override env item n :
  c_name item = Some n → is_absolute n = true → dest_path env item = n.
Proof.
  intros Hn Habs. unfold dest_path. rewrite (item_name_override item n) by done.
  by apply join_absolute.
Qed.

(** ** The content loop *)

(** The commands the loop issues for one item. *)
Definition staging_call (env : Env) (item : DmgContent) : list Call :=
  if decide (c_type item = type_file) then
    [MkCall (Status (cp_command (c_path item) (dest_path env item)))]
  else if decide (c_type item = type_link) then
    [MkCall (Symlink (c_path item) (dest_path env item))]
  else [].

(** The commands of a loop that runs to its end. *)
Definition staging_calls (env : Env) (items : list DmgContent) : list Call :=
  items ≫= staging_call env.

(** A step of the loop: a [cp] or a symbolic link. *)
Definition is_staging_obs (o : Obs) : bool :=
  match o with
  | MkObs c _ =>
      match c with
      | Status cmd => bool_decide (program cmd = cp)
      | Symlink _ _ => true
      | _ => false
      end
  end.

(** Every [cp] of the trace was started and exited with status zero. *)
Definition copies_succeeded (tr : trace) : Prop :=
  Forall (λ o, is_Some (obs_command o) → obs_succeeded o = true) tr.

(** What holds of every run of the loop over [items]. *)
Definition staging_post (env : Env) (items : list DmgContent)
    (tr : trace) (r : Outcome (Result unit Error)) : Prop :=
  calls tr `prefix_of` staging_calls env items
  ∧ Forall (λ o, is_staging_obs o = true) tr
  ∧ match r with
    | Done (Ok _) => calls tr = staging_calls env items ∧ copies_succeeded tr
    | Done (Err (CopyFailed src)) =>
        (∃ item, item ∈ items ∧ c_type item = type_file ∧ src = c_path item)
        ∧ ¬ copies_succeeded tr
    | Done (Err (Io _)) => ¬ copies_succeeded tr
    | _ => False
    end.

(** What holds of every run of the loop body on [item]. *)
Definition stage_item_post (env : Env) (item : DmgContent)
    (tr : trace) (r : Outcome (Result unit Error)) : Prop :=
  calls tr = staging_call env item
  ∧ Forall (λ o, is_staging_obs o = true) tr
  ∧ match r with
    | Done (Ok _) => copies_succeeded tr
    | Done (Err (CopyFailed src)) =>
        (c_type item = type_file ∧ src = c_path item) ∧ ¬ copies_succeeded tr
    | Done (Err (Io _)) => ¬ copies_succeeded tr
    | _ => False
    end.

#[global] Arguments staging_post : simpl never.
#[global] Arguments stage_item_post : simpl never.

Lemma copies_succeeded_other o : obs_command o = None → copies_succeeded [o].
Proof. intros Ho. repeat constructor. rewrite Ho. by intros [??]. Qed.

Lemma copies_succeeded_status cmd s :
  negb (success s) = false → copies_succeeded [MkObs (Status cmd) (Ok s)].
Proof. intros Hs%negb_false_iff. repeat constructor. simpl. by rewrite Hs. Qed.

Lemma copies_failed_spawn cmd e : ¬ copies_succeeded [MkObs (Status cmd) (Err e)].
Proof. intros [Hs _]%Forall_cons_iff. by specialize (Hs (mk_is_Some _ _ eq_refl)). Qed.

Lemma copies_failed_status cmd s :
  negb (success s) = true → ¬ copies_succeeded [MkObs (Status cmd) (Ok s)].
Proof.
  intros Hs%negb_true_iff [Ho _]%Forall_cons_iff.
  specialize (Ho (mk_is_Some _ _ eq_refl)). simpl in Ho. congruence.
Qed.

Lemma copies_succeeded_app tr1 tr2 :
  copies_succeeded (tr1 ++ tr2) ↔ copies_succeeded tr1 ∧ copies_succeeded tr2.
Proof. apply Forall_app. Qed.

Lemma stage_item_spec env item : wp (stage_item env item) (stage_item_post env item).
Proof.
  unfold stage_item, stage_item_post, staging_call.
  destruct (decide (c_type item = type_file)) as [Hf|Hf];
    [|destruct (decide (c_type item = type_link)) as [Hl|Hl]];
    wp_run; split_and!;
    auto using copies_succeeded_other, copies_succeeded_status,
      copies_failed_spawn, copies_failed_status;
    by repeat constructor.
Qed.

Lemma staging_post_nil env : staging_post env [] [] (Done (Ok ())).
Proof. unfold staging_post, copies_succeeded. split_and!; by try constructor. Qed.

Lemma staging_post_cons env item items tr1 tr2 r :
  stage_item_post env item tr1 (Done (Ok ())) →
  staging_post env items tr2 r →
  staging_post env (item :: items) (tr1 ++ tr2) r.
Proof.
  intros (Hc & Hs & Hok) (Hpre & Hall & Hr). unfold staging_post, staging_calls.
  rewrite calls_app, Hc, bind_cons. split_and!.
  - by apply prefix_app.
  - by apply Forall_app.
  - destruct r as [[[]|[]]|]; try done; rewrite copies_succeeded_app.
    + destruct Hr as [-> ?]. done.
    + tauto.
    + destruct Hr as [(i & ? & ? & ?) ?]. split; [exists i; set_solver|tauto].
Qed.

Lemma staging_post_stop env item items tr e :
  stage_item_post env item tr (Done (Err e)) →
  staging_post env (item :: items) tr (Done (Err e)).
Proof.
  intros (Hc & Hs & He). unfold staging_post, staging_calls. rewrite Hc, bind_cons.
  split_and!; [by apply prefix_app_r|done|].
  destruct e; try done. destruct He as [[? ->] ?]. split; [|done]. exists item. set_solver.
Qed.

Lemma stage_contents_spec env items :
  wp (stage_contents env items) (staging_post env items).
Proof.
  induction items as [|item items IH]; [apply staging_post_nil|].
  cbn [stage_contents].
  apply (wp_try_with (stage_item_post env item)); [apply stage_item_spec|..].
  - intros tr [] Hitem. eapply wp_mono; [|apply IH].
    intros tr' r. by apply staging_post_cons.
  - intros tr e. apply staging_post_stop.
  - by intros tr (_ & _ & ?).
Qed.

(** A loop over items none of which is a file cannot fail. *)
Lemma stage_contents_no_file env items :
  Forall (λ item, c_type item ≠ type_file) items →
  wp (stage_contents env items) (λ _ r, r = Done (Ok ())).
Proof.
  induction 1 as [|item items Hf _ IH]; [done|]. cbn [stage_contents].
  apply wp_try. unfold stage_item. rewrite decide_False by done.
  destruct (decide (c_type item = type_link)); wp_run; by (eapply wp_mono; [|apply IH]).
Qed.

Section loop_theorems.
Context (env : Env) (items : list DmgContent).
Implicit Types (tr : trace) (r : Outcome (Result unit Error)).

(** C32. A content loop that ends without error
    has issued, in declaration order, exactly one [cp -R] per file item and
    one symbolic link per link item, each towards the staging directory
    under the item's display name, and nothing for an item of another type. *)
Theorem stage_contents_complete tr :
  Run (stage_contents env items) tr (Done (Ok ())) →
  calls tr = staging_calls env items.
Proof. intros Hrun. by destruct (Run_wp _ _ _ Hrun _ (stage_contents_spec env items)) as (_ & _ & [? _]). Qed.

(** C22. The content loop ends without error
    exactly when every [cp] it started could be started and exited with
    status zero; the answer of a symbolic link has no influence. *)
Theorem stage_contents_fatal_copy tr r :
  Run (stage_contents env items) tr r →
  r = Done (Ok ()) ↔ copies_succeeded tr.
Proof.
  intros Hrun. destruct (Run_wp _ _ _ Hrun _ (stage_contents_spec env items)) as (_ & _ & Hr).
  destruct r as [[[]|[]]|]; naive_solver.
Qed.

(** The commands of any run of the
    content loop are a prefix of the commands of the complete loop: items
    are handled in declaration order and nothing is issued after the first
    failure. *)
Theorem stage_contents_stops_at_failure tr r :
  Run (stage_contents env items) tr r →
  calls tr `prefix_of` staging_calls env items.
Proof. intros Hrun. by destruct (Run_wp _ _ _ Hrun _ (stage_contents_spec env items)) as (? & _). Qed.

(** The copy error names the source path
    of a file item of the declaration. *)
Theorem stage_contents_copy_error tr src :
  Run (stage_contents env items) tr (Done (Err (CopyFailed src))) →
  ∃ item, item ∈ items ∧ c_type item = type_file ∧ src = c_path item.
Proof. intros Hrun. by destruct (Run_wp _ _ _ Hrun _ (stage_contents_spec env items)) as (_ & _ & [? _]). Qed.

(** When no item is a file, the loop
    ends without error whatever the file system answers: a symbolic link
    that cannot be made is tolerated. *)
Theorem stage_contents_links_tolerated tr r :
  Forall (λ item, c_type item ≠ type_file) items →
  Run (stage_contents env items) tr r →
  r = Done (Ok ()).
Proof. intros Hf Hrun. by apply (Run_wp _ _ _ Hrun _ (stage_contents_no_file env items Hf)). Qed.

End loop_theorems.

(** ** The theorems on concrete inputs *)

Lemma temp_names_injective_witness : env_pid example_env = env_pid example_env.
Proof. apply (temp_names_injective example_env example_env); [done|by left]. Defined.

Lemma dest_path_child_witness :
  let item := {| c_x := 100; c_y := 100; c_type := type_file;
                 c_path := str "build/Example.app"%string; c_name := None |} in
  parent (dest_path example_env item) = Some (temp_dir example_env)
  ∧ file_name (dest_path example_env item) = Some (item_name item).
Proof. intros item. by apply (dest_path_child example_env item). Defined.

Lemma stage_contents_complete_witness :
  calls (run_trace happy (stage_contents example_env (contents example_config)))
  = staging_calls example_env (contents example_config).
Proof. apply stage_contents_complete. exact (run_Run happy _). Defined.

Lemma stage_contents_fatal_copy_witness :
  let m := stage_contents example_env (contents example_config) in
  run_outcome (failing cp (str "-R"%string)) m = Done (Ok ())
  ↔ copies_succeeded (run_trace (failing cp (str "-R"%string)) m).
Proof. intros m. apply (stage_contents_fatal_copy example_env (contents example_config)), run_Run. Defined.

Lemma stage_contents_stops_at_failure_witness :
  let m := stage_contents example_env (contents example_config) in
  calls (run_trace (failing cp (str "-R"%string)) m)
    `prefix_of` staging_calls example_env (contents example_config).
Proof.
  intros m. eapply (stage_contents_stops_at_failure example_env (contents example_config)), run_Run.
Defined.

Lemma stage_contents_copy_error_witness :
  ∃ item, item ∈ contents example_config ∧ c_type item = type_file
          ∧ str "build/Example.app"%string = c_path item.
Proof.
  apply (stage_contents_copy_error example_env (contents example_config)
           (run_trace (failing cp (str "-R"%string)) (stage_contents example_env (contents example_config)))).
  exact (run_Run (failing cp (str "-R"%string)) _).
Defined.

Lemma stage_contents_links_tolerated_witness :
  run_outcome broken_fs (stage_contents example_env link_items) = Done (Ok ()).
Proof.
  apply (stage_contents_links_tolerated example_env link_items
           (run_trace broken_fs (stage_contents example_env link_items))).
  - repeat constructor. by vm_compute.
  - apply run_Run.
Defined.
