(* ===== verification/Stages.v ===== *)
(** * Stages: from the stages of the pipeline to the pipeline

    A fact on the steps of a run that is [Monoidal] holds of every run of
    [build] as soon as it holds of every run of each stage.  [build_always]
    is that rule, in the order of lib.rs: stages 1 to 3 work on the names
    of the build, stage 4 finds the mount point, and the stages after it
    work on the mounted volume.  The fact may depend on the mount point
    from stage 4 on ([J]); [glue] is what stage 4 owes to join the two.

    [build_last] is the rule for a fact on the result of the pipeline
    that the last stage decides ([Stable]).

    The rules know what the stages hand to each other: the image that
    stage 3 returns is [temp_dmg_path], and the mount point that stage 4
    returns starts with [/Volumes/]. *)

From Stdlib Require Import String.
From S2P Require Import Prelude Text Utf8 Paths Config Layout Attach Effects Build Oracle Staging.

Local Open Scope N_scope.

(** The on-volume copy of the background (lines 99 and 102). *)
Definition vol_bg_path (m : path) : path := join (join m background_dir) background_png.

(** A mounted volume, as stage 4 recognises one. *)
Definition volume (m : path) : Prop := volumes_prefix `prefix_of` m.

(** The mount point in the output of a process. *)
Definition obs_mount (o : Obs) : option path :=
  match o with
  | MkObs c x =>
      match c in Cmd X return X → option path with
      | RunOutput _ => λ x,
          match x with Ok out => find_mount_point (from_utf8_lossy (stdout out)) | Err _ => None end
      | _ => λ _, None
      end x
  end.

(** The volumes a run has mounted. *)
Definition mounts (tr : trace) : list path := omap obs_mount tr.

Lemma mounts_app tr1 tr2 : mounts (tr1 ++ tr2) = mounts tr1 ++ mounts tr2.
Proof. apply omap_app. Qed.

(** A mount point found in the output of a process is a volume. *)
Lemma obs_mount_volume o m : obs_mount o = Some m → volume m.
Proof.
  destruct o as [X c x]. destruct c; try done. destruct x as [out|]; [|done]. simpl.
  intros (? & l & ? & _ & _ & Hl)%find_map_Some. by apply mount_field_shape in Hl as (? & _).
Qed.

Lemma mounts_volume tr : Forall volume (mounts tr).
Proof.
  apply Forall_forall. intros m (o & _ & Ho)%list_elem_of_omap. by apply obs_mount_volume in Ho.
Qed.

(** What stage 4 owes: on an error the fact itself; on a mount point [m],
    that its steps followed by steps of which [J m] holds satisfy the
    fact. *)
Definition glue (I : trace → Prop) (J : path → trace → Prop)
    (tr : trace) (r : Outcome (Result path Error)) : Prop :=
  match r with
  | Done (Ok m) => volume m → ∀ tr2, J m tr2 → I (tr ++ tr2)
  | _ => I tr
  end.

#[global] Arguments glue : simpl never.

(** When the fact does not depend on the mount point, stage 4 owes what
    the other stages owe. *)
Lemma glue_always (I : trace → Prop) `{!Monoidal I} (m : Prog (Result path Error)) :
  wp m (always I) → wp m (glue I (λ _, I)).
Proof.
  apply wp_mono. intros tr [[p|e]|]; unfold glue, always; [|done..].
  intros Htr _ tr2. by apply monoidal_app.
Qed.

Section stages.
Context {api : EntryApi} (env : Env) (config : DmgConfig) (final_dmg_path : path).

(** The image that stage 3 returns. *)
Lemma create_image_path :
  wp (create_image env config) (λ _ r, ∀ dmg, r = Done (Ok dmg) → dmg = temp_dmg_path env).
Proof. unfold create_image, temp_dmg_path. rewrite temp_dir_parent. wp_run; congruence. Qed.

(** The mount point that stage 4 returns. *)
Lemma attach_image_volume dmg :
  wp (attach_image dmg) (λ _ r, ∀ m, r = Done (Ok m) → volume m).
Proof.
  unfold attach_image. wp_run; [|done].
  match goal with H : Done _ = Done _ |- _ => injection H as Hm%ok_or_Ok end.
  apply find_map_Some in Hm as (? & l & ? & _ & _ & Hl).
  by apply mount_field_shape in Hl as (? & _).
Qed.

(** The volume that stage 4 returns is the one its output names. *)
Lemma attach_image_mounts dmg :
  wp (attach_image dmg) (λ tr r, ∀ m, r = Done (Ok m) → mounts tr = [m]).
Proof.
  unfold attach_image. wp_run; [|done].
  match goal with H : Done _ = Done _ |- _ => injection H as Hm%ok_or_Ok end.
  unfold mounts. simpl. by rewrite Hm.
Qed.

(** The path that the background stage returns. *)
Lemma setup_background_path m :
  wp (setup_background config m) (λ _ r, ∀ p, r = Done (Ok p) → p = vol_bg_path m).
Proof. unfold setup_background, vol_bg_path. wp_run; congruence. Qed.

(** The loop of stage 2 from its body. *)
Lemma stage_contents_always (I : trace → Prop) `{!Monoidal I} items :
  (∀ item, item ∈ items → wp (stage_item env item) (always I)) →
  wp (stage_contents env items) (always I).
Proof.
  induction items as [|item items IH]; intros Hitem; [apply monoidal_nil|].
  cbn [stage_contents]. apply always_try; [done|by apply Hitem; left|intros _].
  apply IH. intros ??. apply Hitem. by right.
Qed.

(** The stages after the attachment, on the mount point [m]. *)
Lemma volume_stages_always (I : trace → Prop) `{!Monoidal I} m dmg :
  wp (setup_background config m) (always I) →
  wp (resolve_alias (vol_bg_path m)) (always I) →
  (∀ bg, wp (write_layout config m bg) (always I)) →
  wp (volume_icon config m) (always I) →
  wp (call (Status sync_command)) (always I) →
  wp (detach_and_convert env final_dmg_path m dmg) (always I) →
  wp (vol_bg_path ←? setup_background config m;
      bg_alias_data ← resolve_alias vol_bg_path;
      write_layout config m bg_alias_data;;?
      volume_icon config m;;
      call (Status sync_command);;
      detach_and_convert env final_dmg_path m dmg) (always I).
Proof.
  intros Hbg Halias Hwrite Hicon Hsync Hlast.
  eapply always_try_with; [done..|apply setup_background_path|intros bg_path ->].
  apply always_bind; [done..|intros bg].
  apply always_try; [done..|intros _].
  apply always_bind; [done..|intros _].
  by apply always_bind.
Qed.

(** The rule for the pipeline. *)
Lemma build_always (I : trace → Prop) (J : path → trace → Prop)
    `{!Monoidal I} `{!∀ m, Monoidal (J m)} :
  wp (prepare_temp_dir env) (always I) →
  (∀ item, item ∈ contents config → wp (stage_item env item) (always I)) →
  wp (create_image env config) (always I) →
  wp (attach_image (temp_dmg_path env)) (glue I J) →
  (∀ m, volume m → wp (setup_background config m) (always (J m))) →
  (∀ m, volume m → wp (resolve_alias (vol_bg_path m)) (always (J m))) →
  (∀ m bg, volume m → wp (write_layout config m bg) (always (J m))) →
  (∀ m, volume m → wp (volume_icon config m) (always (J m))) →
  (∀ m, wp (call (Status sync_command)) (always (J m))) →
  (∀ m, volume m →
        wp (detach_and_convert env final_dmg_path m (temp_dmg_path env)) (always (J m))) →
  wp (build env config final_dmg_path) (always I).
Proof.
  intros Hprep Hitem Hcreate Hattach Hbg Halias Hwrite Hicon Hsync Hlast. unfold build.
  apply always_try; [done..|intros _].
  apply always_try; [done|by apply stage_contents_always|intros _].
  eapply always_try_with; [done..|apply create_image_path|intros dmg ->].
  apply (wp_try_with (λ tr r, glue I J tr r
                             ∧ ∀ m, r = Done (Ok m) → volume m)).
  - apply wp_conj; [done|apply attach_image_volume].
  - intros tr m [Hglue Hm]. specialize (Hm m eq_refl).
    eapply wp_mono; [|apply (volume_stages_always (J m)); auto].
    intros tr' r. by apply Hglue.
  - by intros tr e [? _].
  - by intros tr [? _].
Qed.

(** The rule for a fact on the result: the stages before the last one
    have steps of which [I] holds, and the last stage decides. *)
Lemma build_last (I : trace → Prop) `{!Monoidal I}
    (Q : trace → Outcome (Result unit Error) → Prop) `{!Stable I Q} :
  wp (prepare_temp_dir env) (always I) →
  (∀ item, item ∈ contents config → wp (stage_item env item) (always I)) →
  wp (create_image env config) (always I) →
  wp (attach_image (temp_dmg_path env)) (always I) →
  (∀ m, volume m → wp (setup_background config m) (always I)) →
  (∀ m, volume m → wp (resolve_alias (vol_bg_path m)) (always I)) →
  (∀ m bg, volume m → wp (write_layout config m bg) (always I)) →
  (∀ m, volume m → wp (volume_icon config m) (always I)) →
  wp (call (Status sync_command)) (always I) →
  (∀ m, volume m → wp (detach_and_convert env final_dmg_path m (temp_dmg_path env)) Q) →
  wp (build env config final_dmg_path) Q.
Proof.
  intros Hprep Hitem Hcreate Hattach Hbg Halias Hwrite Hicon Hsync Hlast. unfold build.
  apply (stable_try I Q); [done|intros _].
  apply (stable_try I Q); [by apply stage_contents_always|intros _].
  eapply (stable_try_with I Q); [done|apply create_image_path|intros dmg ->].
  eapply (stable_try_with I Q); [done|apply attach_image_volume|intros m Hm].
  eapply (stable_try_with I Q); [auto|apply setup_background_path|intros bg_path ->].
  apply (stable_bind I Q); [auto|intros bg].
  apply (stable_try I Q); [auto|intros _].
  apply (stable_bind I Q); [auto|intros _].
  apply (stable_bind I Q); auto.
Qed.

End stages.
