(* ===== verification/Termination.v ===== *)
(** * Termination: every build ends, and after how many calls

    A program of [Effects.Prog] is a well-founded tree, so every run of it
    is finite; how it ends and how long it can be depends on the program.
    [build] can end without a result at one place, the [unwrap] of line
    78, and its only loop is the one over the content items (lines 64-75),
    which issues at most one call per item; every other stage issues a
    bounded number of calls.  [steps n] says that a run ends with a result
    after at most [n] calls; the bounds of the stages add up along [try]
    and [bind].  The theorem is stated on [exec]: against every handler,
    that is in every environment whose calls return, [build] returns after
    at most [length contents + 26] calls. *)

From Stdlib Require Import String.
From S2P Require Import Prelude Text Paths Config Layout Attach Effects Build Oracle Staging.

Local Open Scope N_scope.

(** The run ended with a result after at most [n] calls. *)
Definition steps {A} (n : nat) (tr : trace) (r : Outcome A) : Prop :=
  r ≠ Panicked ∧ (length tr ≤ n)%nat.

#[global] Arguments steps : simpl never.

Lemma steps_mono {A} (n n' : nat) (m : Prog A) : (n ≤ n')%nat → wp m (steps n) → wp m (steps n').
Proof. intros Hn. apply wp_mono. unfold steps. intros tr r [??]. split; [done|lia]. Qed.

Lemma steps_bind {A B} (n1 n2 : nat) (m : Prog A) (k : A → Prog B) :
  wp m (steps n1) → (∀ a, wp (k a) (steps n2)) → wp (m ≫= k) (steps (n1 + n2)).
Proof.
  intros Hm Hk. apply (wp_bind_with (steps n1)); [done|..]; unfold steps.
  - intros tr a [_ Htr]. eapply wp_mono; [|apply Hk]. unfold steps. intros tr' r [??].
    rewrite length_app. split; [done|lia].
  - by intros tr [? _].
Qed.

Lemma steps_try {A B} (n1 n2 : nat) (m : Prog (Result A Error)) (k : A → Prog (Result B Error)) :
  wp m (steps n1) → (∀ a, wp (k a) (steps n2)) → wp (try m k) (steps (n1 + n2)).
Proof.
  intros Hm Hk. apply (wp_try_with (steps n1)); [done|..]; unfold steps.
  - intros tr a [_ Htr]. eapply wp_mono; [|apply Hk]. unfold steps. intros tr' r [??].
    rewrite length_app. split; [done|lia].
  - intros tr e [_ ?]. split; [done|lia].
  - by intros tr [? _].
Qed.

(** Close a leaf of a symbolic execution: count the calls. *)
Ltac steps_leaf := unfold steps; split; [done|simpl; lia].

Section stages.
Context {api : EntryApi} (env : Env) (config : DmgConfig) (final_dmg_path : path).

Lemma prepare_steps : wp (prepare_temp_dir env) (steps 3).
Proof. unfold prepare_temp_dir. wp_run; steps_leaf. Qed.

Lemma stage_item_steps item : wp (stage_item env item) (steps 1).
Proof. unfold stage_item. repeat case_decide; wp_run; steps_leaf. Qed.

(** The loop takes at most one call per item. *)
Lemma stage_contents_steps items : wp (stage_contents env items) (steps (length items)).
Proof.
  induction items as [|item items IH]; [steps_leaf|]. cbn [stage_contents length].
  apply (steps_try 1); [apply stage_item_steps|done].
Qed.

Lemma create_image_steps : wp (create_image env config) (steps 3).
Proof. unfold create_image. rewrite temp_dir_parent. wp_run; steps_leaf. Qed.

Lemma attach_image_steps dmg : wp (attach_image dmg) (steps 1).
Proof. unfold attach_image. wp_run; steps_leaf. Qed.

Lemma setup_background_steps m : wp (setup_background config m) (steps 5).
Proof. unfold setup_background. wp_run; steps_leaf. Qed.

Lemma resolve_alias_steps p : wp (resolve_alias p) (steps 2).
Proof. unfold resolve_alias. wp_run; steps_leaf. Qed.

Lemma write_layout_steps m bg : wp (write_layout config m bg) (steps 1).
Proof. unfold write_layout. wp_run; steps_leaf. Qed.

Lemma volume_icon_steps m : wp (volume_icon config m) (steps 4).
Proof. unfold volume_icon. wp_run; steps_leaf. Qed.

Lemma sync_steps : wp (call (Status sync_command)) (steps 1).
Proof. wp_run; steps_leaf. Qed.

Lemma detach_and_convert_steps m dmg :
  wp (detach_and_convert env final_dmg_path m dmg) (steps 6).
Proof. unfold detach_and_convert. wp_run; steps_leaf. Qed.

Lemma build_steps : wp (build env config final_dmg_path) (steps (length (contents config) + 26)).
Proof.
  apply (steps_mono (3 + (length (contents config) + (3 + (1 + (5 + (2 + (1 + (4 + (1 + 6)))))))))).
  { lia. }
  unfold build.
  apply steps_try; [apply prepare_steps|intros _].
  apply steps_try; [apply stage_contents_steps|intros _].
  apply steps_try; [apply create_image_steps|intros dmg].
  apply steps_try; [apply attach_image_steps|intros m].
  apply steps_try; [apply setup_background_steps|intros bg_path].
  apply steps_bind; [apply resolve_alias_steps|intros bg].
  apply steps_try; [apply write_layout_steps|intros _].
  apply steps_bind; [apply volume_icon_steps|intros _].
  apply steps_bind; [apply sync_steps|intros _].
  apply detach_and_convert_steps.
Qed.

(** C14. In every environment, [build] returns: run
    against any handler from any state, it ends with a result after at
    most one call per content item and 26 more.  It never panics: the
    [unwrap] of line 78 always finds the parent of the staging
    directory. *)
Theorem build_terminates {W} (h : Handler W) (w : W) :
  ∃ tr res w', exec h (build env config final_dmg_path) w = (tr, Done res, w')
               ∧ (length tr ≤ length (contents config) + 26)%nat.
Proof.
  pose proof (exec_Run h (build env config final_dmg_path) w) as Hrun.
  pose proof (Run_wp _ _ _ Hrun _ build_steps) as [Hres Hlen].
  unfold exec_trace, exec_outcome in *.
  destruct (exec h (build env config final_dmg_path) w) as [[tr [res|]] w']; [|done].
  by exists tr, res, w'.
Qed.

End stages.

(** The bound is attained: on a system where every path exists and every
    call succeeds, the build of the example, which has two items, takes 28
    calls. *)
Lemma build_steps_attained : length (run_trace furnished example_build) = 28%nat.
Proof. by vm_compute. Qed.
