(* ===== verification/Controller.v ===== *)
(** * Controller: the disk-image controller and the order of its calls

    The specification describes the controller as a state machine
    [Unstarted → Created → Attached → Detached → Converted], each transition
    being one call of [hdiutil].  [dic_step] is that machine, labelled by
    the verb of the call; [verbs] projects a trace of [build] on the verbs
    of the [hdiutil] processes it started.  The theorems state that every
    run of [build] is a path of the machine from [Unstarted] and that it
    returns [Ok] only in [Converted].  Two theorems on
    exit statuses follow: the one [hdiutil attach] reports has no
    influence on any run of [build], and the one [hdiutil detach] reports
    has none on stage 6. *)

From Stdlib Require Import String.
From S2P Require Import Prelude Text Utf8 Paths Config Layout Attach Effects Machine Build Oracle Staging Stages.

Local Open Scope N_scope.

(** ** The state machine *)

Inductive DicState := Unstarted | Created | Attached | Detached | Converted.

#[export] Instance DicState_eq_dec : EqDecision DicState.
Proof. solve_decision. Defined.

Inductive dic_step : DicState → text → DicState → Prop :=
| step_create : dic_step Unstarted verb_create Created
| step_attach : dic_step Created verb_attach Attached
| step_detach : dic_step Attached verb_detach Detached
| step_convert : dic_step Detached verb_convert Converted.

(** Paths of the machine, labelled by the verbs taken. *)
Inductive dic_steps : DicState → list text → DicState → Prop :=
| dic_steps_nil s : dic_steps s [] s
| dic_steps_cons s v s1 vs s2 :
    dic_step s v s1 → dic_steps s1 vs s2 → dic_steps s (v :: vs) s2.

(** The machine as a function. *)
Definition dic_next (s : DicState) (v : text) : option DicState :=
  match s with
  | Unstarted => if decide (v = verb_create) then Some Created else None
  | Created => if decide (v = verb_attach) then Some Attached else None
  | Attached => if decide (v = verb_detach) then Some Detached else None
  | Detached => if decide (v = verb_convert) then Some Converted else None
  | Converted => None
  end.

Definition dic_run : DicState → list text → option DicState := machine_run dic_next.

(** How far the machine has come. *)
Definition dic_rank (s : DicState) : nat :=
  match s with Unstarted => 0 | Created => 1 | Attached => 2 | Detached => 3 | Converted => 4 end.

(** The verbs in the order of the machine. *)
Definition dic_verbs : list text := [verb_create; verb_attach; verb_detach; verb_convert].

(** ** The verbs of a trace *)

(** The verb of a step that started [hdiutil]. *)
Definition hdiutil_verb (o : Obs) : option text :=
  cmd ← obs_command o;
  if decide (program cmd = hdiutil) then head (args cmd) else None.

Definition verbs : trace → list text := labels hdiutil_verb.

(** ** Facts on the machine *)

Lemma dic_next_step s v s' : dic_next s v = Some s' ↔ dic_step s v s'.
Proof.
  split.
  - destruct s; simpl; intros; repeat case_decide; simplify_eq; constructor.
  - by destruct 1.
Qed.

Lemma dic_run_steps s vs s' : dic_run s vs = Some s' ↔ dic_steps s vs s'.
Proof.
  unfold dic_run. revert s. induction vs as [|v vs IH]; intros s; simpl.
  - split; [intros [= ->]; constructor|by inversion 1].
  - split.
    + destruct (dic_next s v) as [s1|] eqn:E; [|done]. simpl.
      intros ?%IH. apply dic_next_step in E. by econstructor.
    + inversion 1 as [|????? Hstep Hrest]; subst.
      apply dic_next_step in Hstep. rewrite Hstep. simpl. by apply IH.
Qed.

Lemma dic_step_rank s v s' : dic_step s v s' → dic_rank s' = S (dic_rank s).
Proof. by destruct 1. Qed.

Lemma dic_step_verb s v s' : dic_step s v s' → dic_verbs !! dic_rank s = Some v.
Proof. by destruct 1. Qed.

(** A path from [s] takes the verbs in order, one per state passed. *)
Lemma dic_steps_verbs s vs s' :
  dic_steps s vs s' →
  dic_rank s' = (dic_rank s + length vs)%nat
  ∧ vs = take (length vs) (drop (dic_rank s) dic_verbs).
Proof.
  induction 1 as [s|s v s1 vs s2 Hstep _ [IH1 IH2]]; simpl.
  - split; [lia|done].
  - pose proof (dic_step_rank _ _ _ Hstep) as Hr.
    pose proof (dic_step_verb _ _ _ Hstep) as Hv.
    split; [lia|]. rewrite (drop_S _ v _ Hv), <-Hr. simpl. by f_equal.
Qed.

(** ** Facts on the projection *)

Lemma staging_obs_no_verb o : is_staging_obs o = true → hdiutil_verb o = None.
Proof.
  destruct o as [X c x]. destruct c; simpl; try done.
  intros Hp%bool_decide_eq_true. unfold hdiutil_verb. simpl. by rewrite Hp.
Qed.

Lemma verbs_staging tr : Forall (λ o, is_staging_obs o = true) tr → verbs tr = [].
Proof.
  intros Htr. apply labels_none. eapply Forall_impl; [done|]. apply staging_obs_no_verb.
Qed.

(** ** Every stage moves the machine as the specification says *)

(** [ctl_post ok s s_ok] holds of a run when it did not panic and its
    verbs lead the machine from [s] to a state that is [s_ok] if the run's
    result is one [ok] accepts. *)
Abbreviation ctl_post := (follows dic_next hdiutil_verb).
Abbreviation any_ok := (λ _, true).

Section stages.
Context {api : EntryApi} (env : Env) (config : DmgConfig) (final_dmg_path : path).

Lemma prepare_ctl s : wp (prepare_temp_dir env) (ctl_post is_ok s s).
Proof. unfold prepare_temp_dir. wp_run; follows_leaf. Qed.

Lemma stage_contents_ctl s items : wp (stage_contents env items) (ctl_post is_ok s s).
Proof.
  eapply wp_mono; [|apply stage_contents_spec]. intros tr r (_ & Hs & Hr).
  destruct r as [a|]; [|done]. eapply follows_intro; [|done].
  pose proof (verbs_staging tr Hs) as Hv. unfold verbs in Hv. by rewrite Hv.
Qed.

Lemma create_image_ctl : wp (create_image env config) (ctl_post is_ok Unstarted Created).
Proof. unfold create_image. rewrite temp_dir_parent. wp_run; follows_leaf. Qed.

Lemma attach_image_ctl dmg : wp (attach_image dmg) (ctl_post is_ok Created Attached).
Proof. unfold attach_image. wp_run; follows_leaf. Qed.

Lemma setup_background_ctl s m : wp (setup_background config m) (ctl_post is_ok s s).
Proof. unfold setup_background. wp_run; follows_leaf. Qed.

Lemma resolve_alias_ctl s p : wp (resolve_alias p) (ctl_post any_ok s s).
Proof. unfold resolve_alias. wp_run; follows_leaf. Qed.

Lemma write_layout_ctl s m bg : wp (write_layout config m bg) (ctl_post is_ok s s).
Proof. unfold write_layout. wp_run; follows_leaf. Qed.

Lemma volume_icon_ctl s m : wp (volume_icon config m) (ctl_post any_ok s s).
Proof. unfold volume_icon. wp_run; follows_leaf. Qed.

Lemma sync_ctl s : wp (call (Status sync_command)) (ctl_post any_ok s s).
Proof. wp_run; follows_leaf. Qed.

Lemma detach_and_convert_ctl m dmg :
  wp (detach_and_convert env final_dmg_path m dmg) (ctl_post is_ok Attached Converted).
Proof. unfold detach_and_convert. wp_run; follows_leaf. Qed.

Lemma build_ctl : wp (build env config final_dmg_path) (ctl_post is_ok Unstarted Converted).
Proof.
  unfold build.
  apply (follows_try _ _ _ _ _ Unstarted); [apply prepare_ctl|intros _].
  apply (follows_try _ _ _ _ _ Unstarted); [apply stage_contents_ctl|intros _].
  apply (follows_try _ _ _ _ _ Created); [apply create_image_ctl|intros dmg].
  apply (follows_try _ _ _ _ _ Attached); [apply attach_image_ctl|intros m].
  apply (follows_try _ _ _ _ _ Attached); [apply setup_background_ctl|intros bg_path].
  apply (follows_bind _ _ _ _ _ _ Attached); [apply resolve_alias_ctl|intros bg].
  apply (follows_try _ _ _ _ _ Attached); [apply write_layout_ctl|intros _].
  apply (follows_bind _ _ _ _ _ _ Attached); [apply volume_icon_ctl|intros _].
  apply (follows_bind _ _ _ _ _ _ Attached); [apply sync_ctl|intros _].
  apply detach_and_convert_ctl.
Qed.

(** C1. In every run of [build], the [hdiutil]
    processes started are, in order, a path of the controller's state
    machine from [Unstarted]: create, attach, detach, convert, each at most
    once and none before its predecessor; and a run that returns [Ok] has
    taken all four. *)
Theorem build_controller_order tr r :
  Run (build env config final_dmg_path) tr r →
  ∃ s, dic_steps Unstarted (verbs tr) s
       ∧ verbs tr `prefix_of` dic_verbs
       ∧ (r = Done (Ok ()) → s = Converted ∧ verbs tr = dic_verbs).
Proof.
  intros Hrun. pose proof (Run_wp _ _ _ Hrun _ build_ctl) as Hctl.
  destruct r as [a|]; [|done]. destruct Hctl as (s & Hs%dic_run_steps & Hok). exists s.
  change (labels hdiutil_verb tr) with (verbs tr) in Hs.
  destruct (dic_steps_verbs _ _ _ Hs) as [Hrank Hv]. simpl in Hv.
  split_and!; [done|rewrite Hv; apply prefix_take|].
  intros [= ->]. specialize (Hok eq_refl) as ->. split; [done|].
  simpl in Hrank. rewrite Hv. by replace (length (verbs tr)) with 4%nat by lia.
Qed.

End stages.

(** ** The calls of the controller, one by one *)

(** Build the run of a program along a given trace. *)
Ltac run_along :=
  simpl;
  repeat first
  [ apply Run_Ret
  | apply @Run_Vis; simpl
  | match goal with H : _ = _ |- _ => rewrite H; simpl end ].

Section controller_calls.
Context (env : Env) (final_dmg_path : path).

(** C34. The exit status of [hdiutil detach] has no
    influence on stage 6: a run in which the process was started stays a
    run, with the same calls after it and the same result, when the status
    is replaced by any other.  A detachment that fails is followed by the
    conversion all the same. *)
Theorem detach_status_ignored m dmg tr r st :
  Run (detach_and_convert env final_dmg_path m dmg) tr r →
  obs_spawned <$> head tr = Some true →
  Run (detach_and_convert env final_dmg_path m dmg)
      (MkObs (Status (hdiutil_detach m)) (Ok st) :: tail tr) r.
Proof.
  intros Hrun. pattern tr, r. apply (Run_wp _ _ _ Hrun). unfold detach_and_convert.
  wp_run; try done; run_along.
Qed.

End controller_calls.

(** ** The exit status of [hdiutil attach] *)

(** A step with the exit status of a process whose output is captured
    replaced by [st].  What the process printed stays. *)
Definition restatus (st : ExitStatus) (o : Obs) : Obs :=
  match o with
  | MkObs c x =>
      match c in Cmd X return X → Obs with
      | RunOutput cmd => λ x,
          MkObs (RunOutput cmd)
            (match x with
             | Ok out => Ok {| status := st; stdout := stdout out; stderr := stderr out |}
             | Err e => Err e
             end)
      | c' => λ x, MkObs c' x
      end x
  end.

(** The outputs of the [hdiutil attach] processes of a step. *)
Definition obs_attached (o : Obs) : list Output :=
  match o with
  | MkObs c x =>
      match c in Cmd X return X → list Output with
      | RunOutput _ => λ x, match x with Ok out => [out] | Err _ => [] end
      | _ => λ _, []
      end x
  end.

(** A stage that captures no output. *)
Ltac fixed_stage := apply unseen_fixed; wp_run; unfold always; repeat constructor.

Section attach_status.
Context {api : EntryApi} (env : Env) (config : DmgConfig) (final_dmg_path : path).
Context (st : ExitStatus).

Lemma stage_contents_restatus items : unseen (restatus st) (stage_contents env items).
Proof.
  apply unseen_fixed, stage_contents_always; [apply _|]. intros item _.
  unfold stage_item. repeat case_decide; wp_run; unfold always; repeat constructor.
Qed.

Lemma attach_image_restatus dmg : unseen (restatus st) (attach_image dmg).
Proof. unfold unseen, attach_image. wp_run; run_along. Qed.

(** C33. The exit status of [hdiutil attach] has no influence on a build.
    A run of [build] stays a run of [build], with the same calls and the
    same result, when the status that [hdiutil attach] exited with is
    replaced by any other and what it printed is kept: line 92 captures
    the output and no line looks at the status.  An attachment that fails
    after printing a mount point is taken for one that worked, and the
    stages after it run as they would have. *)
Theorem attach_status_ignored tr r :
  Run (build env config final_dmg_path) tr r →
  Run (build env config final_dmg_path) (restatus st <$> tr) r.
Proof.
  apply unseen_Run. unfold build.
  apply unseen_try; [unfold prepare_temp_dir; fixed_stage|intros _].
  apply unseen_try; [apply stage_contents_restatus|intros _].
  apply unseen_try; [unfold create_image; fixed_stage|intros dmg].
  apply unseen_try; [apply attach_image_restatus|intros m].
  apply unseen_try; [unfold setup_background; fixed_stage|intros bg_path].
  apply unseen_bind; [unfold resolve_alias; fixed_stage|intros bg].
  apply unseen_try; [unfold write_layout; fixed_stage|intros _].
  apply unseen_bind; [unfold volume_icon; fixed_stage|intros _].
  apply unseen_bind; [fixed_stage|intros _].
  unfold detach_and_convert. fixed_stage.
Qed.

End attach_status.

(** ** The theorems on concrete runs *)

Lemma build_controller_order_witness :
  let tr := run_trace (failing hdiutil verb_convert) example_build in
  ∃ s, dic_steps Unstarted (verbs tr) s
       ∧ verbs tr `prefix_of` dic_verbs
       ∧ (run_outcome (failing hdiutil verb_convert) example_build = Done (Ok ())
          → s = Converted ∧ verbs tr = dic_verbs).
Proof.
  intros tr.
  apply (build_controller_order example_env example_config example_out _ _ (run_Run _ _)).
Defined.

Lemma attach_status_ignored_witness :
  Run example_build (restatus (Exited 1) <$> run_trace happy example_build) (Done (Ok ())).
Proof.
  apply (attach_status_ignored example_env example_config example_out (Exited 1)).
  exact (run_Run happy example_build).
Defined.

(** On the example the rewritten run differs from the run it comes from:
    its [hdiutil attach] has exited with status 1, and it is the only step
    that has changed. *)
Example attach_status_rewritten :
  let tr := run_trace happy example_build in
  status <$> concat (obs_attached <$> (restatus (Exited 1) <$> tr)) = [Exited 1]
  ∧ status <$> concat (obs_attached <$> tr) = [Exited 0]
  ∧ calls (restatus (Exited 1) <$> tr) = calls tr.
Proof. by vm_compute. Qed.

Lemma detach_status_ignored_witness :
  let m := str "/Volumes/My App"%string in
  let stage := detach_and_convert example_env example_out m (temp_dmg_path example_env) in
  Run stage (MkObs (Status (hdiutil_detach m)) (Ok (Exited 1)) :: tail (run_trace happy stage))
      (Done (Ok ())).
Proof.
  intros m stage.
  apply (detach_status_ignored example_env example_out m _ _ _ (Exited 1) (run_Run happy stage)).
  done.
Defined.

(** On the example, a build whose
    [hdiutil detach] exits with status 1 starts the conversion nevertheless
    and returns [Ok]: all four verbs are issued. *)
Theorem build_detach_failure_absorbed :
  let sc := failing hdiutil verb_detach in
  run_outcome sc example_build = Done (Ok ())
  ∧ verbs (run_trace sc example_build) = dic_verbs
  ∧ obs_succeeded <$> (filter (λ o, hdiutil_verb o = Some verb_detach) (run_trace sc example_build))
    = [false].
Proof. by vm_compute. Qed.
