(* ===== verification/Decorator.v ===== *)
(** * Decorator: the order of the steps on the mounted volume

    The specification describes the volume decorator as a sequence: the
    metadata is written, the two support directories are hidden, the
    custom icon is copied, hidden and flagged, and the file system is
    synced before the volume is detached.  lib.rs hides the support
    directories first (lines 106-107) and writes the metadata after
    (line 125).  [deco] names the steps of a run that belong to that
    sequence, [deco_next] is the machine lib.rs follows, and [protocol]
    lists its complete paths: the icon part is absent when there is no
    icon, cut short after the copy when the copy fails, and complete
    otherwise. *)

From Stdlib Require Import String.
From S2P Require Import Prelude Text Paths Config Layout Attach Effects Machine Build Oracle Staging.

Local Open Scope N_scope.

(** ** The steps and the machine *)

Inductive Deco :=
| HideBackground | HideEvents | WriteMetadata | CopyIcon | HideIcon | FlagIcon | Sync | Detach.

#[export] Instance Deco_eq_dec : EqDecision Deco.
Proof. solve_decision. Defined.

(** What [chflags hidden p] hides, by the name of [p]. *)
Definition hide_target (p : path) : option Deco :=
  n ← file_name p;
  if decide (n = background_dir) then Some HideBackground
  else if decide (n = fseventsd) then Some HideEvents
  else if decide (n = volume_icon_name) then Some HideIcon
  else None.

(** What a process is for the decorator. *)
Definition deco_command (cmd : Command) : option Deco :=
  if decide (program cmd = chflags) then last (args cmd) ≫= hide_target
  else if decide (program cmd = SetFile) then Some FlagIcon
  else if decide (program cmd = sync) then Some Sync
  else if decide (program cmd = hdiutil ∧ head (args cmd) = Some verb_detach) then Some Detach
  else None.

(** What a step is for the decorator. *)
Definition deco (o : Obs) : option Deco :=
  match o with
  | MkObs c _ =>
      match c with
      | Status cmd => deco_command cmd
      | WriteDsStore _ _ => Some WriteMetadata
      | FsCopy _ dst =>
          if decide (file_name dst = Some volume_icon_name) then Some CopyIcon else None
      | _ => None
      end
  end.

Definition decos : trace → list Deco := labels deco.

Inductive DecoState :=
| Bare | BackgroundHidden | EventsHidden | MetadataWritten
| IconCopied | IconHidden | IconFlagged | Synced | Unmounted.

#[export] Instance DecoState_eq_dec : EqDecision DecoState.
Proof. solve_decision. Defined.

(** The order of lib.rs. *)
Definition deco_next (s : DecoState) (d : Deco) : option DecoState :=
  match s, d with
  | Bare, HideBackground => Some BackgroundHidden
  | BackgroundHidden, HideEvents => Some EventsHidden
  | EventsHidden, WriteMetadata => Some MetadataWritten
  | MetadataWritten, CopyIcon => Some IconCopied
  | IconCopied, HideIcon => Some IconHidden
  | IconHidden, FlagIcon => Some IconFlagged
  | (MetadataWritten | IconCopied | IconFlagged), Sync => Some Synced
  | Synced, Detach => Some Unmounted
  | _, _ => None
  end.

(** The complete paths of the machine, by what is done for the icon. *)
Definition icon_parts : list (list Deco) := [[]; [CopyIcon]; [CopyIcon; HideIcon; FlagIcon]].

Definition protocol (icon : list Deco) : list Deco :=
  [HideBackground; HideEvents; WriteMetadata] ++ icon ++ [Sync; Detach].

(** The order of the specification: the metadata first. *)
Definition spec_protocol (icon : list Deco) : list Deco :=
  [WriteMetadata; HideBackground; HideEvents] ++ icon ++ [Sync; Detach].

(** ** Facts on the machine *)

(** The paths of the machine from [Bare] are the prefixes of the
    protocols; the metadata is written after the support directories are
    hidden. *)
Lemma deco_language ds s :
  machine_run deco_next Bare ds = Some s →
  (∃ icon, icon ∈ icon_parts ∧ ds `prefix_of` protocol icon
           ∧ (s = Unmounted → ds = protocol icon))
  ∧ (WriteMetadata ∈ ds → [HideBackground; HideEvents] `prefix_of` ds).
Proof.
  unfold icon_parts, protocol. intros Hrun.
  repeat (destruct ds as [|[] ds]; simpl in Hrun; try done; simplify_eq);
    (split; [|first [by eexists|set_solver]]);
    first [ exists []; split_and!; [set_solver|by eexists|done]
          | exists [CopyIcon]; split_and!; [set_solver|by eexists|done]
          | exists [CopyIcon; HideIcon; FlagIcon]; split_and!; [set_solver|by eexists|done] ].
Qed.

(** No path of the specification's order starts by hiding. *)
Lemma spec_protocol_head ds icon :
  [HideBackground; HideEvents] `prefix_of` ds → ¬ ds `prefix_of` spec_protocol icon.
Proof. intros [? ->] [? [=]]. Qed.

(** ** Facts on the labels *)

Lemma hide_target_join m n d :
  plain_name n → hide_target n = Some d → hide_target (join m n) = Some d.
Proof. intros Hn. unfold hide_target. by rewrite file_name_join, file_name_plain. Qed.

Lemma deco_chflags m n d x :
  plain_name n → hide_target n = Some d →
  deco (MkObs (Status (chflags_hidden (join m n))) x) = Some d.
Proof. apply hide_target_join. Qed.

Lemma deco_hide_background m x :
  deco (MkObs (Status (chflags_hidden (join m background_dir))) x) = Some HideBackground.
Proof. by apply deco_chflags; [apply (bool_decide_unpack _)|]. Qed.

Lemma deco_hide_events m x :
  deco (MkObs (Status (chflags_hidden (join m fseventsd))) x) = Some HideEvents.
Proof. by apply deco_chflags; [apply (bool_decide_unpack _)|]. Qed.

Lemma deco_hide_icon m x :
  deco (MkObs (Status (chflags_hidden (join m volume_icon_name))) x) = Some HideIcon.
Proof. by apply deco_chflags; [apply (bool_decide_unpack _)|]. Qed.

Lemma deco_copy_icon src m x :
  deco (MkObs (FsCopy src (join m volume_icon_name)) x) = Some CopyIcon.
Proof.
  simpl. rewrite file_name_join by (by apply (bool_decide_unpack _)). by rewrite decide_True.
Qed.

Lemma deco_copy_background src d x :
  deco (MkObs (FsCopy src (join d background_png)) x) = None.
Proof.
  simpl. rewrite file_name_join by (by apply (bool_decide_unpack _)). by rewrite decide_False.
Qed.

Lemma staging_obs_no_deco o : is_staging_obs o = true → deco o = None.
Proof.
  destruct o as [X c x]. destruct c; simpl; try done.
  intros Hp%bool_decide_eq_true. unfold deco_command. rewrite Hp.
  rewrite !decide_False; [done|by intros [??]|done..].
Qed.

#[global] Arguments deco : simpl never.

(** ** Every stage moves the machine *)

(** Close a leaf of a symbolic execution: name the steps of the concrete
    trace and run them through the machine. *)
Ltac deco_run :=
  unfold labels; simpl;
  rewrite ?deco_hide_background, ?deco_hide_events, ?deco_hide_icon, ?deco_copy_icon,
    ?deco_copy_background;
  reflexivity.

Ltac deco_leaf := eapply follows_intro; [deco_run|done].

Abbreviation deco_post := (follows deco_next deco).

Section stages.
Context {api : EntryApi} (env : Env) (config : DmgConfig) (final_dmg_path : path).

Lemma prepare_deco s : wp (prepare_temp_dir env) (deco_post is_ok s s).
Proof. unfold prepare_temp_dir. wp_run; deco_leaf. Qed.

Lemma stage_contents_deco s items : wp (stage_contents env items) (deco_post is_ok s s).
Proof.
  eapply wp_mono; [|apply stage_contents_spec]. intros tr r (_ & Hs & Hr).
  destruct r as [a|]; [|done]. eapply follows_intro; [|done].
  rewrite labels_none; [done|]. eapply Forall_impl; [done|]. apply staging_obs_no_deco.
Qed.

Lemma create_image_deco s : wp (create_image env config) (deco_post is_ok s s).
Proof. unfold create_image. rewrite temp_dir_parent. wp_run; deco_leaf. Qed.

Lemma attach_image_deco s dmg : wp (attach_image dmg) (deco_post is_ok s s).
Proof. unfold attach_image. wp_run; deco_leaf. Qed.

Lemma setup_background_deco m :
  wp (setup_background config m) (deco_post is_ok Bare EventsHidden).
Proof. unfold setup_background. wp_run; deco_leaf. Qed.

Lemma resolve_alias_deco s p : wp (resolve_alias p) (deco_post (λ _, true) s s).
Proof. unfold resolve_alias. wp_run; deco_leaf. Qed.

Lemma write_layout_deco m bg :
  wp (write_layout config m bg) (deco_post is_ok EventsHidden MetadataWritten).
Proof. unfold write_layout. wp_run; deco_leaf. Qed.

(** The icon and the sync: whatever is done for the icon, the sync
    follows. *)
Lemma icon_sync_deco {B} (okB : B → bool) m (k : Prog B) s :
  wp k (deco_post okB Synced s) →
  wp (volume_icon config m;; call (Status sync_command);; k) (deco_post okB MetadataWritten s).
Proof.
  intros Hk. unfold volume_icon.
  wp_run; (eapply wp_mono; [|apply Hk]); intros tr r;
    first [ apply (follows_app _ _ _ _ Synced _ [_; _; _; _; _])
          | apply (follows_app _ _ _ _ Synced _ [_; _; _])
          | apply (follows_app _ _ _ _ Synced _ [_; _]) ]; deco_run.
Qed.

Lemma detach_and_convert_deco m dmg :
  wp (detach_and_convert env final_dmg_path m dmg) (deco_post is_ok Synced Unmounted).
Proof. unfold detach_and_convert. wp_run; deco_leaf. Qed.

Lemma build_deco : wp (build env config final_dmg_path) (deco_post is_ok Bare Unmounted).
Proof.
  unfold build.
  apply (follows_try _ _ _ _ _ Bare); [apply prepare_deco|intros _].
  apply (follows_try _ _ _ _ _ Bare); [apply stage_contents_deco|intros _].
  apply (follows_try _ _ _ _ _ Bare); [apply create_image_deco|intros dmg].
  apply (follows_try _ _ _ _ _ Bare); [apply attach_image_deco|intros m].
  apply (follows_try _ _ _ _ _ EventsHidden); [apply setup_background_deco|intros bg_path].
  apply (follows_bind _ _ _ _ _ _ EventsHidden); [apply resolve_alias_deco|intros bg].
  apply (follows_try _ _ _ _ _ MetadataWritten); [apply write_layout_deco|intros _].
  apply icon_sync_deco, detach_and_convert_deco.
Qed.

(** C18. In every run of [build] the steps on
    the mounted volume come in the order of lib.rs: the two support
    directories are hidden, then the metadata is written, then the icon is
    copied, hidden and flagged (or nothing is done for it, or only the
    copy is tried), then the file system is synced, then the volume is
    detached; a run that returns [Ok] has taken the whole sequence.  The
    order is not the one of the specification, which writes the metadata
    first: no run that writes the metadata follows it. *)
Theorem build_decoration_order tr r :
  Run (build env config final_dmg_path) tr r →
  (∃ icon, icon ∈ icon_parts ∧ decos tr `prefix_of` protocol icon
           ∧ (r = Done (Ok ()) → decos tr = protocol icon))
  ∧ (WriteMetadata ∈ decos tr → ∀ icon, ¬ decos tr `prefix_of` spec_protocol icon).
Proof.
  intros Hrun. pose proof (Run_wp _ _ _ Hrun _ build_deco) as Hd.
  destruct r as [res|]; [|done]. destruct Hd as (s & Hs & Hok).
  apply deco_language in Hs as [(icon & Hicon & Hpre & Hfull) Hhide]. split.
  - exists icon. split_and!; [done..|]. intros [= ->]. by apply Hfull, Hok.
  - intros Hw icon'. by apply spec_protocol_head, Hhide.
Qed.

End stages.

(** A build that finds an icon but cannot copy it goes on to the sync. *)
Lemma build_decoration_order_witness :
  let tr := run_trace furnished example_build in
  (∃ icon, icon ∈ icon_parts ∧ decos tr `prefix_of` protocol icon
           ∧ (run_outcome furnished example_build = Done (Ok ()) → decos tr = protocol icon))
  ∧ (WriteMetadata ∈ decos tr → ∀ icon, ¬ decos tr `prefix_of` spec_protocol icon).
Proof.
  intros tr.
  exact (build_decoration_order (api := total_api) example_env example_config example_out
           _ _ (run_Run furnished example_build)).
Defined.
