(* ===== verification/Verdict.v ===== *)
(** * Verdict: what the result of a build says about its run

    [build] reports one of six errors or success.  This file relates the
    result of every run to the answers the run received: an error names the
    call that failed, and that call is where the run stopped ([blames],
    [culprit]); success means that every call whose failure the pipeline
    treats as fatal succeeded ([fatal_ok]); and a run in which nothing
    fails succeeds ([answered_well]).  The facts are proved stage by stage
    and composed along the structure of [build]. *)

From Stdlib Require Import String.
From S2P Require Import Prelude Text Utf8 Paths Config Layout Attach Effects Build Oracle Staging.

Local Open Scope N_scope.

(** ** Errors and the calls they come from *)

(** The [io::Error] a call answered with, if it did. *)
Definition io_failure {X} (c : Cmd X) : X → option IoError :=
  let failure {A} (x : Result A IoError) :=
    match x with Ok _ => None | Err e => Some e end in
  match c in Cmd X return X → option IoError with
  | RemoveDirAll _ => failure
  | CreateDirAll _ => failure
  | RemoveFile _ => failure
  | Symlink _ _ => failure
  | FsCopy _ _ => failure
  | Status _ => failure
  | RunOutput _ => failure
  | _ => λ _, None
  end.

(** [blames o e]: the answer of [o] is a failure, and [e] is the error
    lib.rs makes of it. *)
Inductive blames : Obs → Error → Prop :=
| blames_io {X} (c : Cmd X) x e : io_failure c x = Some e → blames (MkObs c x) (Io e)
| blames_cp src dst st :
    success st = false → blames (MkObs (Status (cp_command src dst)) (Ok st)) (CopyFailed src)
| blames_create dir volname image st :
    success st = false →
    blames (MkObs (Status (hdiutil_create dir volname image)) (Ok st)) CreateFailed
| blames_attach image out :
    find_mount_point (from_utf8_lossy (stdout out)) = None →
    blames (MkObs (RunOutput (hdiutil_attach image)) (Ok out)) NoMountPoint
| blames_write p entries e : blames (MkObs (WriteDsStore p entries) (Err e)) (DsStore e)
| blames_convert image final st :
    success st = false →
    blames (MkObs (Status (hdiutil_convert image final)) (Ok st)) ConvertFailed.

(** Where the failing call is in the trace: the last step, except for a
    failed conversion, which is followed by the two cleanup calls. *)
Definition culprit (e : Error) (tr : trace) : option Obs :=
  reverse tr !! (if decide (e = ConvertFailed) then 2 else 0)%nat.

(** The processes whose exit status lib.rs tests. *)
Definition exit_checked (cmd : Command) : bool :=
  bool_decide (program cmd = cp)
  || bool_decide (program cmd = hdiutil ∧ head (args cmd) ∈ [Some verb_create; Some verb_convert]).

(** The processes that lib.rs requires to start. *)
Definition spawn_checked (cmd : Command) : bool :=
  bool_decide (program cmd = cp ∨ program cmd = hdiutil).

(** The answer of [o] is not one that ends the pipeline wherever it
    occurs.  The removals and [fs::copy] are left out: lib.rs propagates
    their failure at some places and drops it at others. *)
Definition fatal_ok (o : Obs) : bool :=
  match o with
  | MkObs c x =>
      match c in Cmd X return X → bool with
      | Status cmd => λ x,
          match x with
          | Ok st => negb (exit_checked cmd) || success st
          | Err _ => negb (spawn_checked cmd)
          end
      | RunOutput cmd => λ x,
          match x with
          | Ok out => bool_decide (is_Some (find_mount_point (from_utf8_lossy (stdout out))))
          | Err _ => false
          end
      | CreateDirAll _ => λ x, is_ok x
      | WriteDsStore _ _ => λ x, is_ok x
      | _ => λ _, true
      end x
  end.

(** The answer of [o] is a success: the call returned [Ok], the process
    exited with status zero, the output of [attach] names a mount point. *)
Definition answered_well (o : Obs) : bool :=
  match o with
  | MkObs c x =>
      match c in Cmd X return X → bool with
      | PathExists _ => λ _, true
      | RemoveDirAll _ => λ x, is_ok x
      | CreateDirAll _ => λ x, is_ok x
      | RemoveFile _ => λ x, is_ok x
      | Symlink _ _ => λ x, is_ok x
      | FsCopy _ _ => λ x, is_ok x
      | Status _ => λ x, match x with Ok st => success st | Err _ => false end
      | RunOutput _ => λ x,
          match x with
          | Ok out => bool_decide (is_Some (find_mount_point (from_utf8_lossy (stdout out))))
          | Err _ => false
          end
      | AliasNew _ => λ x, is_ok x
      | AliasEncode _ => λ x, is_ok x
      | WriteDsStore _ _ => λ x, is_ok x
      end x
  end.

(** What holds of every run of a stage that can fail. *)
Definition verdict {A} (tr : trace) (r : Outcome (Result A Error)) : Prop :=
  match r with
  | Done (Ok _) => Forall (λ o, fatal_ok o = true) tr
  | Done (Err e) => ∃ o, culprit e tr = Some o ∧ blames o e
  | Panicked => False
  end.

(** What holds of every run of a stage that cannot. *)
Definition harmless {A} (tr : trace) (r : Outcome A) : Prop :=
  r ≠ Panicked ∧ Forall (λ o, fatal_ok o = true) tr.

#[global] Arguments verdict : simpl never.
#[global] Arguments harmless : simpl never.

(** ** Composition *)

Lemma culprit_app e tr1 tr2 o : culprit e tr2 = Some o → culprit e (tr1 ++ tr2) = Some o.
Proof. unfold culprit. rewrite reverse_app. apply lookup_app_l_Some. Qed.

Lemma verdict_app {B} tr1 tr2 (r : Outcome (Result B Error)) :
  Forall (λ o, fatal_ok o = true) tr1 → verdict tr2 r → verdict (tr1 ++ tr2) r.
Proof.
  intros H1. destruct r as [[b|e]|]; unfold verdict; [|intros (o & Ho & ?)|done].
  - by apply Forall_app_2.
  - exists o. eauto using culprit_app.
Qed.

Lemma verdict_try {A B} (m : Prog (Result A Error)) (k : A → Prog (Result B Error)) :
  wp m verdict → (∀ a, wp (k a) verdict) → wp (try m k) verdict.
Proof.
  intros Hm Hk. apply (wp_try_with verdict); [done|..|done|done].
  intros tr a Ha. eapply wp_mono; [|apply Hk]. intros tr' r. by apply verdict_app.
Qed.

Lemma verdict_bind {A B} (m : Prog A) (k : A → Prog (Result B Error)) :
  wp m harmless → (∀ a, wp (k a) verdict) → wp (m ≫= k) verdict.
Proof.
  intros Hm Hk. apply (wp_bind_with harmless); [done|..].
  - intros tr a [_ Ha]. eapply wp_mono; [|apply Hk]. intros tr' r. by apply verdict_app.
  - by intros tr [? _].
Qed.

(** A failing call was not answered well. *)
Lemma blames_not_well o e : blames o e → answered_well o = false.
Proof.
  destruct 1 as [X c x e H|src dst st H|d v i st H|i out H|p es e|i f st H]; simpl; try done.
  - by destruct c, x.
  - rewrite H. apply bool_decide_eq_false. by intros [??].
Qed.

Lemma culprit_elem_of e tr o : culprit e tr = Some o → o ∈ tr.
Proof. unfold culprit. intros ?%list_elem_of_lookup_2. by apply elem_of_reverse. Qed.

(** ** The stages *)

(** Close a leaf of a symbolic execution: the trace is a concrete list of
    steps, and the tests the run went through are in the context. *)
Ltac verdict_leaf :=
  repeat match goal with
  | H : negb _ = true |- _ => apply negb_true_iff in H
  | H : negb _ = false |- _ => apply negb_false_iff in H
  end;
  first
  [ by (eexists; split; [reflexivity|econstructor; eauto])
  | by (repeat constructor; simpl; repeat match goal with H : _ = _ |- _ => rewrite H end)
  | by (split; [done|repeat constructor]) ].

Section stages.
Context {api : EntryApi} (env : Env) (config : DmgConfig) (final_dmg_path : path).

Lemma prepare_verdict : wp (prepare_temp_dir env) verdict.
Proof. unfold prepare_temp_dir, verdict. wp_run; verdict_leaf. Qed.

Lemma stage_item_verdict item : wp (stage_item env item) verdict.
Proof. unfold stage_item, verdict. repeat case_decide; wp_run; verdict_leaf. Qed.

Lemma stage_contents_verdict items : wp (stage_contents env items) verdict.
Proof.
  induction items as [|item items IH]; [by constructor|]. cbn [stage_contents].
  apply verdict_try; [apply stage_item_verdict|done].
Qed.

Lemma create_image_verdict : wp (create_image env config) verdict.
Proof. unfold create_image, verdict. rewrite temp_dir_parent. wp_run; verdict_leaf. Qed.

Lemma attach_image_verdict dmg : wp (attach_image dmg) verdict.
Proof.
  unfold attach_image, verdict, ok_or. wp_run; [|verdict_leaf].
  destruct (find_mount_point _) eqn:E; [|verdict_leaf].
  repeat constructor. simpl. by rewrite E.
Qed.

Lemma setup_background_verdict m : wp (setup_background config m) verdict.
Proof. unfold setup_background, verdict. wp_run; verdict_leaf. Qed.

Lemma resolve_alias_harmless p : wp (resolve_alias p) harmless.
Proof. unfold resolve_alias, harmless. wp_run; verdict_leaf. Qed.

Lemma write_layout_verdict m bg : wp (write_layout config m bg) verdict.
Proof. unfold write_layout, verdict. wp_run; verdict_leaf. Qed.

Lemma volume_icon_harmless m : wp (volume_icon config m) harmless.
Proof. unfold volume_icon, harmless. wp_run; verdict_leaf. Qed.

Lemma sync_harmless : wp (call (Status sync_command)) harmless.
Proof. unfold harmless. wp_run; verdict_leaf. Qed.

Lemma detach_and_convert_verdict m dmg :
  wp (detach_and_convert env final_dmg_path m dmg) verdict.
Proof. unfold detach_and_convert, verdict. wp_run; verdict_leaf. Qed.

Lemma build_verdict : wp (build env config final_dmg_path) verdict.
Proof.
  unfold build.
  apply verdict_try; [apply prepare_verdict|intros _].
  apply verdict_try; [apply stage_contents_verdict|intros _].
  apply verdict_try; [apply create_image_verdict|intros dmg].
  apply verdict_try; [apply attach_image_verdict|intros m].
  apply verdict_try; [apply setup_background_verdict|intros bg_path].
  apply verdict_bind; [apply resolve_alias_harmless|intros bg].
  apply verdict_try; [apply write_layout_verdict|intros _].
  apply verdict_bind; [apply volume_icon_harmless|intros _].
  apply verdict_bind; [apply sync_harmless|intros _].
  apply detach_and_convert_verdict.
Qed.

Implicit Types (tr : trace) (r : Outcome (Result unit Error)).

(** C13. A build that returns [Ok] has seen every fatal
    step succeed: every [cp], [hdiutil create] and [hdiutil convert] exited
    with status zero, [hdiutil detach] and [hdiutil attach] could be
    started, the output of [attach] named a mount point, every directory
    could be created and the layout metadata was written. *)
Theorem build_ok_sound tr :
  Run (build env config final_dmg_path) tr (Done (Ok ())) →
  Forall (λ o, fatal_ok o = true) tr.
Proof. intros Hrun. apply (Run_wp _ _ _ Hrun _ build_verdict). Qed.

(** C17. A build that returns an error stopped at the
    call that failed, and the error is the one lib.rs makes of that
    failure: an [io::Error] is passed on as it is, a [cp] that exits with
    a non-zero status gives the copy error with its source path, and so on
    for creation, mount-point discovery and the metadata write.  Only a
    failed conversion is followed by two more calls, the cleanup. *)
Theorem build_error_blame tr e :
  Run (build env config final_dmg_path) tr (Done (Err e)) →
  ∃ o, culprit e tr = Some o ∧ blames o e.
Proof. intros Hrun. apply (Run_wp _ _ _ Hrun _ build_verdict). Qed.

Lemma build_well tr r :
  Run (build env config final_dmg_path) tr r →
  Forall (λ o, answered_well o = true) tr →
  r = Done (Ok ()).
Proof.
  intros Hrun Hwell. pose proof (Run_wp _ _ _ Hrun _ build_verdict) as Hv.
  destruct r as [[[]|e]|]; [done| |done]. destruct Hv as (o & Ho%culprit_elem_of & Hb).
  rewrite Forall_forall in Hwell. apply blames_not_well in Hb. specialize (Hwell o Ho). congruence.
Qed.

(** C26. A build in which every call is answered well
    returns [Ok]: the pipeline has no failure of its own. *)
Theorem build_succeeds tr r :
  Run (build env config final_dmg_path) tr r →
  Forall (λ o, answered_well o = true) tr →
  r = Done (Ok ()).
Proof. apply build_well. Qed.

End stages.

(** ** The theorems on concrete runs *)

Lemma build_ok_sound_witness :
  Forall (λ o, fatal_ok o = true) (run_trace furnished example_build).
Proof.
  apply (build_ok_sound (api := total_api) example_env example_config example_out).
  exact (run_Run furnished example_build).
Defined.

Lemma build_error_blame_witness :
  ∃ o, culprit NoMountPoint (run_trace silent_attach example_build) = Some o
       ∧ blames o NoMountPoint.
Proof.
  apply (build_error_blame (api := total_api) example_env example_config example_out).
  exact (run_Run silent_attach example_build).
Defined.

Lemma build_succeeds_witness : run_outcome happy example_build = Done (Ok ()).
Proof.
  apply (build_succeeds example_env example_config example_out _ _ (run_Run happy example_build)).
  apply (bool_decide_unpack _). by vm_compute.
Defined.
