(* ===== verification/Cleanup.v ===== *)
(** * Cleanup: when the temporaries of a build are removed

    lib.rs removes the staging directory and the writable image by two
    calls after [hdiutil convert] (lines 144-145).  [cleaned] says that a
    run ended with these two calls.  The theorem of this file states for
    which runs that is the case: the runs that reached the conversion.  A
    run that ends earlier, with any other error, has not asked for either
    removal. *)

From Stdlib Require Import String.
From S2P Require Import Prelude Text Paths Config Layout Attach Effects Build Oracle Staging Verdict.

Local Open Scope N_scope.

Definition call_remove_dir (c : Call) : bool :=
  match c with MkCall c => match c with RemoveDirAll _ => true | _ => false end end.

Definition call_remove_file (c : Call) : bool :=
  match c with MkCall c => match c with RemoveFile _ => true | _ => false end end.

(** The answers to the tests whether a path exists, in order. *)
Definition obs_exists (o : Obs) : option bool :=
  match o with
  | MkObs c x => match c in Cmd X return X → option bool with
                 | PathExists _ => λ x, Some x
                 | _ => λ _, None
                 end x
  end.

(** The two calls of lines 144-145, for the directory [d] and the image
    [f]. *)
Definition cleanup_calls (d f : path) : list Call :=
  [MkCall (RemoveDirAll d); MkCall (RemoveFile f)].

(** The run ended with the cleanup. *)
Definition cleaned (d f : path) (tr : trace) : Prop :=
  cleanup_calls d f `suffix_of` calls tr.

(** The run did not end with the removal of a directory and then of a
    file, whichever they are. *)
Definition uncleaned (tr : trace) : Prop :=
  match reverse (calls tr) with
  | c2 :: c1 :: _ => call_remove_dir c1 && call_remove_file c2 = false
  | [c2] => call_remove_file c2 = false
  | [] => False
  end.

(** What holds of the runs of a stage before the conversion: a result [a]
    satisfies [R], an error is not the conversion error and the cleanup
    has not been run. *)
Definition early {A} (R : A → Prop) (tr : trace) (r : Outcome (Result A Error)) : Prop :=
  match r with
  | Done (Ok a) => R a
  | Done (Err e) => e ≠ ConvertFailed ∧ uncleaned tr
  | Panicked => False
  end.

(** What holds of the runs of the pipeline from a stage on. *)
Definition finished {A} (d f : path) (tr : trace) (r : Outcome (Result A Error)) : Prop :=
  match r with
  | Done (Ok _) => cleaned d f tr
  | Done (Err e) => if decide (e = ConvertFailed) then cleaned d f tr else uncleaned tr
  | Panicked => False
  end.

#[global] Arguments early : simpl never.
#[global] Arguments finished : simpl never.

(** ** Facts on the end of a trace *)

Lemma cleaned_app d f tr1 tr2 : cleaned d f tr2 → cleaned d f (tr1 ++ tr2).
Proof. unfold cleaned. rewrite calls_app. apply suffix_app_r. Qed.

Lemma uncleaned_app tr1 tr2 : uncleaned tr2 → uncleaned (tr1 ++ tr2).
Proof.
  unfold uncleaned. rewrite calls_app, reverse_app.
  destruct (reverse (calls tr2)) as [|c2 [|c1 cs]]; simpl; [done| |done].
  intros ->. destruct (reverse (calls tr1)); [done|]. apply andb_false_r.
Qed.

Lemma uncleaned_not_cleaned d f tr : uncleaned tr → ¬ cleaned d f tr.
Proof.
  unfold uncleaned. intros Hu [k Hk]. rewrite Hk, reverse_app in Hu. by simpl in Hu.
Qed.

Lemma cleaned_intro d f tr c1 c2 cs :
  reverse (calls tr) = c2 :: c1 :: cs →
  c1 = MkCall (RemoveDirAll d) → c2 = MkCall (RemoveFile f) →
  cleaned d f tr.
Proof.
  intros Hr -> ->. exists (reverse cs). apply (inj reverse).
  by rewrite Hr, reverse_app, reverse_involutive.
Qed.

Lemma finished_app {A} d f tr1 tr2 (r : Outcome (Result A Error)) :
  finished d f tr2 r → finished d f (tr1 ++ tr2) r.
Proof.
  destruct r as [[a|e]|]; unfold finished; [apply cleaned_app| |done].
  destruct (decide (e = ConvertFailed)); [apply cleaned_app|apply uncleaned_app].
Qed.

Lemma early_app {A} (R : A → Prop) tr1 tr2 (r : Outcome (Result A Error)) :
  early R tr2 r → early R (tr1 ++ tr2) r.
Proof.
  destruct r as [[a|e]|]; unfold early; [done| |done].
  intros [??]. eauto using uncleaned_app.
Qed.

Lemma early_finished {A B} (R : A → Prop) d f tr e :
  early R tr (Done (Err e)) → finished (A := B) d f tr (Done (Err e)).
Proof. unfold early, finished. intros [??]. by rewrite decide_False. Qed.

(** ** Composition *)

Lemma early_try {A B} (R : A → Prop) (R' : B → Prop)
    (m : Prog (Result A Error)) (k : A → Prog (Result B Error)) :
  wp m (early R) → (∀ a, R a → wp (k a) (early R')) → wp (try m k) (early R').
Proof.
  intros Hm Hk. apply (wp_try_with (early R)); [done|..|done|done].
  intros tr a Ha. eapply wp_mono; [|by apply Hk]. intros tr' r. apply early_app.
Qed.

Lemma finished_try {A B} (R : A → Prop) d f
    (m : Prog (Result A Error)) (k : A → Prog (Result B Error)) :
  wp m (early R) → (∀ a, R a → wp (k a) (finished d f)) → wp (try m k) (finished d f).
Proof.
  intros Hm Hk. apply (wp_try_with (early R)); [done|..|done].
  - intros tr a Ha. eapply wp_mono; [|by apply Hk]. intros tr' r. apply finished_app.
  - intros tr e. apply early_finished.
Qed.

Lemma finished_bind {A B} d f (m : Prog A) (k : A → Prog (Result B Error)) :
  wp m harmless → (∀ a, wp (k a) (finished d f)) → wp (m ≫= k) (finished d f).
Proof.
  intros Hm Hk. apply (wp_bind_with harmless); [done|..].
  - intros tr a _. eapply wp_mono; [|by apply Hk]. intros tr' r. apply finished_app.
  - by intros tr [? _].
Qed.

(** ** The stages *)

Ltac early_leaf :=
  repeat match goal with
  | H : negb _ = true |- _ => apply negb_true_iff in H
  | H : negb _ = false |- _ => apply negb_false_iff in H
  end;
  first
  [ done
  | by split
  | by (eapply cleaned_intro; reflexivity) ].

Section stages.
Context {api : EntryApi} (env : Env) (config : DmgConfig) (final_dmg_path : path).

Lemma prepare_early : wp (prepare_temp_dir env) (early (λ _, True)).
Proof. unfold prepare_temp_dir, early. wp_run; early_leaf. Qed.

Lemma stage_item_early item : wp (stage_item env item) (early (λ _, True)).
Proof. unfold stage_item, early. repeat case_decide; wp_run; early_leaf. Qed.

Lemma stage_contents_early items : wp (stage_contents env items) (early (λ _, True)).
Proof.
  induction items as [|item items IH]; [done|]. cbn [stage_contents].
  eapply early_try; [apply stage_item_early|done].
Qed.

(** The image that stage 3 creates is the sibling of the staging
    directory. *)
Lemma create_image_early :
  wp (create_image env config) (early (λ dmg, dmg = temp_dmg_path env)).
Proof. unfold create_image, early. rewrite temp_dir_parent. wp_run; early_leaf. Qed.

Lemma attach_image_early dmg : wp (attach_image dmg) (early (λ _, True)).
Proof.
  unfold attach_image, early, ok_or. wp_run; [|early_leaf].
  by destruct (find_mount_point _).
Qed.

Lemma setup_background_early m : wp (setup_background config m) (early (λ _, True)).
Proof. unfold setup_background, early. wp_run; early_leaf. Qed.

Lemma write_layout_early m bg : wp (write_layout config m bg) (early (λ _, True)).
Proof. unfold write_layout, early. wp_run; early_leaf. Qed.

Lemma detach_and_convert_finished m dmg :
  wp (detach_and_convert env final_dmg_path m dmg) (finished (temp_dir env) dmg).
Proof. unfold detach_and_convert, finished. wp_run; early_leaf. Qed.

Lemma build_finished :
  wp (build env config final_dmg_path) (finished (temp_dir env) (temp_dmg_path env)).
Proof.
  unfold build.
  eapply finished_try; [apply prepare_early|intros _ _].
  eapply finished_try; [apply stage_contents_early|intros _ _].
  eapply finished_try; [apply create_image_early|intros dmg ->].
  eapply finished_try; [apply attach_image_early|intros m _].
  eapply finished_try; [apply setup_background_early|intros bg_path _].
  apply finished_bind; [apply resolve_alias_harmless|intros bg].
  eapply finished_try; [apply write_layout_early|intros _ _].
  apply finished_bind; [apply volume_icon_harmless|intros _].
  apply finished_bind; [apply sync_harmless|intros _].
  apply detach_and_convert_finished.
Qed.

(** The last stage decides: a fact on the end of a run that every error
    but the conversion error satisfies holds of [build] when it holds of
    stage 6 on the image that stage 3 has made. *)
Lemma build_last_stage (Q : trace → Outcome (Result unit Error) → Prop) :
  (∀ tr1 tr2 r, Q tr2 r → Q (tr1 ++ tr2) r) →
  (∀ tr e, e ≠ ConvertFailed → Q tr (Done (Err e))) →
  (∀ m, wp (detach_and_convert env final_dmg_path m (temp_dmg_path env)) Q) →
  wp (build env config final_dmg_path) Q.
Proof.
  intros Happ Herr Hlast.
  assert (∀ A (R : A → Prop) (m : Prog (Result A Error)) k,
    wp m (early R) → (∀ a, R a → wp (k a) Q) → wp (try m k) Q) as Htry.
  { intros A R m k Hm Hk. apply (wp_try_with (early R)); [done|..|done].
    - intros tr a Ha. eapply wp_mono; [|by apply Hk]. intros tr' r. apply Happ.
    - intros tr e [??]. by apply Herr. }
  assert (∀ A (m : Prog A) k, wp m harmless → (∀ a, wp (k a) Q) → wp (m ≫= k) Q) as Hbind.
  { intros A m k Hm Hk. apply (wp_bind_with harmless); [done|..].
    - intros tr a _. eapply wp_mono; [|by apply Hk]. intros tr' r. apply Happ.
    - by intros tr [? _]. }
  unfold build.
  eapply Htry; [apply prepare_early|intros _ _].
  eapply Htry; [apply stage_contents_early|intros _ _].
  eapply Htry; [apply create_image_early|intros dmg ->].
  eapply Htry; [apply attach_image_early|intros m _].
  eapply Htry; [apply setup_background_early|intros bg_path _].
  apply Hbind; [apply resolve_alias_harmless|intros bg].
  eapply Htry; [apply write_layout_early|intros _ _].
  apply Hbind; [apply volume_icon_harmless|intros _].
  apply Hbind; [apply sync_harmless|intros _].
  apply Hlast.
Qed.

(** C2. A run of [build] ends with the removal of the
    staging directory and of the writable image exactly when it returns
    [Ok] or the conversion error.  A run that ends with any other error,
    from staging, image creation, attachment, the background, the metadata
    write or detachment, leaves both behind without a removal call. *)
Theorem build_cleanup tr r :
  Run (build env config final_dmg_path) tr r →
  cleaned (temp_dir env) (temp_dmg_path env) tr
  ↔ r = Done (Ok ()) ∨ r = Done (Err ConvertFailed).
Proof.
  intros Hrun. pose proof (Run_wp _ _ _ Hrun _ build_finished) as Hf.
  destruct r as [[[]|e]|]; unfold finished in Hf; [naive_solver| |done].
  destruct (decide (e = ConvertFailed)) as [->|]; [naive_solver|].
  apply (uncleaned_not_cleaned (temp_dir env) (temp_dmg_path env)) in Hf. naive_solver.
Qed.

End stages.

(** ** The theorems on concrete runs *)

(** A build whose image cannot be created returns the creation error and
    leaves the staging directory it has made. *)
Lemma build_cleanup_witness :
  let sc := failing hdiutil verb_create in
  cleaned (temp_dir example_env) (temp_dmg_path example_env) (run_trace sc example_build)
  ↔ run_outcome sc example_build = Done (Ok ())
    ∨ run_outcome sc example_build = Done (Err ConvertFailed).
Proof.
  intros sc.
  apply (build_cleanup (api := total_api) example_env example_config example_out).
  exact (run_Run sc example_build).
Defined.
