(* ===== verification/Flow.v ===== *)
(** * Flow: what reaches the metadata writer

    The metadata of the volume is written by one call (line 125).  This
    file follows the values that reach it through a run of [build]: the
    mount point parsed from the output of [hdiutil attach], the alias made
    of the on-volume copy of the background, and the entries the layout
    builder makes of the declaration and that alias. *)

From Stdlib Require Import String.
From S2P Require Import Prelude Text Paths Config Layout Attach Effects Build Oracle Staging Stages Verdict.

Local Open Scope N_scope.

(** ** Projections of a trace *)

(** The path an alias was asked for. *)
Definition obs_alias_target (o : Obs) : option path :=
  match o with MkObs c _ => match c with AliasNew p => Some p | _ => None end end.

(** The bytes of an alias that could be encoded. *)
Definition obs_alias_blob (o : Obs) : option bytes :=
  match o with
  | MkObs c x =>
      match c in Cmd X return X → option bytes with
      | AliasEncode _ => λ x, result_ok x
      | _ => λ _, None
      end x
  end.

(** The file and the entries handed to the metadata writer. *)
Definition obs_write (o : Obs) : option (path * list Entry) :=
  match o with MkObs c _ => match c with WriteDsStore p es => Some (p, es) | _ => None end end.

Definition alias_targets (tr : trace) : list path := omap obs_alias_target tr.
Definition alias_blobs (tr : trace) : list bytes := omap obs_alias_blob tr.
Definition writes (tr : trace) : list (path * list Entry) := omap obs_write tr.

(** The step concerns neither the mount point, nor an alias, nor the
    metadata. *)
Definition obs_quiet (o : Obs) : Prop :=
  obs_mount o = None ∧ obs_alias_target o = None ∧ obs_alias_blob o = None ∧ obs_write o = None.

Definition quiet (tr : trace) : Prop := Forall obs_quiet tr.

(** The run has written the metadata of the volume mounted at [m]. *)
Definition written {api : EntryApi} (config : DmgConfig) (m : path) (tr : trace) : Prop :=
  mounts tr = [m]
  ∧ alias_targets tr = [vol_bg_path m]
  ∧ writes tr = [(join m ds_store_name, layout_entries config (head (alias_blobs tr)))].

(** What holds of every run of the pipeline from a stage on. *)
Definition flow_post {api : EntryApi} (config : DmgConfig) (tr : trace)
    (r : Outcome (Result unit Error)) : Prop :=
  match r with
  | Done res => (writes tr = [] ∧ is_ok res = false) ∨ ∃ m, written config m tr
  | Panicked => False
  end.

(** What holds of every run of a stage that does not take part. *)
Definition quiet_post {A} (tr : trace) (r : Outcome A) : Prop :=
  r ≠ Panicked ∧ quiet tr.

#[global] Arguments flow_post : simpl never.
#[global] Arguments quiet_post : simpl never.

(** ** Facts on the projections *)

Lemma quiet_omap {B} (f : Obs → option B) tr :
  (∀ o, obs_quiet o → f o = None) → quiet tr → omap f tr = [].
Proof. intros Hf. induction 1 as [|o tr Ho _ IH]; simpl; [done|]. by rewrite (Hf o Ho). Qed.

Lemma quiet_mounts tr : quiet tr → mounts tr = [].
Proof. apply quiet_omap. by intros o (? & _). Qed.
Lemma quiet_alias_targets tr : quiet tr → alias_targets tr = [].
Proof. apply quiet_omap. by intros o (_ & ? & _). Qed.
Lemma quiet_alias_blobs tr : quiet tr → alias_blobs tr = [].
Proof. apply quiet_omap. by intros o (_ & _ & ? & _). Qed.
Lemma quiet_writes tr : quiet tr → writes tr = [].
Proof. apply quiet_omap. by intros o (_ & _ & _ & ?). Qed.

Lemma quiet_app tr1 tr2 : quiet tr1 → quiet tr2 → quiet (tr1 ++ tr2).
Proof. apply Forall_app_2. Qed.

Section flow_facts.
Context {api : EntryApi} (config : DmgConfig).

Lemma written_quiet_l m tr1 tr2 : quiet tr1 → written config m tr2 → written config m (tr1 ++ tr2).
Proof.
  intros Hq. unfold written, mounts, alias_targets, alias_blobs, writes.
  rewrite !omap_app. fold (mounts tr1) (alias_targets tr1) (alias_blobs tr1) (writes tr1).
  by rewrite (quiet_mounts tr1), (quiet_alias_targets tr1), (quiet_alias_blobs tr1),
    (quiet_writes tr1).
Qed.

Lemma written_quiet_r m tr1 tr2 : written config m tr1 → quiet tr2 → written config m (tr1 ++ tr2).
Proof.
  intros Hw Hq. unfold written, mounts, alias_targets, alias_blobs, writes in *.
  rewrite !omap_app. fold (mounts tr2) (alias_targets tr2) (alias_blobs tr2) (writes tr2).
  by rewrite (quiet_mounts tr2), (quiet_alias_targets tr2), (quiet_alias_blobs tr2),
    (quiet_writes tr2), !app_nil_r.
Qed.

Lemma flow_post_quiet_l tr1 tr2 r : quiet tr1 → flow_post config tr2 r → flow_post config (tr1 ++ tr2) r.
Proof.
  intros Hq. destruct r as [res|]; [|done]. intros [[Hw ?]|[m ?]]; [left|right].
  - split; [|done]. unfold writes in *. rewrite omap_app, Hw, app_nil_r. by apply quiet_writes.
  - exists m. by apply written_quiet_l.
Qed.

Lemma flow_try {A} (m : Prog (Result A Error)) (k : A → Prog (Result unit Error)) :
  wp m quiet_post → (∀ a, wp (k a) (flow_post config)) → wp (try m k) (flow_post config).
Proof.
  intros Hm Hk. apply (wp_try_with quiet_post); [done|..].
  - intros tr a [_ Hq]. eapply wp_mono; [|apply Hk]. intros tr' r. by apply flow_post_quiet_l.
  - intros tr e [_ Hq]. left. by split; [apply quiet_writes|].
  - by intros tr [? _].
Qed.

Lemma quiet_bind {A B} (m : Prog A) (k : A → Prog B) :
  wp m quiet_post → (∀ a, wp (k a) quiet_post) → wp (m ≫= k) quiet_post.
Proof.
  intros Hm Hk. apply (wp_bind_with quiet_post); [done|..].
  - intros tr a [_ Hq]. eapply wp_mono; [|apply Hk]. intros tr' r [??].
    split; [done|by apply quiet_app].
  - by intros tr [? _].
Qed.

End flow_facts.

Lemma quiet_try {A B} (m : Prog (Result A Error)) (k : A → Prog (Result B Error)) :
  wp m quiet_post → (∀ a, wp (k a) quiet_post) → wp (try m k) quiet_post.
Proof.
  intros Hm Hk. apply quiet_bind; [done|]. intros [a|e]; [apply Hk|].
  split; [done|constructor].
Qed.

Ltac quiet_leaf := by (split; [done|repeat constructor]).

(** ** The stages *)

Section stages.
Context {api : EntryApi} (env : Env) (config : DmgConfig) (final_dmg_path : path).

Lemma prepare_quiet : wp (prepare_temp_dir env) quiet_post.
Proof. unfold prepare_temp_dir. wp_run; quiet_leaf. Qed.

Lemma stage_item_quiet item : wp (stage_item env item) quiet_post.
Proof. unfold stage_item. repeat case_decide; wp_run; quiet_leaf. Qed.

Lemma stage_contents_quiet items : wp (stage_contents env items) quiet_post.
Proof.
  induction items as [|item items IH]; [quiet_leaf|]. cbn [stage_contents].
  apply quiet_try; [apply stage_item_quiet|done].
Qed.

Lemma create_image_quiet : wp (create_image env config) quiet_post.
Proof. unfold create_image. rewrite temp_dir_parent. wp_run; quiet_leaf. Qed.

Lemma volume_icon_quiet m : wp (volume_icon config m) quiet_post.
Proof. unfold volume_icon. wp_run; quiet_leaf. Qed.

Lemma sync_quiet : wp (call (Status sync_command)) quiet_post.
Proof. wp_run; quiet_leaf. Qed.

Lemma detach_and_convert_quiet m dmg :
  wp (detach_and_convert env final_dmg_path m dmg) quiet_post.
Proof. unfold detach_and_convert. wp_run; quiet_leaf. Qed.


Lemma flow_post_quiet_r tr1 tr2 m r :
  written config m tr1 → quiet_post tr2 r → flow_post config (tr1 ++ tr2) r.
Proof.
  intros Hw [Hr Hq]. destruct r as [res|]; [|done]. right. exists m. by apply written_quiet_r.
Qed.

(** The steps of [l] before its tail [tr]. *)
Ltac steps_before l tr :=
  lazymatch l with
  | tr => constr:(@nil Obs)
  | ?o :: ?l' => let p := steps_before l' tr in constr:(o :: p)
  end.

Ltac flow_leaf :=
  repeat match goal with
  | H : ok_or _ _ = Ok _ |- _ => apply ok_or_Ok in H
  end;
  lazymatch goal with
  | |- flow_post _ _ _ =>
      first [ by (left; split)
            | right; eexists; split_and!; simpl;
              repeat match goal with H : find_mount_point _ = _ |- _ => rewrite H end;
              reflexivity ]
  | Hrest : (∀ m, wp (?rest m) quiet_post) |- wp (?rest ?m) _ =>
      eapply wp_mono; [|apply Hrest]; intros tr r Hq;
      lazymatch goal with
      | |- flow_post _ ?l _ =>
          let p := steps_before l tr in
          change l with (p ++ tr); apply (flow_post_quiet_r p tr m); [|done];
          split_and!; simpl;
          repeat match goal with H : find_mount_point _ = _ |- _ => rewrite H end;
          reflexivity
      end
  end.

Lemma layout_stage_flow dmg (rest : path → Prog (Result unit Error)) :
  (∀ m, wp (rest m) quiet_post) →
  wp (m ←? attach_image dmg;
      p ←? setup_background config m;
      bg ← resolve_alias p;
      write_layout config m bg;;? rest m) (flow_post config).
Proof.
  intros Hrest. unfold attach_image, setup_background, resolve_alias, write_layout.
  wp_run; flow_leaf.
Qed.

Lemma rest_quiet m dmg :
  wp (volume_icon config m;; call (Status sync_command);;
      detach_and_convert env final_dmg_path m dmg) quiet_post.
Proof.
  apply quiet_bind; [apply volume_icon_quiet|intros _].
  apply quiet_bind; [apply sync_quiet|intros _]. apply detach_and_convert_quiet.
Qed.

Lemma build_flow : wp (build env config final_dmg_path) (flow_post config).
Proof.
  unfold build.
  apply flow_try; [apply prepare_quiet|intros _].
  apply flow_try; [apply stage_contents_quiet|intros _].
  apply flow_try; [apply create_image_quiet|intros dmg].
  apply (layout_stage_flow dmg (λ m, _)). intros m. apply rest_quiet.
Qed.

(** C16. In every run of [build] the metadata writer
    is called at most once, and when it is called: the file is [.DS_Store]
    at the mount point parsed from the output of the one [hdiutil attach]
    of the run, the alias was asked for the on-volume copy of the
    background and not for its source, and the entries are those the
    layout builder makes of the declaration and of the alias bytes if they
    could be encoded, in the builder's order.  A run that returns [Ok] has
    made that call. *)
Theorem build_writes_layout tr r :
  Run (build env config final_dmg_path) tr r →
  (∃ m, written config m tr) ∨ (writes tr = [] ∧ r ≠ Done (Ok ())).
Proof.
  intros Hrun. pose proof (Run_wp _ _ _ Hrun _ build_flow) as Hf.
  destruct r as [res|]; [|done]. destruct Hf as [[? Hres]|?]; [right|by left].
  split; [done|]. by intros [= ->].
Qed.

End stages.

(** ** The theorem on concrete runs *)

Lemma build_writes_layout_witness :
  (∃ m, written (api := total_api) example_config m (run_trace furnished example_build))
  ∨ (writes (run_trace furnished example_build) = []
     ∧ run_outcome furnished example_build ≠ Done (Ok ())).
Proof.
  apply (build_writes_layout (api := total_api) example_env example_config example_out).
  exact (run_Run furnished example_build).
Defined.

(** The example of the specification: for the
    declaration with window size (400,300), icon size 96, two file items at
    (100,100) and (300,100), on a system where everything works and the
    background cannot be resolved, the build returns [Ok], converts the
    writable image to the requested output path, and the metadata writer
    receives for [.DS_Store] of the mounted volume exactly two icon
    placements, the bounds (400,300) and the view parameters with scale 96
    and no alias. *)
Theorem build_example :
  let tr := run_trace no_background example_build in
  run_outcome no_background example_build = Done (Ok ())
  ∧ writes tr =
      [(str "/Volumes/My App/.DS_Store"%string,
        [Iloc (str "Example.app"%string) 100 100;
         Iloc (str "Applications"%string) 300 100;
         Bwsp 400 300; Icvp f64_96 None])]
  ∧ reverse (calls tr) !! 2%nat
    = Some (MkCall (Status (hdiutil_convert (temp_dmg_path example_env) example_out))).
Proof. by vm_compute. Qed.
