(* ===== verification/World.v ===== *)
(** * World: what a run does to the file system

    The theorems of the other files speak of the calls of a run.  This
    file replays a run on a model of the file system, the set of the paths
    that exist: every step changes the set according to its answer (a
    directory that could be created exists afterwards, a tree that could be
    removed does not, a process that exited with status zero has done what
    its command line says).  The model takes the effects of [cp] and
    [hdiutil] from the specification; a step that failed changes nothing.
    The theorems state which of the paths of a build exist at the end of a
    run: the staging directory, the writable image, the mount point and the
    file at the output path. *)

From Stdlib Require Import String.
From stdpp Require Import gmap.
From S2P Require Import Prelude Text Utf8 Paths Config Layout Attach Effects Build Oracle Staging Stages.
From S2P Require Import Verdict Cleanup.

Local Open Scope N_scope.

(** The paths that exist. *)
Abbreviation fs := (gset path) (only parsing).

(** [p] is [d] or lies below it. *)
Definition under (d p : path) : Prop := p = d ∨ (d ++ [slash]) `prefix_of` p.

#[export] Instance under_dec d p : Decision (under d p).
Proof. unfold under. apply _. Defined.

(** Remove [d] and everything below it. *)
Definition remove_tree (d : path) (w : fs) : fs := filter (λ p, ¬ under d p) w.

(** What a process that exited with status zero has done: [cp -R src dst]
    has made [dst]; [hdiutil create] has made the image, its last argument
    but one; [hdiutil detach] has taken the mount point and what is below
    it away; [hdiutil convert] has made the file named after [-o]. *)
Definition process_effect (cmd : Command) (w : fs) : fs :=
  if decide (program cmd = cp) then
    match args cmd with [_; _; dst] => {[dst]} ∪ w | _ => w end
  else if decide (program cmd = hdiutil) then
    match args cmd with
    | verb :: rest =>
        if decide (verb = verb_create) then
          match rest !! 9%nat with Some image => {[image]} ∪ w | None => w end
        else if decide (verb = verb_detach) then
          match rest with m :: _ => remove_tree m w | [] => w end
        else if decide (verb = verb_convert) then
          match rest !! 4%nat with Some final => {[final]} ∪ w | None => w end
        else w
    | [] => w
    end
  else w.

(** The file system after a step, given the file system before it. *)
Definition effect (w : fs) (o : Obs) : fs :=
  match o with
  | MkObs c x =>
      match c in Cmd X return X → fs with
      | RemoveDirAll p => λ x, if is_ok x then remove_tree p w else w
      | CreateDirAll p => λ x, if is_ok x then {[p]} ∪ w else w
      | RemoveFile p => λ x, if is_ok x then w ∖ {[p]} else w
      | Symlink _ dst => λ x, if is_ok x then {[dst]} ∪ w else w
      | FsCopy _ dst => λ x, if is_ok x then {[dst]} ∪ w else w
      | Status cmd => λ x,
          match x with
          | Ok st => if success st then process_effect cmd w else w
          | Err _ => w
          end
      | RunOutput _ => λ x,
          match x with
          | Ok out => match find_mount_point (from_utf8_lossy (stdout out)) with
                      | Some m => {[m]} ∪ w
                      | None => w
                      end
          | Err _ => w
          end
      | WriteDsStore p _ => λ x, if is_ok x then {[p]} ∪ w else w
      | _ => λ _, w
      end x
  end.

(** The file system after a run. *)
Definition after (w : fs) (tr : trace) : fs := foldl effect w tr.

(** The volume a process detaches. *)
Definition detach_target (cmd : Command) : option path :=
  if decide (program cmd = hdiutil) then
    match args cmd with
    | verb :: m :: _ => if decide (verb = verb_detach) then Some m else None
    | _ => None
    end
  else None.

(** The path a process that exits with status zero makes. *)
Definition process_makes (cmd : Command) : option path :=
  if decide (program cmd = cp) then
    match args cmd with [_; _; dst] => Some dst | _ => None end
  else if decide (program cmd = hdiutil) then
    match args cmd with
    | verb :: rest =>
        if decide (verb = verb_create) then rest !! 9%nat
        else if decide (verb = verb_convert) then rest !! 4%nat
        else None
    | [] => None
    end
  else None.

(** The volume a step has detached. *)
Definition detached (o : Obs) : option path :=
  if obs_succeeded o then obs_command o ≫= detach_target else None.

(** The path a step has made. *)
Definition makes (o : Obs) : option path :=
  match o with
  | MkObs c x =>
      match c in Cmd X return X → option path with
      | CreateDirAll p => λ x, if is_ok x then Some p else None
      | Symlink _ dst => λ x, if is_ok x then Some dst else None
      | FsCopy _ dst => λ x, if is_ok x then Some dst else None
      | Status cmd => λ x, if obs_succeeded (MkObs (Status cmd) x) then process_makes cmd else None
      | RunOutput _ => λ x,
          match x with Ok out => find_mount_point (from_utf8_lossy (stdout out)) | Err _ => None end
      | WriteDsStore p _ => λ x, if is_ok x then Some p else None
      | _ => λ _, None
      end x
  end.

(** The step has taken [p] away. *)
Definition takes (o : Obs) (p : path) : Prop :=
  match o with
  | MkObs c x =>
      match c in Cmd X return X → Prop with
      | RemoveDirAll d => λ x, is_ok x = true ∧ under d p
      | RemoveFile f => λ x, is_ok x = true ∧ p = f
      | Status cmd => λ x, ∃ m, detached (MkObs (Status cmd) x) = Some m ∧ under m p
      | _ => λ _, False
      end x
  end.

(** A directory could be created. *)
Definition obs_created (o : Obs) : bool :=
  match o with
  | MkObs c x =>
      match c in Cmd X return X → bool with
      | CreateDirAll _ => λ x, is_ok x
      | _ => λ _, false
      end x
  end.

(** A removal was asked for and failed. *)
Definition failed_removal (o : Obs) : bool :=
  match o with
  | MkObs c x =>
      match c in Cmd X return X → bool with
      | RemoveDirAll _ => λ x, negb (is_ok x)
      | RemoveFile _ => λ x, negb (is_ok x)
      | _ => λ _, false
      end x
  end.

(** ** Facts on the model *)

Lemma after_app w tr1 tr2 : after w (tr1 ++ tr2) = after (after w tr1) tr2.
Proof. apply foldl_app. Qed.

Lemma elem_of_remove_tree d p w : p ∈ remove_tree d w ↔ p ∈ w ∧ ¬ under d p.
Proof. unfold remove_tree. rewrite elem_of_filter. tauto. Qed.

(** A path below a path that starts with [pre] starts with [pre]. *)
Lemma under_prefix pre d p : pre `prefix_of` d → under d p → pre `prefix_of` p.
Proof.
  intros Hd [->|Hp]; [done|]. etrans; [done|]. etrans; [|done]. by apply prefix_app_r.
Qed.

#[export] Instance set_unfold_remove_tree d p w P :
  SetUnfoldElemOf p w P →
  SetUnfoldElemOf p (remove_tree d w) (P ∧ ¬ (p = d ∨ (d ++ [slash]) `prefix_of` p)).
Proof. intros [HP]. constructor. by rewrite elem_of_remove_tree, HP. Qed.

Lemma process_effect_cp src dst w : process_effect (cp_command src dst) w = {[dst]} ∪ w.
Proof. reflexivity. Qed.
Lemma process_effect_create d v i w : process_effect (hdiutil_create d v i) w = {[i]} ∪ w.
Proof. reflexivity. Qed.
Lemma process_effect_detach m w : process_effect (hdiutil_detach m) w = remove_tree m w.
Proof. reflexivity. Qed.
Lemma process_effect_convert i f w : process_effect (hdiutil_convert i f) w = {[f]} ∪ w.
Proof. reflexivity. Qed.
Lemma process_effect_chflags p w : process_effect (chflags_hidden p) w = w.
Proof. reflexivity. Qed.
Lemma process_effect_setfile p w : process_effect (setfile_custom_icon p) w = w.
Proof. reflexivity. Qed.
Lemma process_effect_sync w : process_effect sync_command w = w.
Proof. reflexivity. Qed.

#[export] Hint Rewrite process_effect_cp process_effect_create process_effect_detach
  process_effect_convert process_effect_chflags process_effect_setfile process_effect_sync : dmg.

(** What a process does, by what it makes and what it detaches. *)
Lemma process_effect_spec cmd w p :
  p ∈ process_effect cmd w
  ↔ process_makes cmd = Some p ∨ (p ∈ w ∧ ∀ m, detach_target cmd = Some m → ¬ under m p).
Proof.
  unfold process_effect, process_makes, detach_target, under. destruct cmd as [prog args]; simpl.
  repeat (case_decide || case_match); simplify_eq; try discriminate; set_solver.
Qed.

(** What a step does, by what it makes and what it takes. *)
Lemma effect_spec w o p : p ∈ effect w o ↔ makes o = Some p ∨ (p ∈ w ∧ ¬ takes o p).
Proof.
  destruct o as [X c x].
  destruct c; simpl; try (unfold under; destruct x; simpl; set_solver).
  - destruct x as [st|]; simpl; [|naive_solver]. unfold detached. simpl.
    destruct (success st); [|naive_solver]. rewrite process_effect_spec. naive_solver.
  - destruct x as [out|]; simpl; [|naive_solver]. case_match; set_solver.
Qed.

(** A volume found in the output of a process is made by that step. *)
Lemma obs_mount_makes o m : obs_mount o = Some m → makes o = Some m.
Proof. destruct o as [X c x]. by destruct c. Qed.

(** What is not taken stays. *)
Lemma after_keeps w tr p : p ∈ w → Forall (λ o, ¬ takes o p) tr → p ∈ after w tr.
Proof.
  intros Hw Htr. revert w Hw. induction Htr as [|o tr Ho _ IH]; intros w Hw; [done|].
  apply IH, effect_spec. auto.
Qed.

(** What is not made stays away. *)
Lemma after_absent w tr p : p ∉ w → Forall (λ o, makes o ≠ Some p) tr → p ∉ after w tr.
Proof.
  intros Hw Htr. revert w Hw. induction Htr as [|o tr Ho _ IH]; intros w Hw; [done|].
  apply IH. rewrite effect_spec. naive_solver.
Qed.

(** What is there was there before or was made. *)
Lemma after_origin w tr p : p ∈ after w tr → p ∈ w ∨ ∃ o, o ∈ tr ∧ makes o = Some p.
Proof.
  revert w. induction tr as [|o tr IH]; intros w; [by left|]. simpl.
  intros [[Hm|[? _]]%effect_spec|(o' & ? & ?)]%IH; [right|by left|right].
  - exists o. split; [left|done].
  - exists o'. split; [by right|done].
Qed.

(** What is made and not taken afterwards is there. *)
Lemma after_made w tr1 o tr2 p :
  makes o = Some p → Forall (λ o, ¬ takes o p) tr2 → p ∈ after w (tr1 ++ o :: tr2).
Proof.
  intros Ho Htr2. rewrite after_app. apply (after_keeps _ tr2); [|done].
  apply effect_spec. auto.
Qed.

(** What is taken and not made afterwards is not there. *)
Lemma after_taken w tr1 o tr2 p :
  takes o p → makes o ≠ Some p → Forall (λ o, makes o ≠ Some p) tr2 →
  p ∉ after w (tr1 ++ o :: tr2).
Proof.
  intros Ho Hm Htr2. rewrite after_app. apply (after_absent _ tr2); [|done].
  rewrite effect_spec. naive_solver.
Qed.

Lemma existsb_app_false {A} (f : A → bool) l1 l2 :
  existsb f (l1 ++ l2) = false → existsb f l2 = false.
Proof. rewrite existsb_app. by intros [_ ?]%orb_false_iff. Qed.

(** ** The last stage *)

(** Close a leaf of a symbolic execution: replay the concrete trace, decide
    the tests the run went through, and leave the rest to [set_solver]. *)
Ltac world_leaf :=
  unfold after, under in *; simpl in *;
  repeat match goal with
  | H : negb _ = true |- _ => apply negb_true_iff in H
  | H : negb _ = false |- _ => apply negb_false_iff in H
  end;
  repeat match goal with H : success _ = _ |- _ => rewrite H end;
  repeat case_match; autorewrite with dmg; try done; set_solver.

Section last_stage.
Context {api : EntryApi} (env : Env) (config : DmgConfig) (final_dmg_path : path).
Implicit Types (w : gset path) (tr : trace) (r : Outcome (Result unit Error)).

(** The output exists after a stage 6 that returns [Ok]. *)
Definition output_post tr r : Prop :=
  r = Done (Ok ()) → ∀ w, final_dmg_path ∈ after w tr.

(** The temporaries do not exist after a stage 6 that has run the cleanup
    and whose removals succeeded. *)
Definition removed_post tr r : Prop :=
  r = Done (Ok ()) ∨ r = Done (Err ConvertFailed) →
  existsb failed_removal tr = false →
  ∀ w, temp_dir env ∉ after w tr ∧ temp_dmg_path env ∉ after w tr.

Lemma detach_and_convert_output m dmg :
  ¬ under (temp_dir env) final_dmg_path → final_dmg_path ≠ dmg →
  wp (detach_and_convert env final_dmg_path m dmg) output_post.
Proof. intros Hu Hne. unfold detach_and_convert, output_post. wp_run; try done; world_leaf. Qed.

Lemma detach_and_convert_removed m :
  wp (detach_and_convert env final_dmg_path m (temp_dmg_path env)) removed_post.
Proof.
  unfold detach_and_convert, removed_post. wp_run; try done;
    try (by destruct_or!); world_leaf.
Qed.

Lemma build_output :
  ¬ under (temp_dir env) final_dmg_path → final_dmg_path ≠ temp_dmg_path env →
  wp (build env config final_dmg_path) output_post.
Proof.
  intros Hu Hne. apply build_last_stage.
  - intros tr1 tr2 r Hq Hr w'. rewrite after_app. by apply Hq.
  - by intros tr' e _ [=].
  - intros m. by apply detach_and_convert_output.
Qed.

Lemma build_removed : wp (build env config final_dmg_path) removed_post.
Proof.
  apply build_last_stage.
  - intros tr1 tr2 r' Hq Hr' Hrm'%existsb_app_false w'. rewrite after_app. by apply Hq.
  - intros tr' e He [[=]|[= ->]]. done.
  - apply detach_and_convert_removed.
Qed.

(** After a build that returns [Ok] there is a
    file at the output path: the conversion has made it and the cleanup,
    which follows, has not taken it away, provided the output path is not
    inside the staging directory and is not the writable image. *)
Theorem build_output_exists w tr :
  ¬ under (temp_dir env) final_dmg_path →
  final_dmg_path ≠ temp_dmg_path env →
  Run (build env config final_dmg_path) tr (Done (Ok ())) →
  final_dmg_path ∈ after w tr.
Proof. intros Hu Hne Hrun. exact (Run_wp _ _ _ Hrun _ (build_output Hu Hne) eq_refl w). Qed.

(** C27. After a build that returns [Ok] or the
    conversion error, and in which no removal failed, neither the staging
    directory nor the writable image exists. *)
Theorem build_temporaries_removed w tr r :
  Run (build env config final_dmg_path) tr r →
  r = Done (Ok ()) ∨ r = Done (Err ConvertFailed) →
  existsb failed_removal tr = false →
  temp_dir env ∉ after w tr ∧ temp_dmg_path env ∉ after w tr.
Proof. intros Hrun Hr Hrm. exact (Run_wp _ _ _ Hrun _ build_removed Hr Hrm w). Qed.

End last_stage.

(** ** What an early return leaves behind *)

(** The run does not take [p] away. *)
Definition keeps (p : path) (tr : trace) : Prop := ∀ w : gset path, p ∈ w → p ∈ after w tr.

(** What holds of every run of a stage other than the last: it does not
    take [p] away, and a result satisfies [R]. *)
Definition keep_post {A} (p : path) (R : A → Prop) (tr : trace)
    (r : Outcome (Result A Error)) : Prop :=
  match r with
  | Done (Ok a) => R a ∧ keeps p tr
  | Done (Err _) => keeps p tr
  | Panicked => True
  end.

Definition keep_plain {A} (p : path) (tr : trace) (r : Outcome A) : Prop := keeps p tr.

(** What holds of every run of the pipeline from a stage on: an error
    other than the conversion error means that [p] was not taken away. *)
Definition leak_post (p : path) (tr : trace) (r : Outcome (Result unit Error)) : Prop :=
  ∀ e, r = Done (Err e) → e ≠ ConvertFailed → keeps p tr.

(** What holds of every run of stage 1: [p] exists after it, or no
    directory could be created. *)
Definition made_post (p : path) (tr : trace) (r : Outcome (Result unit Error)) : Prop :=
  match r with
  | Done (Ok _) => ∀ w : gset path, p ∈ after w tr
  | Done (Err _) => existsb obs_created tr = false
  | Panicked => False
  end.

#[global] Arguments keep_post : simpl never.
#[global] Arguments keep_plain : simpl never.
#[global] Arguments leak_post : simpl never.
#[global] Arguments made_post : simpl never.

Lemma keeps_app p tr1 tr2 : keeps p tr1 → keeps p tr2 → keeps p (tr1 ++ tr2).
Proof. intros H1 H2 w Hw. rewrite after_app. by apply H2, H1. Qed.

Lemma keep_try {A B} p (R : A → Prop) (R' : B → Prop)
    (m : Prog (Result A Error)) (k : A → Prog (Result B Error)) :
  wp m (keep_post p R) → (∀ a, R a → wp (k a) (keep_post p R')) → wp (try m k) (keep_post p R').
Proof.
  intros Hm Hk. apply (wp_try_with (keep_post p R)); [done|..|done|done].
  intros tr a [Ha Htr]. eapply wp_mono; [|by apply Hk].
  intros tr' [[b|e]|]; unfold keep_post; [intros [??]; split|..]; auto using keeps_app.
Qed.

Lemma leak_try {A} p (R : A → Prop)
    (m : Prog (Result A Error)) (k : A → Prog (Result unit Error)) :
  wp m (keep_post p R) → (∀ a, R a → wp (k a) (leak_post p)) → wp (try m k) (leak_post p).
Proof.
  intros Hm Hk. apply (wp_try_with (keep_post p R)); [done|..].
  - intros tr a [Ha Htr]. eapply wp_mono; [|by apply Hk].
    intros tr' r Hl e ??. apply keeps_app; [done|by apply (Hl e)].
  - by intros tr e Htr e' _ _.
  - by intros tr _ e' [=].
Qed.

Lemma leak_bind {A} p (m : Prog A) (k : A → Prog (Result unit Error)) :
  wp m (keep_plain p) → (∀ a, wp (k a) (leak_post p)) → wp (m ≫= k) (leak_post p).
Proof.
  intros Hm Hk. apply (wp_bind_with (keep_plain p)); [done|..].
  - intros tr a Htr. eapply wp_mono; [|by apply Hk].
    intros tr' r Hl e ??. apply keeps_app; [done|by apply (Hl e)].
  - by intros tr _ e' [=].
Qed.

Ltac keep_leaf := unfold keeps; try split; intros; world_leaf.

Section early_return.
Context {api : EntryApi} (env : Env) (config : DmgConfig) (final_dmg_path : path).
Context (Htmp : ¬ volumes_prefix `prefix_of` temp_dir env).
Context (Hout : final_dmg_path ≠ temp_dir env).

Lemma prepare_made : wp (prepare_temp_dir env) (made_post (temp_dir env)).
Proof. unfold prepare_temp_dir, made_post. wp_run; world_leaf. Qed.

Lemma stage_item_keep item : wp (stage_item env item) (keep_post (temp_dir env) (λ _, True)).
Proof. unfold stage_item, keep_post. repeat case_decide; wp_run; keep_leaf. Qed.

Lemma stage_contents_keep items :
  wp (stage_contents env items) (keep_post (temp_dir env) (λ _, True)).
Proof.
  induction items as [|item items IH]; [unfold keep_post; keep_leaf|]. cbn [stage_contents].
  eapply keep_try; [apply stage_item_keep|done].
Qed.

Lemma create_image_keep : wp (create_image env config) (keep_post (temp_dir env) (λ _, True)).
Proof.
  pose proof (temp_dmg_ne_temp_dir env). unfold temp_dmg_path in *.
  unfold create_image, keep_post. rewrite temp_dir_parent. wp_run; keep_leaf.
Qed.

Lemma attach_image_keep dmg :
  wp (attach_image dmg) (keep_post (temp_dir env) (λ m, volumes_prefix `prefix_of` m)).
Proof.
  unfold attach_image, keep_post. wp_run; [|keep_leaf].
  destruct (find_mount_point _) as [m|] eqn:Hm; simpl; [|keep_leaf]. split; [|keep_leaf].
  apply find_map_Some in Hm as (? & l & ? & _ & _ & Hl).
  by apply mount_field_shape in Hl as (? & _).
Qed.

Lemma setup_background_keep m :
  wp (setup_background config m) (keep_post (temp_dir env) (λ _, True)).
Proof. unfold setup_background, keep_post. wp_run; keep_leaf. Qed.

Lemma resolve_alias_keep p : wp (resolve_alias p) (keep_plain (temp_dir env)).
Proof. unfold resolve_alias, keep_plain. wp_run; keep_leaf. Qed.

Lemma write_layout_keep m bg :
  wp (write_layout config m bg) (keep_post (temp_dir env) (λ _, True)).
Proof. unfold write_layout, keep_post. wp_run; keep_leaf. Qed.

Lemma volume_icon_keep m : wp (volume_icon config m) (keep_plain (temp_dir env)).
Proof. unfold volume_icon, keep_plain. wp_run; keep_leaf. Qed.

Lemma sync_keep : wp (call (Status sync_command)) (keep_plain (temp_dir env)).
Proof. unfold keep_plain. wp_run; keep_leaf. Qed.

Lemma detach_and_convert_leak m dmg :
  volumes_prefix `prefix_of` m →
  wp (detach_and_convert env final_dmg_path m dmg) (leak_post (temp_dir env)).
Proof.
  intros Hm. assert (¬ under m (temp_dir env)) as Hu by eauto using under_prefix.
  unfold detach_and_convert, leak_post. wp_run; try done; keep_leaf.
Qed.

Lemma rest_leak :
  wp (stage_contents env (contents config);;?
      temp_dmg_path ←? create_image env config;
      mount_point ←? attach_image temp_dmg_path;
      vol_bg_path ←? setup_background config mount_point;
      bg_alias_data ← resolve_alias vol_bg_path;
      write_layout config mount_point bg_alias_data;;?
      volume_icon config mount_point;;
      call (Status sync_command);;
      detach_and_convert env final_dmg_path mount_point temp_dmg_path)
     (leak_post (temp_dir env)).
Proof.
  eapply leak_try; [apply stage_contents_keep|intros _ _].
  eapply leak_try; [apply create_image_keep|intros dmg _].
  eapply leak_try; [apply attach_image_keep|intros m Hm].
  eapply leak_try; [apply setup_background_keep|intros bg_path _].
  apply leak_bind; [apply resolve_alias_keep|intros bg].
  eapply leak_try; [apply write_layout_keep|intros _ _].
  apply leak_bind; [apply volume_icon_keep|intros _].
  apply leak_bind; [apply sync_keep|intros _].
  by apply detach_and_convert_leak.
Qed.

(** C12. A build that has created its staging
    directory and returns an error other than the conversion error leaves
    the staging directory on the file system: nothing on the way to the
    early return removes it.  The staging directory is taken not to be at
    a volume and the output path not to be the staging directory, as
    this section assumes. *)
Theorem build_leaks_staging (w : gset path) tr e :
  Run (build env config final_dmg_path) tr (Done (Err e)) →
  e ≠ ConvertFailed →
  existsb obs_created tr = true →
  temp_dir env ∈ after w tr.
Proof.
  intros Hrun He Hc.
  refine (Run_wp _ _ _ Hrun
    (λ tr r, ∀ e, r = Done (Err e) → e ≠ ConvertFailed → existsb obs_created tr = true →
             ∀ w : gset path, temp_dir env ∈ after w tr) _ e eq_refl He Hc w).
  unfold build. apply (wp_try_with (made_post (temp_dir env))); [apply prepare_made|..].
  - intros tr1 [] Hmade. eapply wp_mono; [|apply rest_leak].
    intros tr2 r Hl e' ?? _ w'. rewrite after_app. by apply (Hl e').
  - intros tr1 e1 Hnone e' _ _ Hsome. unfold made_post in Hnone. congruence.
  - done.
Qed.

End early_return.

(** ** The theorems on concrete runs *)

Lemma build_output_exists_witness :
  example_out ∈ after (∅ : gset path) (run_trace furnished example_build).
Proof.
  apply (build_output_exists (api := total_api) example_env example_config example_out).
  - apply (bool_decide_unpack _). by vm_compute.
  - apply (bool_decide_unpack _). by vm_compute.
  - exact (run_Run furnished example_build).
Defined.

Lemma build_temporaries_removed_witness :
  let tr := run_trace (failing hdiutil verb_convert) example_build in
  temp_dir example_env ∉ after (∅ : gset path) tr
  ∧ temp_dmg_path example_env ∉ after (∅ : gset path) tr.
Proof.
  intros tr.
  apply (build_temporaries_removed (api := total_api) example_env example_config example_out
           ∅ tr _ (run_Run (failing hdiutil verb_convert) example_build)).
  - by right.
  - by vm_compute.
Defined.

(** A build whose image cannot be created leaves its staging directory. *)
Lemma build_leaks_staging_witness :
  temp_dir example_env
  ∈ after (∅ : gset path) (run_trace (failing hdiutil verb_create) example_build).
Proof.
  apply (build_leaks_staging (api := total_api) example_env example_config example_out)
    with (e := CreateFailed).
  - apply (bool_decide_unpack _). by vm_compute.
  - apply (bool_decide_unpack _). by vm_compute.
  - exact (run_Run (failing hdiutil verb_create) example_build).
  - done.
  - by vm_compute.
Defined.
