(* ===== verification/Signature.v ===== *)
(** * Signature: the steps of a build and its footprint

    [step_ok] is the signature of the pipeline: for each call of lib.rs,
    the arguments it may be made with, in terms of the declaration, the
    names of the build and the volumes the run has mounted.  Every step of
    every run of [build] has that shape, whatever the answers: the only
    directory ever removed is the staging directory, the only files
    removed are the writable image and the output, the only processes
    started are the five tools with the command lines of [Build].

    The replay of [World] says what each step makes and takes.  Together
    with the signature it bounds the footprint of a build on the file
    system: outside the paths a build owns (its staging directory, its
    writable image, the output path and the volumes it has mounted) the
    file system after a run is the file system before it.  The same two
    facts show what a run leaves behind when it does not reach a
    successful detachment: the volume stays mounted. *)

From Stdlib Require Import String.
From stdpp Require Import gmap.
From S2P Require Import Prelude Text Utf8 Paths Config Layout Attach Effects Build Oracle Staging Stages.
From S2P Require Import World.

Local Open Scope N_scope.

(** ** The signature of the pipeline *)

Section signature.
Context {api : EntryApi} (env : Env) (config : DmgConfig) (final_dmg_path : path).

(** The processes of a build, by the line of lib.rs that starts them;
    [ms] are the volumes the run has mounted. *)
Inductive command_ok (ms : list path) : Command → Prop :=
| ok_cp item :
    item ∈ contents config → c_type item = type_file →
    command_ok ms (cp_command (c_path item) (dest_path env item))
| ok_create : command_ok ms (hdiutil_create (temp_dir env) (title config) (temp_dmg_path env))
| ok_hide_background m : m ∈ ms → command_ok ms (chflags_hidden (join m background_dir))
| ok_hide_events m : m ∈ ms → command_ok ms (chflags_hidden (join m fseventsd))
| ok_hide_icon m : m ∈ ms → command_ok ms (chflags_hidden (join m volume_icon_name))
| ok_setfile m : m ∈ ms → command_ok ms (setfile_custom_icon m)
| ok_sync : command_ok ms sync_command
| ok_detach m : m ∈ ms → command_ok ms (hdiutil_detach m)
| ok_convert : command_ok ms (hdiutil_convert (temp_dmg_path env) final_dmg_path).

(** The calls of a build and their arguments. *)
Definition step_ok (ms : list path) (o : Obs) : Prop :=
  match o with
  | MkObs c _ =>
      match c with
      | PathExists p =>
          p ∈ [temp_dir env; temp_dmg_path env; background config; icon config; final_dmg_path]
      | RemoveDirAll p => p = temp_dir env
      | CreateDirAll p => p = temp_dir env ∨ ∃ m, m ∈ ms ∧ p = join m background_dir
      | RemoveFile p => p = temp_dmg_path env ∨ p = final_dmg_path
      | Symlink src dst =>
          ∃ item, item ∈ contents config ∧ c_type item = type_link
                  ∧ src = c_path item ∧ dst = dest_path env item
      | FsCopy src dst =>
          ∃ m, m ∈ ms ∧ ((src = background config ∧ dst = vol_bg_path m)
                         ∨ (src = icon config ∧ dst = join m volume_icon_name))
      | Status cmd => command_ok ms cmd
      | RunOutput cmd => cmd = hdiutil_attach (temp_dmg_path env)
      | AliasNew p => ∃ m, m ∈ ms ∧ p = vol_bg_path m
      | AliasEncode _ => True
      | WriteDsStore p es =>
          ∃ m bg, m ∈ ms ∧ p = join m ds_store_name ∧ es = layout_entries config bg
      end
  end.

(** Every step of the run has the shape of its line, on the volumes the
    run has mounted. *)
Definition typed (tr : trace) : Prop := Forall (step_ok (mounts tr)) tr.

Lemma command_ok_mono ms ms' cmd : ms ⊆ ms' → command_ok ms cmd → command_ok ms' cmd.
Proof. intros Hms. destruct 1; eauto using command_ok. Qed.

Lemma step_ok_mono ms ms' o : ms ⊆ ms' → step_ok ms o → step_ok ms' o.
Proof.
  intros Hms. destruct o as [X c x].
  destruct c; simpl; eauto using command_ok_mono; naive_solver.
Qed.

Lemma typed_intro ms tr : ms ⊆ mounts tr → Forall (step_ok ms) tr → typed tr.
Proof. intros Hms Htr. eapply Forall_impl; [done|]. intros o. by apply step_ok_mono. Qed.

#[local] Instance typed_monoidal : Monoidal typed.
Proof.
  split; [constructor|]. intros tr1 tr2 H1 H2. unfold typed. rewrite mounts_app.
  apply Forall_app; split; (eapply Forall_impl; [done|]);
    intros o; apply step_ok_mono; set_solver.
Qed.

(** Close a leaf of a symbolic execution: every step of the concrete trace
    has the shape of its line. *)
Ltac typed_leaf :=
  unfold always;
  repeat (apply Forall_cons_2; [simpl; solve [eauto 8 using command_ok | set_solver]|]);
  apply Forall_nil_2.

Section stages.
Context (ms : list path).

Lemma prepare_typed : wp (prepare_temp_dir env) (always (Forall (step_ok ms))).
Proof. unfold prepare_temp_dir. wp_run; typed_leaf. Qed.

Lemma stage_item_typed item :
  item ∈ contents config → wp (stage_item env item) (always (Forall (step_ok ms))).
Proof. intros Hin. unfold stage_item. repeat case_decide; wp_run; typed_leaf. Qed.

Lemma create_image_typed : wp (create_image env config) (always (Forall (step_ok ms))).
Proof.
  unfold create_image. rewrite temp_dir_parent. fold (temp_dmg_path env).
  wp_run; typed_leaf.
Qed.

Lemma attach_image_typed :
  wp (attach_image (temp_dmg_path env)) (always (Forall (step_ok ms))).
Proof. unfold attach_image. wp_run; typed_leaf. Qed.

Context (m : path) (Hm : m ∈ ms).

Lemma setup_background_typed : wp (setup_background config m) (always (Forall (step_ok ms))).
Proof. unfold setup_background. wp_run; typed_leaf. Qed.

Lemma resolve_alias_typed : wp (resolve_alias (vol_bg_path m)) (always (Forall (step_ok ms))).
Proof. unfold resolve_alias. wp_run; typed_leaf. Qed.

Lemma write_layout_typed bg : wp (write_layout config m bg) (always (Forall (step_ok ms))).
Proof. unfold write_layout. wp_run; typed_leaf. Qed.

Lemma volume_icon_typed : wp (volume_icon config m) (always (Forall (step_ok ms))).
Proof. unfold volume_icon. wp_run; typed_leaf. Qed.

Lemma sync_typed : wp (call (Status sync_command)) (always (Forall (step_ok ms))).
Proof. wp_run; typed_leaf. Qed.

Lemma detach_and_convert_typed :
  wp (detach_and_convert env final_dmg_path m (temp_dmg_path env))
     (always (Forall (step_ok ms))).
Proof. unfold detach_and_convert. wp_run; typed_leaf. Qed.

End stages.

(** The steps of stage 4 are well typed on the volume it returns together
    with steps that are well typed on that volume. *)
Lemma attach_image_glue :
  wp (attach_image (temp_dmg_path env)) (glue typed (λ m, Forall (step_ok [m]))).
Proof.
  eapply wp_mono; [|exact (wp_conj _ _ _ (attach_image_typed []) (attach_image_mounts _))].
  intros tr r [Htr Hm]. unfold glue, always in *.
  destruct r as [[m|e]|]; [|apply (typed_intro []); [set_solver|done]..].
  intros _ tr2 Htr2. apply (typed_intro [m]).
  - rewrite mounts_app, (Hm m eq_refl). set_solver.
  - apply Forall_app. split; [|done]. eapply Forall_impl; [done|].
    intros o. apply step_ok_mono. set_solver.
Qed.

Lemma build_typed : wp (build env config final_dmg_path) (always typed).
Proof.
  assert (∀ A (m : Prog A), wp m (always (Forall (step_ok []))) → wp m (always typed)) as Hw.
  { intros A m. apply wp_mono. intros tr r. apply typed_intro. set_solver. }
  apply (build_always _ _ _ typed (λ m, Forall (step_ok [m]))).
  - apply Hw, prepare_typed.
  - intros item Hin. by apply Hw, stage_item_typed.
  - apply Hw, create_image_typed.
  - apply attach_image_glue.
  - intros m _. apply setup_background_typed. set_solver.
  - intros m _. apply resolve_alias_typed. set_solver.
  - intros m bg _. apply write_layout_typed. set_solver.
  - intros m _. apply volume_icon_typed. set_solver.
  - intros m. apply sync_typed.
  - intros m _. apply detach_and_convert_typed. set_solver.
Qed.

(** C6. Every step of every run of [build] has the
    shape of its line of lib.rs, whatever the system answers: the only
    directory removed is the staging directory; the only files removed are
    the writable image and the file at the output path; directories are
    created, files copied and metadata written only at the staging
    directory and on a volume this run has mounted; the processes started
    are [cp] for a file item towards its destination, [hdiutil] with the
    four command lines of the controller, [chflags], [SetFile] and [sync];
    and every volume the run has mounted starts with [/Volumes/]. *)
Theorem build_steps_typed tr r :
  Run (build env config final_dmg_path) tr r →
  Forall (step_ok (mounts tr)) tr ∧ Forall volume (mounts tr).
Proof.
  intros Hrun. split; [|apply mounts_volume]. exact (Run_wp _ _ _ Hrun _ build_typed).
Qed.

End signature.

(** ** The footprint of a build *)

Section frame.
Context {api : EntryApi} (env : Env) (config : DmgConfig) (final_dmg_path : path).
Implicit Types (w : gset path) (tr : trace) (p m : path) (ms : list path).

(** The paths a build owns, [ms] being the volumes it has mounted. *)
Definition owned ms p : Prop :=
  under (temp_dir env) p ∨ p = temp_dmg_path env ∨ p = final_dmg_path
  ∨ Exists (λ m, m `prefix_of` p) ms.

#[export] Instance owned_dec ms p : Decision (owned ms p).
Proof. unfold owned. apply _. Defined.

Lemma owned_volume ms m p : m ∈ ms → m `prefix_of` p → owned ms p.
Proof. intros ??. do 3 right. apply Exists_exists. eauto. Qed.

(** ** What the steps of a build take and make *)

Lemma command_ok_detach ms cmd m : command_ok env config final_dmg_path ms cmd →
  detach_target cmd = Some m → m ∈ ms.
Proof. destruct 1; intros [=]. by subst. Qed.

Lemma command_ok_makes ms cmd p : from_file config →
  command_ok env config final_dmg_path ms cmd → process_makes cmd = Some p → owned ms p.
Proof.
  unfold from_file. rewrite Forall_forall. intros Hfile.
  destruct 1 as [item Hin _| | | | | | | |]; intros [= <-].
  - left. right. rewrite dest_path_inside by auto. by apply prefix_app, prefix_cons, prefix_nil.
  - right. by left.
  - do 2 right. by left.
Qed.

(** A step takes away nothing but the staging directory and what is in
    it, the writable image, the file at the output path, and a volume
    that was mounted, by detaching it. *)
Lemma step_ok_takes ms o p :
  step_ok env config final_dmg_path ms o → takes o p →
  under (temp_dir env) p ∨ p = temp_dmg_path env ∨ p = final_dmg_path
  ∨ ∃ m, m ∈ ms ∧ detached o = Some m ∧ under m p.
Proof.
  destruct o as [X c x]. destruct c; simpl; try done.
  - intros -> [_ ?]. by left.
  - intros [->| ->] [_ ->]; auto.
  - intros Hok (m & Hd & Hu). do 3 right. exists m. split_and!; [|done..].
    unfold detached in Hd. case_match; [|done]. by eapply command_ok_detach.
Qed.

(** A step of a declaration read from a file makes nothing outside the
    paths the build owns. *)
Lemma step_ok_makes ms o p :
  from_file config → step_ok env config final_dmg_path ms o → makes o = Some p →
  owned ms p ∨ obs_mount o = Some p.
Proof.
  intros Hfile. destruct o as [X c x]. destruct c; simpl; try done; try (by right).
  - intros [->|(m & Hm & ->)]; case_match; intros [= <-]; left; [by left; left|].
    by apply (owned_volume _ m), join_prefix.
  - intros (item & Hin & _ & _ & ->). case_match; intros [= <-]. left. left. right.
    unfold from_file in Hfile. rewrite Forall_forall in Hfile.
    rewrite dest_path_inside by auto. by apply prefix_app, prefix_cons, prefix_nil.
  - intros (m & Hm & [[_ ->]|[_ ->]]); case_match; intros [= <-]; left;
      apply (owned_volume _ m); try done; [|by apply join_prefix].
    unfold vol_bg_path. etrans; by apply join_prefix.
  - intros Hok. case_match; [|done]. left. by eapply command_ok_makes.
  - intros (m & bg & Hm & -> & _). case_match; intros [= <-]. left.
    by apply (owned_volume _ m), join_prefix.
Qed.

Lemma typed_takes tr p :
  typed env config final_dmg_path tr → ¬ owned (mounts tr) p → Forall (λ o, ¬ takes o p) tr.
Proof.
  intros Htr Hp. eapply Forall_impl; [exact Htr|]. intros o Ho Ht.
  destruct (step_ok_takes _ _ _ Ho Ht) as [?|[?|[?|(m & Hm & _ & Hu)]]]; apply Hp;
    unfold owned; auto.
  by apply (owned_volume _ m), (under_prefix m m).
Qed.

Lemma typed_makes tr p :
  from_file config → typed env config final_dmg_path tr → ¬ owned (mounts tr) p →
  Forall (λ o, makes o ≠ Some p) tr.
Proof.
  intros Hfile Htr Hp. apply Forall_forall. intros o Hin Hmk.
  unfold typed in Htr. rewrite Forall_forall in Htr.
  destruct (step_ok_makes _ _ _ Hfile (Htr o Hin) Hmk) as [?|Hm]; [done|].
  apply Hp, (owned_volume _ p); [|done]. apply list_elem_of_omap. eauto.
Qed.

(** C7. Outside the paths it owns, a build leaves the file
    system as it found it, whatever the system answers and however the run
    ends.  A path that is not the staging directory or below it, not the
    writable image, not the output path and not at a volume this run has
    mounted exists after the run if it existed before; and for a
    declaration read from a file, such a path exists after the run only if
    it existed before. *)
Theorem build_frame w tr r p :
  Run (build env config final_dmg_path) tr r →
  ¬ owned (mounts tr) p →
  (p ∈ w → p ∈ after w tr) ∧ (from_file config → p ∈ after w tr → p ∈ w).
Proof.
  intros Hrun Hp. pose proof (Run_wp _ _ _ Hrun _ (build_typed env config final_dmg_path)) as Htr.
  split.
  - intros Hw. by apply after_keeps, typed_takes.
  - intros Hfile Hafter. destruct (decide (p ∈ w)) as [|Hw]; [done|].
    by destruct (after_absent w tr p Hw (typed_makes tr p Hfile Htr Hp)).
Qed.

(** C19. A volume that a run of [build] has
    mounted is still mounted at the end of the run unless an [hdiutil
    detach] exited with status zero: an error between attachment and
    detachment, a detach that could not be started and a detach that
    failed all leave the volume behind, the last one even when the build
    returns [Ok].  The mount point is taken to be outside the staging
    directory and to be neither the writable image nor the output path,
    which the build removes. *)
Theorem build_leaves_volume_mounted w tr r m :
  Run (build env config final_dmg_path) tr r →
  m ∈ mounts tr →
  omap detached tr = [] →
  ¬ under (temp_dir env) m → m ≠ temp_dmg_path env → m ≠ final_dmg_path →
  m ∈ after w tr.
Proof.
  intros Hrun Hm Hdet Hdir Hdmg Hout.
  pose proof (Run_wp _ _ _ Hrun _ (build_typed env config final_dmg_path)) as Htr.
  apply list_elem_of_omap in Hm as (o & Ho & Hmk%obs_mount_makes).
  apply list_elem_of_split in Ho as (tr1 & tr2 & ->). apply after_made; [done|].
  apply Forall_app in Htr as [_ [_ Htr2]%Forall_cons_iff].
  apply Forall_forall. intros o' Hin' Ht. rewrite Forall_forall in Htr2.
  destruct (step_ok_takes _ _ _ (Htr2 o' Hin') Ht) as [?|[?|[?|(m' & _ & Hd & _)]]]; try done.
  assert (m' ∈ omap detached (tr1 ++ o :: tr2)) as Hin.
  { apply list_elem_of_omap. exists o'. split; [set_solver|done]. }
  rewrite Hdet in Hin. set_solver.
Qed.

End frame.

(** ** The theorems on concrete runs *)

(** A file of the user, outside everything the example build owns. *)
Definition bystander : path := Eval vm_compute in str "/Users/me/notes.txt"%string.

Lemma build_frame_witness :
  let tr := run_trace furnished example_build in
  (bystander ∈ ({[bystander]} : gset path) → bystander ∈ after {[bystander]} tr)
  ∧ (from_file example_config → bystander ∈ after {[bystander]} tr
     → bystander ∈ ({[bystander]} : gset path)).
Proof.
  intros tr.
  apply (build_frame (api := total_api) example_env example_config example_out
           {[bystander]} tr _ bystander (run_Run furnished example_build)).
  apply (bool_decide_unpack _). by vm_compute.
Defined.

(** The volume of the example. *)
Definition example_mount : path :=
  Eval vm_compute in default [] (find_mount_point (from_utf8_lossy attach_stdout)).

(** A build whose [hdiutil detach] exits with status 1 returns [Ok] and
    leaves the volume mounted. *)
Lemma build_leaves_volume_mounted_witness :
  let sc := failing hdiutil verb_detach in
  run_outcome sc example_build = Done (Ok ())
  ∧ example_mount ∈ after (∅ : gset path) (run_trace sc example_build).
Proof.
  intros sc. split; [by vm_compute|].
  apply (build_leaves_volume_mounted (api := total_api) example_env example_config example_out
           ∅ _ _ example_mount (run_Run sc example_build));
    try (apply (bool_decide_unpack _)); by vm_compute.
Defined.

Lemma build_steps_typed_witness :
  let tr := run_trace furnished example_build in
  Forall (step_ok (api := total_api) example_env example_config example_out (mounts tr)) tr
  ∧ Forall volume (mounts tr).
Proof.
  intros tr.
  exact (build_steps_typed (api := total_api) example_env example_config example_out
           _ _ (run_Run furnished example_build)).
Defined.
