(* ===== verification/Output.v ===== *)
(** * Output: when a file appears at the output path

    The image a caller asks for is made by one call, the [hdiutil convert]
    of line 142; lib.rs returns [Ok] when that call has exited with status
    zero and an error otherwise.  This file shows that the result of a
    build and the file system tell the same story: where there was no file
    at the output path before, there is one afterwards exactly when the
    build returns [Ok].  No error leaves a file behind that was not there.

    [converted] recognises the step that makes the image.  No stage before
    the last has such a step, and in the last stage the step is followed
    by [Ok]; [Stages.build_last] puts the two together.  The signature of
    the pipeline ([Signature.step_ok]) shows that no other step makes a
    file at the output path. *)

From Stdlib Require Import String.
From stdpp Require Import gmap.
From S2P Require Import Prelude Text Utf8 Paths Config Layout Attach Effects Build Oracle Staging Stages.
From S2P Require Import World Signature.

Local Open Scope N_scope.

Implicit Types (w : gset path) (tr : trace) (p m : path).

(** The step is an [hdiutil convert] that exited with status zero. *)
Definition converted (o : Obs) : bool :=
  match obs_command o with
  | Some cmd =>
      bool_decide (program cmd = hdiutil ∧ head (args cmd) = Some verb_convert)
      && obs_succeeded o
  | None => false
  end.

(** No step of the run is a successful conversion. *)
Definition unconverted tr : Prop := existsb converted tr = false.

#[export] Instance unconverted_monoidal : Monoidal unconverted.
Proof.
  split; [done|]. unfold unconverted. intros tr1 tr2 H1 H2. by rewrite existsb_app, H1, H2.
Qed.

(** A run in which the image was converted has returned [Ok]. *)
Definition converted_ok tr (r : Outcome (Result unit Error)) : Prop :=
  existsb converted tr = true → r = Done (Ok ()).

#[export] Instance converted_ok_stable : Stable unconverted converted_ok.
Proof.
  unfold unconverted, converted_ok. split.
  - intros tr1 tr2 r H1 H2. rewrite existsb_app, H1. apply H2.
  - intros tr e ->. done.
  - intros tr ->. done.
Qed.

(** Close a leaf of a symbolic execution: the steps of the concrete trace
    are looked at one by one. *)
Ltac converted_leaf :=
  unfold always, unconverted, converted_ok; cbn [existsb];
  repeat match goal with
  | H : negb _ = true |- _ => apply negb_true_iff in H
  | H : negb _ = false |- _ => apply negb_false_iff in H
  end;
  unfold converted; simpl; repeat match goal with H : success _ = _ |- _ => rewrite H end;
  done.

Section output.
Context {api : EntryApi} (env : Env) (config : DmgConfig) (final_dmg_path : path).

(** ** The stages *)

Lemma prepare_unconverted : wp (prepare_temp_dir env) (always unconverted).
Proof. unfold prepare_temp_dir. wp_run; converted_leaf. Qed.

Lemma stage_item_unconverted item : wp (stage_item env item) (always unconverted).
Proof. unfold stage_item. repeat case_decide; wp_run; converted_leaf. Qed.

Lemma create_image_unconverted : wp (create_image env config) (always unconverted).
Proof. unfold create_image. rewrite temp_dir_parent. wp_run; converted_leaf. Qed.

Lemma attach_image_unconverted dmg : wp (attach_image dmg) (always unconverted).
Proof. unfold attach_image. wp_run; converted_leaf. Qed.

Lemma setup_background_unconverted m : wp (setup_background config m) (always unconverted).
Proof. unfold setup_background. wp_run; converted_leaf. Qed.

Lemma resolve_alias_unconverted p : wp (resolve_alias p) (always unconverted).
Proof. unfold resolve_alias. wp_run; converted_leaf. Qed.

Lemma write_layout_unconverted m bg : wp (write_layout config m bg) (always unconverted).
Proof. unfold write_layout. wp_run; converted_leaf. Qed.

Lemma volume_icon_unconverted m : wp (volume_icon config m) (always unconverted).
Proof. unfold volume_icon. wp_run; converted_leaf. Qed.

Lemma sync_unconverted : wp (call (Status sync_command)) (always unconverted).
Proof. wp_run; converted_leaf. Qed.

Lemma detach_and_convert_converted m dmg :
  wp (detach_and_convert env final_dmg_path m dmg) converted_ok.
Proof. unfold detach_and_convert. wp_run; converted_leaf. Qed.

Lemma build_converted : wp (build env config final_dmg_path) converted_ok.
Proof.
  apply (build_last env config final_dmg_path unconverted converted_ok);
    auto using prepare_unconverted, stage_item_unconverted, create_image_unconverted,
      attach_image_unconverted, setup_background_unconverted, resolve_alias_unconverted,
      write_layout_unconverted, volume_icon_unconverted, sync_unconverted,
      detach_and_convert_converted.
Qed.

(** ** What makes a file at the output path *)

Section elsewhere.
Context (Hfile : from_file config)
        (Hdir : ¬ under (temp_dir env) final_dmg_path)
        (Hdmg : final_dmg_path ≠ temp_dmg_path env)
        (Hvol : ¬ volume final_dmg_path).

(** The output path is not at a volume. *)
Lemma output_off_volume m : volume m → ¬ m `prefix_of` final_dmg_path.
Proof. intros Hm Hpre. apply Hvol. unfold volume in *. by etrans. Qed.

(** The only process of a build that makes the output is the
    conversion. *)
Lemma command_ok_output ms cmd :
  command_ok env config final_dmg_path ms cmd → process_makes cmd = Some final_dmg_path →
  program cmd = hdiutil ∧ head (args cmd) = Some verb_convert.
Proof.
  unfold from_file in Hfile. rewrite Forall_forall in Hfile.
  destruct 1 as [item Hin _| | | | | | | |]; intros Heq; try discriminate Heq;
    [injection Heq as Heq..|done].
  - destruct Hdir. right. rewrite <- Heq, dest_path_inside by auto.
    by apply prefix_app, prefix_cons, prefix_nil.
  - by destruct Hdmg.
Qed.

(** The only step of a build that makes the output is the conversion. *)
Lemma step_ok_output ms o :
  Forall volume ms → step_ok env config final_dmg_path ms o →
  makes o = Some final_dmg_path → converted o = true.
Proof.
  rewrite Forall_forall. intros Hms. pose proof Hfile as Hfile'.
  unfold from_file in Hfile'. rewrite Forall_forall in Hfile'.
  destruct o as [X c x]. destruct c; simpl; try done.
  - intros [->|(m & Hm & ->)]; case_match; intros [= Heq]; [by destruct Hdir; left|].
    destruct (output_off_volume m); [auto|]. rewrite <- Heq. by apply join_prefix.
  - intros (item & Hin & _ & _ & ->). case_match; intros [= Heq]. destruct Hdir. right.
    rewrite <- Heq, dest_path_inside by auto. by apply prefix_app, prefix_cons, prefix_nil.
  - intros (m & Hm & [[_ ->]|[_ ->]]); case_match; intros [= Heq];
      destruct (output_off_volume m); auto; rewrite <- Heq; [|by apply join_prefix].
    unfold vol_bg_path. etrans; by apply join_prefix.
  - intros Hok. unfold converted. simpl. case_match; [|done]. intros Hmk.
    destruct (command_ok_output _ _ Hok Hmk). by rewrite bool_decide_eq_true_2.
  - intros _ Hmk. destruct Hvol.
    match goal with c : Command |- _ => by apply (obs_mount_volume (MkObs (RunOutput c) x)) end.
  - intros (m & bg & Hm & -> & _). case_match; intros [= Heq].
    destruct (output_off_volume m); [auto|]. rewrite <- Heq. by apply join_prefix.
Qed.

End elsewhere.

(** C10. The file system and the result of a
    build tell the same story.  For a declaration read from a file and an
    output path that is not in the staging directory, not the writable
    image and not at a volume, when there was no file at the output path
    before the build, there is one after it exactly when the build
    returns [Ok]: no run that ends with an error or a panic leaves a file
    there, whatever the system has answered. *)
Theorem build_output_iff_success w tr r :
  Run (build env config final_dmg_path) tr r →
  from_file config →
  ¬ under (temp_dir env) final_dmg_path →
  final_dmg_path ≠ temp_dmg_path env →
  ¬ volume final_dmg_path →
  final_dmg_path ∉ w →
  final_dmg_path ∈ after w tr ↔ r = Done (Ok ()).
Proof.
  intros Hrun Hfile Hdir Hdmg Hvol Hw. split.
  - intros [?|(o & Hin & Hmk)]%after_origin; [done|].
    pose proof (Run_wp _ _ _ Hrun _ (build_typed env config final_dmg_path)) as Htr.
    unfold always, typed in Htr. rewrite Forall_forall in Htr.
    apply (Run_wp _ _ _ Hrun _ build_converted), existsb_exists.
    exists o. split; [by apply list_elem_of_In|].
    eapply step_ok_output; eauto using mounts_volume.
  - intros ->. exact (Run_wp _ _ _ Hrun _ (build_output _ _ _ Hdir Hdmg) eq_refl w).
Qed.

End output.

(** ** The theorem on concrete runs *)

(** A conversion that fails leaves nothing at the output path, and the
    build says so. *)
Lemma build_output_iff_success_witness :
  let sc := failing hdiutil verb_convert in
  example_out ∈ after (∅ : gset path) (run_trace sc example_build)
  ↔ run_outcome sc example_build = Done (Ok ()).
Proof.
  intros sc.
  apply (build_output_iff_success (api := total_api) example_env example_config example_out
           ∅ _ _ (run_Run sc example_build));
    try (apply (bool_decide_unpack _)); by vm_compute.
Defined.
