(* ===== verification/System.v ===== *)
(** * System: a file system that answers for itself

    In the theorems of [World] the answers of a run are arbitrary.  Here
    the test whether a path exists is answered by the file system itself:
    [consistent w tr] says so of a trace replayed from [w], and [system]
    is the handler that runs a program on a file system, a [Script]
    deciding what the file system does not (whether a call succeeds, what
    a process prints).  The handler refines the replay: its final state is
    [after] of its trace, and its trace is consistent.

    On consistent runs the tests of lib.rs mean something: the staging
    directory is fresh when the content loop starts, and a file at the
    output path does not survive a failed conversion. *)

From Stdlib Require Import String.
From stdpp Require Import gmap.
From S2P Require Import Prelude Text Utf8 Paths Config Layout Attach Effects Build Oracle Staging Stages.
From S2P Require Import Verdict Cleanup World Signature.

Local Open Scope N_scope.

Implicit Types (w : gset path) (tr : trace) (p : path).

(** ** Consistent runs *)

(** The test of a step, with its answer. *)
Definition obs_test (o : Obs) : option (path * bool) :=
  match o with
  | MkObs c x => match c in Cmd X return X → option (path * bool) with
                 | PathExists p => λ x, Some (p, x)
                 | _ => λ _, None
                 end x
  end.

(** The answer of the step is the one the file system [w] gives. *)
Definition truthful w (o : Obs) : Prop :=
  match obs_test o with Some (p, b) => b = bool_decide (p ∈ w) | None => True end.

#[export] Instance truthful_dec w o : Decision (truthful w o).
Proof. unfold truthful. repeat case_match; apply _. Defined.

(** Every test of the run got the answer of the file system of its
    moment, [w] being the file system at the start. *)
Fixpoint consistent w tr : Prop :=
  match tr with
  | [] => True
  | o :: tr' => truthful w o ∧ consistent (effect w o) tr'
  end.

#[export] Instance consistent_dec w tr : Decision (consistent w tr).
Proof. revert w. induction tr; intros w; simpl; apply _. Defined.

Lemma consistent_app w tr1 tr2 :
  consistent w (tr1 ++ tr2) ↔ consistent w tr1 ∧ consistent (after w tr1) tr2.
Proof. revert w. induction tr1 as [|o tr1 IH]; intros w; simpl; [|rewrite IH]; naive_solver. Qed.

(** ** The system *)

(** The script [sc] on the file system [w]. *)
Definition on_world (sc : Script) w : Script := {|
  sc_exists p := bool_decide (p ∈ w);
  sc_status := sc_status sc;
  sc_output := sc_output sc;
  sc_fs := sc_fs sc;
  sc_alias := sc_alias sc;
  sc_write := sc_write sc;
|}.

(** A call is answered from the file system and the script, and changes
    the file system as its answer says. *)
Definition system (sc : Script) : Handler (gset path) :=
  {| handle X c w := let x := answer (on_world sc w) c in (x, effect w (MkObs c x)) |}.

Lemma system_step {X A} sc (c : Cmd X) (k : X → Prog A) w :
  exec (system sc) (Vis c k) w
  = let x := answer (on_world sc w) c in
    let '(tr, r, w') := exec (system sc) (k x) (effect w (MkObs c x)) in
    (MkObs c x :: tr, r, w').
Proof. done. Qed.

Lemma system_truthful sc w {X} (c : Cmd X) : truthful w (MkObs c (answer (on_world sc w) c)).
Proof. by destruct c. Qed.

Lemma system_after {A} (sc : Script) (m : Prog A) w :
  (exec (system sc) m w).2 = after w (exec_trace (system sc) m w).
Proof.
  unfold exec_trace. revert w. induction m as [a|X c k IH|]; intros w; simpl; try done.
  specialize (IH (answer (on_world sc w) c) (effect w (MkObs c (answer (on_world sc w) c)))).
  by destruct (exec _ _ _) as [[tr r] w2].
Qed.

Lemma system_consistent {A} (sc : Script) (m : Prog A) w :
  consistent w (exec_trace (system sc) m w).
Proof.
  unfold exec_trace. revert w. induction m as [a|X c k IH|]; intros w; simpl; try done.
  specialize (IH (answer (on_world sc w) c) (effect w (MkObs c (answer (on_world sc w) c)))).
  destruct (exec _ _ _) as [[tr r] w2]. split; [apply system_truthful|done].
Qed.

(** Decide the tests of a consistent run, then close the leaf as in
    [World]. *)
Ltac system_leaf :=
  intros; simpl in *; unfold truthful in *; simpl in *; destruct_and?;
  repeat match goal with
  | H : true = bool_decide _ |- _ => symmetry in H; apply bool_decide_eq_true in H
  | H : false = bool_decide _ |- _ => symmetry in H; apply bool_decide_eq_false in H
  end;
  world_leaf.

(** ** The staging area *)

Section staging_area.
Context {api : EntryApi} (env : Env) (config : DmgConfig) (final_dmg_path : path).

(** Nothing exists below the staging directory without it. *)
Definition rooted w : Prop := ∀ p, under (temp_dir env) p → p ∈ w → temp_dir env ∈ w.

(** After stage 1 the staging directory exists and is empty. *)
Definition fresh w : Prop := ∀ p, under (temp_dir env) p → (p ∈ w ↔ p = temp_dir env).

Lemma prepare_fresh :
  wp (prepare_temp_dir env)
     (λ tr r, r = Done (Ok ()) → ∀ w, consistent w tr → rooted w → fresh (after w tr)).
Proof. unfold prepare_temp_dir, rooted, fresh. wp_run; try done; system_leaf. Qed.

(** A step of the content loop takes nothing away. *)
Lemma staging_obs_keeps o p : is_staging_obs o = true → ¬ takes o p.
Proof.
  destruct o as [X c x]. destruct c; simpl; try done; try tauto.
  intros Hcp%bool_decide_eq_true (m & Hd & _). unfold detached in Hd.
  case_match; [|done]. simpl in Hd. unfold detach_target in Hd.
  by rewrite Hcp, decide_False in Hd.
Qed.

(** What a step of the content loop makes is the destination of an
    item. *)
Lemma staging_obs_makes ms o p :
  step_ok env config final_dmg_path ms o → is_staging_obs o = true → makes o = Some p →
  ∃ item, item ∈ contents config ∧ p = dest_path env item.
Proof.
  destruct o as [X c x]. destruct c; simpl; try done.
  - intros (item & Hin & _ & _ & ->) _. case_match; intros [= <-]. eauto.
  - intros Hok Hcp%bool_decide_eq_true. case_match; [|done].
    destruct Hok; try discriminate Hcp. intros [= <-]. eauto.
Qed.

Lemma stage_item_made item :
  wp (stage_item env item)
     (λ tr r, r = Done (Ok ()) → c_type item = type_file → ∀ w, dest_path env item ∈ after w tr).
Proof. unfold stage_item. repeat case_decide; wp_run; try done; world_leaf. Qed.

Lemma stage_contents_keeps items p : wp (stage_contents env items) (always (keeps p)).
Proof.
  eapply wp_mono; [|apply stage_contents_spec]. intros tr r (_ & Hs & _) w Hw.
  apply after_keeps; [done|]. eapply Forall_impl; [done|]. intros o. apply staging_obs_keeps.
Qed.

(** A loop that ends without error has made the destination of every
    file item. *)
Lemma stage_contents_made items :
  wp (stage_contents env items)
     (λ tr r, r = Done (Ok ()) →
              ∀ w item, item ∈ items → c_type item = type_file → dest_path env item ∈ after w tr).
Proof.
  induction items as [|item items IH]; [simpl; set_solver|]. cbn [stage_contents].
  eapply wp_try_with; [apply stage_item_made|..]; [|done..].
  intros tr1 [] H1.
  eapply wp_mono; [|exact (wp_conj _ _ _ IH (stage_contents_keeps items (dest_path env item)))].
  intros tr2 r [H2 Hk] Hr w i [->|Hin]%elem_of_cons Hf; rewrite after_app.
  - by apply Hk, H1.
  - by apply H2.
Qed.

(** C20. The staging area manager keeps its contract
    on a file system that answers for itself and in which nothing exists
    below the staging directory without it.  When stage 1 and the
    content loop have ended without error, the staging directory exists,
    it holds the copy of every file item under the item's destination,
    and everything in it is the destination of an item of the
    declaration: what an earlier build may have left there is gone. *)
Theorem staging_area_ready w tr1 tr2 :
  Run (prepare_temp_dir env) tr1 (Done (Ok ())) →
  Run (stage_contents env (contents config)) tr2 (Done (Ok ())) →
  consistent w tr1 → rooted w →
  temp_dir env ∈ after w (tr1 ++ tr2)
  ∧ (∀ item, item ∈ contents config → c_type item = type_file →
             dest_path env item ∈ after w (tr1 ++ tr2))
  ∧ (∀ p, under (temp_dir env) p → p ∈ after w (tr1 ++ tr2) →
          p = temp_dir env ∨ ∃ item, item ∈ contents config ∧ p = dest_path env item).
Proof.
  intros Hrun1 Hrun2 Hcons Hroot. rewrite after_app.
  pose proof (Run_wp _ _ _ Hrun1 _ prepare_fresh eq_refl w Hcons Hroot) as Hfresh.
  pose proof (Run_wp _ _ _ Hrun2 _ (stage_contents_spec env _)) as (_ & Hstaging & _).
  assert (Forall (step_ok env config final_dmg_path []) tr2) as Htyped.
  { refine (Run_wp _ _ _ Hrun2 (always (Forall (step_ok env config final_dmg_path []))) _).
    apply stage_contents_always; [apply _|]. intros item Hin. by apply stage_item_typed. }
  rewrite Forall_forall in Hstaging, Htyped. split_and!.
  - apply (Run_wp _ _ _ Hrun2 _ (stage_contents_keeps _ _)), Hfresh; unfold under; auto.
  - intros item Hin Hf. by apply (Run_wp _ _ _ Hrun2 _ (stage_contents_made _)).
  - intros p Hp [Hw|(o & Ho & Hmk)]%after_origin; [left; by apply Hfresh|right].
    eapply staging_obs_makes; eauto.
Qed.

End staging_area.

(** ** The pipeline on the system *)

(** A script under which every call succeeds: processes exit with status
    zero, [hdiutil attach] names a volume, the file system and the
    libraries do what they are asked. *)
Definition obliging (sc : Script) : Prop :=
  (∀ cmd, ∃ st, sc_status sc cmd = Ok st ∧ success st = true)
  ∧ (∀ cmd, ∃ out, sc_output sc cmd = Ok out ∧ is_Some (find_mount_point (from_utf8_lossy (stdout out))))
  ∧ (∀ p, sc_fs sc p = Ok ())
  ∧ (∀ p, is_ok (sc_alias sc p) = true)
  ∧ sc_write sc = Ok ().

Lemma obliging_well sc w {X} (c : Cmd X) :
  obliging sc → answered_well (MkObs c (answer (on_world sc w) c)) = true.
Proof.
  intros (Hst & Hout & Hfs & Halias & Hwr). destruct c; simpl; rewrite ?Hfs, ?Hwr; try done.
  - by destruct (Hst c) as (st & -> & ?).
  - destruct (Hout c) as (out & -> & ?). by apply bool_decide_eq_true.
Qed.

Lemma obliging_removals sc w {X} (c : Cmd X) :
  obliging sc → failed_removal (MkObs c (answer (on_world sc w) c)) = false.
Proof. intros (_ & _ & Hfs & _). destruct c; simpl; by rewrite ?Hfs. Qed.

Section pipeline.
Context {api : EntryApi} (env : Env) (config : DmgConfig) (final_dmg_path : path).

(** What holds of every run of stage 6: after the conversion error there
    is no file at the output path. *)
Definition lost_post tr (r : Outcome (Result unit Error)) : Prop :=
  r = Done (Err ConvertFailed) → ∀ w, consistent w tr → final_dmg_path ∉ after w tr.

Lemma detach_and_convert_lost m dmg :
  wp (detach_and_convert env final_dmg_path m dmg) lost_post.
Proof. unfold detach_and_convert, lost_post. wp_run; try done; system_leaf. Qed.

(** C24. On a file system that
    answers for itself, a build that ends with the conversion error leaves
    no file at the output path, whether or not there was one before: the
    file that was there has been removed before the conversion was
    started. *)
Theorem build_failed_conversion_loses_output w tr :
  Run (build env config final_dmg_path) tr (Done (Err ConvertFailed)) →
  consistent w tr →
  final_dmg_path ∉ after w tr.
Proof.
  intros Hrun. refine (Run_wp _ _ _ Hrun lost_post _ eq_refl w). apply build_last_stage.
  - intros tr1 tr2 r Hq Hr w' [_ ?]%consistent_app. rewrite after_app. by apply Hq.
  - by intros tr' e He [= ->].
  - intros m. apply detach_and_convert_lost.
Qed.

(** C25. On a system where every call succeeds, and
    from any file system, [build] returns [Ok]; afterwards there is a file
    at the output path, and neither the staging directory nor the writable
    image exists, provided the output path is not inside the staging
    directory and is not the writable image. *)
Theorem build_end_to_end (sc : Script) w :
  obliging sc →
  ¬ under (temp_dir env) final_dmg_path →
  final_dmg_path ≠ temp_dmg_path env →
  ∃ tr w', exec (system sc) (build env config final_dmg_path) w = (tr, Done (Ok ()), w')
           ∧ final_dmg_path ∈ w' ∧ temp_dir env ∉ w' ∧ temp_dmg_path env ∉ w'.
Proof.
  intros Hsc Hu Hne. set (m := build env config final_dmg_path).
  pose proof (exec_Run (system sc) m w) as Hrun.
  pose proof (system_after sc m w) as Hw'.
  assert (exec_outcome (system sc) m w = Done (Ok ())) as Hok.
  { apply (build_well env config final_dmg_path _ _ Hrun), exec_Forall.
    intros X c w0. by apply obliging_well. }
  assert (existsb failed_removal (exec_trace (system sc) m w) = false) as Hrm.
  { apply not_true_iff_false. intros (o & Ho & Hf)%existsb_exists.
    pose proof (exec_Forall (system sc) (λ o, failed_removal o = false) m w) as Hall.
    rewrite Forall_forall in Hall. rewrite Hall in Hf; [done| |by apply list_elem_of_In].
    intros X c w0. by apply obliging_removals. }
  rewrite Hok in Hrun. unfold exec_trace, exec_outcome in *.
  destruct (exec (system sc) m w) as [[tr r] w']. simpl in *. subst r w'.
  exists tr, (after w tr). split_and!; [done|..].
  - exact (Run_wp _ _ _ Hrun _ (build_output env config final_dmg_path Hu Hne) eq_refl w).
  - apply (Run_wp _ _ _ Hrun _ (build_removed env config final_dmg_path)); auto.
  - apply (Run_wp _ _ _ Hrun _ (build_removed env config final_dmg_path)); auto.
Qed.

End pipeline.

(** ** The theorems on concrete runs *)

(** What an earlier build of the example has left behind, and the output
    of an earlier build. *)
Definition stale_file : path :=
  Eval vm_compute in (temp_dir example_env ++ str "/Old.app"%string).

Definition leftovers : gset path :=
  {[ temp_dir example_env; stale_file; temp_dmg_path example_env; example_out ]}.

Lemma happy_obliging : obliging happy.
Proof.
  split_and!; try done; intros cmd; eexists; (split; [reflexivity|]); [done|].
  apply (bool_decide_unpack _). by vm_compute.
Qed.

Lemma staging_area_ready_witness :
  let tr1 := exec_trace (system happy) (prepare_temp_dir example_env) leftovers in
  let tr2 := run_trace happy (stage_contents example_env (contents example_config)) in
  temp_dir example_env ∈ after leftovers (tr1 ++ tr2)
  ∧ (∀ item, item ∈ contents example_config → c_type item = type_file →
             dest_path example_env item ∈ after leftovers (tr1 ++ tr2))
  ∧ (∀ p, under (temp_dir example_env) p → p ∈ after leftovers (tr1 ++ tr2) →
          p = temp_dir example_env
          ∨ ∃ item, item ∈ contents example_config ∧ p = dest_path example_env item).
Proof.
  intros tr1 tr2.
  apply (staging_area_ready (api := total_api) example_env example_config example_out).
  - assert (exec_outcome (system happy) (prepare_temp_dir example_env) leftovers
            = Done (Ok ())) as <- by (by vm_compute).
    apply exec_Run.
  - assert (run_outcome happy (stage_contents example_env (contents example_config))
            = Done (Ok ())) as <- by (by vm_compute).
    apply run_Run.
  - apply system_consistent.
  - intros p _ _. apply (bool_decide_unpack _). by vm_compute.
Defined.

Lemma build_failed_conversion_loses_output_witness :
  let sc := failing hdiutil verb_convert in
  example_out ∈ leftovers
  ∧ example_out ∉ after leftovers (exec_trace (system sc) example_build leftovers).
Proof.
  intros sc. split; [apply (bool_decide_unpack _); by vm_compute|].
  apply (build_failed_conversion_loses_output (api := total_api)
           example_env example_config example_out).
  - assert (exec_outcome (system sc) example_build leftovers
            = Done (Err ConvertFailed)) as <- by (by vm_compute).
    apply exec_Run.
  - apply system_consistent.
Defined.

Lemma build_end_to_end_witness :
  ∃ tr w', exec (system happy) example_build leftovers = (tr, Done (Ok ()), w')
           ∧ example_out ∈ w' ∧ temp_dir example_env ∉ w' ∧ temp_dmg_path example_env ∉ w'.
Proof.
  apply (build_end_to_end (api := total_api) example_env example_config example_out happy).
  - apply happy_obliging.
  - apply (bool_decide_unpack _). by vm_compute.
  - apply (bool_decide_unpack _). by vm_compute.
Defined.
