(* ===== verification/Reads.v ===== *)
(** * Reads: what a build looks at

    [Signature] bounds what a build changes.  This file bounds what it
    looks at.  Whether a call succeeds is the choice of the system
    ([System.system] takes it from a script); what the file system itself
    tells a build is the answer to the five existence tests of lib.rs
    (lines 60, 79, 103, 128 and 141).  Two
    file systems that [agree] on a set of paths are indistinguishable to a
    program whose tests stay in that set: run on the same system, the
    program makes the same calls, gets the same answers and returns the
    same result, and the two file systems still agree afterwards.

    [agree T] is an equivalence on file systems coarser than equality;
    [effect] and [after] respect it, so a step can be rewritten under
    it. *)

From Stdlib Require Import String.
From stdpp Require Import gmap.
From S2P Require Import Prelude Text Utf8 Paths Config Layout Attach Effects Steps Build Oracle Staging.
From S2P Require Import Stages World Signature System.

Local Open Scope N_scope.

Implicit Types (w : gset path) (tr : trace) (p : path).

(** ** File systems that agree on a set of paths *)

Section agree.
Context (T : path → Prop).

(** The two file systems have the same paths among those of [T]. *)
Definition agree w1 w2 : Prop := ∀ p, T p → (p ∈ w1 ↔ p ∈ w2).

(** The test of the step, if it is one, is of a path of [T]. *)
Definition reads_in (o : Obs) : Prop :=
  match obs_test o with Some (p, _) => T p | None => True end.

#[export] Instance agree_equivalence : Equivalence agree.
Proof.
  split.
  - by intros w p _.
  - intros w1 w2 H p Hp. by rewrite (H p Hp).
  - intros w1 w2 w3 H1 H2 p Hp. by rewrite (H1 p Hp), (H2 p Hp).
Qed.

(** A step does the same to file systems that agree. *)
#[export] Instance effect_proper : Proper (agree ==> (=) ==> agree) effect.
Proof. intros w1 w2 Hw o ? <- p Hp. rewrite !effect_spec, (Hw p Hp). done. Qed.

#[export] Instance after_proper : Proper (agree ==> (=) ==> agree) after.
Proof.
  intros w1 w2 Hw tr ? <-. revert w1 w2 Hw.
  induction tr as [|o tr IH]; intros w1 w2 Hw; simpl; [done|]. apply IH. by rewrite Hw.
Qed.

(** A call that looks at a path of [T] only is answered alike. *)
Lemma answer_agree sc w1 w2 {X} (c : Cmd X) (x : X) :
  reads_in (MkObs c x) → agree w1 w2 → answer (on_world sc w1) c = answer (on_world sc w2) c.
Proof. destruct c; try done. simpl. intros Hp Hw. apply bool_decide_ext, Hw, Hp. Qed.

(** The tests of a program stay in [T] on every run. *)
Definition reads_within {A} (m : Prog A) : Prop := wp m (always (Forall reads_in)).

Lemma reads_within_step {X A} (c : Cmd X) (k : X → Prog A) x :
  reads_within (Vis c k) → reads_in (MkObs c x) ∧ reads_within (k x).
Proof. apply (wp_Forall_step (oracle happy) ()). Qed.

(** File systems that agree on [T] cannot be told apart by a program whose
    tests stay in [T]. *)
Lemma exec_agree {A} sc (m : Prog A) w1 w2 :
  reads_within m → agree w1 w2 →
  exec_trace (system sc) m w1 = exec_trace (system sc) m w2
  ∧ exec_outcome (system sc) m w1 = exec_outcome (system sc) m w2
  ∧ agree (exec (system sc) m w1).2 (exec (system sc) m w2).2.
Proof.
  unfold exec_trace, exec_outcome. revert w1 w2.
  induction m as [a|X c k IH|]; intros w1 w2 Hm Hw; [done| |done].
  rewrite !system_step. cbv zeta. set (x := answer (on_world sc w1) c).
  destruct (reads_within_step c k x Hm) as [Hc Hk].
  rewrite <- (answer_agree sc w1 w2 c x Hc Hw). fold x.
  assert (agree (effect w1 (MkObs c x)) (effect w2 (MkObs c x))) as Hw' by (by rewrite Hw).
  specialize (IH x _ _ Hk Hw').
  destruct (exec _ (k x) (effect w1 _)) as [[tr1 r1] v1].
  destruct (exec _ (k x) (effect w2 _)) as [[tr2 r2] v2].
  cbn [fst snd] in *. by destruct IH as (-> & -> & ?).
Qed.

End agree.

(** A larger set of paths agrees less often and holds more tests. *)
Lemma reads_in_mono (T T' : path → Prop) o : (∀ p, T p → T' p) → reads_in T o → reads_in T' o.
Proof. unfold reads_in. intros HT. repeat case_match; auto. Qed.

Lemma reads_within_mono {A} (T T' : path → Prop) (m : Prog A) :
  (∀ p, T p → T' p) → reads_within T m → reads_within T' m.
Proof.
  intros HT. apply wp_mono. unfold always. intros tr _ Htr.
  eapply Forall_impl; [done|]. intros o. by apply reads_in_mono.
Qed.

(** ** The build *)

Section build.
Context {api : EntryApi} (env : Env) (config : DmgConfig) (final_dmg_path : path).

(** The paths lib.rs tests: the staging directory (line 60), the writable
    image (line 79), the background (line 103), the icon (line 128) and
    the output (line 141). *)
Definition build_reads : list path :=
  [temp_dir env; temp_dmg_path env; background config; icon config; final_dmg_path].

(** A step of the shape of its line tests one of them. *)
Lemma step_ok_reads ms o : step_ok env config final_dmg_path ms o → reads_in (.∈ build_reads) o.
Proof. destruct o as [X c x]. by destruct c. Qed.

Lemma build_reads_within : reads_within (.∈ build_reads) (build env config final_dmg_path).
Proof.
  eapply wp_mono; [|apply (build_typed env config final_dmg_path)]. unfold always, typed.
  intros tr _ Htr. eapply Forall_impl; [done|]. intros o. apply step_ok_reads.
Qed.

(** C11. The file system influences a build through
    five paths only.  On the same system, builds started from two file
    systems that agree on the staging directory, the writable image, the
    background, the icon and the output path make the same calls with the
    same answers and return the same result; and wherever the two file
    systems agreed before the builds, they agree after them. *)
Theorem build_reads_only sc w1 w2 :
  (∀ p, p ∈ build_reads → (p ∈ w1 ↔ p ∈ w2)) →
  let run := exec (system sc) (build env config final_dmg_path) in
  (run w1).1 = (run w2).1
  ∧ ∀ p, (p ∈ w1 ↔ p ∈ w2) → (p ∈ (run w1).2 ↔ p ∈ (run w2).2).
Proof.
  intros Hw run.
  destruct (exec_agree (λ p, p ∈ w1 ↔ p ∈ w2) sc (build env config final_dmg_path) w1 w2)
    as (Htr & Hr & Hafter).
  - eapply reads_within_mono; [|apply build_reads_within]. done.
  - by intros p Hp.
  - split; [|done]. unfold exec_trace, exec_outcome in *. fold run in Htr, Hr.
    destruct (run w1) as [[??]?], (run w2) as [[??]?]. simpl in *. congruence.
Qed.

End build.

(** ** A concrete pair of file systems *)

(** The file of another program is there or not: the build of the example
    cannot tell, and leaves it as it was. *)
Lemma build_reads_only_witness :
  let run := exec (system happy) example_build in
  (run leftovers).1 = (run (leftovers ∪ {[bystander]})).1
  ∧ ∀ p, (p ∈ leftovers ↔ p ∈ leftovers ∪ {[bystander]}) →
         (p ∈ (run leftovers).2 ↔ p ∈ (run (leftovers ∪ {[bystander]})).2).
Proof.
  apply (build_reads_only (api := total_api) example_env example_config example_out happy).
  assert (bystander ∉ build_reads example_env example_config example_out) as Hb
    by (apply (bool_decide_unpack _); by vm_compute).
  intros p Hp. set_solver.
Defined.
