(* ===== verification/Image.v ===== *)
(** * Image: what the image holds

    The purpose of a build is an image that holds the declared items and
    the layout metadata.  The theorems of the other files speak of calls
    and of paths; this file follows the content.  The model of the file
    system is extended with the disk images ([Disk]): an image holds the
    names that were in its source folder when [hdiutil create] made it, a
    mounted volume is backed by its image, what was written to the volume
    is in the image once the volume is detached, and [hdiutil convert]
    makes an image with the content of another.  The effects of the tool
    are taken from the specification; they are the least one has to
    assume to say what the pipeline is for.

    A stage is specified by what it needs of the disk and what it leaves
    ([triple]); the triples compose along [try] and [bind] as the stages
    do in [build].  The theorem of the file: the image at the output path
    of a build that returns [Ok] holds every file item under its display
    name, and the layout metadata unless the volume is still mounted. *)

From Stdlib Require Import String.
From stdpp Require Import gmap.
From S2P Require Import Prelude Text Utf8 Paths Config Layout Attach Effects Build Oracle Staging Stages.
From S2P Require Import World Signature System.

Local Open Scope N_scope.

Implicit Types (w : gset path) (tr : trace) (p m : path).

(** ** The calls of [hdiutil] *)

Inductive HdiCall :=
| Create (dir image : path)
| Attach (image : path)
| Detach (m : path)
| Convert (image final : path).

(** The call a command line makes: the source folder and the image of
    [create], the image of [attach], the mount point of [detach], the
    image and the output of [convert]. *)
Definition hdiutil_call (cmd : Command) : option HdiCall :=
  if decide (program cmd = hdiutil) then
    match args cmd with
    | verb :: rest =>
        if decide (verb = verb_create) then
          dir ← rest !! 1%nat; image ← rest !! 9%nat; Some (Create dir image)
        else if decide (verb = verb_attach) then Attach <$> last rest
        else if decide (verb = verb_detach) then Detach <$> head rest
        else if decide (verb = verb_convert) then
          image ← rest !! 0%nat; final ← rest !! 4%nat; Some (Convert image final)
        else None
    | [] => None
    end
  else None.

#[global] Arguments hdiutil_call : simpl never.

(** ** Disks *)

(** The content of an image: the names it holds, relative to its root. *)
Definition content : Type := path → bool.

(** The names below the directory [d] in the file system [w]. *)
Definition holds (d : path) w : content :=
  λ r, negb (is_absolute r) && bool_decide (join d r ∈ w).

Definition either (c1 c2 : content) : content := λ r, c1 r || c2 r.

(** The paths that exist, the content of the images among them, and the
    image behind each mounted volume. *)
Record Disk := mkDisk {
  world : gset path;
  images : gmap path content;
  mounted : gmap path path;
}.

(** What a step that changes the disk has done. *)
Inductive Event :=
| FileRemoved (p : path)
| TreeRemoved (p : path)
| Called (call : HdiCall)
| Mounted (image m : path).

Definition event (o : Obs) : option Event :=
  match o with
  | MkObs c x =>
      match c in Cmd X return X → option Event with
      | RemoveFile p => λ x, if is_ok x then Some (FileRemoved p) else None
      | RemoveDirAll p => λ x, if is_ok x then Some (TreeRemoved p) else None
      | Status cmd => λ x,
          if obs_succeeded (MkObs (Status cmd) x) then Called <$> hdiutil_call cmd else None
      | RunOutput cmd => λ x,
          match x, hdiutil_call cmd with
          | Ok out, Some (Attach image) =>
              Mounted image <$> find_mount_point (from_utf8_lossy (stdout out))
          | _, _ => None
          end
      | _ => λ _, None
      end x
  end.

(** The images after an event: a removal takes the images it removes; a
    creation makes an image of the source folder; a detachment puts what
    is on the volume into its image; a conversion makes an image with
    the content of another, or of unknown content. *)
Definition images_after (d : Disk) (e : Event) : gmap path content :=
  match e with
  | FileRemoved p => delete p (images d)
  | TreeRemoved p => filter (λ kv, ¬ under p kv.1) (images d)
  | Called (Create dir image) => <[image := holds dir (world d)]> (images d)
  | Called (Detach m) =>
      match mounted d !! m with
      | Some image => alter (either (holds m (world d))) image (images d)
      | None => images d
      end
  | Called (Convert image final) =>
      match images d !! image with
      | Some c => <[final := c]> (images d)
      | None => delete final (images d)
      end
  | _ => images d
  end.

Definition mounted_after (d : Disk) (e : Event) : gmap path path :=
  match e with
  | Mounted image m => <[m := image]> (mounted d)
  | Called (Detach m) => delete m (mounted d)
  | _ => mounted d
  end.

(** The disk after a step. *)
Definition disk_step (d : Disk) (o : Obs) : Disk :=
  {| world := effect (world d) o;
     images := from_option (images_after d) (images d) (event o);
     mounted := from_option (mounted_after d) (mounted d) (event o) |}.

(** The disk after a run. *)
Definition disk_after (d : Disk) (tr : trace) : Disk := foldl disk_step d tr.

(** ** Facts on the model *)

Lemma disk_after_app d tr1 tr2 : disk_after d (tr1 ++ tr2) = disk_after (disk_after d tr1) tr2.
Proof. apply foldl_app. Qed.

(** The paths of a disk are those of the replay of [World]. *)
Lemma world_disk_after d tr : world (disk_after d tr) = after (world d) tr.
Proof. revert d. induction tr as [|o tr IH]; intros d; [done|]. apply IH. Qed.

Lemma hdiutil_call_create dir v image : hdiutil_call (hdiutil_create dir v image) = Some (Create dir image).
Proof. done. Qed.
Lemma hdiutil_call_attach image : hdiutil_call (hdiutil_attach image) = Some (Attach image).
Proof. done. Qed.
Lemma hdiutil_call_detach m : hdiutil_call (hdiutil_detach m) = Some (Detach m).
Proof. done. Qed.
Lemma hdiutil_call_convert image final :
  hdiutil_call (hdiutil_convert image final) = Some (Convert image final).
Proof. done. Qed.
Lemma hdiutil_call_cp src dst : hdiutil_call (cp_command src dst) = None.
Proof. done. Qed.
Lemma hdiutil_call_chflags p : hdiutil_call (chflags_hidden p) = None.
Proof. done. Qed.
Lemma hdiutil_call_setfile p : hdiutil_call (setfile_custom_icon p) = None.
Proof. done. Qed.
Lemma hdiutil_call_sync : hdiutil_call sync_command = None.
Proof. done. Qed.

#[export] Hint Rewrite hdiutil_call_create hdiutil_call_attach hdiutil_call_detach
  hdiutil_call_convert hdiutil_call_cp hdiutil_call_chflags hdiutil_call_setfile
  hdiutil_call_sync : dmg.

(** An image outside a removed directory is still there. *)
Lemma lookup_tree_removed (imgs : gmap path content) d p :
  ¬ under d p → filter (λ kv, ¬ under d kv.1) imgs !! p = imgs !! p.
Proof.
  intros Hp. destruct (imgs !! p) as [c|] eqn:E.
  - by apply map_lookup_filter_Some.
  - apply map_lookup_filter_None. left. done.
Qed.

(** ** Triples *)

(** From a disk of which [P] holds, a run of [m] that returns [a] ends in
    a disk of which [Q a] holds. *)
Definition triple {A} (P : Disk → Prop) (m : Prog A) (Q : A → Disk → Prop) : Prop :=
  wp m (λ tr r, ∀ a, r = Done a → ∀ d, P d → Q a (disk_after d tr)).

(** What is asked of the result of a stage that ends without error. *)
Definition on_ok {A} (Q : A → Disk → Prop) (r : Result A Error) (d : Disk) : Prop :=
  match r with Ok a => Q a d | Err _ => True end.

Lemma triple_bind {A B} (P : Disk → Prop) (Q : A → Disk → Prop) (R : B → Disk → Prop)
    (m : Prog A) (k : A → Prog B) :
  triple P m Q → (∀ a, triple (Q a) (k a) R) → triple P (m ≫= k) R.
Proof.
  intros Hm Hk. eapply wp_bind_with; [exact Hm| |by intros tr _ b [=]].
  intros tr a Ha. eapply wp_mono; [|apply Hk]. simpl. intros tr' r Hr b -> d Hd.
  rewrite disk_after_app. eapply Hr; eauto.
Qed.

Lemma triple_try {A B} (P : Disk → Prop) (Q : A → Disk → Prop) (R : B → Disk → Prop)
    (m : Prog (Result A Error)) (k : A → Prog (Result B Error)) :
  triple P m (on_ok Q) → (∀ a, triple (Q a) (k a) (on_ok R)) → triple P (try m k) (on_ok R).
Proof.
  intros Hm Hk. eapply wp_try_with; [exact Hm| |by intros tr e _ b [= <-]|by intros tr _ b [=]].
  intros tr a Ha. eapply wp_mono; [|apply Hk]. simpl. intros tr' r Hr b -> d Hd.
  rewrite disk_after_app. eapply Hr; [done|]. by apply (Ha (Ok a)).
Qed.

Lemma triple_mono {A} (P P' : Disk → Prop) (Q Q' : A → Disk → Prop) (m : Prog A) :
  (∀ d, P' d → P d) → (∀ a d, Q a d → Q' a d) → triple P m Q → triple P' m Q'.
Proof. intros HP HQ. apply wp_mono. intros tr r H a Hr d Hd. apply HQ, (H a Hr), HP, Hd. Qed.

Lemma triple_pure {A} (φ : Prop) (P : Disk → Prop) (m : Prog A) (Q : A → Disk → Prop) :
  (φ → triple P m Q) → triple (λ d, φ ∧ P d) m Q.
Proof.
  intros Hm. apply wp_Run. intros tr r Hrun a -> d [Hφ Hd].
  by apply (Run_wp _ _ _ Hrun _ (Hm Hφ) a).
Qed.

(** ** Steps that leave the images alone *)

Lemma quiet_after d tr :
  Forall (λ o, event o = None) tr →
  images (disk_after d tr) = images d ∧ mounted (disk_after d tr) = mounted d.
Proof.
  intros Htr. revert d. induction Htr as [|o tr Ho _ IH]; intros d; [done|].
  unfold disk_after in *. cbn [foldl]. destruct (IH (disk_step d o)) as [-> ->].
  unfold disk_step. cbn [images mounted]. by rewrite Ho.
Qed.

Lemma staging_obs_quiet o : is_staging_obs o = true → event o = None.
Proof.
  destruct o as [X c x]. destruct c; try done. cbn [is_staging_obs event].
  intros Hcp%bool_decide_eq_true. unfold hdiutil_call. rewrite Hcp, decide_False by done.
  by case_match.
Qed.

(** ** Simplification *)

Ltac disk_simpl :=
  repeat (progress (cbn [disk_step images mounted world from_option event obs_succeeded effect
                         images_after mounted_after fmap option_fmap option_map is_ok];
                    autorewrite with dmg;
                    repeat match goal with
                    | H : success _ = _ |- _ => rewrite H
                    | H : find_mount_point _ = _ |- _ => rewrite H
                    end)).

(** ** What the stages hand to each other *)

Section assertions.
Context (env : Env) (config : DmgConfig) (final_dmg_path : path) (orig : option content).

(** The content holds every file item under its display name. *)
Definition held (c : content) : Prop :=
  ∀ item, item ∈ contents config → c_type item = type_file → c (item_name item) = true.

(** The image at the output path is the one that was there before the
    build, or there is none as before. *)
Definition kept (d : Disk) : Prop := images d !! final_dmg_path = orig.

(** No volume is mounted; the items are staged; the writable image holds
    them; the image is mounted at [m]; the metadata is on the volume; the
    image at the output path holds the items, and the metadata unless a
    volume is still mounted.  Until the last stage the output is [kept]. *)
Definition clean (d : Disk) : Prop := mounted d = ∅ ∧ kept d.

Definition staged (d : Disk) : Prop :=
  clean d
  ∧ ∀ item, item ∈ contents config → c_type item = type_file → dest_path env item ∈ world d.

Definition imaged (d : Disk) : Prop :=
  clean d ∧ ∃ c, images d !! temp_dmg_path env = Some c ∧ held c.

Definition attached (m : path) (d : Disk) : Prop :=
  mounted d = {[m := temp_dmg_path env]} ∧ kept d
  ∧ ∃ c, images d !! temp_dmg_path env = Some c ∧ held c.

Definition decorated (m : path) (d : Disk) : Prop :=
  attached m d ∧ join m ds_store_name ∈ world d.

Definition delivered (d : Disk) : Prop :=
  ∃ c, images d !! final_dmg_path = Some c ∧ held c
       ∧ (mounted d = ∅ → c ds_store_name = true).

End assertions.

Lemma held_either config c1 c2 : held config c2 → held config (either c1 c2).
Proof. intros Hc item Hin Hf. unfold either. rewrite (Hc item) by done. apply orb_true_r. Qed.

Lemma holds_metadata m w : join m ds_store_name ∈ w → holds m w ds_store_name = true.
Proof. intros Hw. unfold holds. by rewrite bool_decide_eq_true_2. Qed.

(** Close a leaf of a symbolic execution: compute the images and the
    volumes after the concrete trace, the exit statuses the program does
    not test taken both ways; an image at another path than the one a
    step has changed is looked up in the disk before the step. *)
Ltac disk_lookup :=
  repeat match goal with
  | |- context [delete ?i ?imgs !! ?j] => rewrite (lookup_delete_ne imgs i j) by done
  | |- context [<[?i := ?c]> ?imgs !! ?j] => rewrite (lookup_insert_ne imgs i j c) by done
  | |- context [alter ?f ?i ?imgs !! ?j] => rewrite (lookup_alter_ne f imgs i j) by done
  | |- context [filter (λ kv, ¬ under ?p kv.1) ?imgs !! ?j] =>
      rewrite (lookup_tree_removed imgs p j) by done
  end.

Ltac disk_leaf :=
  unfold delivered, decorated, attached, imaged, staged, clean, kept, temp_dmg_path in *;
  repeat match goal with
  | H : negb _ = true |- _ => apply negb_true_iff in H
  | H : negb _ = false |- _ => apply negb_false_iff in H
  | H : Done (ok_or _ _) = Done (Ok _) |- _ => injection H as H; apply ok_or_Ok in H
  end;
  repeat match goal with
  | |- context [MkObs (Status _) (Ok ?st)] =>
      is_var st;
      lazymatch goal with H : success st = _ |- _ => fail | _ => destruct (success st) eqn:? end
  end;
  destruct_and?;
  repeat match goal with H : ∃ c : content, _ |- _ => destruct H as (? & ? & ?) end;
  disk_simpl;
  repeat match goal with H : mounted _ = _ |- _ => rewrite H end;
  rewrite ?insert_empty, ?delete_singleton_eq, ?lookup_singleton_eq; cbn [from_option];
  try done.

Ltac disk_done := solve [split_and?; disk_lookup; eauto; set_solver].

(** The image at the output path after the conversion: name it, and
    leave what is said of it. *)
Ltac output_image :=
  repeat (rewrite ?lookup_delete_ne, ?lookup_alter_eq by done;
          match goal with H : images _ !! _ = _ |- _ => rewrite H end;
          cbn [fmap option_fmap option_map]);
  eexists;
  (split;
   [rewrite ?lookup_delete_ne, ?lookup_tree_removed, ?lookup_insert_eq by done; reflexivity|]).

Ltac delivered_leaf :=
  output_image;
  (split;
   [eauto using held_either
   |first [by intros ?%map_non_empty_singleton
          |intros _; unfold either; by rewrite holds_metadata]]).

(** ** The stages *)

Section content.
Context {api : EntryApi} (env : Env) (config : DmgConfig) (final_dmg_path : path).

Section valid.
Context (orig : option content)
        (Hfile : from_file config)
        (Hdir : ¬ under (temp_dir env) final_dmg_path)
        (Hdmg : final_dmg_path ≠ temp_dmg_path env).

Local Notation held := (held config).
Local Notation clean := (clean final_dmg_path orig).
Local Notation staged := (staged env config final_dmg_path orig).
Local Notation imaged := (imaged env config final_dmg_path orig).
Local Notation attached := (attached env config final_dmg_path orig).
Local Notation decorated := (decorated env config final_dmg_path orig).
Local Notation delivered := (delivered config final_dmg_path).

Lemma held_staging w w' :
  (∀ item, item ∈ contents config → c_type item = type_file → dest_path env item ∈ w) →
  w ∖ {[temp_dmg_path env]} ⊆ w' →
  held (holds (temp_dir env) w').
Proof.
  pose proof Hfile as Hnone. unfold from_file in Hnone. rewrite Forall_forall in Hnone.
  intros Hw Hsub item Hin Hf. unfold holds.
  rewrite (plain_name_relative (item_name item)) by auto using item_name_plain.
  apply bool_decide_eq_true, Hsub, elem_of_difference. split; [by apply Hw|].
  apply not_elem_of_singleton, dest_path_ne_temp_dmg. auto.
Qed.

Lemma prepare_clean : triple clean (prepare_temp_dir env) (on_ok (λ _, clean)).
Proof. unfold triple, prepare_temp_dir. wp_run; disk_leaf; disk_done. Qed.

Lemma stage_contents_staged :
  triple clean (stage_contents env (contents config)) (on_ok (λ _, staged)).
Proof.
  eapply wp_mono;
    [|exact (wp_conj _ _ _ (stage_contents_spec env _) (stage_contents_made env _))].
  intros tr r [(_ & Hs & _) Hmade] [[]|] -> d [Hm Hk]; [|done].
  destruct (quiet_after d tr) as [Hi' Hm'];
    [eapply Forall_impl; [done|]; apply staging_obs_quiet|].
  split; [split; [by rewrite Hm'|by unfold kept; rewrite Hi']|].
  intros item Hin Hf. rewrite world_disk_after. by apply Hmade.
Qed.

Lemma create_image_imaged :
  triple staged (create_image env config) (on_ok (λ dmg d, dmg = temp_dmg_path env ∧ imaged d)).
Proof.
  unfold triple, create_image. rewrite temp_dir_parent. wp_run; disk_leaf;
    (split_and!; [congruence|done|by disk_lookup|]); eexists; (split; [by simplify_map_eq|]);
    (eapply held_staging; [done|set_solver]).
Qed.

Lemma attach_image_attached : triple imaged (attach_image (temp_dmg_path env)) (on_ok attached).
Proof. unfold triple, attach_image. wp_run; disk_leaf; disk_done. Qed.

Lemma setup_background_attached m :
  triple (attached m) (setup_background config m) (on_ok (λ _, attached m)).
Proof. unfold triple, setup_background. wp_run; disk_leaf; disk_done. Qed.

Lemma resolve_alias_attached m p : triple (attached m) (resolve_alias p) (λ _, attached m).
Proof. unfold triple, resolve_alias. wp_run; disk_leaf; disk_done. Qed.

Lemma write_layout_decorated m bg :
  triple (attached m) (write_layout config m bg) (on_ok (λ _, decorated m)).
Proof. unfold triple, write_layout. wp_run; disk_leaf; disk_done. Qed.

Lemma volume_icon_decorated m : triple (decorated m) (volume_icon config m) (λ _, decorated m).
Proof. unfold triple, volume_icon. wp_run; disk_leaf; disk_done. Qed.

Lemma sync_decorated m : triple (decorated m) (call (Status sync_command)) (λ _, decorated m).
Proof. unfold triple. wp_run; disk_leaf; disk_done. Qed.

Lemma detach_and_convert_delivered m :
  triple (decorated m) (detach_and_convert env final_dmg_path m (temp_dmg_path env))
         (on_ok (λ _, delivered)).
Proof. unfold triple, detach_and_convert. wp_run; disk_leaf; delivered_leaf. Qed.

(** The pipeline, from a disk without mounted volume to the image at the
    output path. *)
Lemma build_delivered :
  triple clean (build env config final_dmg_path) (on_ok (λ _, delivered)).
Proof.
  unfold build.
  eapply triple_try; [apply prepare_clean|intros ?].
  eapply triple_try; [apply stage_contents_staged|intros ?].
  eapply triple_try; [apply create_image_imaged|intros dmg]. apply triple_pure. intros ->.
  eapply triple_try; [apply attach_image_attached|intros m].
  eapply triple_try; [apply setup_background_attached|intros bg_path].
  eapply triple_bind; [apply resolve_alias_attached|intros bg].
  eapply triple_try; [apply write_layout_decorated|intros ?].
  eapply triple_bind; [apply volume_icon_decorated|intros ?].
  eapply triple_bind; [apply sync_decorated|intros ?].
  apply detach_and_convert_delivered.
Qed.

End valid.

(** C3. The image holds what was declared.  For a
    declaration read from a file and an output path that is neither in
    the staging directory nor the writable image, from a disk on which no
    volume is mounted, a build that returns [Ok] leaves at the output path
    an image that holds every file item of the declaration under its
    display name; it holds the layout metadata as well unless the volume
    is still mounted at the end, which is the case when [hdiutil detach]
    has failed. *)
Theorem build_image_contents d tr :
  Run (build env config final_dmg_path) tr (Done (Ok ())) →
  from_file config →
  ¬ under (temp_dir env) final_dmg_path →
  final_dmg_path ≠ temp_dmg_path env →
  mounted d = ∅ →
  ∃ c, images (disk_after d tr) !! final_dmg_path = Some c
       ∧ (∀ item, item ∈ contents config → c_type item = type_file → c (item_name item) = true)
       ∧ (mounted (disk_after d tr) = ∅ → c ds_store_name = true).
Proof.
  intros Hrun Hfile Hdir Hdmg Hd.
  exact (Run_wp _ _ _ Hrun _ (build_delivered _ Hfile Hdir Hdmg) _ eq_refl d (conj Hd eq_refl)).
Qed.

End content.

(** ** The theorem on concrete runs *)

(** A disk with nothing on it. *)
Definition empty_disk : Disk := {| world := ∅; images := ∅; mounted := ∅ |}.

Lemma build_image_contents_witness :
  let d := disk_after empty_disk (run_trace happy example_build) in
  ∃ c, images d !! example_out = Some c
       ∧ (∀ item, item ∈ contents example_config → c_type item = type_file →
                  c (item_name item) = true)
       ∧ (mounted d = ∅ → c ds_store_name = true).
Proof.
  apply (build_image_contents (api := total_api) example_env example_config example_out);
    [|try (apply (bool_decide_unpack _)); by vm_compute..].
  assert (run_outcome happy example_build = Done (Ok ())) as <- by (by vm_compute).
  apply run_Run.
Defined.

(** When [hdiutil detach] exits with status 1 the build still returns
    [Ok]: the volume stays mounted, and the image at the output path is
    the one [hdiutil create] made, without the layout metadata. *)
Example build_detach_failure_loses_metadata :
  let sc := failing hdiutil verb_detach in
  let d := disk_after empty_disk (run_trace sc example_build) in
  run_outcome sc example_build = Done (Ok ())
  ∧ mounted d !! example_mount = Some (temp_dmg_path example_env)
  ∧ (λ c : content, c ds_store_name) <$> images d !! example_out = Some false.
Proof. by vm_compute. Qed.
