(* ===== verification/Moments.v ===== *)
(** * Moments: the disk at every moment of a build

    [Image] says what the image holds when a build has returned [Ok].  A
    build can also fail, or be stopped between two calls.  This file
    follows the disk through the steps of [Steps.step] and shows what is
    true of it at every moment, whatever the system answers: at most one
    volume is mounted, and it is backed by the writable image; the image
    at the output path is the one that was there before the build, or it
    has been removed (line 141 removes it before the conversion), or it
    is one that holds every declared item.  No moment shows an image at
    the output path that lacks an item.  The file system outside the
    region of the build is at every moment as it was.

    A stage is given what holds [throughout] it beside the triple of
    [Image]; the two compose along [try] and [bind], and
    [Steps.wpp_adequate] takes the result to the configurations that can
    be reached.

    The region of the build is what it is for a declaration read from a
    file.  A declaration made through the API can give an item a name
    override; [build_override_escapes] shows where the copy of the item
    goes when the override is an absolute path. *)

From Stdlib Require Import String.
From stdpp Require Import gmap relations.
From S2P Require Import Prelude Text Utf8 Paths Config Layout Attach Effects Build Oracle Staging Stages.
From S2P Require Import World Signature System Image Steps.

Local Open Scope N_scope.

Implicit Types (w : gset path) (tr : trace) (p m : path) (d : Disk).

(** ** Throughout *)

(** From a disk of which [P] holds, [Inv] holds of the disk at every
    moment of every run of [m]. *)
Definition throughout {A} (P : Disk → Prop) (m : Prog A) (Inv : Disk → Prop) : Prop :=
  wpp m (λ tr, ∀ d, P d → Inv (disk_after d tr)).

Lemma throughout_bind {A B} (P : Disk → Prop) (Q : A → Disk → Prop) (Inv : Disk → Prop)
    (m : Prog A) (k : A → Prog B) :
  throughout P m Inv → triple P m Q → (∀ a, throughout (Q a) (k a) Inv) →
  throughout P (m ≫= k) Inv.
Proof.
  intros Hm Ht Hk. apply wpp_bind; [exact Hm|]. eapply wp_mono; [|exact Ht].
  intros tr r Hr a ->. eapply wpp_mono; [|apply Hk]. intros tr' H d Hd.
  rewrite disk_after_app. eapply H, Hr; eauto.
Qed.

Lemma throughout_try {A B} (P : Disk → Prop) (Q : A → Disk → Prop) (Inv : Disk → Prop)
    (m : Prog (Result A Error)) (k : A → Prog (Result B Error)) :
  throughout P m Inv → triple P m (on_ok Q) → (∀ a, throughout (Q a) (k a) Inv) →
  throughout P (try m k) Inv.
Proof.
  intros Hm Ht Hk. apply wpp_try; [exact Hm|]. eapply wp_mono; [|exact Ht].
  intros tr r Hr a ->. eapply wpp_mono; [|apply Hk]. intros tr' H d Hd.
  rewrite disk_after_app. apply H. by apply (Hr (Ok a)).
Qed.

Lemma throughout_pure {A} (φ : Prop) (P Inv : Disk → Prop) (m : Prog A) :
  (φ → throughout P m Inv) → throughout (λ d, φ ∧ P d) m Inv.
Proof.
  intros Hm. apply wpp_Partial. intros tr m' Htr d [Hφ Hd].
  by apply (proj1 (wpp_Partial _ _) (Hm Hφ) tr m').
Qed.

(** A program whose steps leave the images and the volumes alone. *)
Lemma throughout_quiet {A} (P Inv : Disk → Prop) (m : Prog A) :
  wp m (always (Forall (λ o, event o = None))) →
  (∀ d tr, P d → images (disk_after d tr) = images d → mounted (disk_after d tr) = mounted d →
           Inv (disk_after d tr)) →
  throughout P m Inv.
Proof.
  intros Hm HI. eapply wpp_mono; [|apply (wp_wpp (oracle happy) ()), Hm].
  - intros tr Htr d Hd. destruct (quiet_after d tr Htr). by apply HI.
  - intros tr tr'. rewrite Forall_app. tauto.
Qed.

(** What [throughout] shows holds of every configuration that can be
    reached. *)
Lemma throughout_reach {A} (P Inv : Disk → Prop) (prog rest : Prog A) d d' :
  throughout P prog Inv → P d → rtc (step disk_step) (prog, d) (rest, d') → Inv d'.
Proof.
  intros Hm Hd. apply (wpp_adequate disk_step Inv). eapply wpp_mono; [|exact Hm].
  intros tr H. by apply H.
Qed.

(** ** The stages *)

Section moments.
Context {api : EntryApi} (env : Env) (config : DmgConfig) (final_dmg_path : path).

(** At most one volume is mounted, and the writable image is behind it. *)
Definition one_volume d : Prop :=
  mounted d = ∅ ∨ ∃ m, mounted d = {[m := temp_dmg_path env]}.

(** The disk at a moment of a build: the image at the output path is the
    one from before the build, or it has been removed, or it is the one
    the build is for. *)
Definition safe (orig : option content) d : Prop :=
  one_volume d
  ∧ (kept final_dmg_path orig d
     ∨ images d !! final_dmg_path = None
     ∨ delivered config final_dmg_path d).

Section valid.
Context (orig : option content)
        (Hfile : from_file config)
        (Hdir : ¬ under (temp_dir env) final_dmg_path)
        (Hdmg : final_dmg_path ≠ temp_dmg_path env).

Local Notation clean := (clean final_dmg_path orig).
Local Notation staged := (staged env config final_dmg_path orig).
Local Notation imaged := (imaged env config final_dmg_path orig).
Local Notation attached := (attached env config final_dmg_path orig).
Local Notation decorated := (decorated env config final_dmg_path orig).

(** Close the goals of a walk through a stage: the disk at each of its
    moments is computed and looked at. *)
Ltac safe_leaf :=
  intros d Hd; simpl; unfold safe, one_volume; disk_leaf;
  repeat match goal with
  | |- context [find_mount_point ?t] => destruct (find_mount_point t) eqn:?; disk_leaf
  end;
  (split; [first [by left|right; by eexists]
          |first [left; by disk_lookup
                 |right; left; disk_lookup; by apply lookup_delete_eq
                 |right; right; delivered_leaf]]).

Lemma prepare_safe : throughout clean (prepare_temp_dir env) (safe orig).
Proof. unfold throughout, prepare_temp_dir. wpp_run; safe_leaf. Qed.

Lemma stage_contents_safe : throughout clean (stage_contents env (contents config)) (safe orig).
Proof.
  apply throughout_quiet.
  - eapply wp_mono; [|apply stage_contents_spec]. intros tr r (_ & Hs & _).
    eapply Forall_impl; [done|]. apply staging_obs_quiet.
  - intros d tr [Hm Hk] Hi' Hm'. split; [left; by rewrite Hm'|left; by unfold kept; rewrite Hi'].
Qed.

Lemma create_image_safe : throughout staged (create_image env config) (safe orig).
Proof. unfold throughout, create_image. rewrite temp_dir_parent. wpp_run; safe_leaf. Qed.

Lemma attach_image_safe : throughout imaged (attach_image (temp_dmg_path env)) (safe orig).
Proof. unfold throughout, attach_image. wpp_run; safe_leaf. Qed.

Lemma setup_background_safe m : throughout (attached m) (setup_background config m) (safe orig).
Proof. unfold throughout, setup_background. wpp_run; safe_leaf. Qed.

Lemma resolve_alias_safe m p : throughout (attached m) (resolve_alias p) (safe orig).
Proof. unfold throughout, resolve_alias. wpp_run; safe_leaf. Qed.

Lemma write_layout_safe m bg : throughout (attached m) (write_layout config m bg) (safe orig).
Proof. unfold throughout, write_layout. wpp_run; safe_leaf. Qed.

Lemma volume_icon_safe m : throughout (decorated m) (volume_icon config m) (safe orig).
Proof. unfold throughout, volume_icon. wpp_run; safe_leaf. Qed.

Lemma sync_safe m : throughout (decorated m) (call (Status sync_command)) (safe orig).
Proof. unfold throughout. wpp_run; safe_leaf. Qed.

Lemma detach_and_convert_safe m :
  throughout (decorated m) (detach_and_convert env final_dmg_path m (temp_dmg_path env))
             (safe orig).
Proof. unfold throughout, detach_and_convert. wpp_run; safe_leaf. Qed.

(** The pipeline: the disk is [safe] at every moment. *)
Lemma build_safe : throughout clean (build env config final_dmg_path) (safe orig).
Proof.
  unfold build.
  eapply throughout_try; [apply prepare_safe|by apply prepare_clean|intros ?].
  eapply throughout_try; [apply stage_contents_safe|by apply stage_contents_staged|intros ?].
  eapply throughout_try; [apply create_image_safe|by apply create_image_imaged|intros dmg].
  apply throughout_pure. intros ->.
  eapply throughout_try; [apply attach_image_safe|by apply attach_image_attached|intros m].
  eapply throughout_try;
    [apply setup_background_safe|by apply setup_background_attached|intros bg_path].
  eapply throughout_bind; [apply resolve_alias_safe|by apply resolve_alias_attached|intros bg].
  eapply throughout_try; [apply write_layout_safe|by apply write_layout_decorated|intros ?].
  eapply throughout_bind; [apply volume_icon_safe|by apply volume_icon_decorated|intros ?].
  eapply throughout_bind; [apply sync_safe|by apply sync_decorated|intros ?].
  apply detach_and_convert_safe.
Qed.

End valid.

(** ** What a build has touched at a moment *)

(** The path is outside the region the build owns, and not at a volume. *)
Definition clear_of p : Prop :=
  ¬ under (temp_dir env) p ∧ p ≠ temp_dmg_path env ∧ p ≠ final_dmg_path ∧ ¬ volume p.

#[export] Instance clear_of_dec p : Decision (clear_of p).
Proof. unfold clear_of, volume. apply _. Defined.

(** The steps of a partial run have the shape of their lines. *)
Lemma Partial_typed tr rest :
  Partial (build env config final_dmg_path) tr rest →
  ∃ ms, Forall volume ms ∧ Forall (step_ok env config final_dmg_path ms) tr.
Proof.
  intros (tr' & r & Hrun)%(Partial_complete (oracle happy) ()).
  pose proof (Run_wp _ _ _ Hrun _ (build_typed env config final_dmg_path)) as Htr.
  exists (mounts (tr ++ tr')). split; [apply mounts_volume|].
  unfold always, typed in Htr. by apply Forall_app in Htr as [? _].
Qed.

(** A step of a build takes and makes nothing outside the staging
    directory, the writable image, the output path and the volumes. *)
Lemma step_ok_outside ms o p :
  Forall volume ms → step_ok env config final_dmg_path ms o → clear_of p →
  ¬ takes o p ∧ (from_file config → makes o ≠ Some p).
Proof.
  rewrite Forall_forall. intros Hms Ho (Hdir & Hdmg & Hout & Hvol).
  assert (¬ owned env final_dmg_path ms p) as Hp.
  { intros [?|[?|[?|(m & Hm & Hpre)%Exists_exists]]]; try done.
    apply Hvol. unfold volume in *. etrans; [by apply Hms|done]. }
  split.
  - intros Ht. destruct (step_ok_takes _ _ _ _ _ _ Ho Ht) as [?|[?|[?|(m & Hm & _ & Hu)]]];
      try done. by apply Hp, (owned_volume _ _ _ m), (under_prefix m m).
  - intros Hfile Hmk. destruct (step_ok_makes _ _ _ _ _ _ Hfile Ho Hmk) as [?|Hm]; [done|].
    by apply Hvol, (obs_mount_volume o).
Qed.

(** A program whose steps have the shape of a step of the build does not
    take such a path away. *)
Lemma typed_keeps {A} ms (prog : Prog A) p :
  Forall volume ms → clear_of p →
  wp prog (always (Forall (step_ok env config final_dmg_path ms))) → wp prog (always (keeps p)).
Proof.
  intros Hms Hp. apply wp_mono. intros tr r Htr w Hw. apply after_keeps; [done|].
  eapply Forall_impl; [exact Htr|]. intros o Ho. by apply (step_ok_outside ms).
Qed.

(** C4. The disk at every moment of a build.
    For a declaration read from a file and an output path that is neither
    in the staging directory nor the writable image, from a disk on which
    no volume is mounted, every configuration a build can reach, whatever
    the system has answered and wherever the build is stopped, has at most
    one volume mounted, backed by the writable image, and at the output
    path the image that was there before the build, or none, or an image
    that holds every file item of the declaration under its display name
    and, when no volume is mounted, the layout metadata.  No moment shows
    an image at the output path that lacks a declared item. *)
Theorem build_disk_invariant d rest d' :
  from_file config →
  ¬ under (temp_dir env) final_dmg_path →
  final_dmg_path ≠ temp_dmg_path env →
  mounted d = ∅ →
  rtc (step disk_step) (build env config final_dmg_path, d) (rest, d') →
  (mounted d' = ∅ ∨ ∃ m, mounted d' = {[m := temp_dmg_path env]})
  ∧ (images d' !! final_dmg_path = images d !! final_dmg_path
     ∨ images d' !! final_dmg_path = None
     ∨ ∃ c, images d' !! final_dmg_path = Some c
            ∧ (∀ item, item ∈ contents config → c_type item = type_file →
                       c (item_name item) = true)
            ∧ (mounted d' = ∅ → c ds_store_name = true)).
Proof.
  intros Hfile Hdir Hdmg Hd.
  apply (throughout_reach _ (safe (images d !! final_dmg_path)) _ _ _ _
           (build_safe _ Hfile Hdir Hdmg)).
  by split.
Qed.

(** C8. What a build has touched when it is
    stopped.  In every configuration a build can reach, a path that is
    not the staging directory or below it, not the writable image, not
    the output path and not at a volume exists if it existed before the
    build; and for a declaration read from a file, such a path exists
    only if it existed before.  A build that is interrupted between two
    calls has left the files of others alone. *)
Theorem build_interrupted_frame d rest d' p :
  rtc (step disk_step) (build env config final_dmg_path, d) (rest, d') →
  ¬ under (temp_dir env) p → p ≠ temp_dmg_path env → p ≠ final_dmg_path → ¬ volume p →
  (p ∈ world d → p ∈ world d') ∧ (from_file config → p ∈ world d' → p ∈ world d).
Proof.
  intros (tr & Htr & ->)%steps_Partial Hdir Hdmg Hout Hvol.
  destruct (Partial_typed tr rest Htr) as (ms & Hms & Hok).
  change (state_after disk_step d tr) with (disk_after d tr). rewrite world_disk_after.
  split.
  - intros Hw. apply after_keeps; [done|]. eapply Forall_impl; [exact Hok|].
    intros o Ho. by apply (step_ok_outside ms).
  - intros Hfile Hafter. destruct (decide (p ∈ world d)) as [|Hw]; [done|].
    destruct (after_absent (world d) tr p Hw); [|done]. eapply Forall_impl; [exact Hok|].
    intros o Ho. by apply (step_ok_outside ms).
Qed.

(** A build that has passed the content loop has made the destination of
    every file item, whatever the file system was. *)
Lemma build_staged :
  wp (build env config final_dmg_path)
     (λ tr r, r = Done (Ok ()) →
              ∃ tr1 tr2, tr = tr1 ++ tr2
                         ∧ ∀ w item, item ∈ contents config → c_type item = type_file →
                                     dest_path env item ∈ after w tr1).
Proof.
  unfold build. apply (wp_try_with (λ _ _, True)); [by apply wp_Run| |done..].
  intros tr0 [] _.
  eapply wp_try_with; [apply (stage_contents_made env)| |done..].
  intros tr1 [] Hmade. apply wp_Run. intros tr2 r _ _.
  exists (tr0 ++ tr1), tr2. split; [by rewrite app_assoc|].
  intros w item Hin Hf. rewrite after_app. by apply Hmade.
Qed.

(** C37. A name override that is an absolute path takes the copy out of
    the staging directory.  Let a file item of the declaration carry the
    override [n], an absolute path that is not in the staging directory,
    not the writable image, not the output path and not at a volume.
    After every run of [build] that returns [Ok], a file exists at [n],
    whatever the file system was before: line 67 joins the override to
    the staging directory, the join of an absolute path is that path,
    [cp] writes there, and the removal of the staging directory at the
    end does not reach it.  The build writes outside the paths it owns,
    which [Signature.build_frame] excludes for a declaration read from a
    file. *)
Theorem build_override_escapes item n w tr :
  Run (build env config final_dmg_path) tr (Done (Ok ())) →
  item ∈ contents config → c_type item = type_file →
  c_name item = Some n → is_absolute n = true → clear_of n →
  n ∈ after w tr.
Proof.
  intros Hrun Hin Hf Hn Habs Hclear.
  destruct (Run_wp _ _ _ Hrun _ build_staged eq_refl) as (tr1 & tr2 & -> & Hmade).
  pose proof (Run_wp _ _ _ Hrun _ (build_typed env config final_dmg_path)) as Hok.
  unfold always, typed in Hok. apply Forall_app in Hok as [_ Hok].
  rewrite after_app, <-(dest_path_absolute_override env item n Hn Habs).
  apply after_keeps; [by apply Hmade|]. eapply Forall_impl; [exact Hok|].
  intros o Ho. rewrite (dest_path_absolute_override env item n Hn Habs).
  by apply (step_ok_outside (mounts (tr1 ++ tr2))); [apply mounts_volume|..].
Qed.

End moments.

(** ** The theorems on concrete runs *)

(** The example after its first twelve calls: the volume is mounted and
    the output path is still empty. *)
Example build_midway :
  let cfg := advance (oracle happy) 12 example_build () in
  let d' := disk_after empty_disk cfg.1 in
  final cfg.2 = false
  ∧ mounted d' = {[example_mount := temp_dmg_path example_env]}
  ∧ images d' !! example_out = None.
Proof. split_and!; apply (bool_decide_unpack _); by vm_compute. Qed.

Lemma build_disk_invariant_witness :
  let cfg := advance (oracle happy) 12 example_build () in
  let d' := disk_after empty_disk cfg.1 in
  (mounted d' = ∅ ∨ ∃ m, mounted d' = {[m := temp_dmg_path example_env]})
  ∧ (images d' !! example_out = images empty_disk !! example_out
     ∨ images d' !! example_out = None
     ∨ ∃ c, images d' !! example_out = Some c
            ∧ (∀ item, item ∈ contents example_config → c_type item = type_file →
                       c (item_name item) = true)
            ∧ (mounted d' = ∅ → c ds_store_name = true)).
Proof.
  intros cfg d'.
  apply (build_disk_invariant (api := total_api) example_env example_config example_out
           empty_disk cfg.2 d');
    [try (apply (bool_decide_unpack _)); by vm_compute..|].
  apply (advance_steps disk_step).
Defined.

(** The file of another program, while the example is at its twelfth
    call. *)
Lemma build_interrupted_frame_witness :
  let d := {| world := {[bystander]}; images := ∅; mounted := ∅ |} in
  let cfg := advance (oracle happy) 12 example_build () in
  let d' := disk_after d cfg.1 in
  (bystander ∈ world d → bystander ∈ world d')
  ∧ (from_file example_config → bystander ∈ world d' → bystander ∈ world d).
Proof.
  intros d cfg d'.
  apply (build_interrupted_frame (api := total_api) example_env example_config example_out
           d cfg.2 d' bystander);
    [apply (advance_steps disk_step)|try (apply (bool_decide_unpack _)); by vm_compute..].
Defined.

(** A declaration built through the API whose only item carries an
    absolute name override. *)
Definition shared_copy : path := Eval vm_compute in str "/Users/Shared/Example.app"%string.

Definition override_item : DmgContent :=
  {| c_x := 100; c_y := 100; c_type := type_file;
     c_path := str "build/Example.app"%string; c_name := Some shared_copy |}.

Definition override_config : DmgConfig := {|
  title := title example_config;
  icon := icon example_config;
  background := background example_config;
  icon_size := icon_size example_config;
  window := window example_config;
  contents := [override_item];
|}.

(** The build of that declaration on an empty file system leaves a file
    at the override, and nothing where the staging directory was. *)
Lemma build_override_escapes_witness :
  shared_copy
  ∈ after ∅ (run_trace happy (build (api := total_api) example_env override_config example_out)).
Proof.
  apply (build_override_escapes (api := total_api) example_env override_config example_out
           override_item shared_copy ∅);
    [exact (run_Run happy _)|by left|done|done|done|].
  apply (bool_decide_unpack _). by vm_compute.
Defined.

Example build_override_outside :
  let w := after ∅ (run_trace happy
                      (build (api := total_api) example_env override_config example_out)) in
  w = {[shared_copy; example_out]} ∧ ¬ under (temp_dir example_env) shared_copy.
Proof. split; apply (bool_decide_unpack _); by vm_compute. Qed.
