(* ===== verification/Isolation.v ===== *)
(** * Isolation: two builds on one host

    The staging directory and the writable image are named after the
    process id "to avoid collision with concurrent builds on the same
    host".  This file runs two programs on one file system, their calls
    interleaved by an arbitrary schedule, each answered by its own system
    from the file system of the moment, and shows when the two do not
    disturb each other: each makes the calls, gets the answers and reaches
    the point it would have reached alone.

    What a process needs of the other is that it is [polite]: the other
    neither makes nor takes a path this one tests.  [Signature] gives that
    of a build for every path outside the region the build owns, and the
    names of two builds with different process ids are outside each
    other's region.

    As in [Reads], whether a call succeeds is the choice of the system:
    what the file system tells a build is the answer to its existence
    tests. *)

From Stdlib Require Import String.
From stdpp Require Import gmap.
From S2P Require Import Prelude Text Utf8 Paths Config Layout Attach Effects Steps Build Oracle Staging.
From S2P Require Import Stages World Signature System Reads Image Moments.

Local Open Scope N_scope.

Implicit Types (w : gset path) (tr : trace) (p : path) (o : Obs) (sched : list bool).

(** ** Two processes on one file system *)

(** A process: the calls it has made, and what is left of its program. *)
Definition Process (A : Type) : Type := trace * Prog A.

(** One call of a process, answered by its system on the file system of
    the moment.  A process that has ended does nothing. *)
Definition proc_step {A} (sc : Script) (pr : Process A) w : Process A * gset path :=
  match pr.2 with
  | Vis c k =>
      let x := answer (on_world sc w) c in
      ((pr.1 ++ [MkObs c x], k x), effect w (MkObs c x))
  | _ => (pr, w)
  end.

(** The calls of two processes in the order of a schedule: [true] lets
    the first process make a call, [false] the second. *)
Fixpoint interleave {A B} (sc1 sc2 : Script) sched (pr1 : Process A) (pr2 : Process B) w
  : Process A * Process B * gset path :=
  match sched with
  | [] => (pr1, pr2, w)
  | true :: sched' =>
      let '(pr1', w') := proc_step sc1 pr1 w in interleave sc1 sc2 sched' pr1' pr2 w'
  | false :: sched' =>
      let '(pr2', w') := proc_step sc2 pr2 w in interleave sc1 sc2 sched' pr1 pr2' w'
  end.

(** The number of calls the schedule gives to a process. *)
Definition turns (b : bool) sched : nat := length (filter (λ b', b' = b) sched).

Lemma turns_cons b b' sched :
  turns b (b' :: sched) = if decide (b' = b) then S (turns b sched) else turns b sched.
Proof. unfold turns. rewrite filter_cons. by case_decide. Qed.

(** The process after [n] more calls on a file system of its own. *)
Definition alone {A} (sc : Script) (n : nat) (pr : Process A) w : Process A :=
  let '(tr, rest) := advance (system sc) n pr.2 w in (pr.1 ++ tr, rest).

(** The file system it leaves. *)
Definition alone_world {A} (sc : Script) (n : nat) (pr : Process A) w : gset path :=
  after w (advance (system sc) n pr.2 w).1.

(** ** Politeness *)

(** The step neither takes nor makes a path of [T]. *)
Definition leaves (T : path → Prop) (o : Obs) : Prop :=
  ∀ p, T p → ¬ takes o p ∧ makes o ≠ Some p.

(** The tests of the step are of paths of [T], and it leaves the paths
    of [T'] alone. *)
Definition polite (T T' : path → Prop) (o : Obs) : Prop := reads_in T o ∧ leaves T' o.

(** A step that leaves [T] alone keeps the agreement on [T]. *)
Lemma leaves_agree (T : path → Prop) o w w' :
  leaves T o → agree T w' w → agree T w' (effect w o).
Proof.
  intros Ho Hw p Hp. destruct (Ho p Hp) as [Ht Hm]. rewrite effect_spec, (Hw p Hp). naive_solver.
Qed.

Section pair.
Context {A B : Type} (sc1 sc2 : Script) (T1 T2 : path → Prop).

(** One call of a polite process: the call it would have made alone, and
    the agreement of both processes with the file system is kept. *)
Lemma proc_step_polite {C} (sc : Script) (T T' : path → Prop) (pr : Process C) w w1 w2 n :
  wp pr.2 (always (Forall (polite T T'))) → agree T w1 w → agree T' w2 w →
  ∃ w1', alone sc (S n) pr w1 = alone sc n (proc_step sc pr w).1 w1'
         ∧ alone_world sc (S n) pr w1 = alone_world sc n (proc_step sc pr w).1 w1'
         ∧ wp (proc_step sc pr w).1.2 (always (Forall (polite T T')))
         ∧ agree T w1' (proc_step sc pr w).2
         ∧ agree T' w2 (proc_step sc pr w).2.
Proof.
  destruct pr as [tr [a|X c k|]]; unfold proc_step, alone, alone_world; cbn [fst snd];
    intros Hpr Hw1 Hw2; try (exists w1; by rewrite !advance_final).
  set (x := answer (on_world sc w) c).
  destruct (wp_Forall_step (oracle happy) () _ c k x Hpr) as [[Hr Hl] Hk].
  exists (effect w1 (MkObs c x)).
  split_and!; [..|done|by rewrite Hw1|by apply leaves_agree];
    cbn [advance handle system]; rewrite (answer_agree T sc w1 w c x Hr Hw1); fold x;
    destruct (advance _ n (k x) _) as [tr' rest]; [by rewrite <- app_assoc|done].
Qed.

(** Two polite processes under any schedule: each is where it would be
    alone after its share of the schedule, and the file system they
    share is, on the paths a process tests, the one the process alone
    would have left. *)
Lemma interleave_alone sched (pr1 : Process A) (pr2 : Process B) w w1 w2 :
  wp pr1.2 (always (Forall (polite T1 T2))) →
  wp pr2.2 (always (Forall (polite T2 T1))) →
  agree T1 w1 w → agree T2 w2 w →
  let r := interleave sc1 sc2 sched pr1 pr2 w in
  r.1 = (alone sc1 (turns true sched) pr1 w1, alone sc2 (turns false sched) pr2 w2)
  ∧ agree T1 (alone_world sc1 (turns true sched) pr1 w1) r.2
  ∧ agree T2 (alone_world sc2 (turns false sched) pr2 w2) r.2.
Proof.
  revert pr1 pr2 w w1 w2.
  induction sched as [|[] sched IH]; intros pr1 pr2 w w1 w2 H1 H2 Hw1 Hw2.
  - destruct pr1, pr2. unfold alone, alone_world. simpl. by rewrite !app_nil_r.
  - rewrite !turns_cons. simpl.
    destruct (proc_step_polite sc1 T1 T2 pr1 w w1 w2 (turns true sched) H1 Hw1 Hw2)
      as (w1' & -> & -> & H1' & Hw1' & Hw2').
    destruct (proc_step sc1 pr1 w) as [pr1' w']. by apply IH.
  - rewrite !turns_cons. simpl.
    destruct (proc_step_polite sc2 T2 T1 pr2 w w2 w1 (turns false sched) H2 Hw2 Hw1)
      as (w2' & -> & -> & H2' & Hw2' & Hw1').
    destruct (proc_step sc2 pr2 w) as [pr2' w']. by apply IH.
Qed.

End pair.

(** ** The names of two builds *)

(** Two children of one directory with different names: neither is the
    other or below it. *)
Lemma join_not_under base1 base2 n1 n2 :
  normalize base1 = normalize base2 → plain_name n1 → plain_name n2 → n1 ≠ n2 →
  ¬ under (join base1 n1) (join base2 n2).
Proof.
  intros Hb H1 H2 Hne [E|Hpre].
  - apply Hne. apply (f_equal file_name) in E. rewrite !file_name_join in E by done. congruence.
  - destruct (join_plain base1 n1 H1) as (b1 & E1 & _ & Hb1).
    destruct (join_plain base2 n2 H2) as (b2 & E2 & _ & Hb2).
    rewrite E1, E2 in Hpre.
    apply prefix_slash_base in Hpre as [t Ht]; [|by destruct H2 as (_ & ? & _)].
    pose proof (normalize_keeps_plain b1 n1 ([slash] ++ t) H1) as Hk.
    rewrite !app_assoc, <- Ht, Hb2, <- Hb, <- Hb1 in Hk.
    apply prefix_length in Hk. pose proof (prefix_length _ _ (normalize_prefix b1)) as Hn.
    rewrite length_app in Hk. destruct H1 as [? _]. destruct n1; simpl in *; [done|lia].
Qed.

Section names.
Context (env env' : Env)
        (Hdir : env_temp_dir env = env_temp_dir env')
        (Hpid : env_pid env ≠ env_pid env').

Lemma fmt_pid_ne : fmt_u32 (env_pid env) ≠ fmt_u32 (env_pid env').
Proof. by intros ?%fmt_u32_inj. Qed.

(** The staging directory and the writable image of a build are not in
    the staging directory of a build in another process, and the writable
    images of the two are different files. *)
Lemma temp_dir_apart : ¬ under (temp_dir env') (temp_dir env).
Proof.
  unfold temp_dir. rewrite Hdir.
  apply join_not_under; [done|apply temp_dir_name_plain..|]. intros ?%(inj _). by apply fmt_pid_ne.
Qed.

Lemma temp_dmg_apart : ¬ under (temp_dir env') (temp_dmg_path env).
Proof.
  unfold temp_dir, temp_dmg_path, temp_dmg_in. rewrite Hdir.
  apply join_not_under;
    [by rewrite normalize_idemp|apply temp_dir_name_plain|apply temp_dmg_name_plain|].
  by intros ?%(f_equal head).
Qed.

Lemma temp_dmg_distinct : temp_dmg_path env ≠ temp_dmg_path env'.
Proof.
  intros E. apply Hpid. apply (temp_names_injective env env'); [done|by right].
Qed.

Lemma temp_dir_not_dmg : temp_dir env ≠ temp_dmg_path env'.
Proof.
  intros E. apply (f_equal file_name) in E.
  rewrite temp_dmg_file_name, temp_dir_file_name in E. by simplify_eq.
Qed.

End names.

(** ** Two builds *)

(** What is asked of a build beside another: its temporaries are not at
    a volume and not the output of the other build; its background, its
    icon and its output are outside the region of the other build. *)
Definition apart (env : Env) (config : DmgConfig) (out : path) (env' : Env) (out' : path)
  : Prop :=
  ¬ volume (temp_dir env) ∧ ¬ volume (temp_dmg_path env)
  ∧ out' ≠ temp_dir env ∧ out' ≠ temp_dmg_path env
  ∧ Forall (clear_of env' out') [background config; icon config; out].

#[export] Instance apart_dec env config out env' out' : Decision (apart env config out env' out').
Proof. unfold apart, volume. apply _. Defined.

Section builds.
Context {api : EntryApi}.

(** A build tests its five paths and leaves alone what is outside its
    region. *)
Lemma build_polite env config out (T' : path → Prop) :
  from_file config → (∀ p, T' p → clear_of env out p) →
  wp (build env config out) (always (Forall (polite (.∈ build_reads env config out) T'))).
Proof.
  intros Hfile HT. eapply wp_mono; [|apply (build_typed env config out)].
  unfold always, typed. intros tr _ Htr. eapply Forall_impl; [exact Htr|].
  intros o Ho. split; [by apply (step_ok_reads _ _ _ (mounts tr))|].
  intros p Hp%HT.
  destruct (step_ok_outside env config out (mounts tr) o p); auto using mounts_volume.
Qed.

(** The paths a build tests are outside the region of a build in another
    process. *)
Lemma reads_clear env config out env' out' p :
  env_temp_dir env = env_temp_dir env' → env_pid env ≠ env_pid env' →
  apart env config out env' out' → p ∈ build_reads env config out → clear_of env' out' p.
Proof.
  intros Hdir Hpid (Hv1 & Hv2 & Ho1 & Ho2 & Hu). rewrite Forall_forall in Hu.
  unfold build_reads. rewrite !elem_of_cons.
  intros [->|[->|Hp]]; [| |apply Hu; set_solver]; split_and!; try done.
  - by apply temp_dir_apart.
  - by apply temp_dir_not_dmg.
  - by apply temp_dmg_apart.
  - by apply temp_dmg_distinct.
Qed.

(** C9. Builds in different processes do not disturb
    each other.  Two builds run on one file system with the same
    temporary directory of the system and different process ids, each
    for a declaration read from a file, the temporaries of each outside
    the volumes and the background, icon and output of each outside the
    staging directory, the writable image and the output of the other:
    whatever the order in which their calls are interleaved, each build
    makes the calls and gets the answers of the build that runs alone
    from the same file system, and has the same program left to run; and
    the paths a build tests exist in the shared file system exactly when
    they exist after the calls of that build alone. *)
Theorem builds_isolated env1 env2 config1 config2 out1 out2 sc1 sc2 sched w :
  env_temp_dir env1 = env_temp_dir env2 → env_pid env1 ≠ env_pid env2 →
  from_file config1 → from_file config2 →
  apart env1 config1 out1 env2 out2 → apart env2 config2 out2 env1 out1 →
  let build1 := build env1 config1 out1 in
  let build2 := build env2 config2 out2 in
  let r := interleave sc1 sc2 sched ([], build1) ([], build2) w in
  let alone1 := advance (system sc1) (turns true sched) build1 w in
  let alone2 := advance (system sc2) (turns false sched) build2 w in
  r.1 = (alone1, alone2)
  ∧ (∀ p, p ∈ build_reads env1 config1 out1 → p ∈ r.2 ↔ p ∈ after w alone1.1)
  ∧ (∀ p, p ∈ build_reads env2 config2 out2 → p ∈ r.2 ↔ p ∈ after w alone2.1).
Proof.
  intros Hdir Hpid Hf1 Hf2 H1 H2 build1 build2 r alone1 alone2.
  destruct (interleave_alone sc1 sc2 (.∈ build_reads env1 config1 out1)
              (.∈ build_reads env2 config2 out2) sched ([], build1) ([], build2) w w w)
    as (Hr & Hw1 & Hw2); [..|done|done|].
  - apply build_polite; [done|]. intros p Hp. by apply (reads_clear env2 config2 out2).
  - apply build_polite; [done|]. intros p Hp. by apply (reads_clear env1 config1 out1).
  - split_and!.
    + fold r in Hr. rewrite Hr. unfold alone, alone1, alone2. simpl.
      by do 2 destruct (advance _ _ _ _).
    + intros p Hp. symmetry. by apply Hw1.
    + intros p Hp. symmetry. by apply Hw2.
Qed.

End builds.

(** ** The theorem on concrete runs *)

(** The example in a second process, with an output of its own. *)
Definition other_env : Env := {| env_temp_dir := env_temp_dir example_env; env_pid := 4243 |}.
Definition other_out : path := Eval vm_compute in str "dist/Other.dmg"%string.

(** A schedule that lets the two builds take turns, the second twice as
    often as the first. *)
Definition example_schedule : list bool :=
  concat (replicate 30 [true; false; false]).

Lemma builds_isolated_witness :
  let build1 := example_build in
  let build2 := build (api := total_api) other_env example_config other_out in
  let r := interleave happy happy example_schedule ([], build1) ([], build2) leftovers in
  let alone1 := advance (system happy) (turns true example_schedule) build1 leftovers in
  let alone2 := advance (system happy) (turns false example_schedule) build2 leftovers in
  r.1 = (alone1, alone2)
  ∧ (∀ p, p ∈ build_reads example_env example_config example_out →
          p ∈ r.2 ↔ p ∈ after leftovers alone1.1)
  ∧ (∀ p, p ∈ build_reads other_env example_config other_out →
          p ∈ r.2 ↔ p ∈ after leftovers alone2.1).
Proof.
  apply (builds_isolated (api := total_api) example_env other_env example_config example_config
           example_out other_out happy happy example_schedule leftovers);
    try (apply (bool_decide_unpack _)); by vm_compute.
Defined.

(** Two builds with the same process id share their temporaries: the
    second finds the staging directory the first has just made, which it
    would not have found alone, and removes it. *)
Example builds_same_pid_collide :
  let sched := [true; true; false; false] in
  let r := interleave happy happy sched ([], example_build) ([], example_build) ∅ in
  head (omap obs_test r.1.2.1) = Some (temp_dir example_env, true)
  ∧ head (omap obs_test (advance (system happy) (turns false sched) example_build ∅).1)
    = Some (temp_dir example_env, false)
  ∧ temp_dir example_env ∉ r.2.
Proof. split_and!; try (apply (bool_decide_unpack _)); by vm_compute. Qed.
