(* ===== verification/Content.v ===== *)
(** * Content: the background and the icon in the image

    [Image] shows that the image a build delivers holds the declared
    items and the layout metadata.  The volume decorator adds two more
    files when their sources exist: the background picture, copied to
    [.background/background.png] (lib.rs lines 103-105), and the volume
    icon, copied to [.VolumeIcon.icns] (lines 128-130).  Whether a source
    exists is a test of the file system, so the theorem of this file is
    about the runs in which the tests are answered by the file system
    ([System.consistent]); and since a failed copy of the icon is
    tolerated by line 130, the icon is promised for the runs whose copies
    succeed.

    [fair] is the assumption on a run, [ctriple] the triple of [Image]
    under it.  A fact of [Image] holds under the assumption as well
    ([ctriple_weaken]); the facts on the two sources are added to the
    assertions of [Image] stage by stage ([ctriple_conj]). *)

From Stdlib Require Import String.
From stdpp Require Import gmap.
From S2P Require Import Prelude Text Utf8 Paths Config Layout Attach Effects Steps Build Oracle Staging.
From S2P Require Import Stages World Signature System Image Moments.

Local Open Scope N_scope.

Implicit Types (w : gset path) (tr : trace) (p m : path) (d : Disk) (o : Obs).

(** ** Fair runs *)

(** The step is no copy that failed. *)
Definition copy_ok o : Prop :=
  match o with
  | MkObs c x => match c in Cmd X return X → Prop with
                 | FsCopy _ _ => λ x, is_ok x = true
                 | _ => λ _, True
                 end x
  end.

#[export] Instance copy_ok_dec o : Decision (copy_ok o).
Proof. destruct o as [X c x]. destruct c; simpl; apply _. Defined.

Section fair.
Context (strict : Prop).

(** Every test of the run got the answer of the file system of its
    moment, and when the assumption is [strict], no copy of the run
    failed. *)
Fixpoint fair w tr : Prop :=
  match tr with
  | [] => True
  | o :: tr' => truthful w o ∧ (strict → copy_ok o) ∧ fair (effect w o) tr'
  end.

Lemma fair_app w tr1 tr2 : fair w (tr1 ++ tr2) ↔ fair w tr1 ∧ fair (after w tr1) tr2.
Proof. revert w. induction tr1 as [|o tr1 IH]; intros w; simpl; [|rewrite IH]; naive_solver. Qed.

Lemma fair_spec w tr : fair w tr ↔ consistent w tr ∧ (strict → Forall copy_ok tr).
Proof.
  revert w. induction tr as [|o tr IH]; intros w; simpl; [by intuition|].
  rewrite IH. setoid_rewrite Forall_cons. naive_solver.
Qed.

(** ** Triples on fair runs *)

(** From a disk of which [P] holds, a fair run of [m] that returns [a]
    ends in a disk of which [Q a] holds. *)
Definition ctriple {A} (P : Disk → Prop) (prog : Prog A) (Q : A → Disk → Prop) : Prop :=
  wp prog (λ tr r, ∀ a, r = Done a → ∀ d, P d → fair (world d) tr → Q a (disk_after d tr)).

Lemma ctriple_weaken {A} (P : Disk → Prop) (prog : Prog A) (Q : A → Disk → Prop) :
  triple P prog Q → ctriple P prog Q.
Proof. apply wp_mono. intros tr r H a Hr d Hd _. by apply (H a). Qed.

Lemma ctriple_bind {A B} (P : Disk → Prop) (Q : A → Disk → Prop) (R : B → Disk → Prop)
    (prog : Prog A) (k : A → Prog B) :
  ctriple P prog Q → (∀ a, ctriple (Q a) (k a) R) → ctriple P (prog ≫= k) R.
Proof.
  intros Hm Hk. eapply wp_bind_with; [exact Hm| |by intros tr _ b [=]].
  intros tr a Ha. eapply wp_mono; [|apply Hk]. simpl.
  intros tr' r Hr b -> d Hd [H1 H2]%fair_app.
  rewrite disk_after_app. eapply Hr; eauto. by rewrite world_disk_after.
Qed.

Lemma ctriple_try {A B} (P : Disk → Prop) (Q : A → Disk → Prop) (R : B → Disk → Prop)
    (prog : Prog (Result A Error)) (k : A → Prog (Result B Error)) :
  ctriple P prog (on_ok Q) → (∀ a, ctriple (Q a) (k a) (on_ok R)) →
  ctriple P (try prog k) (on_ok R).
Proof.
  intros Hm Hk. eapply wp_try_with; [exact Hm| |by intros tr e _ b [= <-]|by intros tr _ b [=]].
  intros tr a Ha. eapply wp_mono; [|apply Hk]. simpl.
  intros tr' r Hr b -> d Hd [H1 H2]%fair_app.
  rewrite disk_after_app. eapply Hr; [done| |by rewrite world_disk_after]. by apply (Ha (Ok a)).
Qed.

Lemma ctriple_mono {A} (P P' : Disk → Prop) (Q Q' : A → Disk → Prop) (prog : Prog A) :
  (∀ d, P' d → P d) → (∀ a d, Q a d → Q' a d) → ctriple P prog Q → ctriple P' prog Q'.
Proof.
  intros HP HQ. apply wp_mono. intros tr r H a Hr d Hd Hf. apply HQ, (H a Hr); auto.
Qed.

Lemma ctriple_pure {A} (φ : Prop) (P : Disk → Prop) (prog : Prog A) (Q : A → Disk → Prop) :
  (φ → ctriple P prog Q) → ctriple (λ d, φ ∧ P d) prog Q.
Proof.
  intros Hm. apply wp_Run. intros tr r Hrun a -> d [Hφ Hd].
  by apply (Run_wp _ _ _ Hrun _ (Hm Hφ) a).
Qed.

Lemma ctriple_pure_l {A} (φ : Prop) (P S : Disk → Prop) (prog : Prog A)
    (Q : A → Disk → Prop) :
  (φ → ctriple (λ d, P d ∧ S d) prog Q) → ctriple (λ d, (φ ∧ P d) ∧ S d) prog Q.
Proof.
  intros Hm. eapply ctriple_mono; [| |apply (ctriple_pure φ), Hm]; [|done].
  intros d [[? ?] ?]. auto.
Qed.

(** Two facts on a stage hold together. *)
Lemma ctriple_conj {A} (P P' : Disk → Prop) (Q Q' : A → Disk → Prop) (prog : Prog A) :
  ctriple P prog Q → ctriple P' prog Q' →
  ctriple (λ d, P d ∧ P' d) prog (λ a d, Q a d ∧ Q' a d).
Proof.
  intros H H'. eapply wp_mono; [|exact (wp_conj _ _ _ H H')].
  intros tr r [Hq Hq'] a Hr d [Hd Hd'] Hf. split; eauto.
Qed.

Lemma ctriple_conj_ok {A} (P P' : Disk → Prop) (Q Q' : A → Disk → Prop)
    (prog : Prog (Result A Error)) :
  ctriple P prog (on_ok Q) → ctriple P' prog (on_ok Q') →
  ctriple (λ d, P d ∧ P' d) prog (on_ok (λ a d, Q a d ∧ Q' a d)).
Proof.
  intros H H'. eapply ctriple_mono; [|..|exact (ctriple_conj _ _ _ _ _ H H')]; [by intros d ?|].
  by intros [a|e] d [??].
Qed.

(** A fact of [Image] beside a fact on the file system. *)
Lemma ctriple_both {A : Type} (P : Disk → Prop) (Q : A → Disk → Prop)
    (S : gset path → Prop) (S' : A → gset path → Prop) (prog : Prog (Result A Error)) :
  triple P prog (on_ok Q) →
  wp prog (λ tr r, ∀ a, r = Done (Ok a) → ∀ w, fair w tr → S w → S' a (after w tr)) →
  ctriple (λ d, P d ∧ S (world d)) prog (on_ok (λ a d, Q a d ∧ S' a (world d))).
Proof.
  intros H H'. apply ctriple_conj_ok; [by apply ctriple_weaken|].
  eapply wp_mono; [|exact H']. intros tr r Hr [a|e] -> d Hd Hf; [|done].
  simpl. rewrite world_disk_after. by apply Hr.
Qed.

(** The same for a stage that cannot fail. *)
Lemma ctriple_both_plain {A : Type} (P : Disk → Prop) (Q : A → Disk → Prop)
    (S : gset path → Prop) (S' : A → gset path → Prop) (prog : Prog A) :
  triple P prog Q →
  wp prog (λ tr r, ∀ a, r = Done a → ∀ w, fair w tr → S w → S' a (after w tr)) →
  ctriple (λ d, P d ∧ S (world d)) prog (λ a d, Q a d ∧ S' a (world d)).
Proof.
  intros H H'. apply ctriple_conj; [by apply ctriple_weaken|].
  eapply wp_mono; [|exact H']. intros tr r Hr a -> d Hd Hf.
  rewrite world_disk_after. by apply Hr.
Qed.

End fair.

(** ** Names on the volume *)

(** A name below a name: joining in one step or in two. *)
Lemma join_join b n1 n2 :
  plain_name n1 → plain_name n2 → join b (join n1 n2) = join (join b n1) n2.
Proof.
  intros H1 H2.
  assert (∃ c, last n1 = Some c ∧ c ≠ slash) as (c & Hl & Hc).
  { destruct H1 as (Hne & Hs & _). destruct n1 as [|c0 n1 _] using rev_ind; [done|].
    exists c0. rewrite last_snoc. split; [done|]. intros ->. set_solver. }
  assert (is_absolute (n1 ++ slash :: n2) = false) as Hrel.
  { pose proof (plain_name_relative n1 H1) as Hr. by destruct n1. }
  unfold join. rewrite !(plain_name_relative n2), (plain_name_relative n1), Hl by done.
  rewrite decide_False, Hrel by done.
  destruct (last b) as [c'|]; [case_decide|];
    rewrite ?last_app, ?last_cons, Hl, decide_False by done; by rewrite <- ?app_assoc.
Qed.

(** A relative name that exists on the volume is held by it. *)
Lemma holds_name m w r : is_absolute r = false → join m r ∈ w → holds m w r = true.
Proof. intros Hr Hw. unfold holds. by rewrite Hr, bool_decide_eq_true_2. Qed.

(** The name of the background picture on the volume. *)
Definition background_name : path := Eval vm_compute in join background_dir background_png.

Lemma vol_bg_path_name m : vol_bg_path m = join m background_name.
Proof.
  unfold vol_bg_path. rewrite <- join_join by (apply (bool_decide_unpack _); by vm_compute). done.
Qed.

(** ** The two sources through the stages *)

Section content.
Context {api : EntryApi} (env : Env) (config : DmgConfig) (final_dmg_path : path).
Context (bg_there ic_there : Prop).

(** The sources exist; the background is on the volume; the icon is on
    the volume as well. *)
Definition sources w : Prop :=
  (bg_there → background config ∈ w) ∧ (ic_there → icon config ∈ w).

Definition with_background m w : Prop :=
  (bg_there → join m background_name ∈ w) ∧ (ic_there → icon config ∈ w).

Definition with_icon m w : Prop :=
  (bg_there → join m background_name ∈ w) ∧ (ic_there → join m volume_icon_name ∈ w).

(** The image at the output path holds the two, unless a volume is still
    mounted. *)
Definition decorations d : Prop :=
  ∃ c, images d !! final_dmg_path = Some c
       ∧ (mounted d = ∅ →
          (bg_there → c background_name = true) ∧ (ic_there → c volume_icon_name = true)).

Section valid.
Context (orig : option content)
        (Hfile : from_file config)
        (Hdir : ¬ under (temp_dir env) final_dmg_path)
        (Hdmg : final_dmg_path ≠ temp_dmg_path env)
        (Hbg : bg_there → clear_of env final_dmg_path (background config))
        (Hic : ic_there → clear_of env final_dmg_path (icon config)).

(** A stage that takes no path outside the region of the build leaves
    the sources alone. *)
Lemma sources_kept {A : Type} (P : Disk → Prop) (Q : A → Disk → Prop)
    (prog : Prog (Result A Error)) :
  triple P prog (on_ok Q) →
  (∀ p, clear_of env final_dmg_path p → wp prog (always (keeps p))) →
  ctriple ic_there (λ d, P d ∧ sources (world d)) prog
          (on_ok (λ a d, Q a d ∧ sources (world d))).
Proof.
  intros Ht Hk. apply ctriple_both; [done|]. apply wp_Run. intros tr r Hrun a _ w _ [Hb Hi].
  split; intros H; [apply Hbg in H as Hp|apply Hic in H as Hp];
    apply (Run_wp _ _ _ Hrun _ (Hk _ Hp)); auto.
Qed.

Lemma typed_sources_kept {A : Type} (P : Disk → Prop) (Q : A → Disk → Prop)
    (prog : Prog (Result A Error)) :
  triple P prog (on_ok Q) →
  wp prog (always (Forall (step_ok env config final_dmg_path []))) →
  ctriple ic_there (λ d, P d ∧ sources (world d)) prog
          (on_ok (λ a d, Q a d ∧ sources (world d))).
Proof. intros Ht Hs. apply sources_kept; [done|]. intros p Hp. by apply (typed_keeps env config final_dmg_path []). Qed.

(** Close a leaf of a symbolic execution of a decoration stage: the tests
    of the run are decided by the file system, the copies have
    succeeded. *)
Ltac fair_leaf :=
  intros; unfold sources, with_background, with_icon in *;
  rewrite <- ?vol_bg_path_name in *; unfold vol_bg_path in *;
  simpl in *; unfold truthful, copy_ok in *; simpl in *; destruct_and?;
  repeat match goal with
  | H : true = bool_decide _ |- _ => symmetry in H; apply bool_decide_eq_true in H
  | H : false = bool_decide _ |- _ => symmetry in H; apply bool_decide_eq_false in H
  end;
  world_leaf.

(** Lines 103-105: a background that exists is copied to the volume. *)
Lemma setup_background_copied m :
  wp (setup_background config m)
     (λ tr r, ∀ a, r = Done (Ok a) → ∀ w, fair ic_there w tr → sources w →
                   with_background m (after w tr)).
Proof. unfold setup_background. wp_run; try done; fair_leaf. Qed.

Lemma resolve_alias_keeps m p :
  wp (resolve_alias p)
     (λ tr r, ∀ a, r = Done a → ∀ w, fair ic_there w tr → with_background m w →
                   with_background m (after w tr)).
Proof. unfold resolve_alias. wp_run; fair_leaf. Qed.

Lemma write_layout_keeps m bg :
  wp (write_layout config m bg)
     (λ tr r, ∀ a, r = Done (Ok a) → ∀ w, fair ic_there w tr → with_background m w →
                   with_background m (after w tr)).
Proof. unfold write_layout. wp_run; try done; fair_leaf. Qed.

(** Lines 128-130: an icon that exists is copied to the volume, when the
    copy succeeds. *)
Lemma volume_icon_copied m :
  wp (volume_icon config m)
     (λ tr r, ∀ a, r = Done a → ∀ w, fair ic_there w tr → with_background m w →
                   with_icon m (after w tr)).
Proof. unfold volume_icon. wp_run; fair_leaf. Qed.

Lemma sync_keeps m :
  wp (call (Status sync_command))
     (λ tr r, ∀ a, r = Done a → ∀ w, fair ic_there w tr → with_icon m w →
                   with_icon m (after w tr)).
Proof. wp_run; fair_leaf. Qed.

(** Stage 6: what is on the volume when it is detached is in the image
    that is converted. *)
Lemma detach_and_convert_decorations m :
  triple (λ d, attached env config final_dmg_path orig m d ∧ with_icon m (world d))
         (detach_and_convert env final_dmg_path m (temp_dmg_path env))
         (on_ok (λ _, decorations)).
Proof.
  unfold triple, detach_and_convert.
  wp_run; unfold decorations, with_icon in *; disk_leaf; output_image;
    first [by intros ?%map_non_empty_singleton
          |intros _; unfold either; split; intros ?; rewrite holds_name; auto].
Qed.

(** The pipeline, from a disk without mounted volume on which the
    sources exist to the image at the output path. *)
Lemma build_decorated :
  ctriple ic_there (λ d, clean final_dmg_path orig d ∧ sources (world d))
          (build env config final_dmg_path)
          (on_ok (λ _ d, delivered config final_dmg_path d ∧ decorations d)).
Proof.
  unfold build.
  eapply ctriple_try; [apply typed_sources_kept; [by apply prepare_clean|apply prepare_typed]|].
  intros ?.
  eapply ctriple_try;
    [apply sources_kept; [by apply stage_contents_staged|intros; apply stage_contents_keeps]|].
  intros ?.
  eapply ctriple_try;
    [apply typed_sources_kept; [by apply create_image_imaged|apply create_image_typed]|].
  intros dmg. apply ctriple_pure_l. intros ->.
  eapply ctriple_try;
    [apply typed_sources_kept; [by apply attach_image_attached|apply attach_image_typed]|].
  intros m.
  eapply ctriple_try;
    [eapply (ctriple_both _ _ _ sources (λ _, with_background m));
       [by apply setup_background_attached|apply setup_background_copied]|].
  intros bg_path.
  eapply ctriple_bind;
    [eapply (ctriple_both_plain _ _ _ (with_background m) (λ _, with_background m));
       [by apply resolve_alias_attached|apply resolve_alias_keeps]|].
  intros bg.
  eapply ctriple_try;
    [eapply (ctriple_both _ _ _ (with_background m) (λ _, with_background m));
       [by apply write_layout_decorated|apply write_layout_keeps]|].
  intros ?.
  eapply ctriple_bind;
    [eapply (ctriple_both_plain _ _ _ (with_background m) (λ _, with_icon m));
       [by apply volume_icon_decorated|apply volume_icon_copied]|].
  intros ?.
  eapply ctriple_bind;
    [eapply (ctriple_both_plain _ _ _ (with_icon m) (λ _, with_icon m));
       [by apply sync_decorated|apply sync_keeps]|].
  intros ?.
  eapply ctriple_mono;
    [| |apply ctriple_conj_ok; apply ctriple_weaken;
        [by apply (detach_and_convert_delivered env config final_dmg_path orig)
        |apply (detach_and_convert_decorations m)]];
    [|by intros [] ?].
  intros d [Hd Hw]. split; [done|]. split; [apply Hd|done].
Qed.

End valid.
End content.

(** C5. The image holds the decorations.  For a
    declaration read from a file and an output path that is neither in
    the staging directory nor the writable image, from a disk on which no
    volume is mounted, when the existence tests of the run are answered
    by the file system, a build that returns [Ok] and has detached its
    volume leaves at the output path an image that holds the background
    picture under [.background/background.png] if the background of the
    declaration existed before the build, and the volume icon under
    [.VolumeIcon.icns] if the icon of the declaration existed before the
    build and no copy of the run failed; the background and the icon
    being outside the staging directory, the writable image, the output
    path and the volumes. *)
Theorem build_image_decorated {api : EntryApi} env config final_dmg_path d tr :
  Run (build env config final_dmg_path) tr (Done (Ok ())) →
  from_file config →
  ¬ under (temp_dir env) final_dmg_path →
  final_dmg_path ≠ temp_dmg_path env →
  mounted d = ∅ →
  consistent (world d) tr →
  mounted (disk_after d tr) = ∅ →
  ∃ c, images (disk_after d tr) !! final_dmg_path = Some c
       ∧ (background config ∈ world d → clear_of env final_dmg_path (background config) →
          c background_name = true)
       ∧ (icon config ∈ world d → clear_of env final_dmg_path (icon config) →
          Forall copy_ok tr → c volume_icon_name = true).
Proof.
  intros Hrun Hfile Hdir Hdmg Hd Hc Hm.
  set (bg_there := background config ∈ world d ∧ clear_of env final_dmg_path (background config)).
  set (ic_there := icon config ∈ world d ∧ clear_of env final_dmg_path (icon config)
                   ∧ Forall copy_ok tr).
  destruct (Run_wp _ _ _ Hrun _
              (build_decorated env config final_dmg_path bg_there ic_there
                 (images d !! final_dmg_path) Hfile Hdir Hdmg (λ H, proj2 H)
                 (λ H, proj1 (proj2 H)))
              (Ok ()) eq_refl d) as [_ (c & Hout & Hdec)].
  - split; [by split|]. split; [by intros [? _]|by intros [? _]].
  - apply fair_spec. split; [done|]. by intros (_ & _ & ?).
  - exists c. destruct (Hdec Hm) as [Hb Hi]. split_and!; [done|..]; intros; [apply Hb|apply Hi]; done.
Qed.

(** ** The theorem on concrete runs *)

(** A disk on which the background and the icon of the example exist. *)
Definition sourced_disk : Disk :=
  {| world := {[background example_config; icon example_config]}; images := ∅; mounted := ∅ |}.

Lemma build_image_decorated_witness :
  let d := sourced_disk in
  let tr := exec_trace (system happy) example_build (world d) in
  ∃ c, images (disk_after d tr) !! example_out = Some c
       ∧ (background example_config ∈ world d →
          clear_of example_env example_out (background example_config) →
          c background_name = true)
       ∧ (icon example_config ∈ world d →
          clear_of example_env example_out (icon example_config) →
          Forall copy_ok tr → c volume_icon_name = true).
Proof.
  intros d tr.
  apply (build_image_decorated (api := total_api) example_env example_config example_out d tr);
    [|try (apply (bool_decide_unpack _)); by vm_compute..|apply system_consistent
     |apply (bool_decide_unpack _); by vm_compute].
  assert (exec_outcome (system happy) example_build (world d) = Done (Ok ())) as <-
    by (by vm_compute).
  apply exec_Run.
Defined.

(** The image of the example holds the two. *)
Example build_image_decorated_example :
  let d := sourced_disk in
  let tr := exec_trace (system happy) example_build (world d) in
  (λ c : content, (c background_name, c volume_icon_name))
    <$> images (disk_after d tr) !! example_out = Some (true, true).
Proof. by vm_compute. Qed.

(** A system on which the copy of the icon fails. *)
Definition icon_copy_fails : Script := {|
  sc_exists := sc_exists happy;
  sc_status := sc_status happy;
  sc_output := sc_output happy;
  sc_fs p := if decide (p = join example_mount volume_icon_name) then Err (OsError 1) else Ok ();
  sc_alias := sc_alias happy;
  sc_write := sc_write happy;
|}.

(** Line 130 tolerates the failure: the build returns [Ok] and delivers
    an image without the icon. *)
Example build_icon_copy_tolerated :
  let d := sourced_disk in
  let run := exec (system icon_copy_fails) example_build (world d) in
  run.1.2 = Done (Ok ())
  ∧ (λ c : content, (c background_name, c volume_icon_name))
      <$> images (disk_after d run.1.1) !! example_out = Some (true, false).
Proof. by vm_compute. Qed.
